(** * makegrind: the dependency-graph engine, embedded and verified

    A shallow embedding of [src/makegrind/node.py], [graphs.py], [util.py]
    and [reports.py].  Python objects become records, mutation becomes
    explicit state passing, and raising becomes the [Raise] outcome of
    [result].  The functions of networkx and of the Python standard
    library that the program calls are modelled next to their callers. *)

From Stdlib Require Import List String Ascii ZArith Bool Lia Permutation Sorted.
From Stdlib Require Import DecimalString.
From Stdlib Require Import Relations.Relation_Operators.
From Stdlib Require Import Relations.Operators_Properties.
Import ListNotations.
Local Open Scope string_scope.
Local Open Scope list_scope.

Set Implicit Arguments.
Set Warnings "-register-all".

(** ** Outcomes of a call *)

(** The exceptions the modelled code can raise.  [TargetNotFoundError] and
    [DepChainNotFoundError] are the classes of [makegrind.exceptions]; the
    others are Python's and networkx's.  Each carries its message where the
    program gives one. *)
Inductive exn : Type :=
| AttributeError
| KeyError (key : string)
| TypeError
| IndexError
| ValueError
| NameError (name : string)
| RuntimeError
| ZeroDivisionError
| OSError
| NetworkXError (msg : string)
| NetworkXUnfeasible
| NodeNotFound (msg : string)
| TargetNotFoundError (msg : string)
| DepChainNotFoundError (args : list string).

(** [OutOfFuel] is not a Python outcome: it marks a loop of the model that
    was cut off by its step bound. *)
Inductive result (A : Type) : Type :=
| Ok (a : A)
| Raise (e : exn)
| OutOfFuel.

Arguments Ok {A} a.
Arguments Raise {A} e.
Arguments OutOfFuel {A}.

Definition bind {A B} (r : result A) (k : A -> result B) : result B :=
  match r with
  | Ok a => k a
  | Raise e => Raise e
  | OutOfFuel => OutOfFuel
  end.

Notation "x <- c1 ;; c2" := (bind c1 (fun x => c2))
  (at level 61, c1 at next level, right associativity).
Notation "' pat <- c1 ;; c2" := (bind c1 (fun x => match x with pat => c2 end))
  (at level 61, pat pattern, c1 at next level, right associativity).

(** [for x in xs: acc = body(acc, x)], stopping at the first exception. *)
Fixpoint foldM {A S} (body : S -> A -> result S) (xs : list A) (s : S)
  : result S :=
  match xs with
  | [] => Ok s
  | x :: xs' => s' <- body s x ;; foldM body xs' s'
  end.

(** A list comprehension whose element expression can raise. *)
Fixpoint mapM {A B} (f : A -> result B) (xs : list A) : result (list B) :=
  match xs with
  | [] => Ok []
  | x :: xs' => y <- f x ;; ys <- mapM f xs' ;; Ok (y :: ys)
  end.

(** ** Python values *)

(** The values a decoded JSON trace holds.  [VInt] stands for a Python
    number; a timestamp is kept as a whole number. *)
Inductive value : Type :=
| VNone
| VBool (b : bool)
| VInt (z : Z)
| VStr (s : string)
| VList (l : list value)
| VDict (d : list (string * value)).

(** A [dict] with string keys: an association list in insertion order, each
    key at most once. *)
Definition dict := list (string * value).

Fixpoint dict_get (k : string) (d : dict) : option value :=
  match d with
  | [] => None
  | (k', v) :: d' => if String.eqb k k' then Some v else dict_get k d'
  end.

Definition dict_contains (k : string) (d : dict) : bool :=
  match dict_get k d with Some _ => true | None => false end.

(** [d[k] = v]: an existing key keeps its place, a new one goes last. *)
Fixpoint dict_set (k : string) (v : value) (d : dict) : dict :=
  match d with
  | [] => [(k, v)]
  | (k', v') :: d' =>
      if String.eqb k k' then (k, v) :: d' else (k', v') :: dict_set k v d'
  end.

Fixpoint dict_del (k : string) (d : dict) : dict :=
  match d with
  | [] => []
  | (k', v') :: d' =>
      if String.eqb k k' then d' else (k', v') :: dict_del k d'
  end.

(** [d.get(k, default)] *)
Definition dict_get_or (k : string) (default : value) (d : dict) : value :=
  match dict_get k d with
  | Some v => v
  | None => default
  end.

(** [d.pop(k, default)] gives the value and the dict without the key. *)
Definition dict_pop (k : string) (default : value) (d : dict) : value * dict :=
  match dict_get k d with
  | Some v => (v, dict_del k d)
  | None => (default, d)
  end.

(** [d[k]] *)
Definition dict_getitem (k : string) (d : dict) : result value :=
  match dict_get k d with
  | Some v => Ok v
  | None => Raise (KeyError k)
  end.

(** [x is not None] *)
Definition is_not_None (v : value) : bool :=
  match v with VNone => false | _ => true end.

(** [x is True] *)
Definition is_True (v : value) : bool :=
  match v with VBool true => true | _ => false end.

(** Truth value of an object in a condition. *)
Definition truthy (v : value) : bool :=
  match v with
  | VNone => false
  | VBool b => b
  | VInt z => negb (Z.eqb z 0)
  | VStr s => negb (String.eqb s "")
  | VList l => match l with [] => false | _ => true end
  | VDict d => match d with [] => false | _ => true end
  end.

(** [a == b].  A [bool] is an [int]; dicts compare without regard to order. *)
Fixpoint py_eq (a b : value) {struct a} : bool :=
  match a, b with
  | VNone, VNone => true
  | VBool x, VBool y => Bool.eqb x y
  | VBool x, VInt y => Z.eqb (Z.b2z x) y
  | VInt x, VBool y => Z.eqb x (Z.b2z y)
  | VInt x, VInt y => Z.eqb x y
  | VStr x, VStr y => String.eqb x y
  | VList xs, VList ys =>
      (fix go (xs ys : list value) {struct xs} : bool :=
         match xs, ys with
         | [], [] => true
         | x :: xs', y :: ys' => py_eq x y && go xs' ys'
         | _, _ => false
         end) xs ys
  | VDict d1, VDict d2 =>
      Nat.eqb (List.length d1) (List.length d2) &&
      (fix all (d : list (string * value)) {struct d} : bool :=
         match d with
         | [] => true
         | (k, v) :: d' =>
             (fix find (e : list (string * value)) : bool :=
                match e with
                | [] => false
                | (k', v') :: e' =>
                    if String.eqb k k' then py_eq v v' else find e'
                end) d2 && all d'
         end) d1
  | _, _ => false
  end.

(** [x[k]] for a string [k]: only a dict can be subscripted by a string. *)
Definition py_getitem (x : value) (k : string) : result value :=
  match x with
  | VDict d => dict_getitem k d
  | _ => Raise TypeError
  end.

(** [iter(x)], fully consumed. *)
Definition py_iter (x : value) : result (list value) :=
  match x with
  | VList l => Ok l
  | VStr s => Ok (map (fun c => VStr (String c EmptyString)) (list_ascii_of_string s))
  | VDict d => Ok (map (fun kv => VStr (fst kv)) d)
  | _ => Raise TypeError
  end.

(** ** What the platform provides *)

(** The parts of Python and of the operating system whose result the
    program does not fix: the text [str.format] gives a value, the local
    wall-clock time of a timestamp, the order in which a [set] is iterated,
    and the functions of [os.path]. *)
Record Platform : Type := {
  (** ["{}".format(v)] *)
  format : value -> string;
  (** [datetime.datetime.fromtimestamp(t)] for a number [t], as
      microseconds of local wall-clock time; raises out of its range. *)
  fromtimestamp_num : Z -> result Z;
  (** the order in which [for v in s] visits a set holding the given keys *)
  set_order : list string -> list string;
  set_order_perm : forall l, Permutation (set_order l) l;
  (** [os.path.relpath(path, start)] *)
  os_path_relpath : string -> string -> string;
  (** [os.path.basename(path)] *)
  os_path_basename : string -> string;
  (** [os.path.abspath(path)] *)
  os_path_abspath : string -> string;
  (** [os.path.commonprefix([a, b])] *)
  os_path_commonprefix : string -> string -> string;
  (** [os.path.join(a, b)] *)
  os_path_join : string -> string -> string
}.

(** A datetime is a count of microseconds, a timedelta their difference. *)
Definition datetime := Z.
Definition timedelta := Z.

Inductive node_class : Type := TargetNodeC | BuildNodeC.

(** ** node.py: [Node], [TargetNode], [BuildNode] *)

(** A memoised time: [None] is Python's [None] (not computed yet),
    [Some None] is [False] (the attribute is missing), [Some (Some t)] a
    datetime. *)
Definition cached_time := option (option datetime).

Record Node : Type := {
  node_cls : node_class;
  attrib : dict;
  _elapsed : option timedelta;
  _start : cached_time;
  _end : cached_time;
  _recipe : cached_time;
  _elapsed_recipe : option timedelta
}.

Definition set_attrib (a : dict) (n : Node) : Node :=
  {| node_cls := node_cls n; attrib := a; _elapsed := _elapsed n;
     _start := _start n; _end := _end n; _recipe := _recipe n;
     _elapsed_recipe := _elapsed_recipe n |}.

Definition set__elapsed (v : option timedelta) (n : Node) : Node :=
  {| node_cls := node_cls n; attrib := attrib n; _elapsed := v;
     _start := _start n; _end := _end n; _recipe := _recipe n;
     _elapsed_recipe := _elapsed_recipe n |}.

Definition set__start (v : cached_time) (n : Node) : Node :=
  {| node_cls := node_cls n; attrib := attrib n; _elapsed := _elapsed n;
     _start := v; _end := _end n; _recipe := _recipe n;
     _elapsed_recipe := _elapsed_recipe n |}.

Definition set__end (v : cached_time) (n : Node) : Node :=
  {| node_cls := node_cls n; attrib := attrib n; _elapsed := _elapsed n;
     _start := _start n; _end := v; _recipe := _recipe n;
     _elapsed_recipe := _elapsed_recipe n |}.

Definition set__recipe (v : cached_time) (n : Node) : Node :=
  {| node_cls := node_cls n; attrib := attrib n; _elapsed := _elapsed n;
     _start := _start n; _end := _end n; _recipe := v;
     _elapsed_recipe := _elapsed_recipe n |}.

Definition set__elapsed_recipe (v : option timedelta) (n : Node) : Node :=
  {| node_cls := node_cls n; attrib := attrib n; _elapsed := _elapsed n;
     _start := _start n; _end := _end n; _recipe := _recipe n;
     _elapsed_recipe := v |}.

(** [__required__] of the two classes. *)
Definition required (c : node_class) : list string :=
  match c with
  | TargetNodeC => ["name"; "pid"]
  | BuildNodeC => ["pid"; "directory"]
  end.

(** [Node.clear]: resets every name of [__cached__]; a [BuildNode] has the
    three of [Node], a [TargetNode] two more. *)
Definition Node_clear (n : Node) : Node :=
  match node_cls n with
  | TargetNodeC =>
      {| node_cls := node_cls n; attrib := attrib n; _elapsed := None;
         _start := None; _end := None; _recipe := None;
         _elapsed_recipe := None |}
  | BuildNodeC =>
      {| node_cls := node_cls n; attrib := attrib n; _elapsed := None;
         _start := None; _end := None; _recipe := _recipe n;
         _elapsed_recipe := _elapsed_recipe n |}
  end.

(** [Node.__init__], through the class given as [node_attr_dict_factory]. *)
Definition Node_init (c : node_class) : Node :=
  Node_clear {| node_cls := c; attrib := []; _elapsed := None; _start := None;
                _end := None; _recipe := None; _elapsed_recipe := None |}.

(** [Node.__getattr__]: reached for a name that is no property or method. *)
Definition Node_getattr (n : Node) (name : string) : result value :=
  if String.eqb name "__getstate__" || String.eqb name "__setstate__"
  then Raise AttributeError
  else match dict_get name (attrib n) with
       | Some v => Ok v
       | None => Raise AttributeError
       end.

(** [Node.__getitem__] *)
Definition Node_getitem (n : Node) (key : string) : result value :=
  dict_getitem key (attrib n).

(** [Node.__setitem__] *)
Definition Node_setitem (n : Node) (key : string) (v : value) : Node :=
  let n := Node_clear n in
  set_attrib (dict_set key v (attrib n)) n.

(** [Node.__delitem__]: after clearing, [self.__attrib] is the mangled name
    [_Node__attrib], which is no attribute of the object, so
    [__getattr__] looks it up among the node's own attributes: an
    [AttributeError] unless the trace gave the node a key of that very
    name, whose value then receives the [__delitem__]. *)
Definition Node_delitem (n : Node) (key : string) : result Node :=
  let n := Node_clear n in
  held <- Node_getattr n "_Node__attrib" ;;
  match held with
  | VDict d =>
      if dict_contains key d
      then Ok (set_attrib
                 (dict_set "_Node__attrib" (VDict (dict_del key d)) (attrib n))
                 n)
      else Raise (KeyError key)
  | VList _ => Raise TypeError
  | _ => Raise AttributeError
  end.

(** [Mapping.get(key, default)] on a node: [__getitem__], with [KeyError]
    turned into the default. *)
Definition Node_get (n : Node) (key : string) (default : value) : value :=
  match dict_get key (attrib n) with
  | Some v => v
  | None => default
  end.

(** [MutableMapping.update(other)] for a dict: one [__setitem__] per key. *)
Definition Node_update (n : Node) (other : dict) : Node :=
  fold_left (fun n kv => Node_setitem n (fst kv) (snd kv)) other n.

(** [hasattr(self, prop)] for the names of [__required__], none of which is
    a property: [__getattr__] decides. *)
Definition Node_hasattr (n : Node) (name : string) : bool :=
  match Node_getattr n name with Ok _ => true | _ => false end.

(** [Node.valid] *)
Definition Node_valid (n : Node) : bool :=
  forallb (Node_hasattr n) (required (node_cls n)).

Section Makegrind.

Variable P : Platform.

(** [datetime.datetime.fromtimestamp(x)]: a number (a [bool] is one) is
    converted, anything else is a [TypeError]. *)
Definition fromtimestamp (x : value) : result datetime :=
  match x with
  | VInt z => fromtimestamp_num P z
  | VBool b => fromtimestamp_num P (Z.b2z b)
  | _ => Raise TypeError
  end.

(** The body shared by the properties [start], [end] and [recipe]: read
    the attribute, convert it if it is not [None], else give [False]. *)
Definition read_time (name : string) (attrib : dict)
  : result (option datetime) :=
  if is_not_None (dict_get_or name VNone attrib)
  then v <- dict_getitem name attrib ;;
       t <- fromtimestamp v ;; Ok (Some t)
  else Ok None.

(** [Node.start] *)
Definition Node_start (n : Node) : result (option datetime * Node) :=
  match _start n with
  | Some v => Ok (v, n)
  | None => v <- read_time "start" (attrib n) ;; Ok (v, set__start (Some v) n)
  end.

(** [Node.end] *)
Definition Node_end (n : Node) : result (option datetime * Node) :=
  match _end n with
  | Some v => Ok (v, n)
  | None => v <- read_time "end" (attrib n) ;; Ok (v, set__end (Some v) n)
  end.

(** [Node.elapsed].  A datetime is always true in a condition, so
    [not self.end] holds exactly for [False]; [self.start] is read only
    when [self.end] is a datetime.  The second reads of [self.end] and
    [self.start] in the subtraction find the values just memoised. *)
Definition Node_elapsed (n : Node) : result (timedelta * Node) :=
  match _elapsed n with
  | Some d => Ok (d, n)
  | None =>
      '(e, n) <- Node_end n ;;
      match e with
      | None => Ok (0%Z, set__elapsed (Some 0%Z) n)
      | Some te =>
          '(s, n) <- Node_start n ;;
          match s with
          | None => Ok (0%Z, set__elapsed (Some 0%Z) n)
          | Some ts => Ok ((te - ts)%Z, set__elapsed (Some (te - ts)%Z) n)
          end
      end
  end.

(** [TargetNode.recipe] *)
Definition TargetNode_recipe (n : Node) : result (option datetime * Node) :=
  match _recipe n with
  | Some v => Ok (v, n)
  | None => v <- read_time "recipe" (attrib n) ;; Ok (v, set__recipe (Some v) n)
  end.

(** [TargetNode.elapsed_recipe] *)
Definition TargetNode_elapsed_recipe (n : Node) : result (timedelta * Node) :=
  match _elapsed_recipe n with
  | Some d => Ok (d, n)
  | None =>
      '(e, n) <- Node_end n ;;
      match e with
      | None => Ok (0%Z, set__elapsed_recipe (Some 0%Z) n)
      | Some te =>
          '(r, n) <- TargetNode_recipe n ;;
          match r with
          | None => Ok (0%Z, set__elapsed_recipe (Some 0%Z) n)
          | Some tr =>
              Ok ((te - tr)%Z, set__elapsed_recipe (Some (te - tr)%Z) n)
          end
      end
  end.

(** *** The Info view: [NodeInfo] *)

(** What an attribute read through a view can give: a stored value or a
    computed duration. *)
Inductive pyattr : Type :=
| PVal (v : value)
| PDelta (d : timedelta).

(** [getattr(node, "elapsed_recipe")]: the property of a [TargetNode];
    a [BuildNode] has none, so [Node.__getattr__] answers. *)
Definition getattr_elapsed_recipe (n : Node) : result (pyattr * Node) :=
  match node_cls n with
  | TargetNodeC =>
      '(d, n') <- TargetNode_elapsed_recipe n ;; Ok (PDelta d, n')
  | BuildNodeC =>
      v <- Node_getattr n "elapsed_recipe" ;; Ok (PVal v, n)
  end.

(** [NodeInfo.elapsed_recipe].  The property reads [self._node.recursive]
    through [Node.__getattr__]; an [AttributeError] leaving a property
    makes Python call [NodeInfo.__getattr__] with the same name, which is
    [getattr(self._node, "elapsed_recipe")]. *)
Definition NodeInfo_elapsed_recipe (n : Node) : result (pyattr * Node) :=
  let property :=
    r <- Node_getattr n "recursive" ;;
    if is_True r then Ok (PDelta 0%Z, n) else getattr_elapsed_recipe n in
  match property with
  | Raise AttributeError => getattr_elapsed_recipe n
  | r => r
  end.

(** [NodeInfo.recursive] *)
Definition NodeInfo_recursive (n : Node) : value :=
  Node_get n "recursive" (VBool false).

(** ** networkx: [DiGraph] *)

(** A directed graph as networkx iterates it: the nodes with their
    attribute objects in insertion order, and the edges in insertion order,
    so that the successors of a node come out in the order their edges were
    added. *)
Record DiGraph (A : Type) : Type := {
  dg_nodes : list (string * A);
  dg_edges : list (string * string)
}.

Definition mem (x : string) (l : list string) : bool :=
  existsb (String.eqb x) l.

Definition edge_eqb (e f : string * string) : bool :=
  String.eqb (fst e) (fst f) && String.eqb (snd e) (snd f).

Section DiGraphOps.

Context {A : Type}.

Definition empty_graph : DiGraph A := {| dg_nodes := []; dg_edges := [] |}.

(** [list(G)] *)
Definition node_keys (G : DiGraph A) : list string := map fst (dg_nodes G).

(** [n in G] *)
Definition has_node (G : DiGraph A) (n : string) : bool := mem n (node_keys G).

Fixpoint assoc (n : string) (l : list (string * A)) : option A :=
  match l with
  | [] => None
  | (k, a) :: l' => if String.eqb n k then Some a else assoc n l'
  end.

(** [G.nodes[n]] *)
Definition get_node (G : DiGraph A) (n : string) : result A :=
  match assoc n (dg_nodes G) with
  | Some a => Ok a
  | None => Raise (KeyError n)
  end.

Fixpoint assoc_modify (n : string) (f : A -> A) (l : list (string * A))
  : list (string * A) :=
  match l with
  | [] => []
  | (k, a) :: l' =>
      if String.eqb n k then (k, f a) :: l' else (k, a) :: assoc_modify n f l'
  end.

(** A method call that mutates the attribute object of node [n]. *)
Definition modify_node (n : string) (f : A -> A) (G : DiGraph A) : DiGraph A :=
  {| dg_nodes := assoc_modify n f (dg_nodes G); dg_edges := dg_edges G |}.

(** The first half of [add_node] and of [add_edge]: a key not yet in the
    graph gets a fresh attribute object from the factory. *)
Definition ensure_node (fresh : A) (n : string) (G : DiGraph A) : DiGraph A :=
  if has_node G n then G
  else {| dg_nodes := dg_nodes G ++ [(n, fresh)]; dg_edges := dg_edges G |}.

(** [G.add_node(n, **attr)]: [update] is the effect of
    [attr_dict.update(attr)], applied to a new node and an old one alike. *)
Definition add_node (fresh : A) (update : A -> A) (n : string) (G : DiGraph A)
  : DiGraph A :=
  modify_node n update (ensure_node fresh n G).

Definition has_edge (G : DiGraph A) (u v : string) : bool :=
  existsb (edge_eqb (u, v)) (dg_edges G).

(** [G.add_edge(u, v)] *)
Definition add_edge (fresh : A) (u v : string) (G : DiGraph A) : DiGraph A :=
  let G := ensure_node fresh u G in
  let G := ensure_node fresh v G in
  if has_edge G u v then G
  else {| dg_nodes := dg_nodes G; dg_edges := dg_edges G ++ [(u, v)] |}.

(** [list(G[u])]: the successors of [u] in the order of insertion. *)
Definition succ_list (G : DiGraph A) (u : string) : list string :=
  map snd (filter (fun e => String.eqb (fst e) u) (dg_edges G)).

(** [G.successors(n)] *)
Definition successors (G : DiGraph A) (n : string) : result (list string) :=
  if has_node G n then Ok (succ_list G n)
  else Raise (NetworkXError ("The node " ++ n ++ " is not in the digraph.")).

(** [G.in_degree(v)] *)
Definition in_degree (G : DiGraph A) (v : string) : Z :=
  Z.of_nat (List.length (filter (fun e => String.eqb (snd e) v) (dg_edges G))).

(** [nx.number_of_nodes(G)], [nx.number_of_edges(G)] *)
Definition number_of_nodes (G : DiGraph A) : nat := List.length (dg_nodes G).
Definition number_of_edges (G : DiGraph A) : nat := List.length (dg_edges G).

(** *** [topological_generations] and [topological_sort] *)

(** The [indegree_map] of the sort: a dict from node to a count. *)
Definition imap := list (string * Z).

Fixpoint imap_get (k : string) (m : imap) : option Z :=
  match m with
  | [] => None
  | (k', d) :: m' => if String.eqb k k' then Some d else imap_get k m'
  end.

Fixpoint imap_set (k : string) (d : Z) (m : imap) : imap :=
  match m with
  | [] => [(k, d)]
  | (k', d') :: m' =>
      if String.eqb k k' then (k, d) :: m' else (k', d') :: imap_set k d m'
  end.

Fixpoint imap_del (k : string) (m : imap) : imap :=
  match m with
  | [] => []
  | (k', d') :: m' =>
      if String.eqb k k' then m' else (k', d') :: imap_del k m'
  end.

(** The body of [for child in G.neighbors(node)]:
    [indegree_map[child] -= 1], a [KeyError] becoming a [RuntimeError];
    a count that reaches zero moves the child to [zero_indegree]. *)
Definition relax_child (st : imap * list string) (child : string)
  : result (imap * list string) :=
  let '(m, zero_indegree) := st in
  match imap_get child m with
  | None => Raise RuntimeError
  | Some d =>
      let m := imap_set child (d - 1)%Z m in
      if Z.eqb (d - 1) 0
      then Ok (imap_del child m, zero_indegree ++ [child])
      else Ok (m, zero_indegree)
  end.

(** The body of [for node in this_generation]. *)
Definition visit_node (G : DiGraph A) (st : imap * list string) (node : string)
  : result (imap * list string) :=
  if has_node G node then foldM relax_child (succ_list G node) st
  else Raise RuntimeError.

(** What a generator gives its consumer: the items yielded, in order, and
    how the generator then ends ([Ok tt] for a normal end). *)
Definition generated (B : Type) : Type := (list B * result unit)%type.

(** The [while zero_indegree] loop.  Each round that goes on removes a
    node from [indegree_map], which bounds the rounds. *)
Fixpoint generations_loop (fuel : nat) (G : DiGraph A) (m : imap)
  (zero_indegree : list string) : generated (list string) :=
  match zero_indegree with
  | [] =>
      ([], match m with [] => Ok tt | _ :: _ => Raise NetworkXUnfeasible end)
  | _ :: _ =>
      match fuel with
      | O => ([], OutOfFuel)
      | S fuel' =>
          match foldM (visit_node G) zero_indegree (m, []) with
          | Ok (m', zero') =>
              let (gs, fin) := generations_loop fuel' G m' zero' in
              (zero_indegree :: gs, fin)
          | Raise e => ([], Raise e)
          | OutOfFuel => ([], OutOfFuel)
          end
      end
  end.

(** [nx.topological_generations(G)] *)
Definition topological_generations (G : DiGraph A) : generated (list string) :=
  let indegree_map :=
    filter (fun vd => Z.ltb 0 (snd vd))
           (map (fun v => (v, in_degree G v)) (node_keys G)) in
  let zero_indegree :=
    filter (fun v => Z.eqb (in_degree G v) 0) (node_keys G) in
  generations_loop (2 + List.length indegree_map) G indegree_map zero_indegree.

(** [nx.topological_sort(G)]: [yield from] each generation. *)
Definition topological_sort (G : DiGraph A) : generated string :=
  let (gs, fin) := topological_generations G in (List.concat gs, fin).

(** [nx.is_directed_acyclic_graph(G)]: [has_cycle] runs the sort to its
    end and catches [NetworkXUnfeasible]. *)
Definition is_directed_acyclic_graph (G : DiGraph A) : result bool :=
  match snd (topological_sort G) with
  | Ok _ => Ok true
  | Raise NetworkXUnfeasible => Ok false
  | Raise e => Raise e
  | OutOfFuel => OutOfFuel
  end.

(** *** [dfs_edges] and [transitive_reduction] *)

(** The depth-first search of [nx.dfs_edges(G, source)], whose stack depth
    networkx limits to [len(G)]: the children of [parent] are taken in
    order, an unvisited child gives the edge [(parent, child)] and is
    searched in turn while the depth allows. *)
Fixpoint dfs_visit (depth : nat) (G : DiGraph A) (parent : string)
  (st : list string * list (string * string))
  : list string * list (string * string) :=
  match depth with
  | O => st
  | S depth' =>
      fold_left
        (fun st child =>
           let '(visited, out) := st in
           if mem child visited then st
           else dfs_visit depth' G child
                  (child :: visited, out ++ [(parent, child)]))
        (succ_list G parent) st
  end.

Definition dfs_edges (G : DiGraph A) (source : string)
  : list (string * string) :=
  snd (dfs_visit (List.length (dg_nodes G)) G source ([source], [])).

(** [{y for x, y in nx.dfs_edges(G, v)}], the [descendants[v]] of
    [transitive_reduction] (which memoises it per node). *)
Definition descendants (G : DiGraph A) (v : string) : list string :=
  map snd (dfs_edges G v).

(** [u_nbrs -= descendants[v]] *)
Definition set_minus (s t : list string) : list string :=
  filter (fun x => negb (mem x t)) s.

(** The neighbours of [u] that [transitive_reduction] keeps:
    [u_nbrs = set(G[u])], then for each [v] of [G[u]] still in [u_nbrs]
    the descendants of [v] are taken out. *)
Definition reduced_nbrs (G : DiGraph A) (u : string) : list string :=
  fold_left
    (fun u_nbrs v =>
       if mem v u_nbrs then set_minus u_nbrs (descendants G v) else u_nbrs)
    (succ_list G u) (succ_list G u).

(** *** [all_simple_paths] *)

(** The search of [nx.all_simple_paths] (networkx 3.2 and later), by depth
    instead of networkx's explicit stack.  [nexts] are the heads of the
    edges waiting at the top of the stack and [path] the nodes of
    [current_path]: a head on the path is skipped; a head that is a target
    yields the path extended by it; the search goes on through the head
    while [len(current_path) - 1 < cutoff], which is [room] being positive,
    and some target is neither on the path nor the head. *)
Fixpoint explore_paths (room : nat) (G : DiGraph A) (targets : list string)
  (path : list string) (nexts : list string) : list (list string) :=
  flat_map
    (fun next_node =>
       if mem next_node path then []
       else
         (if mem next_node targets then [path ++ [next_node]] else []) ++
         match room with
         | O => []
         | S room' =>
             match set_minus targets (path ++ [next_node]) with
             | [] => []
             | _ :: _ =>
                 explore_paths room' G targets (path ++ [next_node])
                   (succ_list G next_node)
             end
         end)
    nexts.

(** [nx.all_simple_paths(G, source, target)] for a string [target]: a
    target that is no node of [G] is taken as the set of its characters. *)
Definition all_simple_paths (G : DiGraph A) (source target : string)
  : generated (list string) :=
  if negb (has_node G source)
  then ([], Raise (NodeNotFound ("source node " ++ source ++ " not in graph")))
  else
    let targets :=
      if has_node G target then [target]
      else map (fun c => String c EmptyString) (list_ascii_of_string target) in
    let cutoff := (List.length (dg_nodes G) - 1)%nat in
    match targets with
    | [] => ([], Ok tt)
    | _ :: _ => (explore_paths cutoff G targets [] [source], Ok tt)
    end.

End DiGraphOps.

(** [nx.algorithms.dag.transitive_reduction(G)].  The result is a plain
    [nx.DiGraph]: the nodes of [G] with empty attribute dicts, and for each
    [u] the edges to the neighbours kept, added in the order in which the
    set [u_nbrs] is iterated. *)
Definition transitive_reduction {A} (G : DiGraph A) : result (DiGraph dict) :=
  dag <- is_directed_acyclic_graph G ;;
  if negb dag
  then Raise (NetworkXError
                "Directed Acyclic Graph required for transitive_reduction")
  else Ok {| dg_nodes := map (fun u => (u, ([] : dict))) (node_keys G);
             dg_edges :=
               flat_map
                 (fun u => map (pair u) (set_order P (reduced_nbrs G u)))
                 (node_keys G) |}.

(** ** Reading a node's derived values from a graph *)

(** The value a property gives, without the node it memoised the value in:
    the algorithms over a graph below read through these.  Memoising never
    changes what a later read gives (see [Node_elapsed_memo_stable] and its
    companions), so the graphs keep the nodes as they were. *)
Definition elapsed_of (n : Node) : result timedelta :=
  '(d, _) <- Node_elapsed n ;; Ok d.

Definition elapsed_recipe_of (n : Node) : result timedelta :=
  '(d, _) <- TargetNode_elapsed_recipe n ;; Ok d.

Definition info_elapsed_recipe_of (n : Node) : result pyattr :=
  '(d, _) <- NodeInfo_elapsed_recipe n ;; Ok d.

(** ** node.py: keys *)

(** [TargetNode.nodekey(target)] *)
Definition TargetNode_nodekey (target : dict) : result string :=
  pid <- dict_getitem "pid" target ;;
  name <- dict_getitem "name" target ;;
  Ok (format P pid ++ ":" ++ format P name)%string.

(** [BuildNode.nodekey(target)] *)
Definition BuildNode_nodekey (target : dict) : result string :=
  pid <- dict_getitem "pid" target ;;
  Ok (format P pid).

(** [cls.nodekey(target)] for the class of a graph's nodes. *)
Definition class_nodekey (c : node_class) (target : dict) : result string :=
  match c with
  | TargetNodeC => TargetNode_nodekey target
  | BuildNodeC => BuildNode_nodekey target
  end.

(** [Node.key] *)
Definition Node_key (n : Node) : result string :=
  class_nodekey (node_cls n) (attrib n).

(** [list(BuildNode.entry)]: the keys of the entry targets. *)
Definition BuildNode_entry (n : Node) : result (list string) :=
  ents <- dict_getitem "entry" (attrib n) ;;
  ents <- py_iter ents ;;
  mapM (fun ent =>
          pid <- dict_getitem "pid" (attrib n) ;;
          TargetNode_nodekey [("pid", pid); ("name", ent)])
       ents.

(** What [BuildNode.jobs] gives: [False], [True] or the stored count. *)
Definition BuildNode_jobs (n : Node) : result value :=
  j <- dict_getitem "jobs" (attrib n) ;;
  if py_eq j (VInt (-1)) then Ok (VBool false)
  else if py_eq j (VInt 0) then Ok (VBool true)
  else Ok j.

(** ** graphs.py: [MakeGrindDiGraph] *)

(** The graph object: the networkx graph whose attribute objects are made
    by [node_attr_dict_factory], and the two attributes of [__cached__]. *)
Record MakeGrindDiGraph : Type := {
  node_attr_dict_factory : node_class;
  nx : DiGraph Node;
  _reduced : option (DiGraph dict);
  _entry : option string
}.

Definition set_nx (g : DiGraph Node) (G : MakeGrindDiGraph) : MakeGrindDiGraph :=
  {| node_attr_dict_factory := node_attr_dict_factory G; nx := g;
     _reduced := _reduced G; _entry := _entry G |}.

Definition set__reduced (r : option (DiGraph dict)) (G : MakeGrindDiGraph)
  : MakeGrindDiGraph :=
  {| node_attr_dict_factory := node_attr_dict_factory G; nx := nx G;
     _reduced := r; _entry := _entry G |}.

Definition set__entry (e : option string) (G : MakeGrindDiGraph)
  : MakeGrindDiGraph :=
  {| node_attr_dict_factory := node_attr_dict_factory G; nx := nx G;
     _reduced := _reduced G; _entry := e |}.

(** [MakeGrindDiGraph.clear]: it replaces [nx.DiGraph.clear] and resets
    the cached attributes only. *)
Definition MakeGrindDiGraph_clear (G : MakeGrindDiGraph) : MakeGrindDiGraph :=
  set__entry None (set__reduced None G).

(** [MakeGrindDiGraph.__init__] *)
Definition MakeGrindDiGraph_init (c : node_class) : MakeGrindDiGraph :=
  MakeGrindDiGraph_clear
    {| node_attr_dict_factory := c; nx := empty_graph;
       _reduced := None; _entry := None |}.

(** [self.add_node(key, **attr)] and [self.add_edge(u, v)] are inherited
    from [nx.DiGraph] unchanged: they touch neither [_reduced] nor
    [_entry]. *)
Definition MG_add_node (key : string) (attr : dict) (G : MakeGrindDiGraph)
  : MakeGrindDiGraph :=
  set_nx (add_node (Node_init (node_attr_dict_factory G))
            (fun n => Node_update n attr) key (nx G)) G.

Definition MG_add_edge (u v : string) (G : MakeGrindDiGraph)
  : MakeGrindDiGraph :=
  set_nx (add_edge (Node_init (node_attr_dict_factory G)) u v (nx G)) G.

(** [self.nodes[key][name] = v] *)
Definition MG_node_setitem (key name : string) (v : value)
  (G : MakeGrindDiGraph) : result MakeGrindDiGraph :=
  _ <- get_node (nx G) key ;;
  Ok (set_nx (modify_node key (fun n => Node_setitem n name v) (nx G)) G).

(** [MakeGrindDiGraph.nodekey] *)
Definition MG_nodekey (G : MakeGrindDiGraph) (target : dict) : result string :=
  class_nodekey (node_attr_dict_factory G) target.

(** [MakeGrindDiGraph.reduced] *)
Definition reduced (G : MakeGrindDiGraph)
  : result (DiGraph dict * MakeGrindDiGraph) :=
  match _reduced G with
  | Some r => Ok (r, G)
  | None =>
      r <- transitive_reduction (nx G) ;;
      Ok (r, set__reduced (Some r) G)
  end.

(** The [for node in dag.topological_sort(self)] loop of [entry]: the
    first node whose attribute object is valid. *)
Fixpoint first_valid (G : MakeGrindDiGraph) (order : list string)
  : result (option string) :=
  match order with
  | [] => Ok None
  | node :: order' =>
      n <- get_node (nx G) node ;;
      if Node_valid n then Ok (Some node) else first_valid G order'
  end.

(** [MakeGrindDiGraph.entry].  The sort is consumed lazily: its own
    failure shows only when no valid node came before it.  The [else]
    branch of the loop evaluates the name [mg_exceptions], which
    graphs.py neither imports nor defines. *)
Definition entry (G : MakeGrindDiGraph) : result (Node * MakeGrindDiGraph) :=
  match _entry G with
  | Some e => n <- get_node (nx G) e ;; Ok (n, G)
  | None =>
      let (order, finish) := topological_sort (nx G) in
      found <- first_valid G order ;;
      match found with
      | Some node =>
          let G := set__entry (Some node) G in
          n <- get_node (nx G) node ;; Ok (n, G)
      | None =>
          _ <- finish ;;
          Raise (NameError "mg_exceptions")
      end
  end.

(** [max(xs, key=key, default=None)]: the first item with the greatest
    key. *)
Fixpoint max_loop (key : string -> result Z) (xs : list string)
  (best : string) (best_key : Z) : result string :=
  match xs with
  | [] => Ok best
  | x :: xs' =>
      k <- key x ;;
      if Z.ltb best_key k then max_loop key xs' x k
      else max_loop key xs' best best_key
  end.

Definition max_by_key (key : string -> result Z) (xs : list string)
  : result (option string) :=
  match xs with
  | [] => Ok None
  | x :: xs' =>
      k <- key x ;;
      best <- max_loop key xs' x k ;;
      Ok (Some best)
  end.

(** [self.nodes[x].elapsed] *)
Definition node_elapsed (G : MakeGrindDiGraph) (x : string) : result timedelta :=
  n <- get_node (nx G) x ;; elapsed_of n.

(** [MakeGrindDiGraph.heaviest_child] *)
Definition heaviest_child (G : MakeGrindDiGraph) (node : string)
  : result (option string * MakeGrindDiGraph) :=
  '(r, G) <- reduced G ;;
  succs <- successors r node ;;
  best <- max_by_key (node_elapsed G) succs ;;
  Ok (best, G).

(** The [while start:] loop of [heaviest_path], collecting what it
    yields; [None] and the empty string end it. *)
Fixpoint heaviest_path_loop (fuel : nat) (G : MakeGrindDiGraph)
  (start : option string) : result (list string * MakeGrindDiGraph) :=
  match start with
  | None => Ok ([], G)
  | Some s =>
      if String.eqb s "" then Ok ([], G)
      else
        match fuel with
        | O => OutOfFuel
        | S fuel' =>
            '(next, G) <- heaviest_child G s ;;
            '(rest, G) <- heaviest_path_loop fuel' G next ;;
            Ok (s :: rest, G)
        end
  end.

(** [list(self.heaviest_path(start))] *)
Definition heaviest_path (fuel : nat) (G : MakeGrindDiGraph)
  (start : option string) : result (list string * MakeGrindDiGraph) :=
  match start with
  | None =>
      '(e, G) <- entry G ;;
      k <- Node_key e ;;
      heaviest_path_loop fuel G (Some k)
  | Some s => heaviest_path_loop fuel G (Some s)
  end.

(** ** graphs.py: [TargetDiGraph] *)

Definition TargetDiGraph_init : MakeGrindDiGraph :=
  MakeGrindDiGraph_init TargetNodeC.

(** A record of the trace must be a dict to be subscripted or assigned
    to by name. *)
Definition as_dict (x : value) : result dict :=
  match x with
  | VDict d => Ok d
  | _ => Raise TypeError
  end.

(** [TargetDiGraph.add_target] *)
Definition add_target (G : MakeGrindDiGraph) (target : dict)
  : result MakeGrindDiGraph :=
  key <- MG_nodekey G target ;;
  let (depends, target) := dict_pop "depends" (VList []) target in
  let G := if has_node (nx G) key then G else MG_add_node key [] G in
  let G := set_nx (modify_node key (fun n => Node_update n target) (nx G)) G in
  xs <- py_iter depends ;;
  deps <- mapM (fun x =>
                  pid <- dict_getitem "pid" target ;;
                  Ok [("pid", pid); ("name", x)]) xs ;;
  foldM (fun G dep => k <- MG_nodekey G dep ;; Ok (MG_add_edge key k G))
        deps G.

(** [TargetDiGraph.add_nodes_from_build] *)
Definition TargetDiGraph_add_nodes_from_build (G : MakeGrindDiGraph)
  (build : Node) (targets : list value) : result MakeGrindDiGraph :=
  foldM (fun G target =>
           pid <- Node_getattr build "pid" ;;
           target <- as_dict target ;;
           let target := dict_set "pid" pid target in
           directory <- Node_getattr build "directory" ;;
           let target := dict_set "directory" directory target in
           add_target G target)
        targets G.

(** [TargetDiGraph.add_parent_edges] *)
Definition add_parent_edges (G : MakeGrindDiGraph) (build : Node)
  (parent : value) : result MakeGrindDiGraph :=
  pid <- py_getitem parent "pid" ;;
  name <- py_getitem parent "target" ;;
  pkey <- MG_nodekey G [("pid", pid); ("name", name)] ;;
  entries <- BuildNode_entry build ;;
  foldM (fun G entry =>
           MG_node_setitem pkey "recursive" (VBool true)
             (MG_add_edge pkey entry G))
        entries G.

(** ** graphs.py: [BuildDiGraph] *)

Record BuildDiGraph : Type := {
  base : MakeGrindDiGraph;
  targets : MakeGrindDiGraph
}.

(** [BuildDiGraph.__init__] *)
Definition BuildDiGraph_init : BuildDiGraph :=
  {| base := set__entry None (MakeGrindDiGraph_init BuildNodeC);
     targets := TargetDiGraph_init |}.

(** [self.add_node(key, **build)] passes the record's keys as keyword
    arguments to [add_node(self, node_for_adding, **attr)]: a key equal to
    the name of one of its two parameters is a [TypeError]. *)
Definition clashes_with_add_node (build : dict) : bool :=
  dict_contains "self" build || dict_contains "node_for_adding" build.

(** [BuildDiGraph.add_nodes_from_build] *)
Definition add_nodes_from_build (G : BuildDiGraph) (build : dict)
  : result BuildDiGraph :=
  let (targets_v, build) := dict_pop "targets" (VList []) build in
  key <- MG_nodekey (base G) build ;;
  if clashes_with_add_node build then Raise TypeError else
  let B := MG_add_node key build (base G) in
  n <- get_node (nx B) key ;;
  ts <- py_iter targets_v ;;
  T <- TargetDiGraph_add_nodes_from_build (targets G) n ts ;;
  if dict_contains "parent" build then
    parent <- dict_getitem "parent" build ;;
    pd <- as_dict parent ;;
    pkey <- MG_nodekey B pd ;;
    let B := MG_add_edge pkey key B in
    n <- get_node (nx B) key ;;
    T <- add_parent_edges T n parent ;;
    Ok {| base := B; targets := T |}
  else Ok {| base := B; targets := T |}.

(** [BuildDiGraph.from_build] *)
Definition from_build (build : dict) : result BuildDiGraph :=
  add_nodes_from_build BuildDiGraph_init build.

(** [TargetNode.path] *)
Definition as_str (x : value) : result string :=
  match x with
  | VStr s => Ok s
  | _ => Raise TypeError
  end.

Definition TargetNode_path (n : Node) : result value :=
  let fname := dict_get_or "file" VNone (attrib n) in
  let fdir := dict_get_or "directory" VNone (attrib n) in
  if truthy fname && truthy fdir
  then d <- as_str fdir ;; f <- as_str fname ;;
       Ok (VStr (os_path_join P d f))
  else Ok VNone.

(** [BuildDiGraph.prefix] *)
Definition prefix (G : BuildDiGraph) : result (value * BuildDiGraph) :=
  '(e, B) <- entry (base G) ;;
  d <- Node_getattr e "directory" ;;
  Ok (d, {| base := B; targets := targets G |}).

Definition starts_with_slash (s : string) : bool :=
  match s with
  | String "/" _ => true
  | _ => false
  end.

(** [BuildDiGraph.relpath].  [path.startswith] exists on a string only. *)
Definition relpath (G : BuildDiGraph) (path : value)
  : result (value * BuildDiGraph) :=
  '(path, G) <-
    match path with
    | VNone => Ok (path, G)
    | VStr s =>
        if starts_with_slash s
        then '(pre, G) <- prefix G ;;
             pre <- as_str pre ;;
             Ok (VStr (os_path_relpath P s pre), G)
        else Ok (path, G)
    | _ => Raise AttributeError
    end ;;
  if py_eq path (VStr ".")
  then '(pre, G) <- prefix G ;;
       pre <- as_str pre ;;
       Ok (VStr (os_path_basename P pre), G)
  else Ok (path, G).

(** [BuildDiGraph.jobs], [BuildDiGraph.elapsed] *)
Definition BuildDiGraph_jobs (G : BuildDiGraph) : result (value * BuildDiGraph) :=
  '(e, B) <- entry (base G) ;;
  j <- BuildNode_jobs e ;;
  Ok (j, {| base := B; targets := targets G |}).

Definition BuildDiGraph_elapsed (G : BuildDiGraph)
  : result (timedelta * BuildDiGraph) :=
  '(e, B) <- entry (base G) ;;
  d <- elapsed_of e ;;
  Ok (d, {| base := B; targets := targets G |}).

(** [list(graph.entry.entry)] *)
Definition entry_targets (G : BuildDiGraph)
  : result (list string * BuildDiGraph) :=
  '(e, B) <- entry (base G) ;;
  ks <- BuildNode_entry e ;;
  Ok (ks, {| base := B; targets := targets G |}).

(** [graph.targets.info(x).elapsed] for a key [x] *)
Definition info_elapsed (G : BuildDiGraph) (x : string) : result timedelta :=
  node_elapsed (targets G) x.

(** ** Sorting *)

(** [sorted(xs, key=key)] is stable and compares keys with [<] only: each
    item is put behind the items seen before it whose key is not
    greater. *)
Fixpoint insert_by {A} (key : A -> Z) (x : A) (l : list A) : list A :=
  match l with
  | [] => [x]
  | y :: l' =>
      if Z.ltb (key x) (key y) then x :: y :: l' else y :: insert_by key x l'
  end.

Definition sorted_by {A} (key : A -> Z) (l : list A) : list A :=
  fold_left (fun acc x => insert_by key x acc) l [].

(** [sorted(xs, key=key, reverse=True)]: greatest key first, items of
    equal key in their original order. *)
Definition sorted_by_reverse {A} (key : A -> Z) (l : list A) : list A :=
  sorted_by (fun x => (- key x)%Z) l.

(** The keys are computed once, before any comparison. *)
Definition sorted_with {A} (key : A -> result Z) (reverse : bool) (l : list A)
  : result (list A) :=
  keyed <- mapM (fun x => k <- key x ;; Ok (k, x)) l ;;
  Ok (map snd ((if reverse then sorted_by_reverse else sorted_by) fst keyed)).

(** ** util.py *)

(** [resolve_path] *)
Definition resolve_path (G : BuildDiGraph) (path : value)
  : result (value * BuildDiGraph) :=
  p <- as_str path ;;
  let abs_path := os_path_abspath P p in
  '(pre, G) <- prefix G ;;
  pre1 <- as_str pre ;;
  '(pre', G) <- prefix G ;;
  if py_eq pre (VStr (os_path_commonprefix P abs_path pre1))
  then relpath G (VStr abs_path)
  else '(pre, G) <- prefix G ;;
       pre <- as_str pre ;;
       relpath G (VStr (os_path_join P pre p)).

(** The nested function [checker] of [find_target], for the node [data];
    [not (a == b)] is [a != b]. *)
Definition checker (target makefile pid : value) (G : BuildDiGraph)
  (data : Node) : result (bool * BuildDiGraph) :=
  name_differs <-
    (if is_not_None target
     then name <- Node_getattr data "name" ;; Ok (negb (py_eq name target))
     else Ok false) ;;
  if name_differs then Ok (false, G) else
  '(makefile_differs, G) <-
    (if is_not_None makefile
     then path <- TargetNode_path data ;;
          '(rp, G) <- relpath G path ;;
          if negb (py_eq rp makefile)
          then dir <- Node_getattr data "directory" ;;
               '(rd, G) <- relpath G dir ;;
               Ok (negb (py_eq rd makefile), G)
          else Ok (false, G)
     else Ok (false, G)) ;;
  if makefile_differs then Ok (false, G) else
  pid_differs <-
    (if is_not_None pid
     then p <- Node_getattr data "pid" ;; Ok (negb (py_eq p pid))
     else Ok false) ;;
  if pid_differs then Ok (false, G) else Ok (true, G).

(** [filter(checker, graph.targets.nodes.data())], as a list *)
Fixpoint filter_nodes (target makefile pid : value) (G : BuildDiGraph)
  (nodes : list (string * Node))
  : result (list (string * Node) * BuildDiGraph) :=
  match nodes with
  | [] => Ok ([], G)
  | node :: nodes' =>
      '(keep, G) <- checker target makefile pid G (snd node) ;;
      '(rest, G) <- filter_nodes target makefile pid G nodes' ;;
      Ok (if keep then node :: rest else rest, G)
  end.

(** The message of the error for an empty result. *)
Definition no_targets_message (target makefile pid : value) : string :=
  String.concat " "
    (["No targets"] ++
     (if is_not_None target
      then [("named '" ++ format P target ++ "'")%string] else []) ++
     (if is_not_None makefile
      then [("in file '" ++ format P makefile ++ "'")%string] else []) ++
     (if is_not_None pid
      then [("with pid '" ++ format P pid ++ "'")%string] else [])).

(** [find_target(graph, target, makefile, pid)]; an argument left out is
    [None]. *)
Definition find_target (G : BuildDiGraph) (target makefile pid : value)
  : result (list string * BuildDiGraph) :=
  if negb (is_not_None target) && negb (is_not_None makefile)
     && negb (is_not_None pid)
  then Raise (TargetNotFoundError "No filtering criteria")
  else
    '(makefile, G) <-
      (if is_not_None makefile then resolve_path G makefile
       else Ok (makefile, G)) ;;
    '(found, G) <-
      filter_nodes target makefile pid G (dg_nodes (nx (targets G))) ;;
    nodes <- sorted_with (fun x => elapsed_of (snd x)) false found ;;
    match nodes with
    | [] => Raise (TargetNotFoundError (no_targets_message target makefile pid))
    | _ :: _ => Ok (map fst nodes, G)
    end.

(** [xs[1]] *)
Definition second (xs : list string) : result string :=
  match xs with
  | _ :: x :: _ => Ok x
  | _ => Raise IndexError
  end.

(** The loop over the segments from one entry to the first waypoint. *)
Definition pick_first_hop (G : BuildDiGraph) (path : option (list string))
  (segment : list string) : result (option (list string)) :=
  match path with
  | None => Ok (Some segment)
  | Some p =>
      p1 <- second p ;;
      a <- info_elapsed G p1 ;;
      s1 <- second segment ;;
      b <- info_elapsed G s1 ;;
      if Z.ltb a b then Ok (Some segment) else Ok path
  end.

(** The loop over the segments between two waypoints.  Its comparison has
    a duration on the left and, [.elapsed] missing, the view object on the
    right: neither type orders the pair, a [TypeError]. *)
Definition pick_next_segment (G : BuildDiGraph)
  (next_segment : option (list string)) (segment : list string)
  : result (option (list string)) :=
  match next_segment with
  | None => Ok (Some segment)
  | Some p =>
      p1 <- second p ;;
      _ <- info_elapsed G p1 ;;
      s1 <- second segment ;;
      _ <- get_node (nx (targets G)) s1 ;;
      Raise TypeError
  end.

(** Running a [for] loop over a generator: the body sees what was
    yielded, then the generator's own end shows. *)
Definition for_generated {A S} (body : S -> A -> result S) (g : generated A)
  (s : S) : result S :=
  s <- foldM body (fst g) s ;;
  _ <- snd g ;;
  Ok s.

(** [find_path(graph, targets)] *)
Definition find_path (fuel : nat) (G : BuildDiGraph) (waypoints : list string)
  : result (list string * BuildDiGraph) :=
  match waypoints with
  | [] =>
      '(entries, G) <- entry_targets G ;;
      best <- max_by_key (info_elapsed G) entries ;;
      match best with
      | None => Raise ValueError
      | Some e =>
          '(p, T) <- heaviest_path fuel (targets G) (Some e) ;;
          Ok (p, {| base := base G; targets := T |})
      end
  | first :: others =>
      '(entries, G) <- entry_targets G ;;
      path <-
        foldM (fun path e =>
                 for_generated (pick_first_hop G)
                   (all_simple_paths (nx (targets G)) e first) path)
              entries None ;;
      match path with
      | None =>
          Raise (DepChainNotFoundError ["Unable to find path to %s"; first])
      | Some path =>
          path <-
            foldM (fun path target =>
                     let src := last path "" in
                     next_segment <-
                       for_generated (pick_next_segment G)
                         (all_simple_paths (nx (targets G)) src target) None ;;
                     match next_segment with
                     | None =>
                         Raise (DepChainNotFoundError
                                  ["Unable to find path from %s to %s";
                                   src; target])
                     | Some seg => Ok (path ++ tl seg)
                     end)
                  others path ;;
          '(suffix, T) <- heaviest_path fuel (targets G) (Some (last path "")) ;;
          Ok (path ++ tl suffix, {| base := base G; targets := T |})
      end
  end.

(** ** node.py: [TargetNodeInfo] *)

(** [TargetNodeInfo.target].  The view of a target is made by
    [graph.targets.info], so its [_graph] is the [TargetDiGraph], which has
    no [relpath]: the property leaves with an [AttributeError] on both of
    its paths (a name that is no string has no [startswith] either), and
    [NodeInfo.__getattr__] answers with the node's own [target]. *)
Definition TargetNodeInfo_target (n : Node) : result value :=
  let property :=
    name <- dict_getitem "name" (attrib n) ;;
    match name with
    | VStr s =>
        if negb (starts_with_slash s) then Raise AttributeError
        else Raise AttributeError
    | _ => Raise AttributeError
    end in
  match property with
  | Raise AttributeError => dict_getitem "name" (attrib n)
  | r => r
  end.

(** ** reports.py *)

(** The dict [target_report] returns.  A [DurationEntity] is kept as its
    duration and a [PercentEntity] as its numerator and denominator; the
    rounding they do when printed is not part of the model. *)
Record TargetReport : Type := {
  tr_target : value;
  tr_total : timedelta;
  tr_recipe : pyattr;
  tr_percent : pyattr * timedelta;
  tr_dir : value;
  tr_pid : value;
  tr_file : value;
  tr_line : value;
  tr_recursive : value
}.

(** [BuildReport.target_report(node)] with the default [total] and
    [percent]; [node] is the view of a target. *)
Definition target_report (G : BuildDiGraph) (node : Node)
  : result (TargetReport * BuildDiGraph) :=
  '(total, G) <- BuildDiGraph_elapsed G ;;
  target <- TargetNodeInfo_target node ;;
  elapsed <- elapsed_of node ;;
  recipe <- info_elapsed_recipe_of node ;;
  numerator <- info_elapsed_recipe_of node ;;
  directory <- Node_getattr node "directory" ;;
  '(dir, G) <- relpath G directory ;;
  pid <- Node_getattr node "pid" ;;
  path <- TargetNode_path node ;;
  '(file, G) <- relpath G path ;;
  line <- Node_getattr node "line" ;;
  Ok ({| tr_target := target; tr_total := elapsed; tr_recipe := recipe;
         tr_percent := (numerator, total); tr_dir := dir; tr_pid := pid;
         tr_file := file; tr_line := line;
         tr_recursive := NodeInfo_recursive node |}, G).

(** The dict [TopRecipesReport.__generate__] fills.  The ratio is kept as
    the two durations that are divided. *)
Record TopRecipes : Type := {
  top_total : timedelta;
  top_recipe : timedelta;
  top_parallel : option (value * (timedelta * timedelta));
  top_targets : list TargetReport
}.

(** A sort key must be a duration to be compared with the others. *)
Definition as_timedelta (a : pyattr) : result timedelta :=
  match a with
  | PDelta d => Ok d
  | PVal _ => Raise TypeError
  end.

(** [sum((f(x) for x in xs), datetime.timedelta())] *)
Definition sum_timedelta {A} (f : A -> result timedelta) (xs : list A)
  : result timedelta :=
  foldM (fun acc x => d <- f x ;; Ok (acc + d)%Z) xs 0%Z.

(** [TopRecipesReport.__generate__], for a count [max_entries]. *)
Definition TopRecipesReport_generate (max_entries : nat) (G : BuildDiGraph)
  : result (TopRecipes * BuildDiGraph) :=
  '(total, G) <- BuildDiGraph_elapsed G ;;
  let infos :=
    filter (fun d => negb (truthy (Node_get d "recursive" (VBool false))))
           (map snd (dg_nodes (nx (targets G)))) in
  sorted_targets <-
    sorted_with (fun d => a <- info_elapsed_recipe_of d ;; as_timedelta a)
                true infos ;;
  total_recipe <- sum_timedelta elapsed_of sorted_targets ;;
  '(jobs, G) <- BuildDiGraph_jobs G ;;
  '(parallel, G) <-
    (if truthy jobs
     then '(j, G) <- BuildDiGraph_jobs G ;;
          '(shown, G) <-
            (if is_True j then Ok (VStr "unlimited", G)
             else BuildDiGraph_jobs G) ;;
          '(elapsed, G) <- BuildDiGraph_elapsed G ;;
          if Z.eqb elapsed 0 then Raise ZeroDivisionError
          else Ok (Some (shown, (total_recipe, elapsed)), G)
     else Ok (None, G)) ;;
  '(nodes, G) <-
    foldM (fun '(nodes, G) node =>
             '(r, G) <- target_report G node ;; Ok (nodes ++ [r], G))
          (firstn max_entries sorted_targets) ([], G) ;;
  Ok ({| top_total := total; top_recipe := total_recipe;
         top_parallel := parallel; top_targets := nodes |}, G).

End Makegrind.

(** ** The views, the reports and the writers

    The rest of node.py, graphs.py and reports.py, and output.py: the
    Info views of targets and processes, the totals of a graph, and the
    reports and dumps built on them. *)

Section Reports.

Variable P : Platform.

(** *** node.py: [TargetNodeInfo], [BuildNodeInfo] *)

(** [TargetNodeInfo.file].  As for [target], the view's [_graph] is the
    [TargetDiGraph]: where the property does not raise [AttributeError]
    itself, looking up [relpath] on that graph does, and
    [NodeInfo.__getattr__] answers with the node's own attribute. *)
Definition TargetNodeInfo_file (n : Node) : result value :=
  let property :=
    f <- Node_getattr n "file" ;;
    if negb (is_not_None f) then Raise AttributeError
    else Raise AttributeError in
  match property with
  | Raise AttributeError => Node_getattr n "file"
  | r => r
  end.

(** [list(self._graph.successors(self._node.key))], the keys that
    [TargetNodeInfo.successors] makes a view of. *)
Definition TargetNodeInfo_successors (T : MakeGrindDiGraph) (n : Node)
  : result (list string) :=
  key <- Node_key P n ;;
  successors (nx T) key.

(** [list(view.values())] for the view of the keys [nodes]: one Info
    object per key, made from [self._graph.nodes[n]]. *)
Definition info_values (T : MakeGrindDiGraph) (nodes : list string)
  : result (list Node) :=
  mapM (get_node (nx T)) nodes.

(** [BuildNodeInfo.directory].  The view of a process holds the
    [BuildDiGraph], which has [relpath].  An [AttributeError] leaving the
    property (the node has no directory, or the directory has no
    [startswith]) makes [NodeInfo.__getattr__] answer with the node's own
    attribute; in both cases the graph has memoised nothing new. *)
Definition BuildNodeInfo_directory (G : BuildDiGraph) (n : Node)
  : result (value * BuildDiGraph) :=
  let property :=
    d <- Node_getattr n "directory" ;;
    relpath P G d in
  match property with
  | Raise AttributeError =>
      d <- Node_getattr n "directory" ;; Ok (d, G)
  | r => r
  end.

(** *** graphs.py: totals of a graph *)

(** [d.get("recursive", False)] is false *)
Definition not_recursive (d : Node) : bool :=
  negb (truthy (Node_get d "recursive" (VBool false))).

(** [TargetDiGraph.elapsed_recipe] *)
Definition TargetDiGraph_elapsed_recipe (T : MakeGrindDiGraph)
  : result timedelta :=
  sum_timedelta (fun d => a <- info_elapsed_recipe_of P d ;; as_timedelta a)
                (filter not_recursive (map snd (dg_nodes (nx T)))).

(** [BuildDiGraph.elapsed_recipe] *)
Definition BuildDiGraph_elapsed_recipe (G : BuildDiGraph) : result timedelta :=
  TargetDiGraph_elapsed_recipe (targets G).

(** [BuildDiGraph.node_name] *)
Definition node_name (pid target : value) : string :=
  (format P pid ++ ":" ++ format P target)%string.

(** *** reports.py: [BuildReport] *)

(** [xs[:n]] for a number [n]: a negative one counts from the end. *)
Definition slice_to {A} (n : Z) (xs : list A) : list A :=
  if (n <? 0)%Z
  then firstn (List.length xs - Z.to_nat (- n)) xs
  else firstn (Z.to_nat n) xs.

(** [xs[:n]] where [n] may be [None] *)
Definition slice_to_opt {A} (n : option Z) (xs : list A) : list A :=
  match n with
  | None => xs
  | Some n => slice_to n xs
  end.

(** The [node] argument of a report method: a key or an Info object.
    [if isinstance(node, str): node = self.graph.targets.info(node)] *)
Definition resolve_node (G : BuildDiGraph) (node : string + Node)
  : result Node :=
  match node with
  | inl key => get_node (nx (targets G)) key
  | inr n => Ok n
  end.

(** [BuildReport.target_report(node, total, percent)] *)
Definition target_report_of (G : BuildDiGraph) (node : string + Node)
  (total : option timedelta) (percent : Node -> result pyattr)
  : result (TargetReport * BuildDiGraph) :=
  '(total, G) <-
    match total with
    | None => BuildDiGraph_elapsed P G
    | Some t => Ok (t, G)
    end ;;
  node <- resolve_node G node ;;
  target <- TargetNodeInfo_target node ;;
  elapsed <- elapsed_of P node ;;
  recipe <- info_elapsed_recipe_of P node ;;
  numerator <- percent node ;;
  directory <- Node_getattr node "directory" ;;
  '(dir, G) <- relpath P G directory ;;
  pid <- Node_getattr node "pid" ;;
  path <- TargetNode_path P node ;;
  '(file, G) <- relpath P G path ;;
  line <- Node_getattr node "line" ;;
  Ok ({| tr_target := target; tr_total := elapsed; tr_recipe := recipe;
         tr_percent := (numerator, total); tr_dir := dir; tr_pid := pid;
         tr_file := file; tr_line := line;
         tr_recursive := NodeInfo_recursive node |}, G).

(** What [children_report] keeps of a child's report: the keys
    [target], [total] and [percent]. *)
Record ChildReport : Type := {
  ch_target : value;
  ch_total : timedelta;
  ch_percent : pyattr * timedelta
}.

Record Children : Type := {
  children_count : nat;
  children_targets : list ChildReport
}.

(** [lambda x: x.elapsed], the [percent] of a child's report *)
Definition percent_elapsed (x : Node) : result pyattr :=
  e <- elapsed_of P x ;; Ok (PDelta e).

(** [BuildReport.children_report(node, max_children=max_children)], with
    the default [key], [lambda d: -d.elapsed]. *)
Definition children_report (G : BuildDiGraph) (node : string + Node)
  (max_children : option Z) : result (Children * BuildDiGraph) :=
  node <- resolve_node G node ;;
  total <- elapsed_of P node ;;
  succs <- TargetNodeInfo_successors (targets G) node ;;
  infos <- info_values (targets G) succs ;;
  children <-
    sorted_with (fun d => e <- elapsed_of P d ;; Ok (- e)%Z) false infos ;;
  let count := List.length children in
  let children := slice_to_opt max_children children in
  '(reports, G) <-
    foldM (fun '(reports, G) child =>
             '(r, G) <-
               target_report_of G (inr child) (Some total) percent_elapsed ;;
             Ok (reports ++ [{| ch_target := tr_target r;
                                ch_total := tr_total r;
                                ch_percent := tr_percent r |}], G))
          children ([], G) ;;
  Ok ({| children_count := count; children_targets := reports |}, G).

(** *** reports.py: [SummaryReport] *)

Record Summary : Type := {
  sum_pid : value;
  sum_total : timedelta;
  sum_recipe : timedelta;
  sum_parallel : option (value * (timedelta * timedelta));
  sum_directory : value;
  sum_submake : nat;
  sum_targets : nat;
  sum_dependencies : nat;
  sum_entry : list value
}.

(** [self.graph.entry.name] for an attribute [name] of the entry node *)
Definition entry_attr (G : BuildDiGraph) (name : string)
  : result (value * BuildDiGraph) :=
  '(e, B) <- entry (base G) ;;
  v <- Node_getattr e name ;;
  Ok (v, {| base := B; targets := targets G |}).

(** [SummaryReport.__generate__].  The ratio is kept as the two
    durations that are divided. *)
Definition SummaryReport_generate (G : BuildDiGraph)
  : result (Summary * BuildDiGraph) :=
  '(pid, G) <- entry_attr G "pid" ;;
  '(total, G) <- BuildDiGraph_elapsed P G ;;
  recipe <- BuildDiGraph_elapsed_recipe G ;;
  '(jobs, G) <- BuildDiGraph_jobs G ;;
  '(parallel, G) <-
    (if truthy jobs
     then '(j, G) <- BuildDiGraph_jobs G ;;
          '(shown, G) <-
            (if is_True j then Ok (VStr "unlimited", G)
             else BuildDiGraph_jobs G) ;;
          numerator <- BuildDiGraph_elapsed_recipe G ;;
          '(elapsed, G) <- BuildDiGraph_elapsed P G ;;
          if Z.eqb elapsed 0 then Raise ZeroDivisionError
          else Ok (Some (shown, (numerator, elapsed)), G)
     else Ok (None, G)) ;;
  '(directory, G) <- entry_attr G "directory" ;;
  let submake := number_of_nodes (nx (base G)) in
  let ntargets := number_of_nodes (nx (targets G)) in
  let dependencies := number_of_edges (nx (targets G)) in
  '(entries, G) <- entry_targets P G ;;
  names <- mapM (fun x => n <- get_node (nx (targets G)) x ;;
                          Node_getattr n "name") entries ;;
  Ok ({| sum_pid := pid; sum_total := total; sum_recipe := recipe;
         sum_parallel := parallel; sum_directory := directory;
         sum_submake := submake; sum_targets := ntargets;
         sum_dependencies := dependencies; sum_entry := names |}, G).

(** *** reports.py: [PathReport], [TopPathReport] *)

Record PathReport : Type := {
  path_length : nat;
  path_total : timedelta;
  path_targets : list (TargetReport * option Children)
}.

(** [PathReport.__generate__] for the report's [path] and
    [max_children]; a target gets its [children] when their count is not
    zero. *)
Definition PathReport_generate (G : BuildDiGraph) (path : list string)
  (max_children : option Z) : result (PathReport * BuildDiGraph) :=
  first <- match path with
           | [] => Raise IndexError
           | x :: _ => Ok x
           end ;;
  n0 <- get_node (nx (targets G)) first ;;
  total <- elapsed_of P n0 ;;
  '(reports, G) <-
    foldM (fun '(reports, G) node =>
             '(target, G) <-
               target_report_of G (inl node) (Some total)
                 (info_elapsed_recipe_of P) ;;
             '(child, G) <- children_report G (inl node) max_children ;;
             Ok (reports ++
                 [(target, if Nat.eqb (children_count child) 0 then None
                           else Some child)], G))
          path ([], G) ;;
  Ok ({| path_length := List.length path; path_total := total;
         path_targets := reports |}, G).

(** [TopPathReport]: [__init__] finds the path, [__generate__] is that
    of [PathReport]. *)
Definition TopPathReport_generate (fuel : nat) (G : BuildDiGraph)
  (max_children : option Z) : result (PathReport * BuildDiGraph) :=
  '(path, G) <- find_path P fuel G [] ;;
  PathReport_generate G path max_children.

(** *** reports.py: [TopMakefileReport] *)

(** Whether a value can be a key of a dict. *)
Definition hashable (v : value) : bool :=
  match v with
  | VList _ | VDict _ => false
  | _ => true
  end.

(** The dict [dirs]: for each directory the keys of its processes and
    the sum of their elapsed times. *)
Definition dirs_dict := list (value * (list string * timedelta)).

Fixpoint dirs_get (k : value) (d : dirs_dict)
  : option (list string * timedelta) :=
  match d with
  | [] => None
  | (k', v) :: d' => if py_eq k k' then Some v else dirs_get k d'
  end.

Fixpoint dirs_set (k : value) (v : list string * timedelta) (d : dirs_dict)
  : dirs_dict :=
  match d with
  | [] => [(k, v)]
  | (k', v') :: d' =>
      if py_eq k k' then (k', v) :: d' else (k', v') :: dirs_set k v d'
  end.

(** [TopMakefileReport.__init__]: the [prefix] kept by the report *)
Definition TopMakefileReport_prefix (G : BuildDiGraph) (prefix : value)
  : result (value * BuildDiGraph) :=
  if is_not_None prefix then relpath P G prefix else Ok (VNone, G).

(** [build.directory.startswith(self.prefix)] *)
Definition startswith (directory prefix : value) : result bool :=
  match directory with
  | VStr d =>
      match prefix with
      | VStr p => Ok (String.prefix p d)
      | _ => Raise TypeError
      end
  | _ => Raise AttributeError
  end.

(** [build.key] through the view *)
Definition info_key (n : Node) : result string := Node_key P n.

(** The body of the loop over the processes. *)
Definition collect_directory (prefix : value)
  (st : dirs_dict * BuildDiGraph) (build : Node)
  : result (dirs_dict * BuildDiGraph) :=
  let '(dirs, G) := st in
  '(skip, G) <-
    (if truthy prefix
     then '(d, G) <- BuildNodeInfo_directory G build ;;
          inside <- startswith d prefix ;;
          Ok (negb inside, G)
     else Ok (false, G)) ;;
  if skip then Ok (dirs, G) else
  '(d, G) <- BuildNodeInfo_directory G build ;;
  if negb (hashable d) then Raise TypeError else
  match dirs_get d dirs with
  | None =>
      key <- info_key build ;;
      elapsed <- elapsed_of P build ;;
      '(d, G) <- BuildNodeInfo_directory G build ;;
      if negb (hashable d) then Raise TypeError else
      Ok (dirs_set d ([key], elapsed) dirs, G)
  | Some _ =>
      '(d, G) <- BuildNodeInfo_directory G build ;;
      if negb (hashable d) then Raise TypeError else
      match dirs_get d dirs with
      | None => match d with
                | VStr s => Raise (KeyError s)
                | _ => Raise (KeyError (format P d))
                end
      | Some (keys, sum) =>
          key <- info_key build ;;
          let dirs := dirs_set d (keys ++ [key], sum) dirs in
          '(d, G) <- BuildNodeInfo_directory G build ;;
          if negb (hashable d) then Raise TypeError else
          match dirs_get d dirs with
          | None => match d with
                    | VStr s => Raise (KeyError s)
                    | _ => Raise (KeyError (format P d))
                    end
          | Some (keys, sum) =>
              elapsed <- elapsed_of P build ;;
              Ok (dirs_set d (keys, (sum + elapsed)%Z) dirs, G)
          end
      end
  end.

Record DirectoryReport : Type := {
  dir_elapsed : timedelta;
  dir_percent : timedelta * timedelta;
  dir_count : nat
}.

(** [TopMakefileReport.__generate__] for the report's [max_entries] and
    [prefix]: the directories by falling elapsed time. *)
Definition TopMakefileReport_generate (max_entries : Z) (prefix : value)
  (G : BuildDiGraph)
  : result (list (value * DirectoryReport) * BuildDiGraph) :=
  '(dirs, G) <-
    foldM (collect_directory prefix) (map snd (dg_nodes (nx (base G))))
          ([], G) ;;
  let paths := sorted_by (fun x => (- snd (snd x))%Z) dirs in
  foldM (fun '(report, G) path =>
           '(total, G) <- BuildDiGraph_elapsed P G ;;
           Ok (report ++
               [(fst path,
                 {| dir_elapsed := snd (snd path);
                    dir_percent := (snd (snd path), total);
                    dir_count := List.length (fst (snd path)) |})], G))
        (slice_to max_entries paths) ([], G).

(** *** output.py *)

(** What a function that writes to [fd] leaves: the strings written, in
    order, and how the call ended. *)
Definition writing (A : Type) : Type := (list string * result A)%type.

Definition write (s : string) : writing unit := ([s], Ok tt).

(** An expression that writes nothing. *)
Definition reading {A} (r : result A) : writing A := ([], r).

Definition then_write {A B} (w : writing A) (k : A -> writing B)
  : writing B :=
  match snd w with
  | Ok a => let r := k a in (fst w ++ fst r, snd r)
  | Raise e => (fst w, Raise e)
  | OutOfFuel => (fst w, OutOfFuel)
  end.

Notation "x <~ w ;; k" := (then_write w (fun x => k))
  (at level 61, w at next level, right associativity).
Notation "w ;> k" := (then_write w (fun _ => k))
  (at level 61, right associativity).

(** [for x in xs: body(x)] *)
Fixpoint write_each {A} (body : A -> writing unit) (xs : list A)
  : writing unit :=
  match xs with
  | [] => ([], Ok tt)
  | x :: xs' => body x ;> write_each body xs'
  end.

(** The line feed. *)
Definition nl : string := String (ascii_of_nat 10) EmptyString.

(** [round(d / datetime.timedelta(microseconds=1))].  Dividing two
    durations gives a float: the count of microseconds rounded to the
    nearest double, ties to even, which is a whole number that [round]
    returns as it is.  Counts below [2^53] are exact. *)
Definition microseconds (d : timedelta) : Z :=
  let a := Z.abs d in
  let n := Z.log2 a in
  if (n <? 53)%Z then d
  else
    let sh := (n - 52)%Z in
    let q := Z.shiftr a sh in
    let r := (a - Z.shiftl q sh)%Z in
    let half := Z.shiftl 1 (sh - 1) in
    let q := if (half <? r)%Z || ((half =? r)%Z && Z.odd q) then (q + 1)%Z
             else q in
    (Z.sgn d * Z.shiftl q sh)%Z.

(** [" ".join(x)]: the items of [x] must be strings. *)
Definition join_space (x : value) : result string :=
  items <- py_iter x ;;
  strs <- mapM as_str items ;;
  Ok (String.concat " " strs).

(** The body of the loop over the dependencies of [data]. *)
Definition callgrind_call (data dep : Node) : writing unit :=
  file <~ reading (TargetNodeInfo_file dep) ;;
  if negb (is_not_None file) then ([], Ok tt) else
  directory <~ reading (Node_getattr dep "directory") ;;
  write ("cob=" ++ format P directory ++ nl) ;>
  file <~ reading (TargetNodeInfo_file dep) ;;
  write ("cfi=" ++ format P file ++ nl) ;>
  target <~ reading (TargetNodeInfo_target dep) ;;
  write ("cfn=" ++ format P target ++ nl) ;>
  line <~ reading (Node_getattr dep "line") ;;
  write ("calls=1 " ++ format P line ++ nl) ;>
  line <~ reading (Node_getattr data "line") ;;
  elapsed <~ reading (elapsed_of P dep) ;;
  write (format P line ++ " " ++ format P (VInt (microseconds elapsed)) ++ nl).

(** [data.recipe], as the option the property memoises *)
Definition recipe_of (n : Node) : result (option datetime) :=
  '(r, _) <- TargetNode_recipe P n ;; Ok r.

(** The body of the loop over the targets. *)
Definition callgrind_target (T : MakeGrindDiGraph) (data : Node)
  : writing unit :=
  file <~ reading (TargetNodeInfo_file data) ;;
  if negb (is_not_None file) then ([], Ok tt) else
  directory <~ reading (Node_getattr data "directory") ;;
  write (nl ++ "ob=" ++ format P directory ++ nl) ;>
  file <~ reading (TargetNodeInfo_file data) ;;
  write ("fl=" ++ format P file ++ nl) ;>
  target <~ reading (TargetNodeInfo_target data) ;;
  write ("fn=" ++ format P target ++ nl) ;>
  line <~ reading (Node_getattr data "line") ;;
  elapsed <~ reading (elapsed_of P data) ;;
  let cost := [format P line; format P (VInt (microseconds elapsed))] in
  recipe <~ reading (recipe_of data) ;;
  cost <~ reading
            (match recipe with
             | Some _ =>
                 _ <- info_elapsed_recipe_of P data ;;
                 a <- info_elapsed_recipe_of P data ;;
                 d <- as_timedelta a ;;
                 Ok (cost ++ [format P (VInt (microseconds d))])
             | None => Ok cost
             end) ;;
  write (String.concat " " cost ++ nl) ;>
  succs <~ reading (TargetNodeInfo_successors T data) ;;
  write_each (fun key =>
                dep <~ reading (get_node (nx T) key) ;;
                callgrind_call data dep)
             succs.

(** [dump_callgrind(graph, fd)] *)
Definition dump_callgrind (G : BuildDiGraph) : writing unit :=
  write ("# callgrind format" ++ nl) ;>
  write ("version: 1" ++ nl) ;>
  x <~ reading (entry_attr G "creator") ;;
  let '(creator, G) := x in
  write ("creator: " ++ format P creator ++ nl) ;>
  x <~ reading (entry_attr G "argv") ;;
  let '(argv, G) := x in
  cmd <~ reading (join_space argv) ;;
  write ("cmd: " ++ cmd ++ nl) ;>
  write ("desc: Node: Targets" ++ nl) ;>
  write ("positions: line" ++ nl) ;>
  write ("event: Wt : Wall Time" ++ nl) ;>
  write ("event: Rt : Recipe Time" ++ nl) ;>
  write ("events: Wt Rt" ++ nl ++ nl) ;>
  write_each (callgrind_target (targets G))
             (map snd (dg_nodes (nx (targets G)))).

End Reports.

(** ** A platform to run the model on

    One choice of the platform's functions, for evaluating the model on
    concrete traces: numbers and strings are formatted as Python does,
    a timestamp in seconds becomes microseconds, a set is iterated in the
    order its keys were listed, and paths are those of a POSIX system whose
    working directory is the root. *)

Fixpoint common_prefix (a b : string) : string :=
  match a, b with
  | String x a', String y b' =>
      if Ascii.eqb x y then String x (common_prefix a' b') else EmptyString
  | _, _ => EmptyString
  end.

Fixpoint after_last_slash (s acc : string) : string :=
  match s with
  | EmptyString => acc
  | String c s' =>
      if Ascii.eqb c "/"%char then after_last_slash s' s'
      else after_last_slash s' acc
  end.

Fixpoint strip_prefix (p s : string) : option string :=
  match p, s with
  | EmptyString, _ => Some s
  | String x p', String y s' =>
      if Ascii.eqb x y then strip_prefix p' s' else None
  | String _ _, EmptyString => None
  end.

Definition posix_format (v : value) : string :=
  match v with
  | VNone => "None"
  | VBool true => "True"
  | VBool false => "False"
  | VInt z => NilZero.string_of_int (Z.to_int z)
  | VStr s => s
  | VList _ => "[...]"
  | VDict _ => "{...}"
  end.

Definition posix : Platform := {|
  format := posix_format;
  fromtimestamp_num := fun z => Ok (z * 1000000)%Z;
  set_order := fun l => l;
  set_order_perm := fun l => Permutation_refl l;
  os_path_relpath := fun path start =>
    if String.eqb path start then "."
    else match strip_prefix (start ++ "/") path with
         | Some rest => rest
         | None => path
         end;
  os_path_basename := fun path => after_last_slash path path;
  os_path_abspath := fun path =>
    match path with
    | String "/" _ => path
    | _ => ("/" ++ path)%string
    end;
  os_path_commonprefix := common_prefix;
  os_path_join := fun a b =>
    match b with
    | String "/" _ => b
    | _ => (a ++ "/" ++ b)%string
    end
|}.

(** * Properties *)

Unset Implicit Arguments.

(** ** Memoised reads of a node *)

(** The durations as the attributes alone determine them. *)
Definition elapsed_from (P : Platform) (a : dict) : result timedelta :=
  e <- read_time P "end" a ;;
  match e with
  | None => Ok 0%Z
  | Some te =>
      s <- read_time P "start" a ;;
      match s with
      | None => Ok 0%Z
      | Some ts => Ok (te - ts)%Z
      end
  end.

Definition elapsed_recipe_from (P : Platform) (a : dict) : result timedelta :=
  e <- read_time P "end" a ;;
  match e with
  | None => Ok 0%Z
  | Some te =>
      r <- read_time P "recipe" a ;;
      match r with
      | None => Ok 0%Z
      | Some tr => Ok (te - tr)%Z
      end
  end.

Lemma Node_clear_attrib : forall n, attrib (Node_clear n) = attrib n.
Proof. intros n; unfold Node_clear; destruct (node_cls n); reflexivity. Qed.

Lemma Node_clear_cls : forall n, node_cls (Node_clear n) = node_cls n.
Proof. intros n; unfold Node_clear; destruct (node_cls n); reflexivity. Qed.

Lemma Node_setitem_attrib :
  forall n k v, attrib (Node_setitem n k v) = dict_set k v (attrib n).
Proof.
  intros n k v. unfold Node_setitem. cbn. now rewrite Node_clear_attrib.
Qed.

Lemma Node_setitem_cls :
  forall n k v, node_cls (Node_setitem n k v) = node_cls n.
Proof. intros n k v. unfold Node_setitem. cbn. apply Node_clear_cls. Qed.

(** Every write resets the three memoised values of [Node], and the two
    more of a [TargetNode]. *)
Lemma Node_setitem_invalidates :
  forall n k v,
    let n' := Node_setitem n k v in
    _elapsed n' = None /\ _start n' = None /\ _end n' = None /\
    (node_cls n = TargetNodeC ->
     _recipe n' = None /\ _elapsed_recipe n' = None).
Proof.
  intros n k v. unfold Node_setitem, Node_clear.
  destruct (node_cls n); cbn; repeat split; intros; try discriminate;
    reflexivity.
Qed.

(** With nothing memoised, the reads compute from the attributes. *)
Lemma elapsed_of_uncached :
  forall P n,
    _elapsed n = None -> _start n = None -> _end n = None ->
    elapsed_of P n = elapsed_from P (attrib n).
Proof.
  intros P n He Hs Hn.
  unfold elapsed_of, Node_elapsed, Node_end, Node_start, elapsed_from.
  rewrite He, Hn.
  destruct (read_time P "end" (attrib n)) as [[te|]|e|]; cbn; try reflexivity.
  rewrite Hs.
  destruct (read_time P "start" (attrib n)) as [[ts|]|e|]; cbn; reflexivity.
Qed.

Lemma elapsed_recipe_of_uncached :
  forall P n,
    _elapsed_recipe n = None -> _recipe n = None -> _end n = None ->
    elapsed_recipe_of P n = elapsed_recipe_from P (attrib n).
Proof.
  intros P n He Hs Hn.
  unfold elapsed_recipe_of, TargetNode_elapsed_recipe, Node_end,
    TargetNode_recipe, elapsed_recipe_from.
  rewrite He, Hn.
  destruct (read_time P "end" (attrib n)) as [[te|]|e|]; cbn; try reflexivity.
  rewrite Hs.
  destruct (read_time P "recipe" (attrib n)) as [[ts|]|e|]; cbn; reflexivity.
Qed.

(** After a write, [elapsed] and [elapsed_recipe] are computed from the
    attributes as written, whatever was memoised before. *)
Lemma Node_elapsed_after_setitem :
  forall P n k v,
    elapsed_of P (Node_setitem n k v) =
    elapsed_from P (dict_set k v (attrib n)).
Proof.
  intros P n k v.
  destruct (Node_setitem_invalidates n k v) as (He & Hs & Hn & _).
  rewrite elapsed_of_uncached by assumption.
  now rewrite Node_setitem_attrib.
Qed.

Lemma TargetNode_elapsed_recipe_after_setitem :
  forall P n k v,
    node_cls n = TargetNodeC ->
    elapsed_recipe_of P (Node_setitem n k v) =
    elapsed_recipe_from P (dict_set k v (attrib n)).
Proof.
  intros P n k v Hc.
  destruct (Node_setitem_invalidates n k v) as (He & Hs & Hn & Hr).
  destruct (Hr Hc) as [Hr1 Hr2].
  rewrite elapsed_recipe_of_uncached by assumption.
  now rewrite Node_setitem_attrib.
Qed.

(** X22.  Reading [elapsed] twice gives the same value: the memo the first
    read leaves does not change the second, nor does it touch the
    attributes. *)
Lemma Node_elapsed_memo_stable :
  forall P n d n',
    Node_elapsed P n = Ok (d, n') ->
    Node_elapsed P n' = Ok (d, n') /\ attrib n' = attrib n.
Proof.
  intros P n d n'. unfold Node_elapsed.
  destruct (_elapsed n) as [d0|] eqn:He.
  - intros H; inversion H; subst. rewrite He. auto.
  - unfold Node_end.
    destruct (_end n) as [[te|]|] eqn:Hend; cbn [bind].
    + unfold Node_start.
      destruct (_start n) as [[ts|]|] eqn:Hs; cbn [bind _start set__end].
      * intros H; inversion H; subst; cbn; auto.
      * intros H; inversion H; subst; cbn; auto.
      * destruct (read_time P "start" (attrib n)) as [[ts|]|e|];
          cbn [bind]; intros H; inversion H; subst; cbn; auto.
    + intros H; inversion H; subst; cbn; auto.
    + destruct (read_time P "end" (attrib n)) as [[te|]|e|]; cbn [bind];
        try discriminate.
      * unfold Node_start.
        cbn [_start set__end].
        destruct (_start n) as [[ts|]|] eqn:Hs; cbn [bind].
        -- intros H; inversion H; subst; cbn; auto.
        -- intros H; inversion H; subst; cbn; auto.
        -- cbn [attrib set__end].
           destruct (read_time P "start" (attrib n)) as [[ts|]|e|];
             cbn [bind]; intros H; inversion H; subst; cbn; auto.
      * intros H; inversion H; subst; cbn; auto.
Qed.

(** ** The Info view of a target's recipe time *)

(** A target is flagged recursive when its [recursive] attribute is the
    object [True], which is what [add_parent_edges] stores. *)
Definition flagged_recursive (n : Node) : bool :=
  match dict_get "recursive" (attrib n) with
  | Some v => is_True v
  | None => false
  end.

(** The raw node's [elapsed_recipe], typed as a view read. *)
Definition raw_elapsed_recipe (P : Platform) (n : Node)
  : result (pyattr * Node) :=
  '(d, n') <- TargetNode_elapsed_recipe P n ;; Ok (PDelta d, n').

(** C2.  Through the Info view a target flagged recursive reads a zero
    recipe time whatever its raw value; a target not flagged (also one with
    no [recursive] attribute at all) reads the raw node's recipe time,
    exceptions included. *)
Theorem info_elapsed_recipe_nets_recursion :
  forall (P : Platform) (n : Node),
    node_cls n = TargetNodeC ->
    (flagged_recursive n = true ->
       NodeInfo_elapsed_recipe P n = Ok (PDelta 0%Z, n)) /\
    (flagged_recursive n = false ->
       NodeInfo_elapsed_recipe P n = raw_elapsed_recipe P n).
Proof.
  intros P n Hc.
  unfold flagged_recursive, NodeInfo_elapsed_recipe, Node_getattr,
    raw_elapsed_recipe, getattr_elapsed_recipe.
  rewrite Hc. cbn [orb String.eqb Ascii.eqb Bool.eqb].
  destruct (dict_get "recursive" (attrib n)) as [v|]; cbn [bind]; split;
    intros Hf; try discriminate.
  - rewrite Hf. reflexivity.
  - rewrite Hf.
    destruct (TargetNode_elapsed_recipe P n) as [[d n']|e|]; cbn [bind];
      try reflexivity.
    destruct e; reflexivity.
  - reflexivity.
Qed.

(** A target flagged recursive whose raw recipe time is not zero. *)
Definition recursive_target : Node :=
  Node_update (Node_init TargetNodeC)
    [("pid", VInt 1); ("name", VStr "sub"); ("recipe", VInt 2);
     ("end", VInt 9); ("recursive", VBool true)].

Lemma info_elapsed_recipe_nets_recursion_witness :
  node_cls recursive_target = TargetNodeC /\
  flagged_recursive recursive_target = true /\
  NodeInfo_elapsed_recipe posix recursive_target
  = Ok (PDelta 0%Z, recursive_target) /\
  elapsed_recipe_of posix recursive_target = Ok 7000000%Z.
Proof.
  split; [reflexivity|]. split; [reflexivity|]. split.
  - exact (proj1 (info_elapsed_recipe_nets_recursion posix recursive_target
                    eq_refl) eq_refl).
  - reflexivity.
Defined.

(** ** Graph operations *)

Lemma mem_In : forall x l, mem x l = true <-> In x l.
Proof.
  intros x l. unfold mem. rewrite existsb_exists. split.
  - intros (y & Hy & He). apply String.eqb_eq in He. now subst.
  - intros H. exists x. split; [assumption | apply String.eqb_refl].
Qed.

Lemma mem_false_not_In : forall x l, mem x l = false <-> ~ In x l.
Proof.
  intros x l. rewrite <- mem_In. destruct (mem x l); split; intros H;
    try discriminate; try congruence; try tauto.
Qed.

Section GraphLemmas.

Context {A : Type}.
Implicit Types (G : DiGraph A) (l : list (string * A)).

Lemma assoc_In : forall l k, In k (map fst l) <-> exists a, assoc k l = Some a.
Proof.
  induction l as [|[k' a'] l IH]; intros k; cbn.
  - split; [tauto | intros (a & H); discriminate].
  - destruct (String.eqb k k') eqn:E.
    + apply String.eqb_eq in E. subst. split; eauto.
    + apply String.eqb_neq in E. rewrite <- IH. split.
      * intros [H|H]; [congruence | assumption].
      * auto.
Qed.

Lemma has_node_assoc :
  forall G k, has_node G k = true <-> exists a, assoc k (dg_nodes G) = Some a.
Proof.
  intros G k. unfold has_node, node_keys. rewrite mem_In. apply assoc_In.
Qed.

Lemma has_node_false_assoc :
  forall G k, has_node G k = false <-> assoc k (dg_nodes G) = None.
Proof.
  intros G k. pose proof (has_node_assoc G k) as H.
  destruct (has_node G k); destruct (assoc k (dg_nodes G)) eqn:E; split;
    intros H0; try discriminate; try reflexivity.
  - destruct H as [H _]. destruct (H eq_refl); discriminate.
  - destruct H as [_ H]. assert (false = true) by (apply H; eauto).
    discriminate.
Qed.

Lemma assoc_app :
  forall l l' k,
    assoc k (l ++ l') =
    match assoc k l with Some a => Some a | None => assoc k l' end.
Proof.
  induction l as [|[k' a'] l IH]; intros l' k; cbn; [reflexivity|].
  destruct (String.eqb k k'); [reflexivity | apply IH].
Qed.

Lemma assoc_modify_other :
  forall l n f k, k <> n -> assoc k (assoc_modify n f l) = assoc k l.
Proof.
  induction l as [|[k' a'] l IH]; intros n f k Hk; cbn; [reflexivity|].
  destruct (String.eqb n k') eqn:E; cbn.
  - apply String.eqb_eq in E. subst k'.
    apply String.eqb_neq in Hk. now rewrite Hk.
  - destruct (String.eqb k k'); [reflexivity | now apply IH].
Qed.

Lemma assoc_modify_same :
  forall l n f,
    assoc n (assoc_modify n f l) = option_map f (assoc n l).
Proof.
  induction l as [|[k' a'] l IH]; intros n f; cbn; [reflexivity|].
  destruct (String.eqb n k') eqn:E; cbn; rewrite E; [reflexivity | apply IH].
Qed.

Lemma map_fst_assoc_modify :
  forall l n f, map fst (assoc_modify n f l) = map fst l.
Proof.
  induction l as [|[k' a'] l IH]; intros n f; cbn; [reflexivity|].
  destruct (String.eqb n k'); cbn; [reflexivity | now rewrite IH].
Qed.

Lemma node_keys_modify_node :
  forall G n f, node_keys (modify_node n f G) = node_keys G.
Proof. intros. unfold node_keys, modify_node. cbn. apply map_fst_assoc_modify. Qed.

Lemma has_node_modify_node :
  forall G n f k, has_node (modify_node n f G) k = has_node G k.
Proof. intros. unfold has_node. now rewrite node_keys_modify_node. Qed.

Lemma assoc_ensure_node :
  forall G fresh n k,
    assoc k (dg_nodes (ensure_node fresh n G)) =
    match assoc k (dg_nodes G) with
    | Some a => Some a
    | None => if String.eqb k n then
                if has_node G n then None else Some fresh
              else None
    end.
Proof.
  intros G fresh n k. unfold ensure_node.
  destruct (has_node G n) eqn:Hn.
  - destruct (assoc k (dg_nodes G)) eqn:E; [reflexivity|].
    destruct (String.eqb k n); reflexivity.
  - cbn. rewrite assoc_app. destruct (assoc k (dg_nodes G)); [reflexivity|].
    cbn. destruct (String.eqb k n); reflexivity.
Qed.

Lemma has_node_ensure_node :
  forall G fresh n k,
    has_node (ensure_node fresh n G) k = has_node G k || String.eqb k n.
Proof.
  intros G fresh n k. unfold ensure_node.
  destruct (has_node G n) eqn:Hn.
  - destruct (String.eqb k n) eqn:E.
    + apply String.eqb_eq in E. subst. rewrite Hn. reflexivity.
    + now rewrite orb_false_r.
  - unfold has_node, node_keys, mem. cbn. rewrite map_app, existsb_app. cbn.
    now rewrite orb_false_r.
Qed.

Lemma dg_edges_ensure_node :
  forall G fresh n, dg_edges (ensure_node fresh n G) = dg_edges G.
Proof. intros. unfold ensure_node. destruct (has_node G n); reflexivity. Qed.

Lemma has_edge_ensure_node :
  forall G fresh n u v, has_edge (ensure_node fresh n G) u v = has_edge G u v.
Proof. intros. unfold has_edge. now rewrite dg_edges_ensure_node. Qed.

Lemma dg_nodes_add_edge :
  forall G fresh u v,
    dg_nodes (add_edge fresh u v G) =
    dg_nodes (ensure_node fresh v (ensure_node fresh u G)).
Proof.
  intros. unfold add_edge.
  destruct (has_edge _ u v); reflexivity.
Qed.

Lemma has_node_add_edge :
  forall G fresh u v k,
    has_node (add_edge fresh u v G) k =
    has_node G k || String.eqb k u || String.eqb k v.
Proof.
  intros. unfold has_node at 1, node_keys. rewrite dg_nodes_add_edge.
  fold (node_keys (ensure_node fresh v (ensure_node fresh u G))).
  fold (has_node (ensure_node fresh v (ensure_node fresh u G)) k).
  now rewrite !has_node_ensure_node.
Qed.

Lemma has_edge_add_edge :
  forall G fresh u v a b,
    has_edge (add_edge fresh u v G) a b =
    has_edge G a b || edge_eqb (a, b) (u, v).
Proof.
  intros. unfold add_edge.
  destruct (has_edge (ensure_node fresh v (ensure_node fresh u G)) u v) eqn:E.
  - rewrite !has_edge_ensure_node in *.
    destruct (edge_eqb (a, b) (u, v)) eqn:Eab.
    + unfold edge_eqb in Eab. cbn in Eab. apply andb_true_iff in Eab.
      destruct Eab as [E1 E2]. apply String.eqb_eq in E1, E2. subst.
      rewrite E. reflexivity.
    + now rewrite orb_false_r.
  - unfold has_edge at 1. cbn. rewrite existsb_app. cbn.
    rewrite orb_false_r. fold (has_edge (ensure_node fresh v (ensure_node fresh u G)) a b).
    now rewrite !has_edge_ensure_node.
Qed.

(** The nodes of [G'] are those of [G] with their attribute objects, and
    besides them only nodes fresh from the factory. *)
Definition extends_fresh (fresh : A) G G' : Prop :=
  forall k, match assoc k (dg_nodes G) with
            | Some a => assoc k (dg_nodes G') = Some a
            | None => assoc k (dg_nodes G') = None \/
                      assoc k (dg_nodes G') = Some fresh
            end.

Lemma extends_fresh_refl : forall fresh G, extends_fresh fresh G G.
Proof.
  intros fresh G k. destruct (assoc k (dg_nodes G)); auto.
Qed.

Lemma extends_fresh_trans :
  forall fresh G1 G2 G3,
    extends_fresh fresh G1 G2 -> extends_fresh fresh G2 G3 ->
    extends_fresh fresh G1 G3.
Proof.
  intros fresh G1 G2 G3 H12 H23 k. specialize (H12 k). specialize (H23 k).
  destruct (assoc k (dg_nodes G1)).
  - now rewrite H12 in H23.
  - destruct H12 as [H|H]; rewrite H in H23; auto.
Qed.

Lemma extends_fresh_ensure_node :
  forall fresh G n, extends_fresh fresh G (ensure_node fresh n G).
Proof.
  intros fresh G n k. rewrite assoc_ensure_node.
  destruct (assoc k (dg_nodes G)); [reflexivity|].
  destruct (String.eqb k n); [destruct (has_node G n)|]; auto.
Qed.

Lemma extends_fresh_add_edge :
  forall fresh G u v, extends_fresh fresh G (add_edge fresh u v G).
Proof.
  intros fresh G u v.
  apply extends_fresh_trans with (ensure_node fresh u G);
    [apply extends_fresh_ensure_node|].
  intros k. rewrite dg_nodes_add_edge.
  apply (extends_fresh_ensure_node fresh (ensure_node fresh u G) v k).
Qed.

End GraphLemmas.

(** ** Dict lemmas *)

Lemma dict_get_del_other :
  forall d k k', k <> k' -> dict_get k (dict_del k' d) = dict_get k d.
Proof.
  induction d as [|[k0 v0] d IH]; intros k k' Hk; cbn; [reflexivity|].
  destruct (String.eqb k' k0) eqn:E.
  - apply String.eqb_eq in E. subst k0.
    apply String.eqb_neq in Hk. now rewrite Hk.
  - cbn. destruct (String.eqb k k0); [reflexivity | now apply IH].
Qed.

Lemma dict_get_set_same :
  forall d k v, dict_get k (dict_set k v d) = Some v.
Proof.
  induction d as [|[k0 v0] d IH]; intros k v; cbn.
  - now rewrite String.eqb_refl.
  - destruct (String.eqb k k0) eqn:E; cbn.
    + now rewrite String.eqb_refl.
    + rewrite E. apply IH.
Qed.

Lemma dict_get_set_other :
  forall d k k' v, k <> k' -> dict_get k (dict_set k' v d) = dict_get k d.
Proof.
  induction d as [|[k0 v0] d IH]; intros k k' v Hk; cbn.
  - apply String.eqb_neq in Hk. now rewrite Hk.
  - destruct (String.eqb k' k0) eqn:E; cbn.
    + apply String.eqb_eq in E. subst k0.
      apply String.eqb_neq in Hk. now rewrite Hk.
    + destruct (String.eqb k k0); [reflexivity | now apply IH].
Qed.

(** ** Acyclic graphs *)

Section Acyclic.

Context {A : Type}.
Implicit Types (G : DiGraph A).

(** [u -> v] is an edge of the graph. *)
Definition edge G (u v : string) : Prop := In (u, v) (dg_edges G).

(** What networkx keeps true of a graph: a key names one node, an edge is
    stored once, and both ends of an edge are nodes. *)
Definition wf_graph G : Prop :=
  NoDup (node_keys G) /\ NoDup (dg_edges G) /\
  forall u v, edge G u v -> In u (node_keys G) /\ In v (node_keys G).

(** No node reaches itself along one or more edges. *)
Definition acyclic G : Prop :=
  forall u, ~ clos_trans string (edge G) u u.

Lemma succ_list_In :
  forall G u v, In v (succ_list G u) <-> edge G u v.
Proof.
  intros G u v. unfold succ_list, edge. rewrite in_map_iff. split.
  - intros ([a b] & Hb & Hin). cbn in Hb. subst b.
    apply filter_In in Hin. destruct Hin as [Hin Ha]. cbn in Ha.
    apply String.eqb_eq in Ha. now subst a.
  - intros Hin. exists (u, v). split; [reflexivity|].
    apply filter_In. split; [assumption|]. cbn. apply String.eqb_refl.
Qed.

Lemma succ_list_NoDup :
  forall G u, NoDup (dg_edges G) -> NoDup (succ_list G u).
Proof.
  intros G u. unfold succ_list. induction (dg_edges G) as [|[a b] l IH];
    intros Hnd; cbn.
  - constructor.
  - inversion Hnd as [|? ? Hnin Hnd']; subst.
    destruct (String.eqb a u) eqn:E; cbn; [|now apply IH].
    apply String.eqb_eq in E. subst a. constructor; [|now apply IH].
    intros Hin. apply in_map_iff in Hin. destruct Hin as ([a' b'] & Hb & Hin).
    cbn in Hb. subst b'. apply filter_In in Hin. destruct Hin as [Hin Ha].
    cbn in Ha. apply String.eqb_eq in Ha. subst a'. contradiction.
Qed.

(** In an acyclic graph every non-empty list of nodes has a member that
    no member reaches.  The statement is doubly negated, so that no
    decision of reachability is needed. *)
Lemma acyclic_minimal :
  forall G, acyclic G ->
  forall S, S <> [] ->
    ~ ~ exists v, In v S /\ forall u, In u S -> ~ clos_trans string (edge G) u v.
Proof.
  intros G Hac S. induction S as [|a S IH]; intros Hne Hno; [congruence|].
  destruct S as [|b S].
  - apply Hno. exists a. split; [now left|].
    intros u [<-|[]]. apply Hac.
  - apply IH; [discriminate|]. intros (v & Hv & Hmin).
    assert (Hem : ~ ~ (clos_trans string (edge G) a v \/
                       ~ clos_trans string (edge G) a v)) by tauto.
    apply Hem. intros [Hav|Hnav].
    + apply Hno. exists a. split; [now left|].
      intros u [<-|Hu]; [apply Hac|].
      intros Hua. apply (Hmin u Hu). eapply t_trans; eauto.
    + apply Hno. exists v. split; [now right|].
      intros u [<-|Hu]; [assumption | now apply Hmin].
Qed.

(** So a non-empty list of nodes in which every member has a predecessor
    in the list cannot exist. *)
Lemma acyclic_no_closed_set :
  forall G, acyclic G ->
  forall S, S <> [] ->
    (forall v, In v S -> exists u, In u S /\ edge G u v) -> False.
Proof.
  intros G Hac S Hne Hpred.
  apply (acyclic_minimal G Hac S Hne). intros (v & Hv & Hmin).
  destruct (Hpred v Hv) as (u & Hu & Huv).
  apply (Hmin u Hu). now apply t_step.
Qed.

End Acyclic.

(** ** The indegree map of the topological sort *)

Lemma imap_get_In :
  forall m k, In k (map fst m) <-> exists d, imap_get k m = Some d.
Proof.
  induction m as [|[k' d'] m IH]; intros k; cbn.
  - split; [tauto | intros (d & H); discriminate].
  - destruct (String.eqb k k') eqn:E.
    + apply String.eqb_eq in E. subst. split; eauto.
    + apply String.eqb_neq in E. rewrite <- IH. split.
      * intros [H|H]; [congruence | assumption].
      * auto.
Qed.

Lemma imap_get_None :
  forall m k, ~ In k (map fst m) <-> imap_get k m = None.
Proof.
  intros m k. rewrite imap_get_In. destruct (imap_get k m); split; intros H;
    try discriminate; try reflexivity.
  - exfalso. eauto.
  - intros (d & Hd). discriminate.
Qed.

Lemma imap_get_set :
  forall m k d v,
    imap_get v (imap_set k d m) =
    if String.eqb v k then Some d else imap_get v m.
Proof.
  induction m as [|[k' d'] m IH]; intros k d v; cbn.
  - destruct (String.eqb v k); reflexivity.
  - destruct (String.eqb k k') eqn:E; cbn.
    + apply String.eqb_eq in E. subst k'.
      destruct (String.eqb v k); reflexivity.
    + rewrite IH. destruct (String.eqb v k') eqn:E'; [|reflexivity].
      apply String.eqb_eq in E'. subst k'.
      rewrite String.eqb_sym in E. now rewrite E.
Qed.

Lemma imap_set_keys :
  forall m k d d0,
    imap_get k m = Some d0 -> map fst (imap_set k d m) = map fst m.
Proof.
  induction m as [|[k' d'] m IH]; intros k d d0; cbn; [discriminate|].
  destruct (String.eqb k k') eqn:E; cbn.
  - apply String.eqb_eq in E. now subst.
  - intros H. f_equal. eapply IH; eauto.
Qed.

Lemma imap_get_del :
  forall m k v,
    NoDup (map fst m) ->
    imap_get v (imap_del k m) =
    if String.eqb v k then None else imap_get v m.
Proof.
  induction m as [|[k' d'] m IH]; intros k v Hnd; cbn.
  - destruct (String.eqb v k); reflexivity.
  - cbn in Hnd. inversion Hnd as [|? ? Hnin Hnd']; subst.
    destruct (String.eqb k k') eqn:E; cbn.
    + apply String.eqb_eq in E. subst k'.
      destruct (String.eqb v k) eqn:E'; [|reflexivity].
      apply String.eqb_eq in E'. subst v. now apply imap_get_None.
    + rewrite IH by assumption.
      destruct (String.eqb v k') eqn:E'; [|reflexivity].
      apply String.eqb_eq in E'. subst k'.
      rewrite String.eqb_sym in E. now rewrite E.
Qed.

Lemma imap_del_NoDup :
  forall m k, NoDup (map fst m) -> NoDup (map fst (imap_del k m)).
Proof.
  induction m as [|[k' d'] m IH]; intros k Hnd; cbn; [constructor|].
  cbn in Hnd. inversion Hnd as [|? ? Hnin Hnd']; subst.
  destruct (String.eqb k k') eqn:E; cbn; [assumption|].
  constructor; [|now apply IH].
  intros Hin. apply imap_get_In in Hin. destruct Hin as [d Hd].
  rewrite imap_get_del in Hd by assumption.
  destruct (String.eqb k' k); [discriminate|].
  apply Hnin. apply imap_get_In. eauto.
Qed.

Lemma imap_set_length :
  forall m k d d0,
    imap_get k m = Some d0 -> List.length (imap_set k d m) = List.length m.
Proof.
  intros m k d d0 H. rewrite <- (length_map fst (imap_set k d m)).
  rewrite (imap_set_keys m k d d0 H). apply length_map.
Qed.

Lemma imap_del_length :
  forall m k d0,
    imap_get k m = Some d0 ->
    S (List.length (imap_del k m)) = List.length m.
Proof.
  induction m as [|[k' d'] m IH]; intros k d0; cbn; [discriminate|].
  destruct (String.eqb k k') eqn:E; cbn; [reflexivity|].
  intros H. f_equal. eapply IH; eauto.
Qed.

(** What the loop over the children of a node does to the map and to
    [zero_indegree], when every child has a count. *)
Lemma relax_children :
  forall cs m z,
    NoDup cs -> NoDup (map fst m) ->
    (forall c, In c cs -> exists d, imap_get c m = Some d) ->
    exists m',
      foldM relax_child cs (m, z) =
        Ok (m', z ++ filter (fun c => match imap_get c m with
                                      | Some d => Z.eqb (d - 1) 0
                                      | None => false
                                      end) cs) /\
      NoDup (map fst m') /\
      (forall v,
         imap_get v m' =
         match imap_get v m with
         | Some d => if mem v cs
                     then if Z.eqb (d - 1) 0 then None else Some (d - 1)%Z
                     else Some d
         | None => None
         end) /\
      (List.length m' +
       List.length (filter (fun c => match imap_get c m with
                                     | Some d => Z.eqb (d - 1) 0
                                     | None => false
                                     end) cs)
       = List.length m)%nat.
Proof.
  induction cs as [|c cs IH]; intros m z Hcs Hm Hall.
  - exists m. cbn. rewrite app_nil_r. repeat split; auto.
    intros v. destruct (imap_get v m); reflexivity.
  - inversion Hcs as [|? ? Hnin Hcs']; subst.
    destruct (Hall c (or_introl eq_refl)) as [d Hd].
    cbn [foldM]. unfold relax_child at 1. rewrite Hd.
    set (m1 := imap_set c (d - 1)%Z m).
    assert (Hm1 : NoDup (map fst m1)).
    { unfold m1. now rewrite (imap_set_keys m c _ d Hd). }
    set (m2 := if Z.eqb (d - 1) 0 then imap_del c m1 else m1).
    set (z2 := if Z.eqb (d - 1) 0 then z ++ [c] else z).
    assert (Hstep : (if Z.eqb (d - 1) 0 then Ok (imap_del c m1, z ++ [c])
                     else Ok (m1, z)) = Ok (m2, z2)).
    { unfold m2, z2. destruct (Z.eqb (d - 1) 0); reflexivity. }
    rewrite Hstep. cbn [bind].
    assert (Hm2 : NoDup (map fst m2)).
    { unfold m2. destruct (Z.eqb (d - 1) 0); [now apply imap_del_NoDup|assumption]. }
    assert (Hget2 : forall v, imap_get v m2 =
                      if String.eqb v c
                      then if Z.eqb (d - 1) 0 then None else Some (d - 1)%Z
                      else imap_get v m).
    { intros v. unfold m2. destruct (Z.eqb (d - 1) 0).
      - rewrite imap_get_del by assumption. unfold m1. rewrite imap_get_set.
        destruct (String.eqb v c); reflexivity.
      - unfold m1. rewrite imap_get_set. reflexivity. }
    assert (Hother : forall v, In v cs -> imap_get v m2 = imap_get v m).
    { intros v Hv. rewrite Hget2.
      destruct (String.eqb v c) eqn:E; [|reflexivity].
      apply String.eqb_eq in E. subst v. contradiction. }
    destruct (IH m2 z2 Hcs' Hm2) as (m' & Hf & Hnd' & Hget' & Hlen').
    { intros c' Hc'. rewrite (Hother c' Hc'). apply Hall. now right. }
    assert (Hfilt : filter (fun c0 => match imap_get c0 m2 with
                                      | Some d0 => Z.eqb (d0 - 1) 0
                                      | None => false
                                      end) cs
                    = filter (fun c0 => match imap_get c0 m with
                                        | Some d0 => Z.eqb (d0 - 1) 0
                                        | None => false
                                        end) cs).
    { apply filter_ext_in. intros v Hv. now rewrite (Hother v Hv). }
    rewrite Hfilt in Hf, Hlen'.
    exists m'. split.
    { eapply eq_trans; [exact Hf|]. f_equal. f_equal. cbn [filter].
      rewrite Hd. unfold z2.
      destruct (Z.eqb (d - 1) 0); [now rewrite <- app_assoc | reflexivity]. }
    split; [assumption|]. split.
    { intros v. rewrite Hget', Hget2. cbn [mem existsb].
      fold (mem v cs).
      destruct (String.eqb v c) eqn:E.
      - apply String.eqb_eq in E. subst v. rewrite Hd.
        assert (mem c cs = false) as -> by now apply mem_false_not_In.
        cbn. destruct (Z.eqb (d - 1) 0); reflexivity.
      - cbn. reflexivity. }
    { cbn [filter]. rewrite Hd.
      assert (Hl2 : (List.length m2 + (if Z.eqb (d - 1) 0 then 1 else 0)
                     = List.length m)%nat).
      { unfold m2. destruct (Z.eqb (d - 1) 0).
        - assert (Hd1 : imap_get c m1 = Some (d - 1)%Z).
          { unfold m1. rewrite imap_get_set. now rewrite String.eqb_refl. }
          pose proof (imap_del_length m1 c _ Hd1) as H1.
          unfold m1 in H1 at 2. rewrite (imap_set_length m c _ d Hd) in H1. lia.
        - unfold m1. rewrite (imap_set_length m c _ d Hd). lia. }
      destruct (Z.eqb (d - 1) 0); cbn [List.length]; lia. }
Qed.

(** ** The topological sort of an acyclic graph *)

(** An edge into [v] whose source is not in [done]. *)
Definition open_into (v : string) (done : list string) (e : string * string)
  : bool :=
  String.eqb (snd e) v && negb (mem (fst e) done).

(** Among the edges [l], the number of those. *)
Definition count_open (l : list (string * string)) (done : list string)
  (v : string) : Z :=
  Z.of_nat (List.length (filter (open_into v done) l)).

Lemma open_into_pair :
  forall v done a b,
    open_into v done (a, b) = String.eqb b v && negb (mem a done).
Proof. reflexivity. Qed.

Lemma mem_cons :
  forall x y l, mem x (y :: l) = String.eqb x y || mem x l.
Proof. reflexivity. Qed.

Lemma count_open_nonneg : forall l done v, (0 <= count_open l done v)%Z.
Proof. intros. unfold count_open. lia. Qed.

Lemma count_open_pos :
  forall l done v,
    (0 < count_open l done v)%Z <->
    exists u, In (u, v) l /\ ~ In u done.
Proof.
  intros l done v. unfold count_open. split.
  - intros H.
    destruct (filter (open_into v done) l) as [|[a b] r] eqn:E;
      [cbn in H; lia|].
    assert (Hin : In (a, b) (filter (open_into v done) l))
      by (rewrite E; now left).
    apply filter_In in Hin. destruct Hin as [Hin Hp].
    unfold open_into in Hp. cbn in Hp.
    apply andb_true_iff in Hp. destruct Hp as [Hb Hm].
    apply String.eqb_eq in Hb. subst b.
    apply negb_true_iff in Hm. apply mem_false_not_In in Hm. eauto.
  - intros (u & Hin & Hnd).
    assert (Hin' : In (u, v) (filter (open_into v done) l)).
    { apply filter_In. split; [assumption|]. unfold open_into. cbn.
      rewrite String.eqb_refl. apply mem_false_not_In in Hnd. now rewrite Hnd. }
    destruct (filter _ l); [contradiction | cbn; lia].
Qed.

Lemma count_open_cons :
  forall l done u v,
    NoDup l -> ~ In u done ->
    count_open l (u :: done) v =
    (count_open l done v
     - (if mem v (map snd (filter (fun e => String.eqb (fst e) u) l))
        then 1 else 0))%Z.
Proof.
  unfold count_open. induction l as [|[a b] l IH]; intros done u v Hnd Hu.
  - reflexivity.
  - inversion Hnd as [|? ? Hnin Hnd']; subst.
    specialize (IH done u v Hnd' Hu).
    cbn [filter]. rewrite !open_into_pair.
    rewrite mem_cons.
    destruct (String.eqb a u) eqn:Ea.
    + apply String.eqb_eq in Ea. subst a.
      assert (Hmu : mem u done = false) by now apply mem_false_not_In.
      rewrite Hmu. cbn [orb negb fst]. rewrite String.eqb_refl.
      cbn [map snd]. rewrite mem_cons. rewrite andb_false_r, andb_true_r.
      destruct (String.eqb b v) eqn:Eb.
      * apply String.eqb_eq in Eb. subst b. rewrite String.eqb_refl.
        cbn [orb andb List.length].
        assert (Hnm : mem v (map snd (filter (fun e => String.eqb (fst e) u) l))
                      = false).
        { apply mem_false_not_In. intros Hin. apply in_map_iff in Hin.
          destruct Hin as ([a' b'] & Hb & Hin). cbn in Hb. subst b'.
          apply filter_In in Hin. destruct Hin as [Hin Ha]. cbn in Ha.
          apply String.eqb_eq in Ha. subst a'. contradiction. }
        rewrite Hnm in IH. lia.
      * rewrite (String.eqb_sym v b), Eb. cbn [orb andb]. exact IH.
    + cbn [orb fst]. rewrite Ea.
      destruct (String.eqb b v && negb (mem a done)); cbn [List.length];
        lia.
Qed.

Section Kahn.

Context {A : Type} (G : DiGraph A).
Hypothesis Hwf : wf_graph G.

(** The edges into [v] from nodes not yet visited. *)
Definition remaining (done : list string) (v : string) : Z :=
  count_open (dg_edges G) done v.

Lemma in_degree_remaining : forall v, in_degree G v = remaining [] v.
Proof.
  intros v. unfold in_degree, remaining, count_open. do 2 f_equal.
  apply filter_ext. intros e. unfold open_into. cbn. now rewrite andb_true_r.
Qed.

Lemma remaining_pos :
  forall done v,
    (0 < remaining done v)%Z <-> exists u, edge G u v /\ ~ In u done.
Proof. intros. apply count_open_pos. Qed.

Lemma remaining_cons :
  forall done u v,
    ~ In u done ->
    remaining (u :: done) v =
    (remaining done v - (if mem v (succ_list G u) then 1 else 0))%Z.
Proof.
  intros. unfold remaining, succ_list. apply count_open_cons; [apply Hwf|assumption].
Qed.

(** The state of the sort between two nodes: [done] are the nodes
    visited, [queue] those known to have no edge left coming in and
    waiting to be visited, and [m] holds the others with their count. *)
Definition sort_inv (m : imap) (done queue : list string) : Prop :=
  NoDup (map fst m) /\
  (forall v d, imap_get v m = Some d -> d = remaining done v /\ (0 < d)%Z) /\
  (forall v, In v queue \/ In v done ->
             remaining done v = 0%Z /\ imap_get v m = None) /\
  (forall v, In v (node_keys G) ->
             imap_get v m <> None \/ In v done \/ In v queue) /\
  NoDup queue /\
  (forall v, In v queue -> ~ In v done /\ In v (node_keys G)).

Lemma visit_node_inv :
  forall m done u rest z,
    sort_inv m done (u :: rest ++ z) ->
    exists m' znew,
      visit_node G (m, z) u = Ok (m', z ++ znew) /\
      sort_inv m' (u :: done) (rest ++ z ++ znew) /\
      (List.length m' + List.length znew = List.length m)%nat.
Proof.
  intros m done u rest z (Hnd & Hcnt & Hzero & Hcov & Hq & Hqin).
  destruct (Hqin u (or_introl eq_refl)) as [Hud HuV].
  destruct (Hzero u (or_introl (or_introl eq_refl))) as [Hu0 Hum].
  set (cs := succ_list G u).
  assert (Hcs : NoDup cs) by (apply succ_list_NoDup; apply Hwf).
  assert (Hchild : forall c, In c cs -> (0 < remaining done c)%Z).
  { intros c Hc. apply remaining_pos. exists u. split; [|assumption].
    now apply succ_list_In. }
  assert (Hcm : forall c, In c cs -> exists d, imap_get c m = Some d).
  { intros c Hc. pose proof (Hchild c Hc) as Hpos.
    assert (HcV : In c (node_keys G)).
    { apply succ_list_In in Hc. now apply Hwf in Hc. }
    destruct (Hcov c HcV) as [H|H].
    - destruct (imap_get c m); [eauto | congruence].
    - assert (Hz : remaining done c = 0%Z).
      { apply Hzero. destruct H; auto. }
      lia. }
  destruct (relax_children cs m z Hcs Hnd Hcm) as (m' & Hf & Hnd' & Hget & Hlen).
  set (znew := filter (fun c => match imap_get c m with
                                | Some d => Z.eqb (d - 1) 0
                                | None => false
                                end) cs) in *.
  exists m', znew. split.
  { unfold visit_node. unfold has_node.
    apply mem_In in HuV. rewrite HuV. exact Hf. }
  split; [|exact Hlen].
  assert (Hznew : forall v, In v znew <->
                    In v cs /\ imap_get v m = Some 1%Z).
  { intros v. unfold znew. rewrite filter_In. split.
    - intros [Hv Hd]. split; [assumption|].
      destruct (imap_get v m) as [d|]; [|discriminate].
      apply Z.eqb_eq in Hd. f_equal. lia.
    - intros [Hv Hd]. split; [assumption|]. now rewrite Hd. }
  assert (Hrem : forall v, remaining (u :: done) v =
                   (remaining done v - (if mem v cs then 1 else 0))%Z).
  { intros v. now apply remaining_cons. }
  assert (Hnotchild : forall v, remaining done v = 0%Z -> mem v cs = false).
  { intros v Hv. apply mem_false_not_In. intros Hc.
    specialize (Hchild v Hc). lia. }
  unfold sort_inv. split; [assumption|]. split.
  { intros v d' Hd'. rewrite Hget in Hd'.
    destruct (imap_get v m) as [d|] eqn:Hd; [|discriminate].
    destruct (Hcnt v d Hd) as [Hdr Hdp]. rewrite Hrem.
    destruct (mem v cs).
    - destruct (Z.eqb (d - 1) 0) eqn:E; [discriminate|].
      apply Z.eqb_neq in E. inversion Hd'; subst d'. lia.
    - inversion Hd'; subst d'. lia. }
  split.
  { intros v Hv.
    assert (Hcases : (In v (u :: rest ++ z) \/ In v done) \/ In v znew).
    { destruct Hv as [Hv|[Hv|Hv]]; [|now left; left; left; auto|now left; right].
      apply in_app_iff in Hv. destruct Hv as [Hv|Hv];
        [left; left; right; apply in_app_iff; now left|].
      apply in_app_iff in Hv. destruct Hv as [Hv|Hv];
        [left; left; right; apply in_app_iff; now right | now right]. }
    destruct Hcases as [Hold|Hnew].
    - destruct (Hzero v Hold) as [Hr Hm]. rewrite Hrem, Hr.
      rewrite (Hnotchild v Hr). split; [lia|].
      rewrite Hget, Hm. reflexivity.
    - apply Hznew in Hnew. destruct Hnew as [Hc Hd].
      destruct (Hcnt v _ Hd) as [Hr _]. rewrite Hrem, <- Hr.
      apply mem_In in Hc. rewrite Hc. split; [lia|].
      rewrite Hget, Hd, Hc. reflexivity. }
  split.
  { intros v HvV. destruct (Hcov v HvV) as [H|[H|H]].
    - destruct (imap_get v m) as [d|] eqn:Hd; [|congruence].
      destruct (mem v cs) eqn:Hc.
      + destruct (Z.eqb (d - 1) 0) eqn:E.
        * right. right. apply in_app_iff. right. apply in_app_iff. right.
          apply Hznew. split; [now apply mem_In|].
          apply Z.eqb_eq in E. rewrite Hd. f_equal. lia.
        * left. rewrite Hget, Hd, Hc, E. discriminate.
      + left. rewrite Hget, Hd, Hc. discriminate.
    - right. left. now right.
    - destruct H as [<-|H]; [right; left; now left|].
      right. right. apply in_app_iff in H. rewrite !in_app_iff. tauto. }
  assert (Hznd : NoDup znew) by (unfold znew; now apply NoDup_filter).
  assert (Hdisj : forall v, In v znew -> ~ In v (u :: rest ++ z)).
  { intros v Hv Hold. apply Hznew in Hv. destruct Hv as [_ Hd].
    destruct (Hzero v (or_introl Hold)) as [_ Hm]. congruence. }
  split.
  { inversion Hq as [|? ? Hunin Hq']; subst.
    rewrite app_assoc. apply NoDup_app; [assumption|assumption|].
    intros v Hv Hv'. apply (Hdisj v Hv'). now right. }
  { intros v Hv. rewrite app_assoc in Hv. apply in_app_iff in Hv.
    destruct Hv as [Hv|Hv].
    - destruct (Hqin v (or_intror Hv)) as [Hvd HvV]. split; [|assumption].
      intros [<-|Hd]; [|contradiction].
      inversion Hq; subst. contradiction.
    - split.
      + intros [<-|Hd].
        * apply (Hdisj u Hv). now left.
        * apply Hznew in Hv. destruct Hv as [_ Hm].
          destruct (Hzero v (or_intror Hd)) as [_ Hn]. congruence.
      + apply Hznew in Hv. destruct Hv as [Hc _].
        apply succ_list_In in Hc. now apply Hwf in Hc. }
Qed.

End Kahn.

Section KahnLoop.

Context {A : Type} (G : DiGraph A).
Hypothesis Hwf : wf_graph G.

(** One generation is visited without error, and what leaves the map
    enters the next generation. *)
Lemma visit_generation_inv :
  forall gen m done z,
    sort_inv G m done (gen ++ z) ->
    exists m' z' done',
      foldM (visit_node G) gen (m, z) = Ok (m', z') /\
      sort_inv G m' done' z' /\
      (List.length m' + List.length z' = List.length m + List.length z)%nat.
Proof.
  induction gen as [|u gen IH]; intros m done z Hinv.
  - exists m, z, done. cbn. auto.
  - cbn [app] in Hinv.
    destruct (visit_node_inv G Hwf m done u gen z Hinv)
      as (m1 & znew & Hv & Hinv1 & Hlen1).
    destruct (IH m1 (u :: done) (z ++ znew)) as (m' & z' & done' & Hf & Hinv' & Hlen').
    { exact Hinv1. }
    exists m', z', done'. cbn [foldM]. rewrite Hv. cbn [bind].
    split; [exact Hf|]. split; [exact Hinv'|].
    rewrite length_app in Hlen'. lia.
Qed.

Hypothesis Hac : acyclic G.

(** The [while] loop ends normally within its bound: when no node waits
    any more, the map is empty, for its nodes would each have a
    predecessor among them. *)
Lemma generations_loop_ends :
  forall fuel m zero done,
    sort_inv G m done zero ->
    (zero <> [] -> List.length m < fuel)%nat ->
    snd (generations_loop fuel G m zero) = Ok tt.
Proof.
  induction fuel as [|fuel IH]; intros m zero done Hinv Hfuel.
  - destruct zero as [|u zero]; [|assert (List.length m < 0)%nat by (apply Hfuel; discriminate); lia].
    cbn. destruct m as [|[k d] m]; [reflexivity|]. exfalso.
    destruct Hinv as (Hnd & Hcnt & Hzero & Hcov & Hq & Hqin).
    apply (acyclic_no_closed_set G Hac (map fst ((k, d) :: m))); [discriminate|].
    intros v Hv. apply imap_get_In in Hv. destruct Hv as [dv Hdv].
    destruct (Hcnt v dv Hdv) as [Hr Hp]. subst dv.
    apply (remaining_pos G) in Hp. destruct Hp as (u & Huv & Hud).
    exists u. split; [|assumption].
    assert (HuV : In u (node_keys G)) by now apply Hwf in Huv.
    destruct (Hcov u HuV) as [H|[H|[]]]; [|contradiction].
    apply imap_get_In. destruct (imap_get u ((k, d) :: m)); [eauto|congruence].
  - destruct zero as [|u zero].
    + cbn. destruct m as [|[k d] m]; [reflexivity|]. exfalso.
      destruct Hinv as (Hnd & Hcnt & Hzero & Hcov & Hq & Hqin).
      apply (acyclic_no_closed_set G Hac (map fst ((k, d) :: m))); [discriminate|].
      intros v Hv. apply imap_get_In in Hv. destruct Hv as [dv Hdv].
      destruct (Hcnt v dv Hdv) as [Hr Hp]. subst dv.
      apply (remaining_pos G) in Hp. destruct Hp as (u & Huv & Hud).
      exists u. split; [|assumption].
      assert (HuV : In u (node_keys G)) by now apply Hwf in Huv.
      destruct (Hcov u HuV) as [H|[H|[]]]; [|contradiction].
      apply imap_get_In. destruct (imap_get u ((k, d) :: m)); [eauto|congruence].
    + cbn [generations_loop].
      destruct (visit_generation_inv (u :: zero) m done [])
        as (m' & z' & done' & Hf & Hinv' & Hlen).
      { now rewrite app_nil_r. }
      rewrite Hf.
      specialize (IH m' z' done' Hinv').
      destruct (generations_loop fuel G m' z') as [gs fin]. cbn in *.
      apply IH. intros Hne.
      assert (List.length m < S fuel)%nat by (apply Hfuel; discriminate).
      destruct z'; [congruence|]. cbn in Hlen. lia.
Qed.

Lemma imap_get_initial :
  forall (f : string -> Z) keys v,
    imap_get v (filter (fun vd => Z.ltb 0 (snd vd))
                       (map (fun k => (k, f k)) keys)) =
    if mem v keys && Z.ltb 0 (f v) then Some (f v) else None.
Proof.
  intros f keys v. induction keys as [|k keys IH]; cbn [map filter snd].
  - reflexivity.
  - rewrite mem_cons. destruct (String.eqb v k) eqn:E.
    + apply String.eqb_eq in E. subst k. cbn [orb andb].
      destruct (Z.ltb 0 (f v)) eqn:Ef.
      * cbn. now rewrite String.eqb_refl.
      * rewrite IH. now rewrite andb_false_r.
    + cbn [orb]. destruct (Z.ltb 0 (f k)); [|exact IH].
      cbn. rewrite E. exact IH.
Qed.

Lemma initial_keys :
  forall (f : string -> Z) keys,
    map fst (filter (fun vd => Z.ltb 0 (snd vd))
                    (map (fun k => (k, f k)) keys))
    = filter (fun k => Z.ltb 0 (f k)) keys.
Proof.
  intros f keys. induction keys as [|k keys IH]; cbn; [reflexivity|].
  destruct (Z.ltb 0 (f k)); cbn; now rewrite IH.
Qed.

(** The sort starts in a state of the invariant. *)
Lemma sort_inv_initially :
  sort_inv G
    (filter (fun vd => Z.ltb 0 (snd vd))
            (map (fun v => (v, in_degree G v)) (node_keys G)))
    []
    (filter (fun v => Z.eqb (in_degree G v) 0) (node_keys G)).
Proof.
  destruct Hwf as (HV & HE & Hends).
  unfold sort_inv. split.
  { rewrite initial_keys. now apply NoDup_filter. }
  split.
  { intros v d Hd. rewrite imap_get_initial in Hd.
    destruct (mem v (node_keys G) && Z.ltb 0 (in_degree G v)) eqn:E;
      [|discriminate].
    inversion Hd; subst d. apply andb_true_iff in E. destruct E as [_ E].
    apply Z.ltb_lt in E. split; [apply in_degree_remaining | assumption]. }
  split.
  { intros v [Hv|[]]. apply filter_In in Hv. destruct Hv as [HvV Hz].
    apply Z.eqb_eq in Hz. split.
    - now rewrite <- in_degree_remaining.
    - rewrite imap_get_initial, Hz. now rewrite andb_false_r. }
  split.
  { intros v HvV. destruct (Z.ltb 0 (in_degree G v)) eqn:E.
    - left. rewrite imap_get_initial, E.
      apply mem_In in HvV. rewrite HvV. discriminate.
    - right. right. apply filter_In. split; [assumption|].
      apply Z.ltb_ge in E. apply Z.eqb_eq.
      pose proof (count_open_nonneg (dg_edges G) [] v) as Hn.
      rewrite in_degree_remaining in *. unfold remaining in *. lia. }
  split.
  { now apply NoDup_filter. }
  { intros v Hv. apply filter_In in Hv. tauto. }
Qed.

(** The topological sort of an acyclic graph ends normally. *)
Theorem topological_sort_of_acyclic :
  snd (topological_sort G) = Ok tt.
Proof.
  unfold topological_sort.
  pose proof (generations_loop_ends
                (2 + List.length
                       (filter (fun vd => Z.ltb 0 (snd vd))
                          (map (fun v => (v, in_degree G v)) (node_keys G))))
                _ _ [] sort_inv_initially) as H.
  unfold topological_generations.
  destruct (generations_loop _ G _ _) as [gs fin]. cbn in *.
  apply H. intros _. lia.
Qed.

Corollary acyclic_is_directed_acyclic_graph :
  is_directed_acyclic_graph G = Ok true.
Proof.
  unfold is_directed_acyclic_graph. now rewrite topological_sort_of_acyclic.
Qed.

End KahnLoop.

(** ** The step bound of the topological sort *)

Lemma relax_child_length :
  forall m z c m' z',
    relax_child (m, z) c = Ok (m', z') ->
    (List.length m' + List.length z' = List.length m + List.length z)%nat.
Proof.
  intros m z c m' z'. unfold relax_child.
  destruct (imap_get c m) as [d|] eqn:Hd; [|discriminate].
  destruct (Z.eqb (d - 1) 0); intros H; inversion H; subst.
  - assert (Hd1 : imap_get c (imap_set c (d - 1)%Z m) = Some (d - 1)%Z).
    { rewrite imap_get_set. now rewrite String.eqb_refl. }
    pose proof (imap_del_length _ c _ Hd1) as H1.
    rewrite (imap_set_length m c _ d Hd) in H1.
    rewrite length_app. cbn. lia.
  - now rewrite (imap_set_length m c _ d Hd).
Qed.

Lemma foldM_length_inv :
  forall {X} (body : imap * list string -> X -> result (imap * list string)),
    (forall m z x m' z',
        body (m, z) x = Ok (m', z') ->
        (List.length m' + List.length z' = List.length m + List.length z)%nat) ->
    forall xs m z m' z',
      foldM body xs (m, z) = Ok (m', z') ->
      (List.length m' + List.length z' = List.length m + List.length z)%nat.
Proof.
  intros X body Hbody xs. induction xs as [|x xs IH]; intros m z m' z'; cbn.
  - intros H. inversion H. reflexivity.
  - destruct (body (m, z) x) as [[m1 z1]|e|] eqn:E; cbn; try discriminate.
    intros H. rewrite (IH _ _ _ _ H). eapply Hbody; eauto.
Qed.

Lemma visit_node_length :
  forall {A} (G : DiGraph A) m z u m' z',
    visit_node G (m, z) u = Ok (m', z') ->
    (List.length m' + List.length z' = List.length m + List.length z)%nat.
Proof.
  intros A G m z u m' z'. unfold visit_node.
  destruct (has_node G u); [|discriminate].
  apply foldM_length_inv. intros. eapply relax_child_length; eauto.
Qed.

Lemma foldM_returns :
  forall {X S} (body : S -> X -> result S),
    (forall s x, body s x <> OutOfFuel) ->
    forall xs s, foldM body xs s <> OutOfFuel.
Proof.
  intros X S body Hbody xs. induction xs as [|x xs IH]; intros s; cbn.
  - discriminate.
  - pose proof (Hbody s x) as Hb.
    destruct (body s x); cbn; [apply IH | discriminate | congruence].
Qed.

Lemma visit_node_returns :
  forall {A} (G : DiGraph A) st u, visit_node G st u <> OutOfFuel.
Proof.
  intros A G st u. unfold visit_node.
  destruct (has_node G u); [|discriminate].
  apply foldM_returns. intros [m z] c. unfold relax_child.
  destruct (imap_get c m); [|discriminate].
  destruct (Z.eqb _ 0); discriminate.
Qed.

(** On any graph, cyclic or not, the [while] loop of the sort ends within
    the bound the model gives it. *)
Lemma generations_loop_within_bound :
  forall {A} (G : DiGraph A) fuel m zero,
    (List.length m < fuel)%nat ->
    snd (generations_loop fuel G m zero) <> OutOfFuel.
Proof.
  intros A G. induction fuel as [|fuel IH]; intros m zero Hlt; [lia|].
  destruct zero as [|u zero]; cbn [generations_loop].
  - cbn. destruct m; discriminate.
  - pose proof (foldM_returns (visit_node G) (visit_node_returns G)
                  (u :: zero) (m, [])) as Hret.
    match goal with
    | |- context [foldM ?f ?l ?s] =>
        destruct (foldM f l s) as [[m' z']|e|] eqn:E
    end; cbn [snd]; [|discriminate|exfalso; apply Hret; exact E].
    pose proof (foldM_length_inv (visit_node G)
                  (visit_node_length G) _ _ _ _ _ E) as Hlen.
    cbn in Hlen.
    destruct z' as [|v z'].
    + destruct fuel; cbn; destruct m'; discriminate.
    + specialize (IH m' (v :: z')).
      destruct (generations_loop fuel G m' (v :: z')) as [gs fin].
      cbn in *. apply IH. lia.
Qed.

(** So [topological_sort] yields its order and ends, normally or with an
    exception. *)
Theorem topological_sort_returns :
  forall {A} (G : DiGraph A), snd (topological_sort G) <> OutOfFuel.
Proof.
  intros A G. unfold topological_sort, topological_generations.
  match goal with
  | |- context [generations_loop ?f G ?m ?z] =>
      pose proof (generations_loop_within_bound G f m z) as H;
      destruct (generations_loop f G m z) as [gs fin]
  end.
  cbn in *. apply H. lia.
Qed.

(** ** The order the topological sort yields *)

Section SortOrder.

Context {A : Type} (G : DiGraph A).
Hypothesis Hwf : wf_graph G.

(** In the list of visited nodes, latest first, every predecessor of a
    node lies behind it: it was visited earlier. *)
Definition preds_behind (done : list string) : Prop :=
  forall l1 v l2, done = l1 ++ v :: l2 -> forall u, edge G u v -> In u l2.

Definition visited_ok (done : list string) : Prop :=
  preds_behind done /\ NoDup done /\ incl done (node_keys G).

Lemma remaining_zero_preds :
  forall done v, remaining G done v = 0%Z ->
                 forall u, edge G u v -> In u done.
Proof.
  intros done v Hz u Huv.
  destruct (in_dec string_dec u done) as [Hin|Hnin]; [assumption|].
  assert (0 < remaining G done v)%Z by (apply remaining_pos; eauto). lia.
Qed.

Lemma visited_ok_step :
  forall m done u queue,
    sort_inv G m done (u :: queue) -> visited_ok done ->
    visited_ok (u :: done).
Proof.
  intros m done u queue (Hnd & Hcnt & Hzero & Hcov & Hq & Hqin)
    (Hbehind & Hdn & Hdi).
  destruct (Hqin u (or_introl eq_refl)) as [Hud HuV].
  destruct (Hzero u (or_introl (or_introl eq_refl))) as [Hu0 _].
  split; [|split].
  - intros l1 v l2 Heq w Hwv. destruct l1 as [|x l1]; cbn in Heq.
    + inversion Heq; subst. now apply (remaining_zero_preds l2 v).
    + inversion Heq; subst. now apply (Hbehind l1 v l2 eq_refl).
  - now constructor.
  - intros x [<-|Hx]; [assumption | now apply Hdi].
Qed.

Lemma visit_generation_order :
  forall gen m done z m' z',
    sort_inv G m done (gen ++ z) -> visited_ok done ->
    foldM (visit_node G) gen (m, z) = Ok (m', z') ->
    sort_inv G m' (rev gen ++ done) z' /\ visited_ok (rev gen ++ done).
Proof.
  induction gen as [|u gen IH]; intros m done z m' z' Hinv Hok; cbn [foldM].
  - intros H. inversion H; subst. auto.
  - cbn [app] in Hinv.
    destruct (visit_node_inv G Hwf m done u gen z Hinv)
      as (m1 & znew & Hv & Hinv1 & _).
    rewrite Hv. cbn [bind]. intros Hf.
    pose proof (visited_ok_step m done u (gen ++ z) Hinv Hok) as Hok1.
    destruct (IH m1 (u :: done) (z ++ znew) m' z' Hinv1 Hok1 Hf) as [Hi Ho].
    cbn [rev]. rewrite <- app_assoc. cbn [app]. auto.
Qed.

Lemma generations_loop_order :
  forall fuel m zero done gs,
    sort_inv G m done zero -> visited_ok done ->
    generations_loop fuel G m zero = (gs, Ok tt) ->
    visited_ok (rev (List.concat gs) ++ done) /\
    forall v, In v (node_keys G) -> In v (rev (List.concat gs) ++ done).
Proof.
  induction fuel as [|fuel IH]; intros m zero done gs Hinv Hok.
  - destruct zero as [|u zero]; cbn; [|discriminate].
    destruct m as [|kd m]; [|discriminate].
    intros H. inversion H; subst. cbn. split; [assumption|].
    intros v Hv. destruct Hinv as (_ & _ & _ & Hcov & _).
    destruct (Hcov v Hv) as [Hm|[Hd|[]]]; [cbn in Hm; congruence | assumption].
  - destruct zero as [|u zero]; cbn [generations_loop].
    + destruct m as [|kd m]; [|discriminate].
      intros H. inversion H; subst. cbn. split; [assumption|].
      intros v Hv. destruct Hinv as (_ & _ & _ & Hcov & _).
      destruct (Hcov v Hv) as [Hm|[Hd|[]]]; [cbn in Hm; congruence | assumption].
    + match goal with
      | |- context [foldM ?f ?l ?s] =>
          destruct (foldM f l s) as [[m' z']|e|] eqn:E
      end; try discriminate.
      destruct (visit_generation_order (u :: zero) m done [] m' z') as [Hi Ho].
      { now rewrite app_nil_r. }
      { assumption. }
      { exact E. }
      destruct (generations_loop fuel G m' z') as [gs' fin] eqn:Eg.
      intros H. inversion H; subst.
      destruct (IH m' z' (rev (u :: zero) ++ done) gs' Hi Ho Eg) as [Ho' Hc].
      cbn [List.concat]. rewrite rev_app_distr, <- app_assoc. auto.
Qed.

(** The ancestors of a visited node lie behind it as well. *)
Lemma ancestors_behind :
  forall done, preds_behind done ->
    forall u v, clos_trans string (edge G) u v ->
    forall l1 l2, done = l1 ++ v :: l2 -> In u l2.
Proof.
  intros done Hb u v Huv. apply clos_trans_tn1 in Huv.
  induction Huv as [v Huv | w v Hwv Huw IH]; intros l1 l2 Heq.
  - now apply (Hb l1 v l2 Heq).
  - pose proof (Hb l1 v l2 Heq w Hwv) as Hw.
    apply in_split in Hw. destruct Hw as (l2a & l2b & ->).
    assert (Hu : In u l2b).
    { apply (IH (l1 ++ v :: l2a) l2b). rewrite Heq.
      rewrite <- app_assoc. reflexivity. }
    apply in_app_iff. right. now right.
Qed.

(** When the sort ends normally, what it yielded holds each node once,
    every edge leads from an earlier item to a later one, and the graph
    has no cycle. *)
Theorem topological_sort_sound :
  forall order,
    topological_sort G = (order, Ok tt) ->
    NoDup order /\
    (forall v, In v order <-> In v (node_keys G)) /\
    (forall u v, edge G u v ->
       exists l1 l2, order = l1 ++ v :: l2 /\ In u l1) /\
    acyclic G.
Proof.
  intros order. unfold topological_sort, topological_generations.
  match goal with
  | |- context [generations_loop ?f G ?m ?z] =>
      destruct (generations_loop f G m z) as [gs fin] eqn:E;
      pose proof (fun Hv => generations_loop_order f m z [] gs
                              (sort_inv_initially G Hwf) Hv) as Hord
  end.
  intros H. inversion H; subst. clear H.
  destruct Hord as [(Hb & Hnd & Hincl) Hcov].
  { split; [|split].
    - intros l1 v l2 Heq. destruct l1; discriminate.
    - constructor.
    - intros x []. }
  { exact E. }
  rewrite app_nil_r in *.
  split; [|split; [|split]].
  - rewrite <- (rev_involutive (List.concat gs)). now apply NoDup_rev.
  - intros v. rewrite (in_rev (List.concat gs)). split; [apply Hincl | apply Hcov].
  - intros u v Huv.
    assert (Hv : In v (rev (List.concat gs))).
    { apply Hcov. now apply Hwf in Huv. }
    apply in_split in Hv. destruct Hv as (l1 & l2 & Heq).
    exists (rev l2), (rev l1). split.
    + rewrite <- (rev_involutive (List.concat gs)), Heq.
      rewrite rev_app_distr. cbn [rev]. now rewrite <- app_assoc.
    + rewrite <- in_rev. now apply (Hb l1 v l2 Heq).
  - intros v Hcyc.
    assert (HvV : forall a b, clos_trans string (edge G) a b ->
                              In b (node_keys G)).
    { intros a b Hab. induction Hab as [a b Hab|a b c _ _ _ IH];
        [now apply Hwf in Hab | exact IH]. }
    specialize (HvV v v Hcyc).
    pose proof (Hcov v HvV) as Hv.
    apply in_split in Hv. destruct Hv as (l1 & l2 & Heq).
    pose proof (ancestors_behind _ Hb v v Hcyc l1 l2 Heq) as Hin.
    rewrite Heq in Hnd. apply NoDup_remove_2 in Hnd.
    apply Hnd. apply in_app_iff. now right.
Qed.

(** networkx's test and the absence of cycles agree. *)
Corollary is_directed_acyclic_graph_iff :
  is_directed_acyclic_graph G = Ok true <-> acyclic G.
Proof.
  split.
  - unfold is_directed_acyclic_graph.
    destruct (topological_sort G) as [order fin] eqn:E. cbn.
    destruct fin as [[]|e|]; try discriminate.
    + intros _. now apply (topological_sort_sound order).
    + destruct e; discriminate.
  - now apply acyclic_is_directed_acyclic_graph.
Qed.

End SortOrder.

(** ** The entry point *)

Lemma entry_no_valid_node :
  forall G,
    _entry G = None ->
    snd (topological_sort (nx G)) = Ok tt ->
    first_valid G (fst (topological_sort (nx G))) = Ok None ->
    entry G = Raise (NameError "mg_exceptions").
Proof.
  intros G He Hfin Hnone. unfold entry. rewrite He.
  destruct (topological_sort (nx G)) as [order finish]. cbn in *.
  rewrite Hnone, Hfin. reflexivity.
Qed.

(** With a valid node in the order, [entry] gives the first one and
    memoises its key. *)
Lemma entry_first_valid :
  forall G node n,
    _entry G = None ->
    first_valid G (fst (topological_sort (nx G))) = Ok (Some node) ->
    get_node (nx G) node = Ok n ->
    entry G = Ok (n, set__entry (Some node) G).
Proof.
  intros G node n He Hf Hn. unfold entry. rewrite He.
  destruct (topological_sort (nx G)) as [order finish]. cbn in *.
  rewrite Hf. cbn. rewrite Hn. reflexivity.
Qed.

(** C6.  On a graph just created, which has no node at all, reading
    [entry] does not raise the error the [else] branch names
    ([TargetNotFoundError] with "Unable to find entry point"): evaluating
    [mg_exceptions] raises [NameError] first. *)
Theorem entry_of_empty_graph_raises_NameError :
  forall c, entry (MakeGrindDiGraph_init c) = Raise (NameError "mg_exceptions").
Proof. intros c. reflexivity. Qed.

(** The same on a graph whose only nodes are placeholders made by
    [add_edge], none of which is valid. *)
Example entry_of_invalid_graph_raises_NameError :
  entry (MG_add_edge "1:a" "1:b" TargetDiGraph_init)
  = Raise (NameError "mg_exceptions").
Proof. reflexivity. Qed.

Lemma first_valid_is_first :
  forall G order k,
    first_valid G order = Ok (Some k) ->
    exists before after n,
      order = before ++ k :: after /\
      get_node (nx G) k = Ok n /\ Node_valid n = true /\
      forall x, In x before ->
        exists m, get_node (nx G) x = Ok m /\ Node_valid m = false.
Proof.
  intros G order k. induction order as [|x order IH]; cbn; [discriminate|].
  destruct (get_node (nx G) x) as [n|e|] eqn:E; cbn; try discriminate.
  destruct (Node_valid n) eqn:Hv.
  - intros H. inversion H; subst x.
    exists [], order, n. repeat split; auto. intros x [].
  - intros H. destruct (IH H) as (before & after & n' & -> & Hn' & Hv' & Hb).
    exists (x :: before), after, n'. repeat split; auto.
    intros y [<-|Hy]; [eauto | now apply Hb].
Qed.

(** X23.  On an acyclic graph with nothing memoised, what [entry] returns
    is the first valid node of an order in which every edge leads from an
    earlier node to a later one. *)
Theorem entry_is_first_valid_in_topological_order :
  forall G e G',
    wf_graph (nx G) -> acyclic (nx G) -> _entry G = None ->
    entry G = Ok (e, G') ->
    exists before k after,
      fst (topological_sort (nx G)) = before ++ k :: after /\
      (forall u v, edge (nx G) u v ->
         exists l1 l2, before ++ k :: after = l1 ++ v :: l2 /\ In u l1) /\
      get_node (nx G) k = Ok e /\ Node_valid e = true /\
      (forall x, In x before ->
         exists m, get_node (nx G) x = Ok m /\ Node_valid m = false) /\
      G' = set__entry (Some k) G.
Proof.
  intros G e G' Hwf Hac Hnone. unfold entry. rewrite Hnone.
  pose proof (topological_sort_of_acyclic (nx G) Hwf Hac) as Hfin.
  destruct (topological_sort (nx G)) as [order fin] eqn:E. cbn in Hfin.
  subst fin.
  destruct (topological_sort_sound (nx G) Hwf order E) as (_ & _ & Hord & _).
  destruct (first_valid G order) as [[k|]|err|] eqn:Ef; cbn [bind];
    try discriminate.
  destruct (first_valid_is_first G order k Ef)
    as (before & after & n & Heq & Hn & Hv & Hb).
  cbn [nx set__entry]. rewrite Hn. cbn [bind]. intros H. inversion H; subst.
  exists before, k, after. cbn [fst]. repeat split; auto.
Qed.

(** ** Caches of a graph across a mutation *)

Definition trace_a : dict :=
  [("pid", VInt 1); ("name", VStr "a"); ("start", VInt 0); ("end", VInt 5)].

Definition trace_b : dict :=
  [("pid", VInt 1); ("name", VStr "b"); ("depends", VList [VStr "a"])].

(** Target [a] is added and both cached attributes are read; then target
    [b], which depends on [a], is added and both are read again, from the
    graph as it is and from the same graph after [clear]. *)
Definition reads_around_mutation
  : result (result string * list (string * string) *
            (result string * list (string * string))) :=
  G <- add_target posix TargetDiGraph_init trace_a ;;
  '(_, G) <- entry G ;;
  '(_, G) <- reduced posix G ;;
  G <- add_target posix G trace_b ;;
  '(e_now, _) <- entry G ;;
  '(r_now, _) <- reduced posix G ;;
  '(e_fresh, _) <- entry (MakeGrindDiGraph_clear G) ;;
  '(r_fresh, _) <- reduced posix (MakeGrindDiGraph_clear G) ;;
  Ok (Node_key posix e_now, dg_edges r_now,
      (Node_key posix e_fresh, dg_edges r_fresh)).

(** C4.  After [add_target] has added a node and an edge, [entry] and
    [reduced] still give what they memoised before: the old entry point
    [1:a] and a reduction without the edge, where the mutated graph has
    entry point [1:b] and the edge [1:b -> 1:a]. *)
Theorem graph_caches_stale_after_mutation :
  reads_around_mutation
  = Ok (Ok "1:a", [], (Ok "1:b", [("1:b", "1:a")])).
Proof. vm_compute. reflexivity. Qed.

(** ** Unresolved dependencies of [add_target] *)

Lemma MG_add_edge_factory :
  forall u v G,
    node_attr_dict_factory (MG_add_edge u v G) = node_attr_dict_factory G.
Proof. reflexivity. Qed.

(** The loop that adds one edge per dependency: it succeeds when every
    [dep] has a key, adds the edge to each key, and leaves the attribute
    objects of the nodes it found untouched. *)
Lemma add_dependency_edges :
  forall P key deps G,
    (forall dep, In dep deps -> exists k, MG_nodekey P G dep = Ok k) ->
    exists G',
      foldM (fun G dep => k <- MG_nodekey P G dep ;; Ok (MG_add_edge key k G))
            deps G = Ok G' /\
      node_attr_dict_factory G' = node_attr_dict_factory G /\
      extends_fresh (Node_init (node_attr_dict_factory G)) (nx G) (nx G') /\
      (forall a b, has_edge (nx G) a b = true -> has_edge (nx G') a b = true) /\
      (forall k, has_node (nx G) k = true -> has_node (nx G') k = true) /\
      (forall dep k, In dep deps -> MG_nodekey P G dep = Ok k ->
         has_edge (nx G') key k = true /\ has_node (nx G') k = true).
Proof.
  intros P key deps. induction deps as [|dep deps IH]; intros G Hk.
  - exists G. cbn. repeat split; auto using extends_fresh_refl;
      intros; contradiction.
  - destruct (Hk dep (or_introl eq_refl)) as [k Hdk].
    cbn [foldM]. rewrite Hdk. cbn [bind].
    destruct (IH (MG_add_edge key k G)) as (G' & Hf & Hfac & Hext & He & Hn & Hd).
    { intros d Hd. destruct (Hk d (or_intror Hd)) as [k' Hk'].
      exists k'. exact Hk'. }
    exists G'. split; [exact Hf|].
    split; [now rewrite Hfac|].
    split.
    { eapply extends_fresh_trans; [|exact Hext].
      apply extends_fresh_add_edge. }
    split.
    { intros a b Hab. apply He. cbn. rewrite has_edge_add_edge.
      now rewrite Hab. }
    split.
    { intros k0 Hk0. apply Hn. cbn. rewrite has_node_add_edge.
      now rewrite Hk0. }
    intros d k0 [Hin|Hin] Hdk0.
    + subst d. rewrite Hdk in Hdk0. inversion Hdk0; subst k0.
      split.
      * apply He. cbn. rewrite has_edge_add_edge.
        unfold edge_eqb. cbn. rewrite !String.eqb_refl. now rewrite orb_true_r.
      * apply Hn. cbn. rewrite has_node_add_edge.
        rewrite String.eqb_refl. now rewrite orb_true_r.
    + apply (Hd d k0 Hin Hdk0).
Qed.

Lemma mapM_total :
  forall {A B} (f : A -> result B) (g : A -> B) xs,
    (forall x, In x xs -> f x = Ok (g x)) ->
    mapM f xs = Ok (map g xs).
Proof.
  intros A B f g xs. induction xs as [|x xs IH]; intros H; cbn.
  - reflexivity.
  - rewrite (H x (or_introl eq_refl)). cbn.
    rewrite IH by (intros y Hy; apply H; now right). reflexivity.
Qed.

(** C10.  A target whose dependency list names targets that were never
    added is added without failure: each dependency name [x] gets the edge
    from the target to [pid:x], and where that key was not a node before
    (and is not the target itself) it now is one whose attribute map is
    empty, hence not valid. *)
Theorem add_target_unresolved_dependency :
  forall P G target pid name deps,
    node_attr_dict_factory G = TargetNodeC ->
    dict_get "pid" target = Some pid ->
    dict_get "name" target = Some name ->
    dict_get "depends" target = Some (VList deps) ->
    let key := (format P pid ++ ":" ++ format P name)%string in
    exists G',
      add_target P G target = Ok G' /\
      forall x, In x deps ->
        let dep := (format P pid ++ ":" ++ format P x)%string in
        has_edge (nx G') key dep = true /\
        (has_node (nx G) dep = false -> dep <> key ->
         exists n, get_node (nx G') dep = Ok n /\
                   attrib n = [] /\ Node_valid n = false).
Proof.
  intros P G target pid name deps Hfac Hpid Hname Hdeps key.
  unfold add_target, MG_nodekey. rewrite Hfac. cbn [class_nodekey].
  unfold TargetNode_nodekey at 1, dict_getitem. rewrite Hpid, Hname.
  cbn [bind]. fold key.
  unfold dict_pop. rewrite Hdeps. cbn [py_iter bind].
  set (target' := dict_del "depends" target).
  assert (Hpid' : dict_get "pid" target' = Some pid).
  { unfold target'. rewrite dict_get_del_other by discriminate. exact Hpid. }
  set (G0 := if has_node (nx G) key then G else MG_add_node key [] G).
  set (G1 := set_nx (modify_node key (fun n => Node_update n target') (nx G0)) G0).
  rewrite (mapM_total _ (fun x => [("pid", pid); ("name", x)])).
  2:{ intros x _. rewrite Hpid'. reflexivity. }
  assert (Hfac1 : node_attr_dict_factory G1 = TargetNodeC).
  { unfold G1, G0. destruct (has_node (nx G) key); cbn; exact Hfac. }
  destruct (add_dependency_edges P key
              (map (fun x => [("pid", pid); ("name", x)]) deps) G1)
    as (G' & Hf & Hfac' & Hext & He & Hn & Hd).
  { intros dep Hin. apply in_map_iff in Hin. destruct Hin as (x & <- & _).
    unfold MG_nodekey. rewrite Hfac1. cbn. eauto. }
  exists G'. split.
  { unfold MG_nodekey in Hf |- *. exact Hf. }
  intros x Hx. set (dep := (format P pid ++ ":" ++ format P x)%string).
  destruct (Hd [("pid", pid); ("name", x)] dep) as [Hedge Hnode].
  { apply in_map_iff. eauto. }
  { unfold MG_nodekey. rewrite Hfac1. reflexivity. }
  split; [exact Hedge|].
  intros Hnot Hneq.
  assert (H1 : assoc dep (dg_nodes (nx G1)) = None).
  { unfold G1. cbn. rewrite assoc_modify_other by exact Hneq.
    unfold G0. destruct (has_node (nx G) key).
    - now apply has_node_false_assoc.
    - cbn. unfold add_node. cbn. rewrite assoc_modify_other by exact Hneq.
      rewrite assoc_ensure_node.
      apply has_node_false_assoc in Hnot. rewrite Hnot.
      apply String.eqb_neq in Hneq. now rewrite Hneq. }
  specialize (Hext dep). rewrite H1, Hfac1 in Hext.
  apply has_node_assoc in Hnode. destruct Hnode as [n Hn'].
  destruct Hext as [Hx0|Hx0]; rewrite Hx0 in Hn'; [discriminate|].
  exists (Node_init TargetNodeC). unfold get_node. rewrite Hx0.
  repeat split.
Qed.

Lemma add_target_unresolved_dependency_witness :
  exists G',
    add_target posix TargetDiGraph_init trace_b = Ok G' /\
    forall x, In x [VStr "a"] ->
      let dep := (format posix (VInt 1) ++ ":" ++ format posix x)%string in
      has_edge (nx G') "1:b" dep = true /\
      (has_node (nx TargetDiGraph_init) dep = false -> dep <> "1:b" ->
       exists n, get_node (nx G') dep = Ok n /\
                 attrib n = [] /\ Node_valid n = false).
Proof.
  exact (add_target_unresolved_dependency posix TargetDiGraph_init trace_b
           (VInt 1) (VStr "b") [VStr "a"] eq_refl eq_refl eq_refl eq_refl).
Defined.

(** ** Ingesting a nested record and a flat stream *)

(** The flat stream is ingested, in the spec's words, "by repeated
    addProcess calls" on one graph. *)
Definition ingest_flat_stream (P : Platform) (records : list dict)
  : result BuildDiGraph :=
  foldM (add_nodes_from_build P) records BuildDiGraph_init.

(** The back-reference a flat record carries: the parent's [pid] and the
    invoking [target]. *)
Definition back_reference (pid tgt : value) : value :=
  VDict [("pid", pid); ("target", tgt)].

(** The flat stream the spec sets against a nested root record: the
    record nested under [parent] comes first, as a record of its own
    (flattened in turn), and the record itself follows with [parent] cut
    down to the back-reference. *)
Fixpoint flat_stream_of (depth : nat) (record : dict) : list dict :=
  match depth, dict_get "parent" record with
  | S depth', Some (VDict parent) =>
      flat_stream_of depth' (dict_del "target" parent) ++
      [dict_set "parent"
         (back_reference (dict_get_or "pid" VNone parent)
                         (dict_get_or "target" VNone parent))
         record]
  | _, _ => [record]
  end.

(** The claim's sense of two identical graphs: the same nodes with the
    same attributes and the same edges, in the process graph and in the
    target graph. *)
Definition node_attr (g : DiGraph Node) (k name : string) : option value :=
  match assoc k (dg_nodes g) with
  | Some n => dict_get name (attrib n)
  | None => None
  end.

Definition same_graph (g g' : DiGraph Node) : Prop :=
  (forall k, has_node g k = has_node g' k) /\
  (forall k name, node_attr g k name = node_attr g' k name) /\
  (forall u v, has_edge g u v = has_edge g' u v).

Definition identical (G G' : BuildDiGraph) : Prop :=
  same_graph (nx (base G)) (nx (base G')) /\
  same_graph (nx (targets G)) (nx (targets G')).

(** A trace of two processes: process 1 builds [all], which depends on
    [sub], whose recipe starts process 2. *)
Definition record_1 : dict :=
  [("pid", VInt 1); ("directory", VStr "/r"); ("start", VInt 0);
   ("end", VInt 10); ("jobs", VInt (-1)); ("entry", VList [VStr "all"]);
   ("targets",
    VList [VDict [("name", VStr "all"); ("depends", VList [VStr "sub"]);
                  ("start", VInt 0); ("end", VInt 10)];
           VDict [("name", VStr "sub"); ("depends", VList []);
                  ("start", VInt 1); ("end", VInt 9); ("recipe", VInt 2)]])].

Definition record_2 (parent : value) : dict :=
  [("pid", VInt 2); ("directory", VStr "/r/sub"); ("start", VInt 2);
   ("end", VInt 9); ("jobs", VInt (-1)); ("entry", VList [VStr "all"]);
   ("parent", parent);
   ("targets",
    VList [VDict [("name", VStr "all"); ("depends", VList []);
                  ("start", VInt 2); ("end", VInt 9); ("recipe", VInt 3)]])].

(** The single nested root record of that trace. *)
Definition nested_trace : dict :=
  record_2 (VDict (record_1 ++ [("target", VStr "sub")])).

Example flat_stream_of_nested_trace :
  flat_stream_of 1 nested_trace
  = [record_1; record_2 (back_reference (VInt 1) (VStr "sub"))].
Proof. reflexivity. Qed.

(** What ingestion builds apart from the attributes of process nodes. *)
Definition shape (G : BuildDiGraph)
  : MakeGrindDiGraph * list string * list (string * string) :=
  (targets G, node_keys (nx (base G)), dg_edges (nx (base G))).

Definition result_map {A B} (f : A -> B) (r : result A) : result B :=
  x <- r ;; Ok (f x).

(** C5, as stated, fails: ingesting the nested root record leaves process
    1 a node without attributes (and its targets out of the target graph),
    where the flat stream gives process 1 its [directory]. *)
Lemma nested_ingestion_differs_from_flat_stream :
  exists Gn Gf,
    from_build posix nested_trace = Ok Gn /\
    ingest_flat_stream posix (flat_stream_of 1 nested_trace) = Ok Gf /\
    ~ identical Gn Gf.
Proof.
  eexists. eexists. split; [vm_compute; reflexivity|].
  split; [vm_compute; reflexivity|].
  intros [(_ & Hattr & _) _].
  specialize (Hattr "1" "directory"). vm_compute in Hattr. discriminate.
Qed.

Lemma dict_del_set_comm :
  forall d k k' v w,
    k <> k' -> dict_get k' d = Some w ->
    dict_del k (dict_set k' v d) = dict_set k' v (dict_del k d).
Proof.
  induction d as [|[k0 v0] d IH]; intros k k' v w Hk Hg; cbn in *.
  - discriminate.
  - destruct (String.eqb k' k0) eqn:E'.
    + apply String.eqb_eq in E'. subst k0.
      assert (String.eqb k k' = false) as E by now apply String.eqb_neq.
      cbn. rewrite E. cbn. now rewrite String.eqb_refl.
    + cbn. destruct (String.eqb k k0) eqn:E.
      * apply String.eqb_eq in E. subst k0.
        clear IH. revert Hg. clear. revert k' v w.
        induction d as [|[k1 v1] d IH]; intros; cbn in *; [discriminate|].
        reflexivity.
      * cbn. rewrite E'. f_equal. eapply IH; eauto.
Qed.

(** Two attribute dicts that agree on every key but [parent]. *)
Definition agree_but_parent (a a' : dict) : Prop :=
  forall name, name <> "parent" -> dict_get name a = dict_get name a'.

Definition set_all (d a : dict) : dict :=
  fold_left (fun a kv => dict_set (fst kv) (snd kv) a) d a.

Lemma Node_update_attrib :
  forall d n, attrib (Node_update n d) = set_all d (attrib n).
Proof.
  unfold Node_update, set_all.
  induction d as [|[k v] d IH]; intros n; cbn; [reflexivity|].
  rewrite IH. now rewrite Node_setitem_attrib.
Qed.

Lemma agree_set :
  forall a a' k v,
    agree_but_parent a a' ->
    agree_but_parent (dict_set k v a) (dict_set k v a').
Proof.
  intros a a' k v H name Hn.
  destruct (String.eqb name k) eqn:E.
  - apply String.eqb_eq in E. subst. now rewrite !dict_get_set_same.
  - apply String.eqb_neq in E. rewrite !dict_get_set_other by assumption.
    now apply H.
Qed.

Lemma agree_set_parent :
  forall a a' v v',
    agree_but_parent a a' ->
    agree_but_parent (dict_set "parent" v a) (dict_set "parent" v' a').
Proof.
  intros a a' v v' H name Hn.
  rewrite !dict_get_set_other by assumption. now apply H.
Qed.

Lemma agree_set_all :
  forall d a a',
    agree_but_parent a a' -> agree_but_parent (set_all d a) (set_all d a').
Proof.
  unfold set_all. induction d as [|[k v] d IH]; intros a a' H; cbn.
  - exact H.
  - apply IH. now apply agree_set.
Qed.

Lemma agree_set_all_parent :
  forall d a a' v,
    agree_but_parent a a' ->
    agree_but_parent (set_all d a) (set_all (dict_set "parent" v d) a').
Proof.
  induction d as [|[k0 v0] d IH]; intros a a' v H.
  - cbn. intros name Hn. rewrite dict_get_set_other by assumption.
    now apply H.
  - cbn [dict_set]. destruct (String.eqb "parent" k0) eqn:E.
    + apply String.eqb_eq in E. subst k0. unfold set_all. cbn [fold_left fst snd].
      apply agree_set_all. now apply agree_set_parent.
    + unfold set_all. cbn [fold_left fst snd].
      apply IH. now apply agree_set.
Qed.

Lemma foldM_ext :
  forall {A S} (f g : S -> A -> result S) xs s,
    (forall s x, f s x = g s x) -> foldM f xs s = foldM g xs s.
Proof.
  intros A S f g xs. induction xs as [|x xs IH]; intros s H; cbn.
  - reflexivity.
  - rewrite H. destruct (g s x); cbn; auto.
Qed.

Lemma Node_getattr_agree :
  forall n n' name,
    agree_but_parent (attrib n) (attrib n') -> name <> "parent" ->
    Node_getattr n name = Node_getattr n' name.
Proof.
  intros n n' name H Hn. unfold Node_getattr. now rewrite (H name Hn).
Qed.

Lemma targets_ingested_agree :
  forall P T n n' ts,
    agree_but_parent (attrib n) (attrib n') ->
    TargetDiGraph_add_nodes_from_build P T n ts =
    TargetDiGraph_add_nodes_from_build P T n' ts.
Proof.
  intros P T n n' ts H. unfold TargetDiGraph_add_nodes_from_build.
  apply foldM_ext. intros s x.
  rewrite (Node_getattr_agree n n' "pid" H) by discriminate.
  rewrite (Node_getattr_agree n n' "directory" H) by discriminate.
  reflexivity.
Qed.

Lemma BuildNode_entry_agree :
  forall P n n',
    agree_but_parent (attrib n) (attrib n') ->
    BuildNode_entry P n = BuildNode_entry P n'.
Proof.
  intros P n n' H. unfold BuildNode_entry, dict_getitem.
  rewrite (H "entry") by discriminate.
  rewrite (H "pid") by discriminate. reflexivity.
Qed.

Lemma get_node_add_node :
  forall {A} (fresh : A) upd k (G : DiGraph A),
    get_node (add_node fresh upd k G) k =
    Ok (upd (match assoc k (dg_nodes G) with Some a => a | None => fresh end)).
Proof.
  intros A fresh upd k G. unfold get_node, add_node, modify_node. cbn.
  rewrite assoc_modify_same, assoc_ensure_node.
  destruct (assoc k (dg_nodes G)) eqn:E; [reflexivity|].
  rewrite String.eqb_refl.
  apply has_node_false_assoc in E. rewrite E. reflexivity.
Qed.

Lemma node_keys_add_node :
  forall {A} (fresh : A) upd k (G : DiGraph A),
    node_keys (add_node fresh upd k G) = node_keys (ensure_node fresh k G).
Proof. intros. unfold add_node. apply node_keys_modify_node. Qed.

Lemma node_keys_ensure_node :
  forall {A} (fresh : A) k (G : DiGraph A),
    node_keys (ensure_node fresh k G) =
    if mem k (node_keys G) then node_keys G else node_keys G ++ [k].
Proof.
  intros. unfold ensure_node, has_node.
  destruct (mem k (node_keys G)); [reflexivity|].
  unfold node_keys. cbn. now rewrite map_app.
Qed.

(** Keys and edges after [add_edge] depend on the keys and edges before,
    not on the attribute objects. *)
Lemma add_edge_shape :
  forall {A} (fresh fresh' : A) u v (G G' : DiGraph A),
    node_keys G = node_keys G' -> dg_edges G = dg_edges G' ->
    node_keys (add_edge fresh u v G) = node_keys (add_edge fresh' u v G') /\
    dg_edges (add_edge fresh u v G) = dg_edges (add_edge fresh' u v G').
Proof.
  intros A fresh fresh' u v G G' Hk He.
  assert (Hk2 : node_keys (ensure_node fresh v (ensure_node fresh u G)) =
                node_keys (ensure_node fresh' v (ensure_node fresh' u G'))).
  { rewrite !node_keys_ensure_node, Hk. reflexivity. }
  unfold add_edge, has_edge. rewrite !dg_edges_ensure_node, He.
  destruct (existsb (edge_eqb (u, v)) (dg_edges G')); cbn;
    rewrite ?dg_edges_ensure_node, ?He; auto.
Qed.

Lemma get_node_add_edge_old :
  forall {A} (fresh : A) u v k a (G : DiGraph A),
    get_node G k = Ok a -> get_node (add_edge fresh u v G) k = Ok a.
Proof.
  intros A fresh u v k a G. unfold get_node.
  pose proof (extends_fresh_add_edge fresh G u v k) as H.
  destruct (assoc k (dg_nodes G)); [|discriminate].
  intros E. inversion E; subst. now rewrite H.
Qed.

Lemma dict_pop_set_parent :
  forall build v w default,
    dict_get "parent" build = Some w ->
    dict_pop "targets" default (dict_set "parent" v build) =
    (fst (dict_pop "targets" default build),
     dict_set "parent" v (snd (dict_pop "targets" default build))).
Proof.
  intros build v w default Hp. unfold dict_pop.
  rewrite dict_get_set_other by discriminate.
  destruct (dict_get "targets" build); cbn; [|reflexivity].
  f_equal. eapply dict_del_set_comm; [discriminate | exact Hp].
Qed.

Lemma dict_pop_keeps_parent :
  forall build default,
    dict_get "parent" (snd (dict_pop "targets" default build)) =
    dict_get "parent" build.
Proof.
  intros build default. unfold dict_pop.
  destruct (dict_get "targets" build); cbn; [|reflexivity].
  apply dict_get_del_other. discriminate.
Qed.

(** C5, amended.  Ingestion reads only [pid] and [target] of a record's
    [parent]: a record with a whole record nested under [parent] gives the
    same target graph and the same keys and edges of the process graph as
    the record with [parent] cut down to the back-reference. *)
Theorem nested_parent_is_read_as_back_reference :
  forall P G build parent pid tgt,
    node_attr_dict_factory (base G) = BuildNodeC ->
    dict_get "parent" build = Some (VDict parent) ->
    dict_get "pid" parent = Some pid ->
    dict_get "target" parent = Some tgt ->
    result_map shape (add_nodes_from_build P G build) =
    result_map shape
      (add_nodes_from_build P G
         (dict_set "parent" (back_reference pid tgt) build)).
Proof.
  intros P G build parent pid tgt Hfac Hpar Hpid Htgt.
  unfold add_nodes_from_build.
  rewrite (dict_pop_set_parent build _ _ _ Hpar).
  pose proof (dict_pop_keeps_parent build (VList [])) as Hpar'.
  rewrite Hpar in Hpar'.
  destruct (dict_pop "targets" (VList []) build) as [tv b]. cbn [fst snd] in *.
  set (br := back_reference pid tgt).
  set (b' := dict_set "parent" br b).
  assert (Hkey : MG_nodekey P (base G) b' = MG_nodekey P (base G) b).
  { unfold MG_nodekey. rewrite Hfac. cbn. unfold BuildNode_nodekey, dict_getitem.
    unfold b'. now rewrite dict_get_set_other by discriminate. }
  rewrite Hkey.
  destruct (MG_nodekey P (base G) b) as [key|e|]; [|reflexivity|reflexivity].
  cbn [bind].
  assert (Hnfa : clashes_with_add_node b' = clashes_with_add_node b).
  { unfold clashes_with_add_node, dict_contains, b'.
    now rewrite !dict_get_set_other by discriminate. }
  rewrite Hnfa.
  destruct (clashes_with_add_node b); [reflexivity|].
  unfold MG_add_node. cbn [nx set_nx]. rewrite !get_node_add_node. cbn [bind].
  set (fresh := Node_init (node_attr_dict_factory (base G))).
  set (n0 := match assoc key (dg_nodes (nx (base G))) with
             | Some a => a
             | None => fresh
             end).
  assert (Hagree : agree_but_parent (attrib (Node_update n0 b))
                                    (attrib (Node_update n0 b'))).
  { rewrite !Node_update_attrib. unfold b'.
    apply agree_set_all_parent. intros name _. reflexivity. }
  destruct (py_iter tv) as [ts|e|]; [|reflexivity|reflexivity]. cbn [bind].
  rewrite <- (targets_ingested_agree P (targets G) _ _ ts Hagree).
  destruct (TargetDiGraph_add_nodes_from_build P (targets G)
              (Node_update n0 b) ts) as [T|e|]; [|reflexivity|reflexivity].
  cbn [bind].
  assert (Hcp : dict_contains "parent" b = true)
    by (unfold dict_contains; now rewrite Hpar').
  assert (Hcp' : dict_contains "parent" b' = true)
    by (unfold dict_contains, b'; now rewrite dict_get_set_same).
  rewrite Hcp, Hcp'. unfold dict_getitem. rewrite Hpar'.
  unfold b' at 1. rewrite dict_get_set_same. cbn [bind as_dict br back_reference].
  unfold MG_nodekey. cbn [node_attr_dict_factory set_nx].
  rewrite Hfac. cbn [class_nodekey]. unfold BuildNode_nodekey, dict_getitem.
  rewrite Hpid. cbn [dict_get String.eqb Ascii.eqb Bool.eqb bind].
  set (pkey := format P pid).
  set (B := set_nx (add_node fresh (fun n => Node_update n b) key
                      (nx (base G))) (base G)).
  set (B' := set_nx (add_node fresh (fun n => Node_update n b') key
                       (nx (base G))) (base G)).
  assert (Hn : get_node (nx (MG_add_edge pkey key B)) key
               = Ok (Node_update n0 b)).
  { cbn. apply get_node_add_edge_old. apply get_node_add_node. }
  assert (Hn' : get_node (nx (MG_add_edge pkey key B')) key
                = Ok (Node_update n0 b')).
  { cbn. apply get_node_add_edge_old. apply get_node_add_node. }
  rewrite Hn, Hn'. cbn [bind].
  assert (Hpe : add_parent_edges P T (Node_update n0 b') br
                = add_parent_edges P T (Node_update n0 b) (VDict parent)).
  { unfold add_parent_edges, py_getitem, dict_getitem, br, back_reference.
    rewrite Hpid, Htgt. cbn [dict_get String.eqb Ascii.eqb Bool.eqb bind].
    now rewrite (BuildNode_entry_agree P _ _ Hagree). }
  rewrite Hpe.
  destruct (add_parent_edges P T (Node_update n0 b) (VDict parent))
    as [T2|e|]; [|reflexivity|reflexivity].
  cbn [bind result_map]. unfold shape. cbn [targets base].
  destruct (add_edge_shape fresh fresh pkey key
              (add_node fresh (fun n => Node_update n b) key (nx (base G)))
              (add_node fresh (fun n => Node_update n b') key (nx (base G))))
    as [Hk He].
  { now rewrite !node_keys_add_node. }
  { reflexivity. }
  cbn [MG_add_edge nx set_nx B B' node_attr_dict_factory].
  fold fresh. rewrite Hk, He. reflexivity.
Qed.

Lemma nested_parent_is_read_as_back_reference_witness :
  result_map shape (add_nodes_from_build posix BuildDiGraph_init nested_trace) =
  result_map shape
    (add_nodes_from_build posix BuildDiGraph_init
       (dict_set "parent" (back_reference (VInt 1) (VStr "sub")) nested_trace)).
Proof.
  exact (nested_parent_is_read_as_back_reference posix BuildDiGraph_init
           nested_trace (record_1 ++ [("target", VStr "sub")])
           (VInt 1) (VStr "sub") eq_refl eq_refl eq_refl eq_refl).
Defined.

(** ** A sample build *)

Definition sample_target (name : string) (deps : list string)
  (start recipe finish : Z) : value :=
  VDict [("name", VStr name); ("file", VStr "Makefile"); ("line", VInt 3);
         ("depends", VList (map VStr deps)); ("start", VInt start);
         ("recipe", VInt recipe); ("end", VInt finish)].

(** One process whose entry target [all] needs [a], which needs [b] and
    [c], which both need [d]: two simple paths lead from [a] to [d]. *)
Definition diamond_build : dict :=
  [("pid", VInt 1); ("directory", VStr "/r"); ("start", VInt 0);
   ("end", VInt 10); ("jobs", VInt 4); ("entry", VList [VStr "all"]);
   ("targets",
    VList [sample_target "all" ["a"] 0 9 10;
           sample_target "a" ["b"; "c"] 1 8 9;
           sample_target "b" ["d"] 2 4 5;
           sample_target "c" ["d"] 2 6 8;
           sample_target "d" [] 1 1 2])].

(** A query on the graph of [diamond_build]. *)
Definition on_diamond {A} (query : BuildDiGraph -> result (A * BuildDiGraph))
  : result A :=
  G <- from_build posix diamond_build ;;
  '(x, _) <- query G ;;
  Ok x.

(** ** [find_path] through waypoints *)

(** From the second candidate on, the comparison between the segments of
    two waypoints never gives an answer. *)
Lemma pick_next_segment_second_candidate :
  forall P G p segment,
    (exists e, pick_next_segment P G (Some p) segment = Raise e) \/
    pick_next_segment P G (Some p) segment = OutOfFuel.
Proof.
  intros P G p segment. unfold pick_next_segment.
  destruct (second p) as [p1|e|]; cbn; eauto.
  destruct (info_elapsed P G p1) as [a|e|]; cbn; eauto.
  destruct (second segment) as [s1|e|]; cbn; eauto.
  destruct (get_node (nx (targets G)) s1) as [n|e|]; cbn; eauto.
Qed.

(** The first hop, from the entry targets to the first waypoint, keeps the
    first segment whose second node has the greatest elapsed time. *)
Example find_path_first_hop :
  on_diamond (fun G => find_path posix 10 G ["1:d"])
  = Ok ["1:all"; "1:a"; "1:b"; "1:d"].
Proof. vm_compute. reflexivity. Qed.

Example find_path_single_segment :
  on_diamond (fun G => find_path posix 10 G ["1:a"; "1:b"])
  = Ok ["1:all"; "1:a"; "1:b"; "1:d"].
Proof. vm_compute. reflexivity. Qed.

(** C3.  With the waypoints [1:a] and [1:d], which two simple paths
    connect, [find_path] chooses no segment: comparing the second
    candidate raises [TypeError]. *)
Theorem find_path_between_waypoints_raises_TypeError :
  on_diamond (fun G => find_path posix 10 G ["1:a"; "1:d"]) = Raise TypeError.
Proof. vm_compute. reflexivity. Qed.

(** ** The order [sorted] gives *)

Section Sorting.

Context {X : Type} (key : X -> Z).

Definition key_le (a b : X) : Prop := (key a <= key b)%Z.

Lemma insert_by_perm :
  forall x l, Permutation (insert_by key x l) (x :: l).
Proof.
  intros x l. induction l as [|y l IH]; cbn; [reflexivity|].
  destruct (Z.ltb (key x) (key y)); [reflexivity|].
  rewrite IH. apply perm_swap.
Qed.

Lemma insert_by_sorted :
  forall x l,
    StronglySorted key_le l -> StronglySorted key_le (insert_by key x l).
Proof.
  intros x l Hs. induction Hs as [|y l Hs IH Hall]; cbn.
  - repeat constructor.
  - destruct (Z.ltb (key x) (key y)) eqn:E.
    + apply Z.ltb_lt in E. constructor; [now constructor|].
      constructor; [unfold key_le; lia|].
      eapply Forall_impl; [|exact Hall]. unfold key_le. intros; lia.
    + apply Z.ltb_ge in E. constructor; [exact IH|].
      apply (Permutation_Forall (Permutation_sym (insert_by_perm x l))).
      constructor; [exact E | exact Hall].
Qed.

Lemma sorted_by_spec :
  forall l,
    StronglySorted key_le (sorted_by key l) /\ Permutation (sorted_by key l) l.
Proof.
  intros l. unfold sorted_by.
  assert (H : forall acc,
            StronglySorted key_le acc ->
            StronglySorted key_le
              (fold_left (fun acc x => insert_by key x acc) l acc) /\
            Permutation (fold_left (fun acc x => insert_by key x acc) l acc)
                        (acc ++ l)).
  { induction l as [|x l IH]; intros acc Hacc; cbn.
    - rewrite app_nil_r. auto.
    - destruct (IH (insert_by key x acc) (insert_by_sorted x acc Hacc))
        as [Hs Hp].
      split; [exact Hs|]. rewrite Hp. rewrite insert_by_perm.
      apply Permutation_middle. }
  destruct (H [] (SSorted_nil _)) as [Hs Hp]. auto.
Qed.

End Sorting.

Lemma mapM_keyed :
  forall {X} (key : X -> result Z) l keyed,
    mapM (fun x => k <- key x ;; Ok (k, x)) l = Ok keyed ->
    Forall (fun p => key (snd p) = Ok (fst p)) keyed /\ map snd keyed = l.
Proof.
  intros X key l. induction l as [|x l IH]; intros keyed; cbn.
  - intros H. inversion H. auto.
  - destruct (key x) as [k|e|] eqn:E; cbn; try discriminate.
    destruct (mapM _ l) as [ks|e|]; cbn; try discriminate.
    intros H. inversion H; subst. destruct (IH ks eq_refl) as [Hf Hm].
    split; [constructor; assumption | cbn; now rewrite Hm].
Qed.

Lemma sorted_keyed_items :
  forall {X} (key : X -> result Z) (s : list (Z * X)),
    StronglySorted (key_le (@fst Z X)) s ->
    Forall (fun p => key (snd p) = Ok (fst p)) s ->
    StronglySorted
      (fun a b => exists ka kb, key a = Ok ka /\ key b = Ok kb /\ (ka <= kb)%Z)
      (map snd s).
Proof.
  intros X key s Hs. induction Hs as [|p s Hs IH Hall]; intros Hk; cbn;
    [constructor|].
  inversion Hk as [|? ? Hp0 Hk0]; subst.
  constructor; [now apply IH|].
  clear IH Hs Hk. induction Hall as [|q s Hq Hall IH2]; cbn; [constructor|].
  inversion Hk0; subst.
  constructor; [|now apply IH2].
  exists (fst p), (fst q). auto.
Qed.

(** What [sorted(xs, key=key)] returns holds the items of [xs], each
    before the items whose key is not smaller. *)
Lemma sorted_with_ascending :
  forall {X} (key : X -> result Z) l l',
    sorted_with key false l = Ok l' ->
    StronglySorted
      (fun a b => exists ka kb, key a = Ok ka /\ key b = Ok kb /\ (ka <= kb)%Z)
      l' /\
    Permutation l' l.
Proof.
  intros X key l l'. unfold sorted_with.
  destruct (mapM _ l) as [keyed|e|] eqn:E; cbn; try discriminate.
  intros H. inversion H; subst l'. clear H.
  destruct (mapM_keyed key l keyed E) as [Hk Hm].
  destruct (sorted_by_spec (@fst Z X) keyed) as [Hs Hp].
  split.
  - apply sorted_keyed_items; [exact Hs|].
    exact (Permutation_Forall (Permutation_sym Hp) Hk).
  - rewrite <- Hm. now apply Permutation_map.
Qed.

(** ** [find_target] *)

(** The elapsed times of the targets with the given keys. *)
Definition elapsed_times (G : BuildDiGraph) (keys : list string)
  : result (list timedelta) :=
  mapM (info_elapsed posix G) keys.

(** C7.  For the filter [pid = 1], which all five targets of the sample
    build match, [find_target] returns the keys by ascending elapsed time,
    the greatest last. *)
Theorem find_target_orders_ascending :
  on_diamond (fun G => find_target posix G VNone VNone (VInt 1))
  = Ok ["1:d"; "1:b"; "1:c"; "1:a"; "1:all"] /\
  (G <- from_build posix diamond_build ;;
   elapsed_times G ["1:d"; "1:b"; "1:c"; "1:a"; "1:all"])
  = Ok [1000000; 3000000; 6000000; 8000000; 10000000]%Z.
Proof. split; vm_compute; reflexivity. Qed.

(** The Python class of an exception. *)
Definition exn_class (e : exn) : string :=
  match e with
  | AttributeError => "AttributeError"
  | KeyError _ => "KeyError"
  | TypeError => "TypeError"
  | IndexError => "IndexError"
  | ValueError => "ValueError"
  | NameError _ => "NameError"
  | RuntimeError => "RuntimeError"
  | ZeroDivisionError => "ZeroDivisionError"
  | OSError => "OSError"
  | NetworkXError _ => "NetworkXError"
  | NetworkXUnfeasible => "NetworkXUnfeasible"
  | NodeNotFound _ => "NodeNotFound"
  | TargetNotFoundError _ => "TargetNotFoundError"
  | DepChainNotFoundError _ => "DepChainNotFoundError"
  end.

(** C8, as stated, fails: the error of a lookup without any filter and the
    error of a lookup whose filter matches nothing are of one class. *)
Lemma no_filter_error_is_not_a_distinct_kind :
  exists e1 e2,
    on_diamond (fun G => find_target posix G VNone VNone VNone) = Raise e1 /\
    on_diamond (fun G => find_target posix G (VStr "missing") VNone VNone)
    = Raise e2 /\
    exn_class e1 = exn_class e2.
Proof.
  exists (TargetNotFoundError "No filtering criteria").
  exists (TargetNotFoundError "No targets named 'missing'").
  repeat split; vm_compute; reflexivity.
Qed.

(** A target that has a name and a pid, of which one that is asked for
    differs from the one given. *)
Definition no_match (target pid : value) (n : Node) : Prop :=
  exists name p,
    dict_get "name" (attrib n) = Some name /\
    dict_get "pid" (attrib n) = Some p /\
    ((is_not_None target = true /\ py_eq name target = false) \/
     (is_not_None pid = true /\ py_eq p pid = false)).

Lemma checker_no_match :
  forall P target pid G n,
    no_match target pid n ->
    checker P target VNone pid G n = Ok (false, G).
Proof.
  intros P target pid G n (name & p & Hn & Hp & Hdiff).
  unfold checker, Node_getattr.
  cbn [is_not_None orb String.eqb Ascii.eqb Bool.eqb bind].
  rewrite Hn, Hp. cbn [bind].
  destruct (is_not_None target) eqn:Et; cbn [bind].
  - destruct (py_eq name target) eqn:En; cbn [negb]; [|reflexivity].
    destruct Hdiff as [[_ H]|[Hpid H]]; [discriminate|].
    rewrite Hpid. cbn [bind]. rewrite H. reflexivity.
  - destruct Hdiff as [[H _]|[Hpid H]]; [discriminate|].
    rewrite Hpid. cbn [bind]. rewrite H. reflexivity.
Qed.

Lemma filter_nodes_no_match :
  forall P target pid G nodes,
    Forall (fun kn => no_match target pid (snd kn)) nodes ->
    filter_nodes P target VNone pid G nodes = Ok ([], G).
Proof.
  intros P target pid G nodes H. induction H as [|kn nodes Hkn _ IH].
  - reflexivity.
  - cbn [filter_nodes]. rewrite (checker_no_match P target pid G _ Hkn).
    cbn [bind]. rewrite IH. reflexivity.
Qed.

(** When the filter leaves nothing, the sort has nothing to read and the
    error for an empty result is raised. *)
Lemma find_target_nothing_found :
  forall P G target makefile pid makefile' G1 G2,
    (is_not_None target || is_not_None makefile || is_not_None pid) = true ->
    (if is_not_None makefile then resolve_path P G makefile
     else Ok (makefile, G)) = Ok (makefile', G1) ->
    filter_nodes P target makefile' pid G1 (dg_nodes (nx (targets G1)))
    = Ok ([], G2) ->
    find_target P G target makefile pid
    = Raise (TargetNotFoundError (no_targets_message P target makefile' pid)).
Proof.
  intros P G target makefile pid makefile' G1 G2 Hsome Hres Hfil.
  unfold find_target.
  replace (negb (is_not_None target) && negb (is_not_None makefile)
           && negb (is_not_None pid)) with false
    by (destruct (is_not_None target), (is_not_None makefile),
          (is_not_None pid); try reflexivity; discriminate Hsome).
  rewrite Hres. cbn [bind]. rewrite Hfil. cbn [bind].
  reflexivity.
Qed.

Lemma no_targets_message_begins :
  forall P target makefile pid,
    exists rest,
      no_targets_message P target makefile pid
      = ("No targets" ++ rest)%string.
Proof.
  intros P target makefile pid. unfold no_targets_message.
  generalize
    ((if is_not_None target
      then [("named '" ++ format P target ++ "'")%string] else []) ++
     (if is_not_None makefile
      then [("in file '" ++ format P makefile ++ "'")%string] else []) ++
     (if is_not_None pid
      then [("with pid '" ++ format P pid ++ "'")%string] else [])) as l.
  intros [|x l].
  - exists "". reflexivity.
  - exists (" " ++ String.concat " " (x :: l))%string. reflexivity.
Qed.

(** C8, amended.  A lookup without any filter raises
    [TargetNotFoundError] with the message "No filtering criteria".  A
    lookup with at least one filter, whatever the filters, raises the
    same class whenever the makefile (if given) is resolved and the check
    of the targets completes with none passing; so it does, for a name, a
    pid or both, on a graph each of whose targets has a name and a pid
    and none the ones asked for.  The message then names each filter
    given, the makefile as resolved, after "No targets". *)
Theorem find_target_errors_share_a_class :
  forall P G,
    find_target P G VNone VNone VNone
    = Raise (TargetNotFoundError "No filtering criteria") /\
    (forall target makefile pid makefile' G1 G2,
       (is_not_None target || is_not_None makefile || is_not_None pid) = true ->
       (if is_not_None makefile then resolve_path P G makefile
        else Ok (makefile, G)) = Ok (makefile', G1) ->
       filter_nodes P target makefile' pid G1 (dg_nodes (nx (targets G1)))
       = Ok ([], G2) ->
       find_target P G target makefile pid
       = Raise (TargetNotFoundError
                  (no_targets_message P target makefile' pid))) /\
    (forall target pid,
       (is_not_None target || is_not_None pid) = true ->
       Forall (fun kn => no_match target pid (snd kn))
              (dg_nodes (nx (targets G))) ->
       find_target P G target VNone pid
       = Raise (TargetNotFoundError (no_targets_message P target VNone pid))) /\
    (forall target makefile pid,
       exists rest,
         no_targets_message P target makefile pid
         = ("No targets" ++ rest)%string).
Proof.
  intros P G. split; [reflexivity|].
  split; [apply find_target_nothing_found|].
  split; [|apply no_targets_message_begins].
  intros target pid Hsome Hnone.
  apply (find_target_nothing_found P G target VNone pid VNone G G).
  - cbn [is_not_None]. now rewrite orb_false_r.
  - reflexivity.
  - now apply filter_nodes_no_match.
Qed.

(** The sample build as a graph. *)
Definition diamond_graph : BuildDiGraph :=
  match from_build posix diamond_build with
  | Ok G => G
  | _ => BuildDiGraph_init
  end.

(** The makefile [other.mk] as [find_target] resolves it on the sample
    build, and what the filter for target [a] in that makefile leaves. *)
Definition other_mk : value * BuildDiGraph :=
  match resolve_path posix diamond_graph (VStr "other.mk") with
  | Ok x => x
  | _ => (VNone, diamond_graph)
  end.

Definition a_in_other_mk : list (string * Node) * BuildDiGraph :=
  match filter_nodes posix (VStr "a") (fst other_mk) VNone (snd other_mk)
          (dg_nodes (nx (targets (snd other_mk)))) with
  | Ok x => x
  | _ => ([], diamond_graph)
  end.

Lemma find_target_errors_share_a_class_witness :
  find_target posix diamond_graph VNone VNone VNone
  = Raise (TargetNotFoundError "No filtering criteria") /\
  find_target posix diamond_graph (VStr "a") (VStr "other.mk") VNone
  = Raise (TargetNotFoundError "No targets named 'a' in file 'other.mk'") /\
  Forall (fun kn => no_match (VStr "missing") (VInt 1) (snd kn))
         (dg_nodes (nx (targets diamond_graph))) /\
  find_target posix diamond_graph (VStr "missing") VNone (VInt 1)
  = Raise (TargetNotFoundError "No targets named 'missing' with pid '1'").
Proof.
  pose proof (find_target_errors_share_a_class posix diamond_graph)
    as (Hnone & Hany & Hmiss & _).
  assert (Hres : (if is_not_None (VStr "other.mk")
                  then resolve_path posix diamond_graph (VStr "other.mk")
                  else Ok (VStr "other.mk", diamond_graph))
                 = Ok (fst other_mk, snd other_mk))
    by (vm_compute; reflexivity).
  assert (Hfil : filter_nodes posix (VStr "a") (fst other_mk) VNone
                   (snd other_mk) (dg_nodes (nx (targets (snd other_mk))))
                 = Ok ([], snd a_in_other_mk))
    by (vm_compute; reflexivity).
  assert (Hall : Forall (fun kn => no_match (VStr "missing") (VInt 1) (snd kn))
                        (dg_nodes (nx (targets diamond_graph)))).
  { unfold diamond_graph. vm_compute from_build.
    repeat constructor;
      (eexists; eexists; split; [reflexivity|]; split; [reflexivity|];
       left; split; reflexivity). }
  split; [exact Hnone|].
  split; [exact (Hany (VStr "a") (VStr "other.mk") VNone _ _ _ eq_refl
                   Hres Hfil)|].
  split; [exact Hall|].
  exact (Hmiss (VStr "missing") (VInt 1) eq_refl Hall).
Defined.

(** Whatever the graph and the filters, the keys [find_target] returns
    are in ascending order of elapsed time. *)
Lemma find_target_ascending :
  forall P G target makefile pid keys G',
    find_target P G target makefile pid = Ok (keys, G') ->
    exists nodes,
      keys = map fst nodes /\
      StronglySorted
        (fun a b => exists ea eb,
             elapsed_of P (snd a) = Ok ea /\ elapsed_of P (snd b) = Ok eb /\
             (ea <= eb)%Z)
        nodes.
Proof.
  intros P G target makefile pid keys G'. unfold find_target.
  destruct (negb (is_not_None target) && negb (is_not_None makefile)
            && negb (is_not_None pid)); [discriminate|].
  destruct (if is_not_None makefile then resolve_path P G makefile
            else Ok (makefile, G)) as [[mk G1]|e|]; cbn [bind];
    try discriminate.
  destruct (filter_nodes P target mk pid G1 _) as [[found G2]|e|];
    cbn [bind]; try discriminate.
  destruct (sorted_with _ false found) as [nodes|e|] eqn:E; cbn [bind];
    try discriminate.
  destruct nodes as [|n nodes]; [discriminate|].
  intros H. inversion H; subst.
  exists (n :: nodes). split; [reflexivity|].
  apply (sorted_with_ascending _ _ _ E).
Qed.

(** ** The TopRecipes report *)

(** The recipe times, through the Info view, of the targets with the
    given names. *)
Definition recipe_times (G : BuildDiGraph) (keys : list string)
  : result (list pyattr) :=
  mapM (fun k => n <- get_node (nx (targets G)) k ;;
                 info_elapsed_recipe_of posix n) keys.

(** C9.  On the sample build, none of whose five targets is recursive
    and whose recipe times are 1, 1, 1, 2 and 1 second (6 seconds in
    all, 3 for the two listed), the report lists the two targets of
    greatest recipe time, greatest first, but gives 28 seconds as the
    recipe total and as the numerator of the ratio: the sum of the
    elapsed times of all five. *)
Theorem top_recipes_total_sums_elapsed :
  (exists r,
     on_diamond (TopRecipesReport_generate posix 2) = Ok r /\
     map tr_target (top_targets r) = [VStr "c"; VStr "all"] /\
     map tr_recipe (top_targets r) = [PDelta 2000000%Z; PDelta 1000000%Z] /\
     top_recipe r = 28000000%Z /\
     top_parallel r = Some (VInt 4, (28000000%Z, 10000000%Z))) /\
  (G <- from_build posix diamond_build ;;
   recipe_times G ["1:all"; "1:a"; "1:b"; "1:c"; "1:d"])
  = Ok [PDelta 1000000%Z; PDelta 1000000%Z; PDelta 1000000%Z;
        PDelta 2000000%Z; PDelta 1000000%Z].
Proof.
  split; [eexists; split; [vm_compute; reflexivity | repeat split]|].
  vm_compute. reflexivity.
Qed.

(** X24.  Whatever the graph, the recipe total of the TopRecipes report is
    the sum of the elapsed times of all targets not flagged recursive. *)
Lemma top_recipes_total_is_elapsed :
  forall P n G r G',
    TopRecipesReport_generate P n G = Ok (r, G') ->
    exists ordered,
      Permutation ordered
        (filter (fun d => negb (truthy (Node_get d "recursive" (VBool false))))
                (map snd (dg_nodes (nx (targets G))))) /\
      sum_timedelta (elapsed_of P) ordered = Ok (top_recipe r).
Proof.
  intros P n G r G'. unfold TopRecipesReport_generate.
  unfold BuildDiGraph_elapsed at 1.
  destruct (entry (base G)) as [[e B]|err|]; cbn [bind]; try discriminate.
  destruct (elapsed_of P e) as [total|err|]; cbn [bind targets];
    try discriminate.
  destruct (sorted_with _ true _) as [ordered|err|] eqn:Es; cbn [bind];
    try discriminate.
  destruct (sum_timedelta (elapsed_of P) ordered) as [total_recipe|err|] eqn:Et;
    cbn [bind]; try discriminate.
  destruct (BuildDiGraph_jobs _) as [[jobs G1]|err|]; cbn [bind];
    try discriminate.
  match goal with
  | |- context [bind ?c _] => destruct c as [[parallel G2]|err|]
  end; cbn [bind]; try discriminate.
  match goal with
  | |- context [bind ?c _] => destruct c as [[nodes G3]|err|]
  end; cbn [bind]; try discriminate.
  intros H. inversion H; subst. cbn [top_recipe].
  exists ordered. split; [|exact Et].
  unfold sorted_with in Es.
  destruct (mapM _ _) as [keyed|err|] eqn:Ek; cbn [bind] in Es;
    try discriminate.
  inversion Es; subst ordered.
  destruct (mapM_keyed _ _ _ Ek) as [_ Hm]. rewrite <- Hm.
  apply Permutation_map. unfold sorted_by_reverse.
  apply (sorted_by_spec (fun x => (- fst x)%Z) keyed).
Qed.

(** ** The transitive reduction *)

Lemma set_minus_incl : forall s t x, In x (set_minus s t) -> In x s.
Proof. intros s t x H. unfold set_minus in H. apply filter_In in H. tauto. Qed.

Lemma reduced_nbrs_incl :
  forall {A} (G : DiGraph A) u v,
    In v (reduced_nbrs G u) -> In v (succ_list G u).
Proof.
  intros A G u v. unfold reduced_nbrs.
  generalize (succ_list G u) at 2 3 as acc.
  induction (succ_list G u) as [|c cs IH]; intros acc H; cbn in H.
  - exact H.
  - apply IH in H. destruct (mem c acc); [|exact H].
    eapply set_minus_incl; eauto.
Qed.

Section Reduction.

Context (P : Platform) {A : Type} (G : DiGraph A).
Hypothesis Hwf : wf_graph G.
Hypothesis Hac : acyclic G.

(** The graph [transitive_reduction] returns for an acyclic graph. *)
Definition reduction : DiGraph dict :=
  {| dg_nodes := map (fun u => (u, ([] : dict))) (node_keys G);
     dg_edges :=
       flat_map (fun u => map (pair u) (set_order P (reduced_nbrs G u)))
                (node_keys G) |}.

Lemma transitive_reduction_of_acyclic :
  transitive_reduction P G = Ok reduction.
Proof.
  unfold transitive_reduction.
  rewrite (acyclic_is_directed_acyclic_graph G Hwf Hac). reflexivity.
Qed.

Lemma reduction_keys : node_keys reduction = node_keys G.
Proof.
  unfold node_keys, reduction. cbn. rewrite map_map. cbn. apply map_id.
Qed.

(** The reduction keeps only edges of the graph. *)
Lemma reduction_succ_incl :
  forall u v, In v (succ_list reduction u) -> edge G u v.
Proof.
  intros u v H. apply succ_list_In in H. unfold edge, reduction in H. cbn in H.
  apply in_flat_map in H. destruct H as (u' & Hu' & H).
  apply in_map_iff in H. destruct H as (x & Hx & H).
  inversion Hx; subst u' x.
  apply (Permutation_in _ (set_order_perm P _)) in H.
  apply reduced_nbrs_incl in H. now apply succ_list_In.
Qed.

End Reduction.

(** ** What the transitive reduction keeps *)

(** An edge [u -> v] that no other path from [u] to [v] makes redundant:
    no successor of [u] reaches [v].  On an acyclic graph these are the
    edges of its transitive reduction. *)
Definition reduced_edge {A} (G : DiGraph A) (u v : string) : Prop :=
  edge G u v /\
  forall w, edge G u w -> ~ clos_trans string (edge G) w v.

Section Descendants.

Context {A : Type} (G : DiGraph A).
Hypothesis Hwf : wf_graph G.

(** What a search from [parent] adds to the nodes seen and to the edges
    given: the nodes added are reached from [parent], the successors of
    [parent] and of every node added are seen at the end.  [stack] holds
    the nodes being searched, as many as the depth used up. *)
Definition searched (parent : string) (visited : list string)
  (out : list (string * string))
  (st' : list string * list (string * string)) : Prop :=
  incl visited (fst st') /\
  (exists new,
      snd st' = out ++ new /\
      (forall y, In y (fst st') <-> In y visited \/ In y (map snd new)) /\
      (forall y, In y (map snd new) -> clos_trans string (edge G) parent y)) /\
  (forall x, In x (fst st') -> ~ In x visited ->
             forall y, edge G x y -> In y (fst st')).

Lemma dfs_visit_searched :
  forall depth parent visited out stack,
    NoDup stack -> incl stack visited -> incl stack (node_keys G) ->
    List.length stack + depth = S (List.length (node_keys G)) ->
    searched parent visited out (dfs_visit depth G parent (visited, out)) /\
    (forall y, edge G parent y ->
               In y (fst (dfs_visit depth G parent (visited, out)))).
Proof.
  induction depth as [|d IHd]; intros parent visited out stack Hnd Hsv Hsk Hlen.
  - exfalso. pose proof (NoDup_incl_length Hnd Hsk). lia.
  - cbn [dfs_visit].
    set (step := fun (st : list string * list (string * string)) child =>
                   let '(visited, out) := st in
                   if mem child visited then st
                   else dfs_visit d G child
                          (child :: visited, out ++ [(parent, child)])).
    assert (Hfold : forall cs,
               (forall c, In c cs -> edge G parent c) ->
               forall V o, incl stack V ->
                 searched parent V o (fold_left step cs (V, o)) /\
                 (forall c, In c cs -> In c (fst (fold_left step cs (V, o))))).
    { induction cs as [|c cs IHcs]; intros Hcs V o HsV.
      - cbn. split; [|intros c []].
        split; [apply incl_refl|]. split.
        + exists []. rewrite app_nil_r. split; [reflexivity|].
          split; [cbn; tauto | intros y []].
        + intros x Hx Hnx. contradiction.
      - cbn [fold_left].
        change (step (V, o) c)
          with (if mem c V then (V, o)
                else dfs_visit d G c (c :: V, o ++ [(parent, c)])).
        destruct (mem c V) eqn:Ec.
        + destruct (IHcs (fun c' H => Hcs c' (or_intror H)) V o HsV)
            as [Hs Hin].
          split; [exact Hs|].
          intros c' [<-|Hc']; [|now apply Hin].
          destruct Hs as (Hincl & _). apply Hincl. now apply mem_In.
        + apply mem_false_not_In in Ec.
          assert (Hpc : edge G parent c) by (apply Hcs; now left).
          assert (Hcn : In c (node_keys G))
            by (destruct Hwf as (_ & _ & He); now apply (He parent c)).
          destruct (IHd c (c :: V) (o ++ [(parent, c)]) (c :: stack))
            as [(Hi1 & (new1 & Ho1 & Hv1 & Hr1) & Hc1) Hsucc1].
          { constructor; [|exact Hnd]. intros H. apply Ec. now apply HsV. }
          { intros x [<-|Hx]; [now left | right; now apply HsV]. }
          { intros x [<-|Hx]; [exact Hcn | now apply Hsk]. }
          { cbn. lia. }
          destruct (dfs_visit d G c (c :: V, o ++ [(parent, c)]))
            as [V1 o1] eqn:E1.
          cbn [fst snd] in *.
          destruct (IHcs (fun c' H => Hcs c' (or_intror H)) V1 o1)
            as [(Hi2 & (new2 & Ho2 & Hv2 & Hr2) & Hc2) Hin2].
          { intros x Hx. apply Hi1. right. now apply HsV. }
          set (st' := fold_left step cs (V1, o1)) in *.
          split; [split; [|split]|].
          * intros x Hx. apply Hi2, Hi1. now right.
          * exists ((parent, c) :: new1 ++ new2). split.
            { rewrite Ho2, Ho1. rewrite <- !app_assoc. reflexivity. }
            split.
            { intros y. rewrite Hv2, Hv1. cbn [map snd In].
              rewrite map_app, in_app_iff. cbn. intuition. }
            { intros y. cbn [map snd In]. rewrite map_app, in_app_iff.
              intros [<-|[Hy|Hy]].
              - now apply t_step.
              - eapply t_trans; [apply t_step; exact Hpc | now apply Hr1].
              - now apply Hr2. }
          * intros x Hx HxV y Hxy.
            destruct (in_dec string_dec x V1) as [Hx1|Hx1].
            { apply Hi2. destruct (string_dec x c) as [->|Hxc].
              - now apply Hsucc1.
              - apply (Hc1 x Hx1); [|exact Hxy].
                intros [H|H]; [now apply Hxc | now apply HxV]. }
            { now apply (Hc2 x Hx Hx1 y). }
          * intros c' [<-|Hc'].
            { apply Hi2, Hi1. now left. }
            { now apply Hin2. } }
    destruct (Hfold (succ_list G parent)
                (fun c H => proj1 (succ_list_In G parent c) H)
                visited out Hsv) as [Hs Hin].
    split; [exact Hs|].
    intros y Hy. apply Hin. now apply succ_list_In.
Qed.

Hypothesis Hac : acyclic G.

(** The descendants [transitive_reduction] computes for a node are the
    nodes it reaches. *)
Lemma descendants_reach :
  forall v y,
    In v (node_keys G) ->
    (In y (descendants G v) <-> clos_trans string (edge G) v y).
Proof.
  intros v y Hv. unfold descendants, dfs_edges.
  destruct (dfs_visit_searched (List.length (dg_nodes G)) v [v] [] [v])
    as [(Hi & (new & Ho & Hvis & Hr) & Hc) Hsucc].
  { repeat constructor. intros []. }
  { apply incl_refl. }
  { intros x [<-|[]]. exact Hv. }
  { unfold node_keys. rewrite length_map. cbn. lia. }
  cbn [app] in Ho. rewrite Ho. split; [apply Hr|].
  intros Hreach.
  assert (Hin : In y (fst (dfs_visit (List.length (dg_nodes G)) G v ([v], [])))).
  { apply clos_trans_tn1 in Hreach.
    induction Hreach as [y Hvy | y z Hyz Hvy IH].
    - now apply Hsucc.
    - destruct (string_dec y v) as [->|Hyv]; [now apply Hsucc|].
      apply (Hc y IH); [|exact Hyz]. intros [H|[]]. now apply Hyv. }
  apply Hvis in Hin. destruct Hin as [[<-|[]]|Hin]; [|exact Hin].
  exfalso. now apply (Hac v).
Qed.

(** The neighbours kept for [u]: those that no neighbour of [u]
    reaches. *)
Lemma reduced_nbrs_spec :
  forall u v, In v (reduced_nbrs G u) <-> reduced_edge G u v.
Proof.
  intros u v. unfold reduced_nbrs, reduced_edge.
  set (l := succ_list G u).
  assert (Hl : forall w, In w l -> In w (node_keys G)).
  { intros w Hw. apply succ_list_In in Hw.
    destruct Hwf as (_ & _ & He). now apply (He u w). }
  assert (H : forall todo done acc,
             l = done ++ todo ->
             (forall x, In x acc <->
                        In x l /\ forall w, In w done ->
                                            ~ In x (descendants G w)) ->
             forall x,
               In x (fold_left
                       (fun u_nbrs v =>
                          if mem v u_nbrs
                          then set_minus u_nbrs (descendants G v)
                          else u_nbrs) todo acc) <->
               In x l /\ forall w, In w l -> ~ In x (descendants G w)).
  { induction todo as [|c todo IH]; intros done acc Hsplit Hacc x.
    - cbn. rewrite app_nil_r in Hsplit. subst done. apply Hacc.
    - cbn [fold_left]. apply (IH (done ++ [c])).
      + rewrite <- app_assoc. exact Hsplit.
      + intros z. destruct (mem c acc) eqn:Ec.
        * unfold set_minus. rewrite filter_In, negb_true_iff,
            mem_false_not_In, Hacc.
          split.
          { intros [[Hz Hd] Hzc]. split; [exact Hz|].
            intros w Hw. apply in_app_iff in Hw.
            destruct Hw as [Hw|[<-|[]]]; [now apply Hd | exact Hzc]. }
          { intros [Hz Hd]. split; [split; [exact Hz|]|].
            - intros w Hw. apply Hd, in_app_iff. now left.
            - apply Hd, in_app_iff. right. now left. }
        * apply mem_false_not_In in Ec. rewrite Hacc. split.
          { intros [Hz Hd]. split; [exact Hz|].
            intros w Hw. apply in_app_iff in Hw.
            destruct Hw as [Hw|[<-|[]]]; [now apply Hd|].
            intros Hzc.
            assert (Hcl : In c l).
            { rewrite Hsplit. apply in_app_iff. right. now left. }
            (* [c] was taken out by an earlier neighbour, which reaches
               [z] through [c] *)
            assert (Hex : exists w, In w done /\ In c (descendants G w)).
            { clear - Ec Hacc Hcl.
              assert (Hdec : forall ws,
                         (forall w, In w ws -> ~ In c (descendants G w)) \/
                         (exists w, In w ws /\ In c (descendants G w))).
              { induction ws as [|w ws IHws]; [left; intros w []|].
                destruct (in_dec string_dec c (descendants G w)) as [Hin|Hn].
                - right. exists w. split; [now left | exact Hin].
                - destruct IHws as [Hall|(w' & Hw' & Hin)].
                  + left. intros w' [<-|Hw']; [exact Hn | now apply Hall].
                  + right. exists w'. split; [now right | exact Hin]. }
              destruct (Hdec done) as [Hall|Hex]; [|exact Hex].
              exfalso. apply Ec. apply Hacc. split; assumption. }
            destruct Hex as (w & Hw & Hcw).
            apply (Hd w Hw).
            assert (Hwl : In w l).
            { rewrite Hsplit. apply in_app_iff. now left. }
            apply descendants_reach; [now apply Hl|].
            apply descendants_reach in Hcw; [|now apply Hl].
            apply descendants_reach in Hzc; [|now apply Hl].
            eapply t_trans; eassumption. }
          { intros [Hz Hd]. split; [exact Hz|].
            intros w Hw. apply Hd, in_app_iff. now left. } }
  rewrite (H l [] l eq_refl).
  - unfold l. rewrite succ_list_In. split.
    + intros [Huv Hd]. split; [exact Huv|].
      intros w Huw Hreach. apply (Hd w); [now apply succ_list_In|].
      apply descendants_reach; [|exact Hreach].
      destruct Hwf as (_ & _ & He). now apply (He u w).
    + intros [Huv Hd]. split; [exact Huv|].
      intros w Hw Hin. apply succ_list_In in Hw. apply (Hd w Hw).
      apply descendants_reach in Hin; [exact Hin|].
      destruct Hwf as (_ & _ & He). now apply (He u w).
  - intros x. split; [intros Hx; split; [exact Hx | intros w []] | tauto].
Qed.

(** The reduction has exactly the edges that no other path makes
    redundant. *)
Lemma reduction_succ_spec :
  forall P u v,
    In v (succ_list (reduction P G) u) <-> reduced_edge G u v.
Proof.
  intros P u v. rewrite succ_list_In. unfold edge, reduction. cbn [dg_edges].
  rewrite in_flat_map. split.
  - intros (u' & Hu' & H). apply in_map_iff in H.
    destruct H as (x & Hx & H). inversion Hx; subst u' x.
    apply (Permutation_in _ (set_order_perm P _)) in H.
    now apply reduced_nbrs_spec.
  - intros H. exists u. split.
    + destruct H as [Huv _]. destruct Hwf as (_ & _ & He).
      now apply (He u v).
    + apply in_map.
      apply (Permutation_in _ (Permutation_sym (set_order_perm P _))).
      now apply reduced_nbrs_spec.
Qed.

End Descendants.

(** ** The greatest item of [max] *)

Lemma max_loop_spec :
  forall (key : string -> result Z) xs best bk,
    (forall x, In x xs -> exists k, key x = Ok k) ->
    exists y ky,
      max_loop key xs best bk = Ok y /\
      ((y = best /\ ky = bk) \/ (In y xs /\ key y = Ok ky)) /\
      (bk <= ky)%Z /\
      (forall w kw, In w xs -> key w = Ok kw -> (kw <= ky)%Z).
Proof.
  intros key xs. induction xs as [|x xs IH]; intros best bk Hall.
  - exists best, bk. cbn. repeat split; auto; try lia; intros; contradiction.
  - destruct (Hall x (or_introl eq_refl)) as [k Hk].
    cbn [max_loop]. rewrite Hk. cbn [bind].
    destruct (Z.ltb bk k) eqn:E.
    + apply Z.ltb_lt in E.
      destruct (IH x k) as (y & ky & Hm & Hy & Hle & Hmax).
      { intros x' Hx'. apply Hall. now right. }
      exists y, ky. split; [exact Hm|]. split.
      { right. destruct Hy as [[-> ->]|[Hy1 Hy2]].
        - split; [now left | exact Hk].
        - split; [now right | exact Hy2]. }
      split; [lia|].
      intros w kw [<-|Hw] Hkw.
      * rewrite Hk in Hkw. inversion Hkw; subst. exact Hle.
      * now apply (Hmax w kw).
    + apply Z.ltb_ge in E.
      destruct (IH best bk) as (y & ky & Hm & Hy & Hle & Hmax).
      { intros x' Hx'. apply Hall. now right. }
      exists y, ky. split; [exact Hm|]. split.
      { destruct Hy as [[-> ->]|[Hy1 Hy2]]; [now left|].
        right. split; [now right | exact Hy2]. }
      split; [exact Hle|].
      intros w kw [<-|Hw] Hkw.
      * rewrite Hk in Hkw. inversion Hkw; subst. lia.
      * now apply (Hmax w kw).
Qed.

Lemma max_by_key_spec :
  forall (key : string -> result Z) xs,
    (forall x, In x xs -> exists k, key x = Ok k) ->
    match xs with
    | [] => max_by_key key xs = Ok None
    | _ :: _ =>
        exists y ky,
          max_by_key key xs = Ok (Some y) /\ In y xs /\ key y = Ok ky /\
          (forall w kw, In w xs -> key w = Ok kw -> (kw <= ky)%Z)
    end.
Proof.
  intros key [|x xs] Hall; [reflexivity|].
  destruct (Hall x (or_introl eq_refl)) as [k Hk].
  destruct (max_loop_spec key xs x k) as (y & ky & Hm & Hy & Hle & Hmax).
  { intros x' Hx'. apply Hall. now right. }
  exists y, ky. cbn [max_by_key]. rewrite Hk. cbn [bind]. rewrite Hm.
  cbn [bind]. split; [reflexivity|]. split.
  { destruct Hy as [[-> _]|[Hy _]]; [now left | now right]. }
  split.
  { destruct Hy as [[-> ->]|[_ Hy]]; assumption. }
  intros w kw [<-|Hw] Hkw.
  - rewrite Hk in Hkw. inversion Hkw; subst. exact Hle.
  - now apply (Hmax w kw).
Qed.

(** ** The heaviest path *)

(** Every key is a true value for [while start:]. *)
Definition keys_truthy (G : MakeGrindDiGraph) : Prop :=
  forall k, In k (node_keys (nx G)) -> k <> "".

(** A valid node is stored under the key its attributes give. *)
Definition keyed (P : Platform) (G : MakeGrindDiGraph) : Prop :=
  forall k n,
    assoc k (dg_nodes (nx G)) = Some n -> Node_valid n = true ->
    Node_key P n = Ok k.

(** What is memoised was computed from the graph as it is now. *)
Definition reduced_coherent (P : Platform) (G : MakeGrindDiGraph) : Prop :=
  forall r, _reduced G = Some r -> transitive_reduction P (nx G) = Ok r.

Definition entry_coherent (G : MakeGrindDiGraph) : Prop :=
  forall k, _entry G = Some k ->
    exists n, assoc k (dg_nodes (nx G)) = Some n /\ Node_valid n = true.

(** The state of a target graph in the query phase. *)
Definition target_graph_ok (P : Platform) (G : MakeGrindDiGraph) : Prop :=
  wf_graph (nx G) /\ keys_truthy G /\ keyed P G /\
  reduced_coherent P G /\ entry_coherent G.

(** The timestamps of every node can be read. *)
Definition elapsed_readable (P : Platform) (G : MakeGrindDiGraph) : Prop :=
  forall k, In k (node_keys (nx G)) -> exists d, node_elapsed P G k = Ok d.

(** A walk in the reduced graph [r] that takes a heaviest successor at
    each step and stops at a node without successors. *)
Inductive heaviest_chain (P : Platform) (G : MakeGrindDiGraph)
  (r : DiGraph dict) : list string -> Prop :=
| chain_end : forall s,
    succ_list r s = [] -> heaviest_chain P G r [s]
| chain_step : forall s y rest ey,
    In y (succ_list r s) ->
    node_elapsed P G y = Ok ey ->
    (forall w ew, In w (succ_list r s) -> node_elapsed P G w = Ok ew ->
                  (ew <= ey)%Z) ->
    heaviest_chain P G r (y :: rest) ->
    heaviest_chain P G r (s :: y :: rest).

Lemma node_elapsed_nx :
  forall P G G' x, nx G' = nx G -> node_elapsed P G' x = node_elapsed P G x.
Proof. intros P G G' x H. unfold node_elapsed. now rewrite H. Qed.

Lemma set__reduced_same :
  forall G r, _reduced G = Some r -> set__reduced (Some r) G = G.
Proof. intros [c g rd en] r H. cbn in *. subst. reflexivity. Qed.

Lemma reduced_of_coherent :
  forall P G r,
    reduced_coherent P G -> transitive_reduction P (nx G) = Ok r ->
    reduced P G = Ok (r, set__reduced (Some r) G).
Proof.
  intros P G r Hco Htr. unfold reduced.
  destruct (_reduced G) as [r0|] eqn:E.
  - pose proof (Hco r0 E) as H0. rewrite Htr in H0.
    inversion H0; subst r0. now rewrite set__reduced_same.
  - rewrite Htr. reflexivity.
Qed.


Lemma get_node_assoc :
  forall {A} (g : DiGraph A) k n,
    get_node g k = Ok n <-> assoc k (dg_nodes g) = Some n.
Proof.
  intros A g k n. unfold get_node.
  destruct (assoc k (dg_nodes g)); split; intros H; inversion H; reflexivity.
Qed.


Lemma heaviest_path_loop_None :
  forall P fuel G, heaviest_path_loop P fuel G None = Ok ([], G).
Proof. intros P [|fuel] G; reflexivity. Qed.

Section HeaviestPath.

Context (P : Platform) (G : MakeGrindDiGraph).
Hypothesis Hwf : wf_graph (nx G).
Hypothesis Hac : acyclic (nx G).
Hypothesis Htruthy : keys_truthy G.
Hypothesis Hread : elapsed_readable P G.

Let r := reduction P (nx G).

(** One call of [heaviest_child] on a graph that serves the reduction
    [r]: it succeeds, leaves the graph [G1] with [r] memoised, and picks
    a heaviest successor if there is any. *)
Lemma heaviest_child_spec :
  forall G0 G1 s,
    reduced P G0 = Ok (r, G1) -> nx G1 = nx G ->
    In s (node_keys (nx G)) ->
    match succ_list r s with
    | [] => heaviest_child P G0 s = Ok (None, G1)
    | _ :: _ =>
        exists y ey,
          heaviest_child P G0 s = Ok (Some y, G1) /\
          In y (succ_list r s) /\ node_elapsed P G y = Ok ey /\
          (forall w ew, In w (succ_list r s) -> node_elapsed P G w = Ok ew ->
                        (ew <= ey)%Z)
    end.
Proof.
  intros G0 G1 s Hred Hnx Hs.
  assert (Hsucc : successors r s = Ok (succ_list r s)).
  { unfold successors, has_node. unfold r. rewrite reduction_keys.
    apply mem_In in Hs. now rewrite Hs. }
  assert (Hkeys : forall x, In x (succ_list r s) ->
                    exists k, node_elapsed P G1 x = Ok k).
  { intros x Hx. rewrite (node_elapsed_nx P G G1 x Hnx). apply Hread.
    apply (reduction_succ_incl P (nx G)) in Hx. now apply Hwf in Hx. }
  pose proof (max_by_key_spec (node_elapsed P G1) (succ_list r s) Hkeys) as Hmax.
  unfold heaviest_child. rewrite Hred. cbn [bind]. rewrite Hsucc. cbn [bind].
  destruct (succ_list r s) as [|c cs] eqn:E.
  - rewrite Hmax. reflexivity.
  - destruct Hmax as (y & ky & Hm & Hy & Hky & Hle).
    exists y, ky. rewrite Hm. cbn [bind]. split; [reflexivity|].
    split; [exact Hy|]. split.
    + now rewrite <- (node_elapsed_nx P G G1 y Hnx).
    + intros w ew Hw Hew. apply (Hle w ew Hw).
      now rewrite (node_elapsed_nx P G G1 w Hnx).
Qed.

(** The loop ends within as many rounds as the graph has nodes not yet
    on the path, and what it yields is a heaviest chain. *)
Lemma heaviest_path_loop_ok :
  forall G1,
    reduced P G1 = Ok (r, G1) -> nx G1 = nx G ->
    forall fuel G0 visited s,
      reduced P G0 = Ok (r, G1) ->
      In s (node_keys (nx G)) ->
      NoDup visited -> incl visited (node_keys (nx G)) ->
      (forall x, In x visited -> clos_trans string (edge (nx G)) x s) ->
      (List.length (node_keys (nx G)) <= fuel + List.length visited)%nat ->
      exists path,
        heaviest_path_loop P fuel G0 (Some s) = Ok (s :: path, G1) /\
        heaviest_chain P G r (s :: path).
Proof.
  intros G1 Hred1 Hnx1. induction fuel as [|fuel IH];
    intros G0 visited s Hred0 Hs Hnd Hincl Hreach Hfuel.
  - exfalso.
    assert (Hsv : ~ In s visited).
    { intros Hin. apply (Hac s). now apply Hreach. }
    assert (Hlen : (List.length (s :: visited)
                    <= List.length (node_keys (nx G)))%nat).
    { apply NoDup_incl_length; [now constructor|].
      intros x [<-|Hx]; [assumption | now apply Hincl]. }
    cbn in Hlen, Hfuel. lia.
  - cbn [heaviest_path_loop].
    assert (Hne : String.eqb s "" = false).
    { apply String.eqb_neq. now apply Htruthy. }
    rewrite Hne.
    pose proof (heaviest_child_spec G0 G1 s Hred0 Hnx1 Hs) as Hchild.
    destruct (succ_list r s) as [|c cs] eqn:E.
    + rewrite Hchild. cbn [bind]. rewrite heaviest_path_loop_None. cbn [bind].
      exists []. split; [reflexivity|]. now apply chain_end.
    + destruct Hchild as (y & ey & Hc & Hy & Hey & Hle).
      rewrite Hc. cbn [bind].
      assert (Hsy : edge (nx G) s y).
      { apply (reduction_succ_incl P (nx G)). fold r. now rewrite E. }
      assert (Hsv : ~ In s visited).
      { intros Hin. apply (Hac s). now apply Hreach. }
      destruct (IH G1 (s :: visited) y Hred1) as (path & Hp & Hchain).
      { now apply Hwf in Hsy. }
      { now constructor. }
      { intros x [<-|Hx]; [assumption | now apply Hincl]. }
      { intros x [<-|Hx]; [now apply t_step|].
        eapply t_trans; [now apply Hreach | now apply t_step]. }
      { cbn [List.length]. lia. }
      rewrite Hp. cbn [bind]. exists (y :: path). split; [reflexivity|].
      eapply chain_step; eauto; rewrite E; assumption.
Qed.



End HeaviestPath.

Lemma heaviest_path_loop_fuel :
  forall P fuel fuel' G start x,
    (fuel <= fuel')%nat ->
    heaviest_path_loop P fuel G start = Ok x ->
    heaviest_path_loop P fuel' G start = Ok x.
Proof.
  intros P. induction fuel as [|fuel IH]; intros fuel' G start x Hle H.
  - destruct start as [s|]; cbn in H |- *.
    + destruct fuel'; cbn; destruct (String.eqb s ""); try discriminate;
        assumption.
    + destruct fuel'; exact H.
  - destruct fuel' as [|fuel']; [lia|].
    destruct start as [s|]; cbn in H |- *; [|exact H].
    destruct (String.eqb s ""); [exact H|].
    destruct (heaviest_child P G s) as [[next G1]|e|]; cbn in H |- *;
      try discriminate.
    destruct (heaviest_path_loop P fuel G1 next) as [[rest G2]|e|] eqn:E;
      cbn in H; try discriminate.
    rewrite (IH fuel' G1 next (rest, G2)); [exact H | lia | exact E].
Qed.


Lemma reduced_memoised :
  forall P G r, _reduced G = Some r -> reduced P G = Ok (r, G).
Proof. intros P G r H. unfold reduced. now rewrite H. Qed.


(** ** Ingestion builds a target graph *)

Section WfPreserved.

Context {A : Type}.
Implicit Types (G : DiGraph A).

Lemma wf_graph_empty : wf_graph (@empty_graph A).
Proof.
  repeat split; try constructor; destruct H.
Qed.

Lemma wf_graph_modify_node :
  forall G n f, wf_graph G -> wf_graph (modify_node n f G).
Proof.
  intros G n f (HV & HE & Hends). unfold wf_graph, edge.
  rewrite node_keys_modify_node. cbn. auto.
Qed.

Lemma wf_graph_ensure_node :
  forall G fresh n, wf_graph G -> wf_graph (ensure_node fresh n G).
Proof.
  intros G fresh n (HV & HE & Hends). unfold wf_graph, edge.
  rewrite dg_edges_ensure_node, node_keys_ensure_node.
  destruct (mem n (node_keys G)) eqn:E; [auto|].
  apply mem_false_not_In in E. split; [|split; [assumption|]].
  - apply NoDup_app; [assumption | repeat constructor; intros [] |].
    intros x Hx [<-|[]]. contradiction.
  - intros u v Huv. destruct (Hends u v Huv). rewrite !in_app_iff. auto.
Qed.

Lemma has_edge_In :
  forall G u v, has_edge G u v = true <-> edge G u v.
Proof.
  intros G u v. unfold has_edge, edge. rewrite existsb_exists. split.
  - intros ([a b] & Hin & He). unfold edge_eqb in He. cbn in He.
    apply andb_true_iff in He. destruct He as [H1 H2].
    apply String.eqb_eq in H1, H2. now subst.
  - intros H. exists (u, v). split; [assumption|].
    unfold edge_eqb. cbn. now rewrite !String.eqb_refl.
Qed.

Lemma wf_graph_add_edge :
  forall G fresh u v, wf_graph G -> wf_graph (add_edge fresh u v G).
Proof.
  intros G fresh u v Hwf.
  pose proof (wf_graph_ensure_node _ fresh v
                (wf_graph_ensure_node G fresh u Hwf)) as Hwf2.
  unfold add_edge.
  set (G2 := ensure_node fresh v (ensure_node fresh u G)) in *.
  destruct (has_edge G2 u v) eqn:E; [exact Hwf2|].
  destruct Hwf2 as (HV & HE & Hends).
  assert (HuV : In u (node_keys G2)).
  { apply mem_In. fold (has_node G2 u). unfold G2.
    rewrite !has_node_ensure_node. rewrite String.eqb_refl.
    now rewrite orb_true_r. }
  assert (HvV : In v (node_keys G2)).
  { apply mem_In. fold (has_node G2 v). unfold G2.
    rewrite !has_node_ensure_node. rewrite String.eqb_refl.
    now rewrite orb_true_r. }
  unfold wf_graph, edge, node_keys. cbn. fold (node_keys G2).
  split; [assumption|]. split.
  - apply NoDup_app; [assumption | repeat constructor; intros [] |].
    intros x Hx [<-|[]].
    assert (has_edge G2 u v = true) by now apply has_edge_In.
    congruence.
  - intros a b Hab. apply in_app_iff in Hab. destruct Hab as [Hab|[Hab|[]]].
    + now apply Hends.
    + inversion Hab; subst. auto.
Qed.

Lemma wf_graph_add_node :
  forall G fresh upd n, wf_graph G -> wf_graph (add_node fresh upd n G).
Proof.
  intros. unfold add_node. apply wf_graph_modify_node.
  now apply wf_graph_ensure_node.
Qed.

End WfPreserved.

(** *** Attribute dicts with one entry per key *)

Lemma dict_get_In_keys :
  forall d k v, dict_get k d = Some v -> In k (map fst d).
Proof.
  induction d as [|[k0 v0] d IH]; intros k v; cbn; [discriminate|].
  destruct (String.eqb k k0) eqn:E.
  - apply String.eqb_eq in E. auto.
  - intros H. right. eapply IH; eauto.
Qed.

Lemma dict_del_keys_incl :
  forall d k x, In x (map fst (dict_del k d)) -> In x (map fst d).
Proof.
  induction d as [|[k0 v0] d IH]; intros k x; cbn; [tauto|].
  destruct (String.eqb k k0); cbn; [auto|].
  intros [H|H]; [auto | right; eapply IH; eauto].
Qed.

Lemma dict_del_NoDup :
  forall d k, NoDup (map fst d) -> NoDup (map fst (dict_del k d)).
Proof.
  induction d as [|[k0 v0] d IH]; intros k Hnd; cbn; [constructor|].
  cbn in Hnd. inversion Hnd as [|? ? Hnin Hnd']; subst.
  destruct (String.eqb k k0); cbn; [assumption|].
  constructor; [|now apply IH].
  intros Hin. apply Hnin. eapply dict_del_keys_incl; eauto.
Qed.

Lemma set_all_other :
  forall d a k, ~ In k (map fst d) -> dict_get k (set_all d a) = dict_get k a.
Proof.
  unfold set_all. induction d as [|[k0 v0] d IH]; intros a k Hk; cbn.
  - reflexivity.
  - cbn in Hk. rewrite IH by tauto.
    apply dict_get_set_other. intros ->. tauto.
Qed.

(** [update] with a dict leaves each of its keys bound to its value. *)
Lemma set_all_get :
  forall d a k v,
    NoDup (map fst d) -> dict_get k d = Some v ->
    dict_get k (set_all d a) = Some v.
Proof.
  induction d as [|[k0 v0] d IH]; intros a k v Hnd Hg; cbn in Hg;
    [discriminate|].
  cbn in Hnd. inversion Hnd as [|? ? Hnin Hnd']; subst.
  unfold set_all. cbn [fold_left fst snd]. fold (set_all d (dict_set k0 v0 a)).
  destruct (String.eqb k k0) eqn:E.
  - apply String.eqb_eq in E. subst k0. inversion Hg; subst v0.
    rewrite set_all_other by assumption. apply dict_get_set_same.
  - now apply IH.
Qed.

Lemma append_colon_nonempty :
  forall a b, (a ++ ":" ++ b)%string <> "".
Proof. intros [|c a] b; cbn; discriminate. Qed.

(** The state of a target graph during ingestion: nothing memoised yet,
    every node a [TargetNode]. *)
Definition ingesting (P : Platform) (G : MakeGrindDiGraph) : Prop :=
  node_attr_dict_factory G = TargetNodeC /\
  _reduced G = None /\ _entry G = None /\
  wf_graph (nx G) /\ keys_truthy G /\ keyed P G /\
  (forall k n, assoc k (dg_nodes (nx G)) = Some n -> node_cls n = TargetNodeC).

Lemma ingesting_target_graph_ok :
  forall P G, ingesting P G -> target_graph_ok P G.
Proof.
  intros P G (Hf & Hr & He & Hwf & Ht & Hk & Hc).
  unfold target_graph_ok. split; [assumption|]. split; [assumption|].
  split; [assumption|]. split.
  - intros r Hr'. congruence.
  - intros k Hk'. congruence.
Qed.

Lemma In_node_keys :
  forall {A} (g : DiGraph A) k, In k (node_keys g) <-> has_node g k = true.
Proof. intros. unfold has_node. symmetry. apply mem_In. Qed.

Lemma ingesting_init : forall P, ingesting P TargetDiGraph_init.
Proof.
  intros P. unfold ingesting. cbn.
  split; [reflexivity|]. split; [reflexivity|]. split; [reflexivity|].
  split; [apply wf_graph_empty|]. split; [intros k []|].
  split; intros k n H; discriminate.
Qed.

Lemma TargetNode_nodekey_truthy :
  forall P d k, TargetNode_nodekey P d = Ok k -> k <> "".
Proof.
  intros P d k. unfold TargetNode_nodekey.
  destruct (dict_getitem "pid" d); cbn; try discriminate.
  destruct (dict_getitem "name" d); cbn; try discriminate.
  intros H. inversion H. apply append_colon_nonempty.
Qed.

Lemma fresh_target_node_invalid : Node_valid (Node_init TargetNodeC) = false.
Proof. reflexivity. Qed.

Lemma ingesting_add_edge :
  forall P G u v,
    ingesting P G -> u <> "" -> v <> "" -> ingesting P (MG_add_edge u v G).
Proof.
  intros P G u v (Hf & Hr & He & Hwf & Ht & Hk & Hc) Hu Hv.
  unfold ingesting, MG_add_edge. cbn. rewrite Hf.
  pose proof (extends_fresh_add_edge (Node_init TargetNodeC) (nx G) u v) as Hext.
  split; [reflexivity|]. split; [assumption|]. split; [assumption|].
  split; [now apply wf_graph_add_edge|].
  split; [|split].
  - intros k Hin. cbn [nx set_nx] in Hin. apply In_node_keys in Hin.
    rewrite has_node_add_edge in Hin.
    apply orb_true_iff in Hin. destruct Hin as [Hin|Hin].
    + apply orb_true_iff in Hin. destruct Hin as [Hin|Hin].
      * apply Ht. now apply mem_In.
      * apply String.eqb_eq in Hin. now subst.
    + apply String.eqb_eq in Hin. now subst.
  - intros k n Hn Hvalid. cbn [nx set_nx] in Hn. specialize (Hext k).
    destruct (assoc k (dg_nodes (nx G))) as [n0|] eqn:E.
    + rewrite Hext in Hn. inversion Hn; subst. now apply Hk.
    + destruct Hext as [Hx|Hx]; rewrite Hx in Hn; [discriminate|].
      inversion Hn; subst. discriminate.
  - intros k n Hn. cbn [nx set_nx] in Hn. specialize (Hext k).
    destruct (assoc k (dg_nodes (nx G))) as [n0|] eqn:E.
    + rewrite Hext in Hn. inversion Hn; subst. now apply (Hc k).
    + destruct Hext as [Hx|Hx]; rewrite Hx in Hn; [discriminate|].
      inversion Hn; subst. reflexivity.
Qed.

(** Replacing the attribute object of one node by one that is keyed as
    well keeps the graph in the ingestion state. *)
Lemma ingesting_modify_node :
  forall P G key f,
    ingesting P G ->
    (forall n, assoc key (dg_nodes (nx G)) = Some n ->
               node_cls (f n) = TargetNodeC /\
               (Node_valid (f n) = true -> Node_key P (f n) = Ok key)) ->
    ingesting P (set_nx (modify_node key f (nx G)) G).
Proof.
  intros P G key f (Hf & Hr & He & Hwf & Ht & Hk & Hc) Hnew.
  unfold ingesting. cbn.
  assert (Hlook : forall k n,
            assoc k (assoc_modify key f (dg_nodes (nx G))) = Some n ->
            (k <> key /\ assoc k (dg_nodes (nx G)) = Some n) \/
            (k = key /\ exists n0, assoc key (dg_nodes (nx G)) = Some n0 /\
                                   n = f n0)).
  { intros k n Hn. destruct (String.eqb k key) eqn:E.
    - apply String.eqb_eq in E. subst k. rewrite assoc_modify_same in Hn.
      destruct (assoc key (dg_nodes (nx G))) as [n0|]; [|discriminate].
      cbn in Hn. inversion Hn. right. eauto.
    - apply String.eqb_neq in E. rewrite assoc_modify_other in Hn by assumption.
      left. auto. }
  split; [assumption|]. split; [assumption|]. split; [assumption|].
  split; [now apply wf_graph_modify_node|].
  split; [|split].
  - intros k Hin. cbn [nx set_nx] in Hin.
    rewrite node_keys_modify_node in Hin. now apply Ht.
  - intros k n Hn Hvalid. cbn [nx set_nx modify_node dg_nodes] in Hn.
    destruct (Hlook k n Hn) as [[_ Ho]|[-> (n0 & Hn0 & ->)]].
    + now apply Hk.
    + now apply (Hnew n0 Hn0).
  - intros k n Hn. cbn [nx set_nx modify_node dg_nodes] in Hn.
    destruct (Hlook k n Hn) as [[_ Ho]|[-> (n0 & Hn0 & ->)]].
    + now apply (Hc k).
    + now apply (Hnew n0 Hn0).
Qed.

Lemma Node_update_cls :
  forall d n, node_cls (Node_update n d) = node_cls n.
Proof.
  unfold Node_update. induction d as [|[k v] d IH]; intros n; cbn;
    [reflexivity|]. rewrite IH. apply Node_setitem_cls.
Qed.

Lemma Node_valid_target :
  forall n,
    node_cls n = TargetNodeC -> Node_valid n = true ->
    exists pid name,
      dict_get "pid" (attrib n) = Some pid /\
      dict_get "name" (attrib n) = Some name.
Proof.
  intros n Hc. unfold Node_valid. rewrite Hc. cbn.
  unfold Node_hasattr, Node_getattr. cbn.
  destruct (dict_get "name" (attrib n)) as [name|]; [|discriminate].
  destruct (dict_get "pid" (attrib n)) as [pid|]; [|discriminate]. eauto.
Qed.

Lemma ingesting_node_setitem :
  forall P G key v G',
    ingesting P G ->
    MG_node_setitem key "recursive" v G = Ok G' -> ingesting P G'.
Proof.
  intros P G key v G' Hing. unfold MG_node_setitem.
  destruct (get_node (nx G) key) as [n|e|] eqn:E; cbn; try discriminate.
  intros H. inversion H; subst G'. clear H.
  apply ingesting_modify_node; [assumption|].
  intros n0 Hn0.
  destruct Hing as (Hf & Hr & He & Hwf & Ht & Hk & Hc).
  pose proof (Hc key n0 Hn0) as Hcls.
  split; [now rewrite Node_setitem_cls|].
  intros Hvalid.
  assert (Hsame : forall name, name <> "recursive" ->
            dict_get name (attrib (Node_setitem n0 "recursive" v))
            = dict_get name (attrib n0)).
  { intros name Hn. rewrite Node_setitem_attrib.
    now apply dict_get_set_other. }
  assert (Hv0 : Node_valid n0 = true).
  { revert Hvalid. unfold Node_valid. rewrite Node_setitem_cls, Hcls. cbn.
    unfold Node_hasattr, Node_getattr. cbn.
    rewrite !Hsame by discriminate. auto. }
  pose proof (Hk key n0 Hn0 Hv0) as Hkey.
  revert Hkey. unfold Node_key. rewrite Node_setitem_cls, Hcls. cbn.
  unfold TargetNode_nodekey, dict_getitem.
  now rewrite !Hsame by discriminate.
Qed.

(** The part of [add_target] after the key is made and [depends] is
    popped. *)
Lemma ingesting_add_target_body :
  forall P G key depends target' G',
    ingesting P G -> NoDup (map fst target') ->
    TargetNode_nodekey P target' = Ok key ->
    (let G0 := if has_node (nx G) key then G else MG_add_node key [] G in
     let G1 :=
       set_nx (modify_node key (fun n => Node_update n target') (nx G0)) G0 in
     xs <- py_iter depends ;;
     deps <- mapM (fun x =>
                     pid <- dict_getitem "pid" target' ;;
                     Ok [("pid", pid); ("name", x)]) xs ;;
     foldM (fun G dep => k <- MG_nodekey P G dep ;; Ok (MG_add_edge key k G))
           deps G1) = Ok G' ->
    ingesting P G'.
Proof.
  intros P G key depends target' G' Hing Hnd' Hkey.
  assert (Hfac : node_attr_dict_factory G = TargetNodeC) by apply Hing.
  pose proof (TargetNode_nodekey_truthy P target' key Hkey) as Hkne.
  set (G0 := if has_node (nx G) key then G else MG_add_node key [] G).
  assert (Hing0 : ingesting P G0).
  { unfold G0. destruct (has_node (nx G) key) eqn:E; [auto|].
    unfold MG_add_node, add_node. cbn [Node_update fold_left].
    apply (ingesting_modify_node P
             (set_nx (ensure_node (Node_init (node_attr_dict_factory G))
                        key (nx G)) G) key (fun n => n)).
    - destruct Hing as (Hf & Hr & He & Hwf & Ht & Hk & Hc).
      unfold ingesting. cbn [nx set_nx node_attr_dict_factory _reduced _entry].
      rewrite Hf.
      pose proof (extends_fresh_ensure_node (Node_init TargetNodeC)
                    (nx G) key) as Hext.
      split; [reflexivity|]. split; [assumption|]. split; [assumption|].
      split; [now apply wf_graph_ensure_node|].
      split; [|split].
      + intros k Hin. cbn [nx set_nx] in Hin. apply In_node_keys in Hin.
        rewrite has_node_ensure_node in Hin.
        apply orb_true_iff in Hin. destruct Hin as [Hin|Hin].
        * apply Ht. now apply In_node_keys.
        * apply String.eqb_eq in Hin. now subst.
      + intros k n Hn Hvalid. cbn [nx set_nx] in Hn. specialize (Hext k).
        destruct (assoc k (dg_nodes (nx G))) as [n0|] eqn:E0.
        * rewrite Hext in Hn. inversion Hn; subst. now apply Hk.
        * destruct Hext as [Hx|Hx]; rewrite Hx in Hn; [discriminate|].
          inversion Hn; subst. discriminate.
      + intros k n Hn. cbn [nx set_nx] in Hn. specialize (Hext k).
        destruct (assoc k (dg_nodes (nx G))) as [n0|] eqn:E0.
        * rewrite Hext in Hn. inversion Hn; subst. now apply (Hc k).
        * destruct Hext as [Hx|Hx]; rewrite Hx in Hn; [discriminate|].
          inversion Hn; subst. reflexivity.
    - intros n Hn. cbn [nx set_nx] in Hn.
      pose proof (extends_fresh_ensure_node
                    (Node_init (node_attr_dict_factory G)) (nx G) key key)
        as Hext.
      apply has_node_false_assoc in E. rewrite E in Hext.
      destruct Hext as [Hx|Hx]; rewrite Hx in Hn; [discriminate|].
      inversion Hn; subst. rewrite Hfac. split; [reflexivity|discriminate]. }
  set (G1 := set_nx (modify_node key (fun n => Node_update n target') (nx G0)) G0).
  assert (Hing1 : ingesting P G1).
  { unfold G1. apply ingesting_modify_node; [assumption|].
    intros n Hn.
    assert (Hcls : node_cls n = TargetNodeC).
    { destruct Hing0 as (_ & _ & _ & _ & _ & _ & Hc). now apply (Hc key). }
    split; [now rewrite Node_update_cls|].
    intros _. unfold Node_key. rewrite Node_update_cls, Hcls.
    cbn [class_nodekey]. rewrite Node_update_attrib.
    revert Hkey. unfold TargetNode_nodekey, dict_getitem.
    destruct (dict_get "pid" target') as [pid|] eqn:Hp; cbn [bind];
      [|discriminate].
    destruct (dict_get "name" target') as [name|] eqn:Hn'; cbn [bind];
      [|discriminate].
    intros Hkey.
    rewrite (set_all_get target' (attrib n) "pid" pid Hnd' Hp). cbn [bind].
    rewrite (set_all_get target' (attrib n) "name" name Hnd' Hn').
    cbn [bind]. exact Hkey. }
  cbn zeta. fold G0. fold G1.
  destruct (py_iter depends) as [xs|e|]; cbn [bind]; try discriminate.
  destruct (mapM _ xs) as [deps|e|]; cbn [bind]; try discriminate.
  clearbody G1. clear - Hing1 Hkne. revert G1 Hing1.
  induction deps as [|dep deps IH]; intros G1 Hing1; cbn [foldM].
  - intros H. inversion H; subst. exact Hing1.
  - destruct (MG_nodekey P G1 dep) as [k|e|] eqn:Hk; cbn [bind];
      try discriminate.
    apply IH. apply ingesting_add_edge; [assumption|assumption|].
    unfold MG_nodekey in Hk.
    assert (Hf : node_attr_dict_factory G1 = TargetNodeC) by apply Hing1.
    rewrite Hf in Hk. cbn in Hk.
    eapply TargetNode_nodekey_truthy; eauto.
Qed.

Lemma ingesting_add_target :
  forall P G target G',
    ingesting P G -> NoDup (map fst target) ->
    add_target P G target = Ok G' -> ingesting P G'.
Proof.
  intros P G target G' Hing Hnd. unfold add_target.
  destruct (MG_nodekey P G target) as [key|e|] eqn:Hkey; cbn [bind];
    try discriminate.
  assert (Hfac : node_attr_dict_factory G = TargetNodeC) by apply Hing.
  unfold MG_nodekey in Hkey. rewrite Hfac in Hkey. cbn [class_nodekey] in Hkey.
  unfold dict_pop.
  destruct (dict_get "depends" target) as [depends|] eqn:Hd.
  - apply ingesting_add_target_body; [assumption | now apply dict_del_NoDup |].
    revert Hkey. unfold TargetNode_nodekey, dict_getitem.
    now rewrite !dict_get_del_other by discriminate.
  - now apply ingesting_add_target_body.
Qed.

Lemma mapM_In :
  forall {A B} (f : A -> result B) xs ys y,
    mapM f xs = Ok ys -> In y ys -> exists x, In x xs /\ f x = Ok y.
Proof.
  intros A B f xs. induction xs as [|x xs IH]; intros ys y; cbn.
  - intros H. inversion H; subst. intros [].
  - destruct (f x) as [b|e|] eqn:E; cbn; try discriminate.
    destruct (mapM f xs) as [bs|e|]; cbn; try discriminate.
    intros H. inversion H; subst. intros [<-|Hy].
    + exists x. auto.
    + destruct (IH bs y eq_refl Hy) as (x' & Hx' & Hf). exists x'. auto.
Qed.

Lemma ingesting_add_parent_edges :
  forall P G build parent G',
    ingesting P G ->
    add_parent_edges P G build parent = Ok G' -> ingesting P G'.
Proof.
  intros P G build parent G' Hing. unfold add_parent_edges.
  destruct (py_getitem parent "pid") as [pid|e|]; cbn [bind]; try discriminate.
  destruct (py_getitem parent "target") as [name|e|]; cbn [bind];
    try discriminate.
  destruct (MG_nodekey P G _) as [pkey|e|] eqn:Hpk; cbn [bind];
    try discriminate.
  assert (Hpne : pkey <> "").
  { unfold MG_nodekey in Hpk.
    assert (Hf : node_attr_dict_factory G = TargetNodeC) by apply Hing.
    rewrite Hf in Hpk. cbn [class_nodekey] in Hpk.
    eapply TargetNode_nodekey_truthy; eauto. }
  destruct (BuildNode_entry P build) as [entries|e|] eqn:Hent; cbn [bind];
    try discriminate.
  assert (Hene : forall k, In k entries -> k <> "").
  { intros k Hk. unfold BuildNode_entry in Hent.
    destruct (dict_getitem "entry" (attrib build)); cbn in Hent;
      try discriminate.
    destruct (py_iter a); cbn in Hent; try discriminate.
    destruct (mapM_In _ _ _ k Hent Hk) as (x & _ & Hx).
    destruct (dict_getitem "pid" (attrib build)); cbn in Hx; try discriminate.
    inversion Hx. apply append_colon_nonempty. }
  clear Hent Hpk. revert G Hing.
  induction entries as [|en entries IH]; intros G Hing; cbn [foldM].
  - intros H. inversion H; subst. exact Hing.
  - destruct (MG_node_setitem pkey "recursive" (VBool true)
                (MG_add_edge pkey en G)) as [G2|e|] eqn:Hs; cbn [bind];
      try discriminate.
    apply IH.
    + intros k Hk. apply Hene. now right.
    + eapply ingesting_node_setitem; [|exact Hs].
      apply ingesting_add_edge; [assumption|assumption|].
      apply Hene. now left.
Qed.

(** The target graphs ingestion can build, from traces whose records
    bind each key once. *)
Inductive ingested (P : Platform) : MakeGrindDiGraph -> Prop :=
| ingested_init : ingested P TargetDiGraph_init
| ingested_target : forall G target G',
    ingested P G -> NoDup (map fst target) ->
    add_target P G target = Ok G' -> ingested P G'
| ingested_parent_edges : forall G build parent G',
    ingested P G ->
    add_parent_edges P G build parent = Ok G' -> ingested P G'.

(** Every such graph is a target graph in the sense of C1. *)
Theorem ingested_target_graph_ok :
  forall P G, ingested P G -> target_graph_ok P G.
Proof.
  intros P G H. apply ingesting_target_graph_ok.
  induction H.
  - apply ingesting_init.
  - eapply ingesting_add_target; eauto.
  - eapply ingesting_add_parent_edges; eauto.
Qed.

Lemma dict_set_keys_incl :
  forall d k v x, In x (map fst (dict_set k v d)) -> x = k \/ In x (map fst d).
Proof.
  induction d as [|[k0 v0] d IH]; intros k v x; cbn.
  - intros [H|[]]. auto.
  - destruct (String.eqb k k0) eqn:E; cbn.
    + apply String.eqb_eq in E. subst k0. tauto.
    + intros [H|H]; [auto|]. destruct (IH k v x H); auto.
Qed.

Lemma dict_set_NoDup :
  forall d k v, NoDup (map fst d) -> NoDup (map fst (dict_set k v d)).
Proof.
  induction d as [|[k0 v0] d IH]; intros k v Hnd; cbn.
  - repeat constructor. intros [].
  - cbn in Hnd. inversion Hnd as [|? ? Hnin Hnd']; subst.
    destruct (String.eqb k k0) eqn:E; cbn.
    + apply String.eqb_eq in E. subst k0. now constructor.
    + constructor; [|now apply IH].
      intros Hin. apply dict_set_keys_incl in Hin. destruct Hin as [->|Hin].
      * now rewrite String.eqb_refl in E.
      * contradiction.
Qed.

(** A record of the trace that binds each of its keys once, as a decoded
    JSON object does. *)
Definition record_ok (t : value) : Prop :=
  match t with
  | VDict d => NoDup (map fst d)
  | _ => True
  end.

Lemma ingesting_add_nodes_from_build :
  forall P build ts G G',
    ingesting P G -> Forall record_ok ts ->
    TargetDiGraph_add_nodes_from_build P G build ts = Ok G' ->
    ingesting P G'.
Proof.
  intros P build ts. unfold TargetDiGraph_add_nodes_from_build.
  induction ts as [|t ts IH]; intros G G' Hing Hok; cbn [foldM].
  - intros H. inversion H; subst. exact Hing.
  - inversion Hok as [|? ? Ht Hts]; subst.
    destruct (Node_getattr build "pid") as [pid|e|]; cbn [bind];
      try discriminate.
    destruct t as [| | | |l|d]; cbn [as_dict bind]; try discriminate.
    destruct (Node_getattr build "directory") as [dir|e|]; cbn [bind];
      try discriminate.
    destruct (add_target P G _) as [G1|e|] eqn:E; cbn [bind];
      try discriminate.
    apply IH; [|assumption].
    eapply ingesting_add_target; [exact Hing | | exact E].
    apply dict_set_NoDup. apply dict_set_NoDup. exact Ht.
Qed.

(** The target graph of a build graph stays a target graph in the sense
    of C1 when a process record with such target records is ingested. *)
Theorem add_nodes_from_build_targets_ingesting :
  forall P G build G',
    ingesting P (targets G) ->
    (forall ts, py_iter (fst (dict_pop "targets" (VList []) build)) = Ok ts ->
                Forall record_ok ts) ->
    add_nodes_from_build P G build = Ok G' ->
    ingesting P (targets G').
Proof.
  intros P G build G' Hing Hrec. unfold add_nodes_from_build.
  destruct (dict_pop "targets" (VList []) build) as [tv b]. cbn [fst] in Hrec.
  destruct (MG_nodekey P (base G) b) as [key|e|]; cbn [bind]; try discriminate.
  destruct (clashes_with_add_node b); [discriminate|].
  destruct (get_node _ key) as [n|e|]; cbn [bind]; try discriminate.
  destruct (py_iter tv) as [ts|e|]; cbn [bind]; try discriminate.
  destruct (TargetDiGraph_add_nodes_from_build P (targets G) n ts)
    as [T|e|] eqn:ET; cbn [bind]; try discriminate.
  assert (HT : ingesting P T).
  { eapply ingesting_add_nodes_from_build; [exact Hing | | exact ET].
    now apply Hrec. }
  destruct (dict_contains "parent" b).
  - destruct (dict_getitem "parent" b) as [parent|e|]; cbn [bind];
      try discriminate.
    destruct (as_dict parent) as [pd|e|]; cbn [bind]; try discriminate.
    destruct (MG_nodekey P _ pd) as [pkey|e|]; cbn [bind]; try discriminate.
    destruct (get_node _ key) as [n2|e|]; cbn [bind]; try discriminate.
    destruct (add_parent_edges P T n2 parent) as [T2|e|] eqn:EP; cbn [bind];
      try discriminate.
    intros H. inversion H; subst. cbn.
    eapply ingesting_add_parent_edges; eauto.
  - intros H. inversion H; subst. exact HT.
Qed.

(** A graph with a ranking that every edge descends has no cycle. *)
Lemma acyclic_by_rank :
  forall {A} (G : DiGraph A) (rank : string -> nat),
    (forall u v, edge G u v -> (rank v < rank u)%nat) -> acyclic G.
Proof.
  intros A G rank Hrank u Hcyc.
  assert (H : forall a b, clos_trans string (edge G) a b ->
                          (rank b < rank a)%nat).
  { intros a b Hab. induction Hab as [a b Hab | a b c _ IH1 _ IH2].
    - now apply Hrank.
    - lia. }
  specialize (H u u Hcyc). lia.
Qed.

(** *** The sample build as a target graph *)

Definition diamond_targets : MakeGrindDiGraph :=
  match from_build posix diamond_build with
  | Ok G => targets G
  | _ => TargetDiGraph_init
  end.

Example heaviest_path_of_diamond :
  (x <- heaviest_path posix 5 diamond_targets (Some "1:all") ;; Ok (fst x))
  = Ok ["1:all"; "1:a"; "1:c"; "1:d"].
Proof. vm_compute. reflexivity. Qed.

(** *** A build with a redundant edge *)

(** One process whose entry target [a] needs [c] and [b], and [b] needs
    [c]: the edge from [a] to [c] is redundant, and [c] takes longer
    than [b]. *)
Definition shortcut_build : dict :=
  [("pid", VInt 1); ("directory", VStr "/r"); ("start", VInt 0);
   ("end", VInt 10); ("jobs", VInt 4); ("entry", VList [VStr "a"]);
   ("targets",
    VList [sample_target "a" ["c"; "b"] 0 9 10;
           sample_target "b" ["c"] 1 2 3;
           sample_target "c" [] 4 5 9])].

Definition shortcut_graph : BuildDiGraph :=
  match from_build posix shortcut_build with
  | Ok G => G
  | _ => BuildDiGraph_init
  end.

Definition shortcut_rank (k : string) : nat :=
  if String.eqb k "1:a" then 2
  else if String.eqb k "1:b" then 1
  else 0.

Lemma shortcut_targets_ok : target_graph_ok posix (targets shortcut_graph).
Proof.
  apply ingesting_target_graph_ok.
  assert (HG : from_build posix shortcut_build = Ok shortcut_graph)
    by (vm_compute; reflexivity).
  eapply (add_nodes_from_build_targets_ingesting posix BuildDiGraph_init
            shortcut_build shortcut_graph); [apply ingesting_init| |exact HG].
  intros ts Hts. cbn in Hts. inversion Hts; subst ts.
  repeat constructor; cbn; intuition discriminate.
Qed.

Lemma shortcut_targets_acyclic : acyclic (nx (targets shortcut_graph)).
Proof.
  apply (acyclic_by_rank (nx (targets shortcut_graph)) shortcut_rank).
  intros u v H. vm_compute in H.
  repeat (destruct H as [H|H]; [inversion H; subst; vm_compute; lia|]).
  contradiction.
Qed.

Lemma shortcut_targets_readable :
  elapsed_readable posix (targets shortcut_graph).
Proof.
  intros k H. vm_compute in H.
  repeat (destruct H as [H|H]; [subst k; eexists; vm_compute; reflexivity|]).
  contradiction.
Qed.

(** The target graph has the redundant edge, and the walk does not take
    it although it leads to the heavier target. *)
Example heaviest_path_of_shortcut :
  dg_edges (nx (targets shortcut_graph))
  = [("1:a", "1:c"); ("1:a", "1:b"); ("1:b", "1:c")] /\
  info_elapsed posix shortcut_graph "1:b" = Ok 2000000%Z /\
  info_elapsed posix shortcut_graph "1:c" = Ok 5000000%Z /\
  (x <- heaviest_path posix 3 (targets shortcut_graph) (Some "1:a") ;;
   Ok (fst x))
  = Ok ["1:a"; "1:b"; "1:c"].
Proof. repeat split; vm_compute; reflexivity. Qed.


(** *** A reduction memoised before a mutation *)





(** ** Deleting an attribute of a node *)

(** X1.  [del node[key]] never removes [key] from the node's attributes.
    On a node that has no attribute named [_Node__attrib] it raises
    [AttributeError]; and whenever it returns, every attribute of the
    node other than [_Node__attrib] reads as before, [key] included. *)
Theorem Node_delitem_never_deletes :
  forall n key,
    (dict_get "_Node__attrib" (attrib n) = None ->
     Node_delitem n key = Raise AttributeError) /\
    (forall n', Node_delitem n key = Ok n' ->
       forall k, k <> "_Node__attrib" ->
         dict_get k (attrib n') = dict_get k (attrib n)).
Proof.
  intros n key. unfold Node_delitem, Node_getattr.
  change ("_Node__attrib" =? "__getstate__") with false.
  change ("_Node__attrib" =? "__setstate__") with false.
  cbn [orb]. rewrite Node_clear_attrib. split.
  - intros H. rewrite H. reflexivity.
  - intros n'. destruct (dict_get "_Node__attrib" (attrib n)) as [held|];
      cbn [bind]; [|discriminate].
    destruct held as [| | | |l|d]; try discriminate.
    destruct (dict_contains key d); [|discriminate].
    intros H k Hk. inversion H; subst n'. cbn [attrib set_attrib].
    apply dict_get_set_other. exact Hk.
Qed.

(** A target as ingestion stores it. *)
Definition stored_target : Node :=
  Node_update (Node_init TargetNodeC)
    [("pid", VInt 1); ("name", VStr "all"); ("start", VInt 0);
     ("end", VInt 9)].

Lemma Node_delitem_never_deletes_witness :
  Node_delitem stored_target "start" = Raise AttributeError.
Proof.
  exact (proj1 (Node_delitem_never_deletes stored_target "start") eq_refl).
Defined.


(** ** Lookups on a graph with placeholder nodes *)

(** Whether a call returned, as opposed to raising. *)
Definition returns {A} (r : result A) : bool :=
  match r with
  | Ok _ => true
  | _ => false
  end.

Lemma prefix_targets :
  forall G v G', prefix G = Ok (v, G') -> targets G' = targets G.
Proof.
  intros G v G'. unfold prefix.
  destruct (entry (base G)) as [[e B]|e|]; cbn [bind]; try discriminate.
  destruct (Node_getattr e "directory") as [d|e'|]; cbn [bind];
    try discriminate.
  intros H; inversion H; reflexivity.
Qed.

Lemma relpath_targets :
  forall P G path v G',
    relpath P G path = Ok (v, G') -> targets G' = targets G.
Proof.
  intros P G path v G'. unfold relpath.
  assert (Hsnd : forall G1 p,
            (if py_eq p (VStr ".")
             then '(pre, G2) <- prefix G1 ;;
                  pre <- as_str pre ;;
                  Ok (VStr (os_path_basename P pre), G2)
             else Ok (p, G1)) = Ok (v, G') -> targets G' = targets G1).
  { intros G1 p. destruct (py_eq p (VStr ".")).
    - destruct (prefix G1) as [[pre2 G2]|e|] eqn:E2; cbn [bind];
        try discriminate.
      destruct (as_str pre2) as [p2|e|]; cbn [bind]; try discriminate.
      intros H; inversion H; subst. eapply prefix_targets; eauto.
    - intros H; inversion H; reflexivity. }
  destruct path as [| | |s| |]; cbn [bind]; try discriminate.
  - apply Hsnd.
  - destruct (starts_with_slash s).
    + destruct (prefix G) as [[pre G1]|e|] eqn:E1; cbn [bind];
        try discriminate.
      destruct (as_str pre) as [p|e|]; cbn [bind]; try discriminate.
      intros H. apply Hsnd in H. rewrite H. eapply prefix_targets; eauto.
    + cbn [bind]. apply Hsnd.
Qed.

Lemma resolve_path_targets :
  forall P G path v G',
    resolve_path P G path = Ok (v, G') -> targets G' = targets G.
Proof.
  intros P G path v G'. unfold resolve_path.
  destruct (as_str path) as [p|e|]; cbn [bind]; try discriminate.
  destruct (prefix G) as [[pre G1]|e|] eqn:E1; cbn [bind]; try discriminate.
  destruct (as_str pre) as [pre1|e|]; cbn [bind]; try discriminate.
  destruct (prefix G1) as [[pre' G2]|e|] eqn:E2; cbn [bind]; try discriminate.
  apply prefix_targets in E1. apply prefix_targets in E2.
  destruct (py_eq _ _).
  - intros H. apply relpath_targets in H. congruence.
  - destruct (prefix G2) as [[pre3 G3]|e|] eqn:E3; cbn [bind];
      try discriminate.
    destruct (as_str pre3) as [p3|e|]; cbn [bind]; try discriminate.
    apply prefix_targets in E3.
    intros H. apply relpath_targets in H. congruence.
Qed.

Lemma relpath_of_str :
  forall P G s v G',
    relpath P G (VStr s) = Ok (v, G') -> exists s', v = VStr s'.
Proof.
  intros P G s v G'. unfold relpath.
  destruct (starts_with_slash s).
  - destruct (prefix G) as [[pre G1]|e|]; cbn [bind]; try discriminate.
    destruct (as_str pre) as [p|e|]; cbn [bind]; try discriminate.
    destruct (py_eq _ _).
    + destruct (prefix G1) as [[pre2 G2]|e|]; cbn [bind]; try discriminate.
      destruct (as_str pre2) as [p2|e|]; cbn [bind]; try discriminate.
      intros H; inversion H; eauto.
    + intros H; inversion H; eauto.
  - cbn [bind]. destruct (py_eq _ _).
    + destruct (prefix G) as [[pre2 G2]|e|]; cbn [bind]; try discriminate.
      destruct (as_str pre2) as [p2|e|]; cbn [bind]; try discriminate.
      intros H; inversion H; eauto.
    + intros H; inversion H; eauto.
Qed.

Lemma resolve_path_str :
  forall P G path v G',
    resolve_path P G path = Ok (v, G') -> exists s', v = VStr s'.
Proof.
  intros P G path v G'. unfold resolve_path.
  destruct (as_str path) as [p|e|]; cbn [bind]; try discriminate.
  destruct (prefix G) as [[pre G1]|e|]; cbn [bind]; try discriminate.
  destruct (as_str pre) as [pre1|e|]; cbn [bind]; try discriminate.
  destruct (prefix G1) as [[pre' G2]|e|]; cbn [bind]; try discriminate.
  destruct (py_eq _ _).
  - apply relpath_of_str.
  - destruct (prefix G2) as [[pre3 G3]|e|]; cbn [bind]; try discriminate.
    destruct (as_str pre3) as [p3|e|]; cbn [bind]; try discriminate.
    apply relpath_of_str.
Qed.

(** The filter of [find_target] raises on a node without attributes,
    whatever is looked for. *)
Lemma checker_of_placeholder :
  forall P G target mk pid n,
    attrib n = [] ->
    (is_not_None mk = true -> exists s, mk = VStr s) ->
    is_not_None target || is_not_None mk || is_not_None pid = true ->
    checker P target mk pid G n = Raise AttributeError.
Proof.
  intros P G target mk pid n Ha Hmk Hsome. unfold checker.
  assert (Hget : forall name, Node_getattr n name = Raise AttributeError).
  { intros name. unfold Node_getattr. rewrite Ha. cbn.
    destruct ((name =? "__getstate__") || (name =? "__setstate__"));
      reflexivity. }
  destruct (is_not_None target) eqn:Et.
  { rewrite Hget. reflexivity. }
  cbn [bind]. destruct (is_not_None mk) eqn:Em.
  { destruct (Hmk eq_refl) as [s ->].
    unfold TargetNode_path. rewrite Ha. cbn [dict_get_or dict_get truthy andb bind].
    unfold relpath at 1. cbn [bind py_eq negb].
    rewrite Hget. reflexivity. }
  cbn [bind]. destruct (is_not_None pid) eqn:Ep.
  { rewrite Hget. reflexivity. }
  discriminate.
Qed.

Lemma filter_nodes_placeholder :
  forall P target mk pid nodes G k n,
    In (k, n) nodes -> attrib n = [] ->
    (is_not_None mk = true -> exists s, mk = VStr s) ->
    is_not_None target || is_not_None mk || is_not_None pid = true ->
    returns (filter_nodes P target mk pid G nodes) = false.
Proof.
  intros P target mk pid nodes. induction nodes as [|x nodes IH];
    intros G k n Hin Ha Hmk Hsome; [contradiction|].
  cbn [filter_nodes]. destruct Hin as [->|Hin].
  - cbn [snd]. rewrite checker_of_placeholder by assumption. reflexivity.
  - destruct (checker P target mk pid G (snd x)) as [[keep G1]|e|];
      cbn [bind]; try reflexivity.
    specialize (IH G1 k n Hin Ha Hmk Hsome).
    destruct (filter_nodes P target mk pid G1 nodes) as [[rest G2]|e|];
      cbn [bind]; [discriminate | reflexivity | reflexivity].
Qed.

(** X2.  On a graph one of whose targets is a placeholder (a node without
    attributes, as an unresolved dependency leaves one), [find_target]
    never returns, whatever the filters: its filter reads [name],
    [directory] or [pid] of every node. *)
Theorem find_target_fails_on_placeholder :
  forall P G target makefile pid k n,
    In (k, n) (dg_nodes (nx (targets G))) -> attrib n = [] ->
    returns (find_target P G target makefile pid) = false.
Proof.
  intros P G target makefile pid k n Hin Ha. unfold find_target.
  destruct (negb (is_not_None target) && negb (is_not_None makefile)
            && negb (is_not_None pid)) eqn:Enone; [reflexivity|].
  destruct (is_not_None makefile) eqn:Em.
  - destruct (resolve_path P G makefile) as [[mk G1]|e|] eqn:Er; cbn [bind];
      try reflexivity.
    destruct (resolve_path_str _ _ _ _ _ Er) as [s ->].
    pose proof (filter_nodes_placeholder P target (VStr s) pid
                  (dg_nodes (nx (targets G))) G1 k n) as H.
    rewrite (resolve_path_targets _ _ _ _ _ Er).
    destruct (filter_nodes P target (VStr s) pid G1 _) as [[found G2]|e|];
      cbn [bind]; try reflexivity.
    cbn in H. exfalso.
    assert (true = false); [|discriminate].
    apply H; auto.
    + intros _. eauto.
    + rewrite orb_true_r. reflexivity.
  - cbn [bind].
    pose proof (filter_nodes_placeholder P target makefile pid
                  (dg_nodes (nx (targets G))) G k n Hin Ha) as H.
    destruct (filter_nodes P target makefile pid G _) as [[found G2]|e|];
      cbn [bind]; try reflexivity.
    cbn in H. exfalso.
    assert (true = false); [|discriminate].
    apply H.
    + rewrite Em. discriminate.
    + rewrite Em in *. destruct (is_not_None target), (is_not_None pid);
        cbn in *; congruence.
Qed.

(** ** Graphs with a cycle *)

Section Cyclic.

Context {A : Type} (G : DiGraph A).
Hypothesis Hwf : wf_graph G.

(** Whatever the graph, the [while] loop of the sort ends normally or
    with [NetworkXUnfeasible]. *)
Lemma generations_loop_ends_or_unfeasible :
  forall fuel m zero done,
    sort_inv G m done zero ->
    (zero <> [] -> List.length m < fuel)%nat ->
    snd (generations_loop fuel G m zero) = Ok tt \/
    snd (generations_loop fuel G m zero) = Raise NetworkXUnfeasible.
Proof.
  induction fuel as [|fuel IH]; intros m zero done Hinv Hfuel.
  - destruct zero as [|u zero];
      [|assert (List.length m < 0)%nat by (apply Hfuel; discriminate); lia].
    cbn. destruct m; auto.
  - destruct zero as [|u zero].
    + cbn. destruct m; auto.
    + cbn [generations_loop].
      destruct (visit_generation_inv G Hwf (u :: zero) m done [])
        as (m' & z' & done' & Hf & Hinv' & Hlen).
      { now rewrite app_nil_r. }
      rewrite Hf.
      specialize (IH m' z' done' Hinv').
      destruct (generations_loop fuel G m' z') as [gs fin]. cbn in *.
      apply IH. intros Hne.
      assert (List.length m < S fuel)%nat by (apply Hfuel; discriminate).
      destruct z'; [congruence|]. cbn in Hlen. lia.
Qed.

(** The sort of a graph with a cycle ends with [NetworkXUnfeasible]. *)
Lemma topological_sort_of_cyclic :
  forall u, clos_trans string (edge G) u u ->
    snd (topological_sort G) = Raise NetworkXUnfeasible.
Proof.
  intros u Hcyc.
  destruct (topological_sort G) as [order fin] eqn:E. cbn.
  assert (H : fin = Ok tt \/ fin = Raise NetworkXUnfeasible).
  { revert E. unfold topological_sort, topological_generations.
    match goal with
    | |- context [generations_loop ?f G ?m ?z] =>
        pose proof (generations_loop_ends_or_unfeasible f m z []
                      (sort_inv_initially G Hwf)) as H;
        destruct (generations_loop f G m z) as [gs fin0]
    end.
    cbn in H. intros E. inversion E; subst. apply H. intros _. lia. }
  destruct H as [->| ->]; [|reflexivity].
  exfalso.
  destruct (topological_sort_sound G Hwf order E) as (_ & _ & _ & Hac).
  exact (Hac u Hcyc).
Qed.

Lemma is_directed_acyclic_graph_of_cyclic :
  forall u, clos_trans string (edge G) u u ->
    is_directed_acyclic_graph G = Ok false.
Proof.
  intros u Hcyc. unfold is_directed_acyclic_graph.
  now rewrite (topological_sort_of_cyclic u Hcyc).
Qed.

End Cyclic.

(** X3.  On a graph with a dependency cycle and no reduction memoised,
    [reduced] raises networkx's error for a graph that is not acyclic,
    and so does [heaviest_path] from any start. *)
Theorem heaviest_path_of_cyclic_graph :
  forall P G u start fuel,
    wf_graph (nx G) -> clos_trans string (edge (nx G)) u u ->
    _reduced G = None -> start <> "" ->
    let err := NetworkXError
                 "Directed Acyclic Graph required for transitive_reduction" in
    reduced P G = Raise err /\
    heaviest_path P (S fuel) G (Some start) = Raise err.
Proof.
  intros P G u start fuel Hwf Hcyc Hr Hs err.
  assert (Hred : reduced P G = Raise err).
  { unfold reduced. rewrite Hr. unfold transitive_reduction.
    rewrite (is_directed_acyclic_graph_of_cyclic (nx G) Hwf u Hcyc).
    reflexivity. }
  split; [exact Hred|].
  cbn [heaviest_path heaviest_path_loop].
  apply String.eqb_neq in Hs. rewrite Hs.
  unfold heaviest_child. rewrite Hred. reflexivity.
Qed.

(** Two targets that depend on each other. *)
Definition cyclic_targets : MakeGrindDiGraph :=
  MG_add_edge "1:b" "1:a" (MG_add_edge "1:a" "1:b" TargetDiGraph_init).

Lemma heaviest_path_of_cyclic_graph_witness :
  wf_graph (nx cyclic_targets) /\
  clos_trans string (edge (nx cyclic_targets)) "1:a" "1:a" /\
  _reduced cyclic_targets = None /\ "1:a" <> "" /\
  reduced posix cyclic_targets
  = Raise (NetworkXError
             "Directed Acyclic Graph required for transitive_reduction") /\
  heaviest_path posix 1 cyclic_targets (Some "1:a")
  = Raise (NetworkXError
             "Directed Acyclic Graph required for transitive_reduction").
Proof.
  assert (Hwf : wf_graph (nx cyclic_targets)).
  { unfold wf_graph. cbn. split; [|split].
    - repeat constructor; cbn; intuition discriminate.
    - repeat constructor; cbn; intuition discriminate.
    - intros u v [H|[H|[]]]; inversion H; subst; cbn; auto. }
  assert (Hcyc : clos_trans string (edge (nx cyclic_targets)) "1:a" "1:a").
  { apply t_trans with "1:b"; apply t_step; cbn; auto. }
  assert (Hne : "1:a" <> "") by discriminate.
  split; [exact Hwf|]. split; [exact Hcyc|]. split; [reflexivity|].
  split; [exact Hne|].
  exact (heaviest_path_of_cyclic_graph posix cyclic_targets "1:a" "1:a" 0
           Hwf Hcyc eq_refl Hne).
Defined.

(** ** What [add_target] keeps *)

Lemma set_nx_same : forall G, set_nx (nx G) G = G.
Proof. intros [c g r e]. reflexivity. Qed.

(** The loop over the dependencies, when it returns: the graph has
    grown by fresh nodes and by edges, and holds the edge to each
    dependency. *)
Lemma add_edges_grow :
  forall P key deps G G',
    foldM (fun G dep => k <- MG_nodekey P G dep ;; Ok (MG_add_edge key k G))
          deps G = Ok G' ->
    node_attr_dict_factory G' = node_attr_dict_factory G /\
    _reduced G' = _reduced G /\ _entry G' = _entry G /\
    extends_fresh (Node_init (node_attr_dict_factory G)) (nx G) (nx G') /\
    (forall a b, has_edge (nx G) a b = true -> has_edge (nx G') a b = true) /\
    (forall k, has_node (nx G) k = true -> has_node (nx G') k = true) /\
    (forall dep, In dep deps ->
       exists k, MG_nodekey P G dep = Ok k /\
                 has_edge (nx G') key k = true /\
                 has_node (nx G') k = true /\ has_node (nx G') key = true).
Proof.
  intros P key deps. induction deps as [|dep deps IH]; intros G G'; cbn [foldM].
  - intros H. inversion H; subst.
    repeat split; auto using extends_fresh_refl. intros dep [].
  - destruct (MG_nodekey P G dep) as [k|e|] eqn:Ek; cbn [bind];
      try discriminate.
    intros H. destruct (IH _ _ H) as (Hf & Hr & He & Hext & Hedge & Hnode & Hdeps).
    cbn [MG_add_edge node_attr_dict_factory set_nx _reduced _entry nx] in *.
    split; [exact Hf|]. split; [exact Hr|]. split; [exact He|].
    split.
    { eapply extends_fresh_trans; [|exact Hext]. apply extends_fresh_add_edge. }
    split.
    { intros a b Hab. apply Hedge. rewrite has_edge_add_edge. now rewrite Hab. }
    split.
    { intros k0 Hk0. apply Hnode. rewrite has_node_add_edge. now rewrite Hk0. }
    intros d [<-|Hd].
    + exists k. split; [exact Ek|]. split; [|split].
      * apply Hedge. rewrite has_edge_add_edge. unfold edge_eqb. cbn.
        rewrite !String.eqb_refl. now rewrite orb_true_r.
      * apply Hnode. rewrite has_node_add_edge. rewrite String.eqb_refl.
        now rewrite orb_true_r.
      * apply Hnode. rewrite has_node_add_edge. rewrite String.eqb_refl.
        now rewrite orb_true_r, ?orb_true_l.
    + destruct (Hdeps d Hd) as (k0 & Hk0 & H1 & H2 & H3).
      exists k0. split; [|auto].
      unfold MG_nodekey in *. cbn in Hk0. exact Hk0.
Qed.

(** The graph [add_target] returns, step by step. *)
Lemma add_target_steps :
  forall P G target G',
    add_target P G target = Ok G' ->
    exists key G1,
      MG_nodekey P G target = Ok key /\
      let target' := snd (dict_pop "depends" (VList []) target) in
      let n0 := match assoc key (dg_nodes (nx G)) with
                | Some n => n
                | None => Node_init (node_attr_dict_factory G)
                end in
      node_attr_dict_factory G1 = node_attr_dict_factory G /\
      _reduced G1 = _reduced G /\ _entry G1 = _entry G /\
      dg_edges (nx G1) = dg_edges (nx G) /\
      assoc key (dg_nodes (nx G1)) = Some (Node_update n0 target') /\
      (forall k, k <> key ->
         assoc k (dg_nodes (nx G1)) = assoc k (dg_nodes (nx G))) /\
      (forall k, has_node (nx G1) k = has_node (nx G) k || String.eqb k key) /\
      exists xs deps,
        py_iter (fst (dict_pop "depends" (VList []) target)) = Ok xs /\
        mapM (fun x => pid <- dict_getitem "pid" target' ;;
                       Ok [("pid", pid); ("name", x)]) xs = Ok deps /\
        foldM (fun G dep => k <- MG_nodekey P G dep ;; Ok (MG_add_edge key k G))
              deps G1 = Ok G'.
Proof.
  intros P G target G'. unfold add_target.
  destruct (MG_nodekey P G target) as [key|e|]; cbn [bind]; try discriminate.
  destruct (dict_pop "depends" (VList []) target) as [depends target'].
  cbn [snd fst].
  set (G0 := if has_node (nx G) key then G else MG_add_node key [] G).
  set (G1 := set_nx (modify_node key (fun n => Node_update n target') (nx G0)) G0).
  destruct (py_iter depends) as [xs|e|]; cbn [bind]; try discriminate.
  destruct (mapM _ xs) as [deps|e|] eqn:Edeps; cbn [bind]; try discriminate.
  intros H. exists key, G1. split; [reflexivity|].
  assert (H0 : node_attr_dict_factory G0 = node_attr_dict_factory G /\
               _reduced G0 = _reduced G /\ _entry G0 = _entry G /\
               dg_edges (nx G0) = dg_edges (nx G) /\
               assoc key (dg_nodes (nx G0)) =
                 Some (match assoc key (dg_nodes (nx G)) with
                       | Some n => n
                       | None => Node_init (node_attr_dict_factory G)
                       end) /\
               (forall k, k <> key ->
                  assoc k (dg_nodes (nx G0)) = assoc k (dg_nodes (nx G))) /\
               (forall k, has_node (nx G0) k
                          = has_node (nx G) k || String.eqb k key)).
  { unfold G0. destruct (has_node (nx G) key) eqn:Eh.
    - repeat split; auto.
      + apply has_node_assoc in Eh. destruct Eh as [n ->]. reflexivity.
      + intros k. destruct (String.eqb k key) eqn:E.
        * apply String.eqb_eq in E. subst k. now rewrite Eh.
        * now rewrite orb_false_r.
    - cbn [MG_add_node node_attr_dict_factory set_nx _reduced _entry nx].
      repeat split; auto.
      + unfold add_node. cbn. apply dg_edges_ensure_node.
      + pose proof (get_node_add_node
                      (Node_init (node_attr_dict_factory G))
                      (fun n => Node_update n []) key (nx G)) as Hg.
        unfold get_node in Hg.
        destruct (assoc key (dg_nodes (add_node _ _ key (nx G))));
          [|discriminate].
        inversion Hg. reflexivity.
      + intros k Hk. unfold add_node. cbn.
        rewrite assoc_modify_other by exact Hk. rewrite assoc_ensure_node.
        destruct (assoc k (dg_nodes (nx G))); [reflexivity|].
        apply String.eqb_neq in Hk. now rewrite Hk.
      + intros k. unfold add_node. rewrite has_node_modify_node.
        rewrite has_node_ensure_node. reflexivity. }
  destruct H0 as (Hf0 & Hr0 & He0 & Hed0 & Hk0 & Ho0 & Hn0).
  split; [exact Hf0|]. split; [exact Hr0|]. split; [exact He0|].
  split; [exact Hed0|]. split.
  { unfold G1. cbn. rewrite assoc_modify_same, Hk0. reflexivity. }
  split.
  { intros k Hk. unfold G1. cbn. rewrite assoc_modify_other by exact Hk.
    now apply Ho0. }
  split.
  { intros k. unfold G1. cbn [nx set_nx]. rewrite has_node_modify_node.
    apply Hn0. }
  exists xs, deps. auto.
Qed.

Lemma add_target_grows :
  forall P G target G',
    add_target P G target = Ok G' ->
    (forall k, has_node (nx G) k = true -> has_node (nx G') k = true) /\
    (forall u v, has_edge (nx G) u v = true -> has_edge (nx G') u v = true) /\
    (forall k n, MG_nodekey P G target <> Ok k ->
       get_node (nx G) k = Ok n -> get_node (nx G') k = Ok n) /\
    _reduced G' = _reduced G /\ _entry G' = _entry G /\
    node_attr_dict_factory G' = node_attr_dict_factory G.
Proof.
  intros P G target G' H.
  destruct (add_target_steps P G target G' H)
    as (key & G1 & Hkey & Hf1 & Hr1 & He1 & Hed1 & Hk1 & Ho1 & Hn1 &
        xs & deps & _ & _ & Hfold).
  destruct (add_edges_grow P key deps G1 G' Hfold)
    as (Hf & Hr & He & Hext & Hedge & Hnode & _).
  split.
  { intros k Hk. apply Hnode. rewrite Hn1, Hk. reflexivity. }
  split.
  { intros u v Huv. apply Hedge. unfold has_edge in *. now rewrite Hed1. }
  split.
  { intros k n Hne Hg. unfold get_node in *.
    assert (Hk : k <> key) by (intros ->; now apply Hne).
    specialize (Hext k). rewrite (Ho1 k Hk) in Hext.
    destruct (assoc k (dg_nodes (nx G))); [|discriminate].
    now rewrite Hext. }
  repeat split; congruence.
Qed.

(** X4.  [add_target] only adds: the nodes and the edges of the graph
    stay, every node but the target's own keeps its attribute object,
    and neither memoised value is reset. *)
Theorem add_target_only_grows :
  forall P G target G',
    add_target P G target = Ok G' ->
    (forall k, has_node (nx G) k = true -> has_node (nx G') k = true) /\
    (forall u v, has_edge (nx G) u v = true -> has_edge (nx G') u v = true) /\
    (forall k n, MG_nodekey P G target <> Ok k ->
       get_node (nx G) k = Ok n -> get_node (nx G') k = Ok n) /\
    _reduced G' = _reduced G /\ _entry G' = _entry G.
Proof.
  intros P G target G' H.
  destruct (add_target_grows P G target G' H) as (H1 & H2 & H3 & H4 & H5 & _).
  auto.
Qed.

(** Two records of one process: [lib], and [all], which needs it. *)
Definition record_lib : dict :=
  [("pid", VInt 1); ("name", VStr "lib"); ("start", VInt 1); ("end", VInt 8)].

Definition record_all : dict :=
  [("pid", VInt 1); ("name", VStr "all"); ("depends", VList [VStr "lib"]);
   ("start", VInt 0); ("end", VInt 10)].

Definition lib_added : MakeGrindDiGraph :=
  match add_target posix TargetDiGraph_init record_lib with
  | Ok G => G
  | _ => TargetDiGraph_init
  end.

(** The graph with [lib], read once: both values are memoised. *)
Definition lib_read : MakeGrindDiGraph :=
  match ('(_, G) <- entry lib_added ;; '(_, G) <- reduced posix G ;; Ok G) with
  | Ok G => G
  | _ => TargetDiGraph_init
  end.

Definition all_added : MakeGrindDiGraph :=
  match add_target posix lib_read record_all with
  | Ok G => G
  | _ => TargetDiGraph_init
  end.

Lemma add_target_only_grows_witness :
  add_target posix lib_read record_all = Ok all_added /\
  (forall k, has_node (nx lib_read) k = true ->
             has_node (nx all_added) k = true) /\
  (forall u v, has_edge (nx lib_read) u v = true ->
               has_edge (nx all_added) u v = true) /\
  (forall k n, MG_nodekey posix lib_read record_all <> Ok k ->
     get_node (nx lib_read) k = Ok n -> get_node (nx all_added) k = Ok n) /\
  _reduced all_added = _reduced lib_read /\ _entry all_added = _entry lib_read.
Proof.
  assert (H : add_target posix lib_read record_all = Ok all_added)
    by (vm_compute; reflexivity).
  split; [exact H|].
  exact (add_target_only_grows posix lib_read record_all all_added H).
Defined.

(** ** Adding a target again *)

Lemma dict_set_same_value :
  forall d k v, dict_get k d = Some v -> dict_set k v d = d.
Proof.
  induction d as [|[k0 v0] d IH]; intros k v; cbn; [discriminate|].
  destruct (String.eqb k k0) eqn:E.
  - apply String.eqb_eq in E. subst k0. intros H. now inversion H.
  - intros H. f_equal. now apply IH.
Qed.

Lemma set_all_fixed :
  forall d a,
    (forall k v, In (k, v) d -> dict_get k a = Some v) -> set_all d a = a.
Proof.
  unfold set_all. induction d as [|[k v] d IH]; intros a H; cbn;
    [reflexivity|].
  rewrite (dict_set_same_value a k v) by (apply H; now left).
  apply IH. intros k' v' Hin. apply H. now right.
Qed.

Lemma dict_get_In :
  forall d k v, NoDup (map fst d) -> In (k, v) d -> dict_get k d = Some v.
Proof.
  induction d as [|[k0 v0] d IH]; intros k v Hnd Hin; [contradiction|].
  cbn in Hnd. inversion Hnd as [|? ? Hnin Hnd']; subst. cbn.
  destruct Hin as [H|H].
  - inversion H; subst. now rewrite String.eqb_refl.
  - destruct (String.eqb k k0) eqn:E.
    + apply String.eqb_eq in E. subst k0. exfalso. apply Hnin.
      apply in_map_iff. exists (k, v). auto.
    + now apply IH.
Qed.

Lemma set_all_twice :
  forall d a, NoDup (map fst d) -> set_all d (set_all d a) = set_all d a.
Proof.
  intros d a Hnd. apply set_all_fixed. intros k v Hin.
  apply set_all_get; [exact Hnd|]. now apply dict_get_In.
Qed.

Lemma Node_clear_twice : forall n, Node_clear (Node_clear n) = Node_clear n.
Proof. intros [c a e s f r er]. destruct c; reflexivity. Qed.

(** After a write the node is cleared, and its attributes are the only
    thing a further write can change. *)
Lemma Node_setitem_cleared :
  forall n k v, Node_clear (Node_setitem n k v) = Node_setitem n k v.
Proof. intros [c a e s f r er] k v. destruct c; reflexivity. Qed.

Lemma Node_update_cleared :
  forall d n, d <> [] -> Node_clear (Node_update n d) = Node_update n d.
Proof.
  intros d. unfold Node_update.
  induction d as [|kv d IH] using rev_ind; intros n Hne; [congruence|].
  rewrite fold_left_app. cbn. apply Node_setitem_cleared.
Qed.

Lemma Node_setitem_same :
  forall n k v,
    Node_clear n = n -> dict_get k (attrib n) = Some v ->
    Node_setitem n k v = n.
Proof.
  intros n k v Hc Hg. unfold Node_setitem. rewrite Hc.
  rewrite dict_set_same_value by exact Hg.
  destruct n; reflexivity.
Qed.

Lemma Node_update_fixed :
  forall d n,
    Node_clear n = n ->
    (forall k v, In (k, v) d -> dict_get k (attrib n) = Some v) ->
    Node_update n d = n.
Proof.
  unfold Node_update. induction d as [|[k v] d IH]; intros n Hc H; cbn;
    [reflexivity|].
  rewrite (Node_setitem_same n k v Hc) by (apply H; now left).
  apply IH; [exact Hc|]. intros k' v' Hin. apply H. now right.
Qed.

Lemma Node_update_twice :
  forall d n,
    NoDup (map fst d) -> Node_update (Node_update n d) d = Node_update n d.
Proof.
  intros d n Hnd. destruct d as [|kv d]; [reflexivity|].
  apply Node_update_fixed.
  - apply Node_update_cleared. discriminate.
  - intros k v Hin. rewrite Node_update_attrib.
    apply set_all_get; [exact Hnd|]. now apply dict_get_In.
Qed.

Lemma assoc_modify_fixed :
  forall {A} (l : list (string * A)) k f a,
    assoc k l = Some a -> f a = a -> assoc_modify k f l = l.
Proof.
  intros A l k f a. induction l as [|[k0 a0] l IH]; cbn; [discriminate|].
  destruct (String.eqb k k0) eqn:E.
  - intros H Hf. inversion H; subst. now rewrite Hf.
  - intros H Hf. f_equal. now apply IH.
Qed.

Lemma add_edge_present :
  forall {A} (fresh : A) u v (G : DiGraph A),
    has_node G u = true -> has_node G v = true -> has_edge G u v = true ->
    add_edge fresh u v G = G.
Proof.
  intros A fresh u v G Hu Hv He. unfold add_edge, ensure_node.
  rewrite Hu, Hv, He. reflexivity.
Qed.

(** The loop over dependencies whose edges are all there changes
    nothing. *)
Lemma add_edges_present :
  forall P key deps G,
    (forall dep, In dep deps ->
       exists k, MG_nodekey P G dep = Ok k /\
                 has_edge (nx G) key k = true /\
                 has_node (nx G) k = true /\ has_node (nx G) key = true) ->
    foldM (fun G dep => k <- MG_nodekey P G dep ;; Ok (MG_add_edge key k G))
          deps G = Ok G.
Proof.
  intros P key deps G. induction deps as [|dep deps IH]; intros H; cbn [foldM].
  - reflexivity.
  - destruct (H dep (or_introl eq_refl)) as (k & Hk & He & Hn & Hkey).
    rewrite Hk. cbn [bind]. unfold MG_add_edge.
    rewrite add_edge_present by assumption. rewrite set_nx_same.
    apply IH. intros d Hd. apply H. now right.
Qed.

Lemma dict_pop_NoDup :
  forall k default d,
    NoDup (map fst d) -> NoDup (map fst (snd (dict_pop k default d))).
Proof.
  intros k default d Hnd. unfold dict_pop.
  destruct (dict_get k d); cbn [snd]; [now apply dict_del_NoDup | exact Hnd].
Qed.

(** X5.  Adding a record equal to one just added changes nothing: the
    graph [add_target] returned is returned again as it is. *)
Theorem add_target_again :
  forall P G target G',
    NoDup (map fst target) ->
    add_target P G target = Ok G' ->
    add_target P G' target = Ok G'.
Proof.
  intros P G target G' Hnd H.
  destruct (add_target_steps P G target G' H)
    as (key & G1 & Hkey & Hf1 & Hr1 & He1 & Hed1 & Hk1 & Ho1 & Hn1 &
        xs & deps & Hxs & Hdeps & Hfold).
  destruct (add_edges_grow P key deps G1 G' Hfold)
    as (Hf & Hr & He & Hext & Hedge & Hnode & Hpresent).
  clear H. unfold add_target.
  assert (Hkey' : forall d, MG_nodekey P G' d = MG_nodekey P G1 d).
  { intros d. unfold MG_nodekey. now rewrite Hf. }
  assert (Hkey1 : forall d, MG_nodekey P G1 d = MG_nodekey P G d).
  { intros d. unfold MG_nodekey. now rewrite Hf1. }
  rewrite Hkey', Hkey1, Hkey. cbn [bind].
  pose proof (dict_pop_NoDup "depends" (VList []) target Hnd) as Hnd'.
  destruct (dict_pop "depends" (VList []) target) as [depends target'].
  cbn [fst snd] in *.
  assert (Hhas : has_node (nx G') key = true).
  { apply Hnode. rewrite Hn1. rewrite String.eqb_refl. apply orb_true_r. }
  rewrite Hhas, Hxs. cbn [bind]. rewrite Hdeps. cbn [bind].
  assert (Hnode' : assoc key (dg_nodes (nx G')) =
                   Some (Node_update
                           match assoc key (dg_nodes (nx G)) with
                           | Some n => n
                           | None => Node_init (node_attr_dict_factory G)
                           end target')).
  { specialize (Hext key). rewrite Hk1 in Hext. exact Hext. }
  assert (Hsame : modify_node key (fun n => Node_update n target') (nx G')
                  = nx G').
  { unfold modify_node.
    rewrite (assoc_modify_fixed _ _ _ _ Hnode')
      by (now apply Node_update_twice).
    destruct (nx G'); reflexivity. }
  rewrite Hsame, set_nx_same.
  apply add_edges_present. intros dep Hdep.
  destruct (Hpresent dep Hdep) as (k & Hk & H1 & H2 & H3).
  exists k. rewrite Hkey'. auto.
Qed.

Lemma add_target_again_witness :
  NoDup (map fst record_all) /\
  add_target posix lib_read record_all = Ok all_added /\
  add_target posix all_added record_all = Ok all_added.
Proof.
  assert (Hnd : NoDup (map fst record_all))
    by (repeat constructor; cbn; intuition discriminate).
  assert (H : add_target posix lib_read record_all = Ok all_added)
    by (vm_compute; reflexivity).
  split; [exact Hnd|]. split; [exact H|].
  exact (add_target_again posix lib_read record_all all_added Hnd H).
Defined.

(** ** The process's stamp on its targets *)

(** The node carries the [pid] and the [directory] given. *)
Definition stamped (pid dir : value) (n : Node) : Prop :=
  dict_get "pid" (attrib n) = Some pid /\
  dict_get "directory" (attrib n) = Some dir.

Lemma dict_get_pop_other :
  forall d k k' default,
    k <> k' -> dict_get k (snd (dict_pop k' default d)) = dict_get k d.
Proof.
  intros d k k' default Hk. unfold dict_pop.
  destruct (dict_get k' d); cbn [snd]; [|reflexivity].
  now apply dict_get_del_other.
Qed.

Lemma add_target_stamps :
  forall P G t G' pid dir key,
    NoDup (map fst t) ->
    dict_get "pid" t = Some pid -> dict_get "directory" t = Some dir ->
    add_target P G t = Ok G' -> MG_nodekey P G t = Ok key ->
    exists n, get_node (nx G') key = Ok n /\ stamped pid dir n.
Proof.
  intros P G t G' pid dir key Hnd Hpid Hdir H Hkey.
  destruct (add_target_steps P G t G' H)
    as (key' & G1 & Hkey' & Hf1 & Hr1 & He1 & Hed1 & Hk1 & Ho1 & Hn1 &
        xs & deps & Hxs & Hdeps & Hfold).
  rewrite Hkey in Hkey'. inversion Hkey'; subst key'. clear Hkey'.
  destruct (add_edges_grow P key deps G1 G' Hfold)
    as (Hf & Hr & He & Hext & Hedge & Hnode & Hpresent).
  specialize (Hext key). rewrite Hk1 in Hext.
  eexists. unfold get_node. rewrite Hext. split; [reflexivity|].
  pose proof (dict_pop_NoDup "depends" (VList []) t Hnd) as Hnd'.
  unfold stamped. rewrite Node_update_attrib. split.
  - apply set_all_get; [exact Hnd'|].
    rewrite dict_get_pop_other by discriminate. exact Hpid.
  - apply set_all_get; [exact Hnd'|].
    rewrite dict_get_pop_other by discriminate. exact Hdir.
Qed.

Lemma add_target_keeps_stamp :
  forall P G t G' pid dir k n,
    NoDup (map fst t) ->
    dict_get "pid" t = Some pid -> dict_get "directory" t = Some dir ->
    add_target P G t = Ok G' ->
    get_node (nx G) k = Ok n -> stamped pid dir n ->
    exists n', get_node (nx G') k = Ok n' /\ stamped pid dir n'.
Proof.
  intros P G t G' pid dir k n Hnd Hpid Hdir H Hn Hs.
  destruct (MG_nodekey P G t) as [key|e|] eqn:Ek.
  - destruct (String.eqb k key) eqn:E.
    + apply String.eqb_eq in E. subst k.
      eapply add_target_stamps; eauto.
    + apply String.eqb_neq in E.
      destruct (add_target_grows P G t G' H) as (_ & _ & Hkeep & _).
      exists n. split; [|exact Hs]. apply Hkeep; [|exact Hn].
      rewrite Ek. intros Heq. inversion Heq. congruence.
  - unfold add_target in H. rewrite Ek in H. discriminate.
  - unfold add_target in H. rewrite Ek in H. discriminate.
Qed.

Lemma stamp_record_NoDup :
  forall d pid dir,
    NoDup (map fst d) ->
    NoDup (map fst (dict_set "directory" dir (dict_set "pid" pid d))).
Proof. intros. now do 2 apply dict_set_NoDup. Qed.

Lemma add_nodes_from_build_cons :
  forall P G build t ts,
    TargetDiGraph_add_nodes_from_build P G build (t :: ts) =
    (pid <- Node_getattr build "pid" ;;
     target <- as_dict t ;;
     directory <- Node_getattr build "directory" ;;
     G1 <- add_target P G
             (dict_set "directory" directory (dict_set "pid" pid target)) ;;
     TargetDiGraph_add_nodes_from_build P G1 build ts).
Proof.
  intros. unfold TargetDiGraph_add_nodes_from_build. cbn [foldM].
  destruct (Node_getattr build "pid"); cbn [bind]; try reflexivity.
  destruct (as_dict t); cbn [bind]; try reflexivity.
  destruct (Node_getattr build "directory"); reflexivity.
Qed.

Lemma add_nodes_keeps_stamp :
  forall P build ts G G' pid dir k n,
    Forall record_ok ts ->
    Node_getattr build "pid" = Ok pid ->
    Node_getattr build "directory" = Ok dir ->
    TargetDiGraph_add_nodes_from_build P G build ts = Ok G' ->
    get_node (nx G) k = Ok n -> stamped pid dir n ->
    exists n', get_node (nx G') k = Ok n' /\ stamped pid dir n'.
Proof.
  intros P build ts.
  induction ts as [|t ts IH]; intros G G' pid dir k n Hok Hpid Hdir.
  - intros H Hn Hs. inversion H; subst. eauto.
  - inversion Hok as [|? ? Ht Hts]; subst.
    rewrite add_nodes_from_build_cons, Hpid. cbn [bind].
    destruct t as [| | | |l|d]; cbn [as_dict bind]; try discriminate.
    rewrite Hdir. cbn [bind].
    destruct (add_target P G _) as [G1|e|] eqn:E; cbn [bind];
      try discriminate.
    intros H Hn Hs.
    destruct (add_target_keeps_stamp P G _ G1 pid dir k n
                (stamp_record_NoDup d pid dir Ht)) as (n1 & Hn1 & Hs1);
      auto.
    + rewrite dict_get_set_other by discriminate. apply dict_get_set_same.
    + apply dict_get_set_same.
    + eapply IH; eauto.
Qed.

(** X6.  Every target record ingested for a process ends as a node that
    carries the [pid] and the [directory] of the process, whatever the
    record itself said, under the key made of that [pid] and the
    record's name. *)
Theorem add_nodes_from_build_stamps :
  forall P G build ts G' t,
    node_attr_dict_factory G = TargetNodeC ->
    Forall record_ok ts ->
    TargetDiGraph_add_nodes_from_build P G build ts = Ok G' ->
    In t ts ->
    exists d pid dir name n,
      t = VDict d /\
      Node_getattr build "pid" = Ok pid /\
      Node_getattr build "directory" = Ok dir /\
      dict_get "name" d = Some name /\
      get_node (nx G') (format P pid ++ ":" ++ format P name)%string = Ok n /\
      stamped pid dir n.
Proof.
  intros P G build ts. revert G.
  induction ts as [|t0 ts IH]; intros G G' t Hfac Hok Hfold Hin;
    [contradiction|].
  inversion Hok as [|? ? Ht Hts]; subst.
  rewrite add_nodes_from_build_cons in Hfold.
  destruct (Node_getattr build "pid") as [pid|e|] eqn:Epid; cbn [bind] in Hfold;
    try discriminate.
  destruct t0 as [| | | |l|d]; cbn [as_dict bind] in Hfold; try discriminate.
  destruct (Node_getattr build "directory") as [dir|e|] eqn:Edir;
    cbn [bind] in Hfold; try discriminate.
  set (rec := dict_set "directory" dir (dict_set "pid" pid d)) in *.
  destruct (add_target P G rec) as [G1|e|] eqn:E; cbn [bind] in Hfold;
    try discriminate.
  assert (Hfac1 : node_attr_dict_factory G1 = TargetNodeC).
  { destruct (add_target_grows P G rec G1 E) as (_ & _ & _ & _ & _ & Hf).
    congruence. }
  destruct Hin as [<-|Hin].
  - assert (Hpid : dict_get "pid" rec = Some pid).
    { unfold rec. rewrite dict_get_set_other by discriminate.
      apply dict_get_set_same. }
    assert (Hdir : dict_get "directory" rec = Some dir).
    { unfold rec. apply dict_get_set_same. }
    destruct (MG_nodekey P G rec) as [key|e|] eqn:Ek;
      try (unfold add_target in E; rewrite Ek in E; discriminate).
    destruct (add_target_stamps P G rec G1 pid dir key
                (stamp_record_NoDup d pid dir Ht) Hpid Hdir E Ek)
      as (n1 & Hn1 & Hs1).
    destruct (add_nodes_keeps_stamp P build ts G1 G' pid dir key n1
                Hts Epid Edir Hfold Hn1 Hs1) as (n' & Hn' & Hs').
    unfold MG_nodekey in Ek. rewrite Hfac in Ek. cbn [class_nodekey] in Ek.
    unfold TargetNode_nodekey, dict_getitem in Ek. rewrite Hpid in Ek.
    cbn [bind] in Ek.
    destruct (dict_get "name" rec) as [name|] eqn:En; cbn [bind] in Ek;
      try discriminate.
    inversion Ek; subst key.
    exists d, pid, dir, name, n'. repeat split; auto; try apply Hs'.
    all: try reflexivity.
    unfold rec in En. now rewrite !dict_get_set_other in En by discriminate.
  - destruct (IH G1 G' t Hfac1 Hts Hfold Hin)
      as (d' & pid' & dir' & name & n & H1 & H2 & H3 & H4 & H5 & H6).
    exists d', pid', dir', name, n. repeat split; auto; apply H6.
Qed.

(** A process in [/r] and a target record that claims another process
    and directory. *)
Definition process_node : Node :=
  Node_update (Node_init BuildNodeC)
    [("pid", VInt 1); ("directory", VStr "/r")].

Definition foreign_record : value :=
  VDict [("name", VStr "all"); ("pid", VInt 99);
         ("directory", VStr "/elsewhere")].

Definition foreign_added : MakeGrindDiGraph :=
  match TargetDiGraph_add_nodes_from_build posix TargetDiGraph_init
          process_node [foreign_record] with
  | Ok G => G
  | _ => TargetDiGraph_init
  end.

Lemma add_nodes_from_build_stamps_witness :
  node_attr_dict_factory TargetDiGraph_init = TargetNodeC /\
  Forall record_ok [foreign_record] /\
  TargetDiGraph_add_nodes_from_build posix TargetDiGraph_init process_node
    [foreign_record] = Ok foreign_added /\
  In foreign_record [foreign_record] /\
  exists d pid dir name n,
    foreign_record = VDict d /\
    Node_getattr process_node "pid" = Ok pid /\
    Node_getattr process_node "directory" = Ok dir /\
    dict_get "name" d = Some name /\
    get_node (nx foreign_added)
      (format posix pid ++ ":" ++ format posix name)%string = Ok n /\
    stamped pid dir n.
Proof.
  assert (Hok : Forall record_ok [foreign_record]).
  { repeat constructor; cbn; intuition discriminate. }
  assert (H : TargetDiGraph_add_nodes_from_build posix TargetDiGraph_init
                process_node [foreign_record] = Ok foreign_added)
    by (vm_compute; reflexivity).
  assert (Hin : In foreign_record [foreign_record]) by (left; reflexivity).
  split; [reflexivity|]. split; [exact Hok|]. split; [exact H|].
  split; [exact Hin|].
  exact (add_nodes_from_build_stamps posix TargetDiGraph_init process_node
           [foreign_record] foreign_added foreign_record eq_refl Hok H Hin).
Defined.

(** A process whose target [all] needs [lib] and [gone], of which only
    [lib] has a record: [1:gone] is a placeholder. *)
Definition gap_build : dict :=
  [("pid", VInt 1); ("directory", VStr "/r"); ("start", VInt 0);
   ("end", VInt 10); ("jobs", VInt 4); ("entry", VList [VStr "all"]);
   ("targets",
    VList [sample_target "all" ["lib"; "gone"] 0 9 10;
           sample_target "lib" [] 1 4 8])].

Definition gap_graph : BuildDiGraph :=
  match from_build posix gap_build with
  | Ok G => G
  | _ => BuildDiGraph_init
  end.

Lemma find_target_fails_on_placeholder_witness :
  In ("1:gone", Node_init TargetNodeC) (dg_nodes (nx (targets gap_graph))) /\
  attrib (Node_init TargetNodeC) = [] /\
  returns (find_target posix gap_graph (VStr "all") VNone VNone) = false.
Proof.
  assert (Hin : In ("1:gone", Node_init TargetNodeC)
                   (dg_nodes (nx (targets gap_graph))))
    by (vm_compute; tauto).
  split; [exact Hin|]. split; [reflexivity|].
  exact (find_target_fails_on_placeholder posix gap_graph (VStr "all")
           VNone VNone "1:gone" (Node_init TargetNodeC) Hin eq_refl).
Defined.

(** ** The TopMakefile report *)

(** A loop stops at the first item on which its body raises. *)
Lemma foldM_stuck :
  forall {X S} (body : S -> X -> result S) xs x,
    In x xs -> (forall s, returns (body s x) = false) ->
    forall s, returns (foldM body xs s) = false.
Proof.
  intros X S body xs x. induction xs as [|y xs IH]; intros Hin Hx s;
    [contradiction|].
  cbn [foldM]. destruct Hin as [->|Hin].
  - specialize (Hx s). destruct (body s x); cbn in *; congruence.
  - destruct (body s y) as [s'|e|]; cbn [bind]; try reflexivity.
    now apply IH.
Qed.

Lemma Node_getattr_missing :
  forall n name,
    dict_get name (attrib n) = None -> Node_getattr n name = Raise AttributeError.
Proof.
  intros n name H. unfold Node_getattr. rewrite H.
  destruct ((name =? "__getstate__") || (name =? "__setstate__"));
    reflexivity.
Qed.

Lemma BuildNodeInfo_directory_missing :
  forall P G n,
    dict_get "directory" (attrib n) = None ->
    BuildNodeInfo_directory P G n = Raise AttributeError.
Proof.
  intros P G n H. unfold BuildNodeInfo_directory.
  rewrite (Node_getattr_missing n "directory" H). reflexivity.
Qed.

(** X7.  When a process of the graph has no [directory], as the
    placeholder of a parent that has no record of its own, the
    TopMakefile report is never produced: the loop over the processes
    reads the directory of each. *)
Theorem TopMakefileReport_fails_on_placeholder :
  forall P max_entries prefix G k n,
    In (k, n) (dg_nodes (nx (base G))) ->
    dict_get "directory" (attrib n) = None ->
    returns (TopMakefileReport_generate P max_entries prefix G) = false.
Proof.
  intros P max_entries prefix G k n Hin Hd. unfold TopMakefileReport_generate.
  pose proof (foldM_stuck (collect_directory P prefix)
                (map snd (dg_nodes (nx (base G)))) n) as H.
  match goal with
  | |- context [foldM (collect_directory P prefix) ?l ?s] =>
      specialize (H (in_map snd _ _ Hin)); specialize (fun Hb => H Hb s);
      destruct (foldM (collect_directory P prefix) l s) as [[ds G1]|e|]
  end; try reflexivity.
  exfalso. cbn in H. assert (true = false); [|discriminate].
  apply H. intros [dirs G0]. unfold collect_directory.
  destruct (truthy prefix); cbn [bind];
    rewrite BuildNodeInfo_directory_missing by exact Hd; reflexivity.
Qed.

(** The record of a sub-make, which names its parent. *)
Definition child_build : dict :=
  [("pid", VInt 2); ("directory", VStr "/r/sub"); ("start", VInt 2);
   ("end", VInt 6); ("jobs", VInt 4); ("entry", VList [VStr "all"]);
   ("parent", VDict [("pid", VInt 1); ("target", VStr "sub")]);
   ("targets", VList [sample_target "all" [] 2 3 6])].

Definition child_graph : BuildDiGraph :=
  match from_build posix child_build with
  | Ok G => G
  | _ => BuildDiGraph_init
  end.

Lemma TopMakefileReport_fails_on_placeholder_witness :
  In ("1", Node_init BuildNodeC) (dg_nodes (nx (base child_graph))) /\
  dict_get "directory" (attrib (Node_init BuildNodeC)) = None /\
  returns (TopMakefileReport_generate posix 10 VNone child_graph) = false.
Proof.
  assert (Hin : In ("1", Node_init BuildNodeC)
                   (dg_nodes (nx (base child_graph))))
    by (vm_compute; tauto).
  split; [exact Hin|]. split; [reflexivity|].
  exact (TopMakefileReport_fails_on_placeholder posix 10 VNone child_graph
           "1" (Node_init BuildNodeC) Hin eq_refl).
Defined.

(** ** Reading the entry process again *)

(** What [entry] memoises is what it returns the next time. *)
Lemma entry_again :
  forall B e B1, entry B = Ok (e, B1) -> entry B1 = Ok (e, B1).
Proof.
  intros B e B1. unfold entry at 1.
  destruct (_entry B) as [k|] eqn:Ek.
  - destruct (get_node (nx B) k) as [n|err|] eqn:En; cbn [bind];
      try discriminate.
    intros H. inversion H; subst. unfold entry. rewrite Ek, En. reflexivity.
  - destruct (topological_sort (nx B)) as [order finish].
    destruct (first_valid B order) as [[node|]|err|]; cbn [bind];
      try discriminate.
    + cbn [nx set__entry].
      destruct (get_node (nx B) node) as [n|err|] eqn:En; cbn [bind];
        try discriminate.
      intros H. inversion H; subst. unfold entry. cbn. rewrite En. reflexivity.
    + destruct finish as [[]|err|]; discriminate.
Qed.

Lemma entry_nx :
  forall B e B1, entry B = Ok (e, B1) -> nx B1 = nx B.
Proof.
  intros B e B1. unfold entry.
  destruct (_entry B) as [k|] eqn:Ek.
  - destruct (get_node (nx B) k) as [n|err|]; cbn [bind]; try discriminate.
    intros H. inversion H; subst. reflexivity.
  - destruct (topological_sort (nx B)) as [order finish].
    destruct (first_valid B order) as [[node|]|err|]; cbn [bind];
      try discriminate.
    + cbn [nx set__entry].
      destruct (get_node (nx B) node) as [n|err|]; cbn [bind];
        try discriminate.
      intros H. inversion H; subst. reflexivity.
    + destruct finish as [[]|err|]; discriminate.
Qed.

(** A build graph whose entry process has been read: [e] is memoised. *)
Definition entry_read (e : Node) (G : BuildDiGraph) : Prop :=
  entry (base G) = Ok (e, base G).

Lemma with_base_same :
  forall G, {| base := base G; targets := targets G |} = G.
Proof. intros [B T]. reflexivity. Qed.





Lemma prefix_read :
  forall e G,
    entry_read e G ->
    prefix G = (d <- Node_getattr e "directory" ;; Ok (d, G)).
Proof.
  intros e G H. unfold prefix. rewrite H. cbn [bind].
  now rewrite with_base_same.
Qed.

(** The first read of the entry process leaves it memoised. *)
Lemma entry_attr_first :
  forall G name v G1,
    entry_attr G name = Ok (v, G1) ->
    exists e, entry_read e G1 /\ targets G1 = targets G /\
              nx (base G1) = nx (base G) /\ Node_getattr e name = Ok v.
Proof.
  intros G name v G1. unfold entry_attr.
  destruct (entry (base G)) as [[e B]|err|] eqn:E; cbn [bind];
    try discriminate.
  destruct (Node_getattr e name) as [x|err|] eqn:Ex; cbn [bind];
    try discriminate.
  intros H. inversion H; subst. exists e. unfold entry_read. cbn.
  split; [eapply entry_again; eauto|]. split; [reflexivity|].
  split; [eapply entry_nx; eauto | assumption].
Qed.

Lemma BuildDiGraph_elapsed_first :
  forall P G d G1,
    BuildDiGraph_elapsed P G = Ok (d, G1) ->
    exists e, entry_read e G1 /\ targets G1 = targets G /\
              nx (base G1) = nx (base G) /\ elapsed_of P e = Ok d.
Proof.
  intros P G d G1. unfold BuildDiGraph_elapsed.
  destruct (entry (base G)) as [[e B]|err|] eqn:E; cbn [bind];
    try discriminate.
  destruct (elapsed_of P e) as [x|err|] eqn:Ex; cbn [bind];
    try discriminate.
  intros H. inversion H; subst. exists e. unfold entry_read. cbn.
  split; [eapply entry_again; eauto|]. split; [reflexivity|].
  split; [eapply entry_nx; eauto | assumption].
Qed.

(** With the entry process memoised, [relpath] leaves the graph as it
    is. *)
Lemma relpath_read :
  forall P e G path v G',
    entry_read e G -> relpath P G path = Ok (v, G') -> G' = G.
Proof.
  intros P e G path v G' He. unfold relpath.
  rewrite (prefix_read e G He).
  destruct path as [| | |s| |]; cbn [bind]; try discriminate.
  - cbn [py_eq]. intros H. now inversion H.
  - destruct (starts_with_slash s).
    + destruct (Node_getattr e "directory") as [d|err|]; cbn [bind];
        try discriminate.
      destruct (as_str d) as [p|err|]; cbn [bind]; try discriminate.
      destruct (py_eq _ _).
      * rewrite (prefix_read e G He).
        destruct (Node_getattr e "directory") as [d2|err|]; cbn [bind];
          try discriminate.
        destruct (as_str d2) as [p2|err|]; cbn [bind]; try discriminate.
        intros H. now inversion H.
      * intros H. now inversion H.
    + cbn [bind]. destruct (py_eq _ _).
      * rewrite (prefix_read e G He).
        destruct (Node_getattr e "directory") as [d2|err|]; cbn [bind];
          try discriminate.
        destruct (as_str d2) as [p2|err|]; cbn [bind]; try discriminate.
        intros H. now inversion H.
      * intros H. now inversion H.
Qed.

(** ** Lists a report builds *)

(** A loop that appends one item per element, each made by [step] from
    the element and the state: what it returns pairs the elements with
    the items, in order. *)
Lemma foldM_collect :
  forall {X Y S} (step : S -> X -> result (Y * S))
         (body : list Y * S -> X -> result (list Y * S)),
    (forall acc s x,
       body (acc, s) x = ('(y, s') <- step s x ;; Ok (acc ++ [y], s'))) ->
    forall xs acc s r s',
      foldM body xs (acc, s) = Ok (r, s') ->
      exists ys,
        r = acc ++ ys /\
        Forall2 (fun x y => exists s1 s2, step s1 x = Ok (y, s2)) xs ys.
Proof.
  intros X Y S step body Hbody xs.
  induction xs as [|x xs IH]; intros acc s r s'; cbn [foldM].
  - intros H. inversion H; subst. exists []. rewrite app_nil_r. auto.
  - rewrite Hbody.
    destruct (step s x) as [[y s1]|e|] eqn:E; cbn [bind]; try discriminate.
    intros H. destruct (IH _ _ _ _ H) as (ys & -> & Hall).
    exists (y :: ys). rewrite <- app_assoc. split; [reflexivity|].
    constructor; [eauto | exact Hall].
Qed.

Lemma In_firstn :
  forall {X} n (l : list X) x, In x (firstn n l) -> In x l.
Proof.
  intros X n l. revert n. induction l as [|y l IH]; intros n x.
  - now rewrite firstn_nil.
  - destruct n; cbn; [tauto|]. intros [H|H]; [auto | right; eapply IH; eauto].
Qed.

Lemma StronglySorted_firstn :
  forall {X} (R : X -> X -> Prop) n l,
    StronglySorted R l -> StronglySorted R (firstn n l).
Proof.
  intros X R n l Hs. revert n. induction Hs as [|x l Hs IH Hall]; intros n.
  - rewrite firstn_nil. constructor.
  - destruct n; cbn; constructor; [apply IH|].
    apply Forall_forall. intros y Hy.
    rewrite Forall_forall in Hall. apply Hall.
    eapply In_firstn. exact Hy.
Qed.

Lemma StronglySorted_slice_to :
  forall {X} (R : X -> X -> Prop) n l,
    StronglySorted R l -> StronglySorted R (slice_to n l).
Proof.
  intros X R n l Hs. unfold slice_to.
  destruct (n <? 0)%Z; now apply StronglySorted_firstn.
Qed.

Lemma StronglySorted_Forall2 :
  forall {X Y} (R : X -> X -> Prop) (R' : Y -> Y -> Prop)
         (Q : X -> Y -> Prop) xs ys,
    Forall2 Q xs ys -> StronglySorted R xs ->
    (forall x1 x2 y1 y2, R x1 x2 -> Q x1 y1 -> Q x2 y2 -> R' y1 y2) ->
    StronglySorted R' ys.
Proof.
  intros X Y R R' Q xs ys H2 Hs HR. revert ys H2.
  induction Hs as [|x xs Hs IH Hall]; intros ys H2; inversion H2; subst;
    constructor.
  - now apply IH.
  - match goal with Hq : Q x ?y, Ht : Forall2 Q xs ?l |- _ =>
      clear IH H2 Hs; induction Ht; constructor;
        [inversion Hall; subst; eapply HR; eauto
        | inversion Hall; subst; auto]
    end.
Qed.

Lemma slice_to_length :
  forall {X} n (l : list X),
    (0 <= n)%Z -> (List.length (slice_to n l) <= Z.to_nat n)%nat.
Proof.
  intros X n l Hn. unfold slice_to.
  destruct (Z.ltb_spec n 0); [lia|]. rewrite length_firstn. lia.
Qed.

Lemma slice_to_incl :
  forall {X} n (l : list X) x, In x (slice_to n l) -> In x l.
Proof.
  intros X n l x. unfold slice_to.
  destruct (n <? 0)%Z; apply In_firstn.
Qed.

(** ** The directories of the TopMakefile report *)

(** X8.  When the TopMakefile report is produced, it lists at most
    [max_entries] directories, those of greatest elapsed time first,
    and the numerator of each percentage is the elapsed time shown. *)
Theorem TopMakefileReport_lists_heaviest_first :
  forall P max_entries prefix G report G',
    (0 <= max_entries)%Z ->
    TopMakefileReport_generate P max_entries prefix G = Ok (report, G') ->
    (List.length report <= Z.to_nat max_entries)%nat /\
    StronglySorted
      (fun a b => (dir_elapsed (snd b) <= dir_elapsed (snd a))%Z) report /\
    Forall (fun a => fst (dir_percent (snd a)) = dir_elapsed (snd a)) report.
Proof.
  intros P max_entries prefix G report G' Hmax.
  unfold TopMakefileReport_generate.
  destruct (foldM (collect_directory P prefix) _ _) as [[dirs G1]|e|];
    cbn [bind]; try discriminate.
  set (paths := sorted_by (fun x => (- snd (snd x))%Z) dirs).
  intros H.
  set (step := fun (G : BuildDiGraph)
                   (path : value * (list string * timedelta)) =>
                 '(total, G) <- BuildDiGraph_elapsed P G ;;
                 Ok ((fst path,
                      {| dir_elapsed := snd (snd path);
                         dir_percent := (snd (snd path), total);
                         dir_count := List.length (fst (snd path)) |}), G)).
  match type of H with
  | foldM ?b _ _ = _ =>
      assert (Hbody : forall acc s x,
                b (acc, s) x = ('(y, s') <- step s x ;; Ok (acc ++ [y], s')))
  end.
  { intros acc s x. unfold step. cbn beta iota.
    destruct (BuildDiGraph_elapsed P s) as [[t g]|err|]; reflexivity. }
  destruct (foldM_collect step _ Hbody _ _ _ _ _ H) as (ys & -> & Hall).
  cbn [app].
  assert (Hshape : Forall2 (fun x (y : value * DirectoryReport) =>
                              dir_elapsed (snd y) = snd (snd x) /\
                              fst (dir_percent (snd y)) = snd (snd x))
                           (slice_to max_entries paths) ys).
  { eapply Forall2_impl; [|exact Hall]. cbn beta.
    intros x y (s1 & s2 & Hs). unfold step in Hs.
    destruct (BuildDiGraph_elapsed P s1) as [[t g]|err|]; cbn [bind] in Hs;
      try discriminate.
    inversion Hs; subst. cbn. auto. }
  split; [|split].
  - rewrite <- (Forall2_length Hshape). now apply slice_to_length.
  - apply (StronglySorted_Forall2
             (key_le (fun x : value * (list string * timedelta) =>
                        (- snd (snd x))%Z)) _ _ _ _ Hshape).
    + apply StronglySorted_slice_to. apply sorted_by_spec.
    + intros x1 x2 y1 y2 HR [H1 _] [H2 _]. unfold key_le in HR.
      rewrite H1, H2. lia.
  - clear -Hshape. induction Hshape; constructor; auto.
    destruct H as [H1 H2]. congruence.
Qed.

(** A trace of two processes, each with its own record: process 1 in
    [/r], whose target [sub] starts process 2 in [/r/sub]. *)
Definition root_record : dict :=
  [("pid", VInt 1); ("directory", VStr "/r"); ("start", VInt 0);
   ("end", VInt 10); ("jobs", VInt 4); ("entry", VList [VStr "all"]);
   ("targets",
    VList [sample_target "all" ["sub"; "lib"] 0 9 10;
           sample_target "sub" [] 1 2 7;
           sample_target "lib" [] 1 5 8])].

Definition sub_record : dict :=
  [("pid", VInt 2); ("directory", VStr "/r/sub"); ("start", VInt 2);
   ("end", VInt 6); ("jobs", VInt 4); ("entry", VList [VStr "all"]);
   ("parent", VDict [("pid", VInt 1); ("target", VStr "sub")]);
   ("targets", VList [sample_target "all" [] 2 3 6])].

(** The value a call returned, for a call that is known to return. *)
Definition returned {A} (default : A) (r : result A) : A :=
  match r with
  | Ok a => a
  | _ => default
  end.

Definition two_processes : BuildDiGraph :=
  returned BuildDiGraph_init
    (G <- add_nodes_from_build posix BuildDiGraph_init root_record ;;
     add_nodes_from_build posix G sub_record).

Definition two_processes_directories
  : list (value * DirectoryReport) * BuildDiGraph :=
  returned ([], two_processes)
    (TopMakefileReport_generate posix 10 VNone two_processes).

Lemma TopMakefileReport_lists_heaviest_first_witness :
  (0 <= 10)%Z /\
  TopMakefileReport_generate posix 10 VNone two_processes
  = Ok (fst two_processes_directories, snd two_processes_directories) /\
  (List.length (fst two_processes_directories) <= Z.to_nat 10)%nat /\
  StronglySorted
    (fun a b => (dir_elapsed (snd b) <= dir_elapsed (snd a))%Z)
    (fst two_processes_directories) /\
  Forall (fun a => fst (dir_percent (snd a)) = dir_elapsed (snd a))
         (fst two_processes_directories).
Proof.
  assert (H0 : (0 <= 10)%Z) by lia.
  assert (H : TopMakefileReport_generate posix 10 VNone two_processes
              = Ok (fst two_processes_directories,
                    snd two_processes_directories))
    by (vm_compute; reflexivity).
  split; [exact H0|]. split; [exact H|].
  exact (TopMakefileReport_lists_heaviest_first posix 10 VNone two_processes
           _ _ H0 H).
Defined.

Example two_processes_directories_listed :
  map (fun a => (fst a, dir_elapsed (snd a), dir_count (snd a)))
      (fst two_processes_directories)
  = [(VStr "r", 10000000%Z, 1%nat); (VStr "sub", 4000000%Z, 1%nat)].
Proof. vm_compute. reflexivity. Qed.

(** ** The children of a target in a report *)

Lemma slice_to_opt_length :
  forall {X Y} n (l : list X) (l' : list Y),
    List.length l = List.length l' ->
    List.length (slice_to_opt n l) = List.length (slice_to_opt n l').
Proof.
  intros X Y n l l' H. destruct n as [n|]; cbn; [|exact H].
  unfold slice_to. rewrite H.
  destruct (n <? 0)%Z; rewrite !length_firstn; lia.
Qed.

Lemma StronglySorted_slice_to_opt :
  forall {X} (R : X -> X -> Prop) n l,
    StronglySorted R l -> StronglySorted R (slice_to_opt n l).
Proof.
  intros X R [n|] l Hs; cbn; [now apply StronglySorted_slice_to | exact Hs].
Qed.

(** What the report of a child holds. *)
Lemma child_report_fields :
  forall P G child total r G',
    target_report_of P G (inr child) (Some total) (percent_elapsed P)
    = Ok (r, G') ->
    elapsed_of P child = Ok (tr_total r) /\
    tr_percent r = (PDelta (tr_total r), total).
Proof.
  intros P G child total r G'. unfold target_report_of, percent_elapsed.
  cbn [bind resolve_node].
  destruct (TargetNodeInfo_target child) as [t|e|]; cbn [bind];
    try discriminate.
  destruct (elapsed_of P child) as [el|e|]; cbn [bind]; try discriminate.
  destruct (info_elapsed_recipe_of P child) as [rc|e|]; cbn [bind];
    try discriminate.
  destruct (Node_getattr child "directory") as [d|e|]; cbn [bind];
    try discriminate.
  destruct (relpath P G d) as [[dir G1]|e|]; cbn [bind]; try discriminate.
  destruct (Node_getattr child "pid") as [pid|e|]; cbn [bind];
    try discriminate.
  destruct (TargetNode_path P child) as [path|e|]; cbn [bind];
    try discriminate.
  destruct (relpath P G1 path) as [[file G2]|e|]; cbn [bind];
    try discriminate.
  destruct (Node_getattr child "line") as [line|e|]; cbn [bind];
    try discriminate.
  intros H. inversion H; subst. cbn. auto.
Qed.

Lemma children_report_spec :
  forall P G node max_children c G',
    children_report P G node max_children = Ok (c, G') ->
    exists n succs total,
      resolve_node G node = Ok n /\
      TargetNodeInfo_successors P (targets G) n = Ok succs /\
      elapsed_of P n = Ok total /\
      children_count c = List.length succs /\
      List.length (children_targets c)
      = List.length (slice_to_opt max_children succs) /\
      StronglySorted (fun a b => (ch_total b <= ch_total a)%Z)
                     (children_targets c) /\
      Forall (fun ch => ch_percent ch = (PDelta (ch_total ch), total))
             (children_targets c).
Proof.
  intros P G node max_children c G'. unfold children_report.
  destruct (resolve_node G node) as [n|e|] eqn:En; cbn [bind];
    try discriminate.
  destruct (elapsed_of P n) as [total|e|] eqn:Et; cbn [bind];
    try discriminate.
  destruct (TargetNodeInfo_successors P (targets G) n) as [succs|e|] eqn:Esu;
    cbn [bind]; try discriminate.
  destruct (info_values (targets G) succs) as [infos|e|] eqn:Ei; cbn [bind];
    try discriminate.
  destruct (sorted_with _ false infos) as [children|e|] eqn:Es; cbn [bind];
    try discriminate.
  match goal with
  | |- context [foldM ?b ?l ?s] =>
      destruct (foldM b l s) as [[reports G1]|e|] eqn:Ef
  end; cbn [bind]; try discriminate.
  intros H. inversion H; subst. clear H. cbn [children_count children_targets].
  exists n, succs, total.
  split; [reflexivity|]. split; [exact Esu|]. split; [exact Et|].
  destruct (sorted_with_ascending _ _ _ Es) as [Hsorted Hperm].
  assert (Hlen : List.length infos = List.length succs).
  { clear -Ei. unfold info_values in Ei. revert infos Ei.
    induction succs as [|s succs IH]; intros infos; cbn.
    - intros H. now inversion H.
    - destruct (get_node _ s); cbn [bind]; try discriminate.
      destruct (mapM _ succs); cbn [bind]; try discriminate.
      intros H. inversion H; subst. cbn. f_equal. now apply IH. }
  assert (Hclen : List.length children = List.length succs).
  { rewrite <- Hlen. now apply Permutation_length. }
  set (step := fun (G : BuildDiGraph) (child : Node) =>
                 '(r, G) <- target_report_of P G (inr child) (Some total)
                              (percent_elapsed P) ;;
                 Ok ({| ch_target := tr_target r; ch_total := tr_total r;
                        ch_percent := tr_percent r |}, G)).
  match type of Ef with
  | foldM ?b _ _ = _ =>
      assert (Hbody : forall acc s x,
                b (acc, s) x = ('(y, s') <- step s x ;; Ok (acc ++ [y], s')))
  end.
  { intros acc s x. unfold step. cbn beta iota.
    destruct (target_report_of P s (inr x) (Some total) (percent_elapsed P))
      as [[t g]|err|]; reflexivity. }
  destruct (foldM_collect step _ Hbody _ _ _ _ _ Ef) as (ys & -> & Hall).
  cbn [app].
  assert (Hshape : Forall2 (fun child ch =>
                              elapsed_of P child = Ok (ch_total ch) /\
                              ch_percent ch = (PDelta (ch_total ch), total))
                           (slice_to_opt max_children children) ys).
  { eapply Forall2_impl; [|exact Hall]. cbn beta.
    intros x y (s1 & s2 & Hs). unfold step in Hs.
    destruct (target_report_of P s1 (inr x) (Some total) (percent_elapsed P))
      as [[r g]|err|] eqn:Er; cbn [bind] in Hs; try discriminate.
    inversion Hs; subst. cbn. eapply child_report_fields; eauto. }
  split; [exact Hclen|]. split.
  { rewrite <- (Forall2_length Hshape). now apply slice_to_opt_length. }
  split.
  - apply (StronglySorted_Forall2 _ _ _ _ _ Hshape
             (StronglySorted_slice_to_opt _ max_children _ Hsorted)).
    intros x1 x2 y1 y2 (k1 & k2 & H1 & H2 & Hle) [E1 _] [E2 _].
    rewrite E1 in H1. rewrite E2 in H2. cbn in H1, H2.
    inversion H1; inversion H2; subst. lia.
  - clear -Hshape. induction Hshape; constructor; auto. apply H.
Qed.

(** X9.  When [children_report] returns, [count] is the number of the
    target's successors in the graph, all of them, while the list holds
    those that [max_children] lets through; the list has the children
    of greatest elapsed time first, and the percentage of each is its
    elapsed time over that of the target. *)
Theorem children_report_lists_heaviest_first :
  forall P G node max_children c G',
    children_report P G node max_children = Ok (c, G') ->
    exists n succs total,
      resolve_node G node = Ok n /\
      TargetNodeInfo_successors P (targets G) n = Ok succs /\
      elapsed_of P n = Ok total /\
      children_count c = List.length succs /\
      List.length (children_targets c)
      = List.length (slice_to_opt max_children succs) /\
      StronglySorted (fun a b => (ch_total b <= ch_total a)%Z)
                     (children_targets c) /\
      Forall (fun ch => ch_percent ch = (PDelta (ch_total ch), total))
             (children_targets c).
Proof. exact children_report_spec. Qed.

Definition all_children : Children * BuildDiGraph :=
  returned ({| children_count := 0; children_targets := [] |}, two_processes)
    (children_report posix two_processes (inl "1:all") (Some 1%Z)).

Lemma children_report_lists_heaviest_first_witness :
  children_report posix two_processes (inl "1:all") (Some 1%Z)
  = Ok (fst all_children, snd all_children) /\
  exists n succs total,
    resolve_node two_processes (inl "1:all") = Ok n /\
    TargetNodeInfo_successors posix (targets two_processes) n = Ok succs /\
    elapsed_of posix n = Ok total /\
    children_count (fst all_children) = List.length succs /\
    List.length (children_targets (fst all_children))
    = List.length (slice_to_opt (Some 1%Z) succs) /\
    StronglySorted (fun a b => (ch_total b <= ch_total a)%Z)
                   (children_targets (fst all_children)) /\
    Forall (fun ch => ch_percent ch = (PDelta (ch_total ch), total))
           (children_targets (fst all_children)).
Proof.
  assert (H : children_report posix two_processes (inl "1:all") (Some 1%Z)
              = Ok (fst all_children, snd all_children))
    by (vm_compute; reflexivity).
  split; [exact H|].
  exact (children_report_lists_heaviest_first posix two_processes
           (inl "1:all") (Some 1%Z) _ _ H).
Defined.

Example all_children_listed :
  (children_count (fst all_children),
   map (fun ch => (ch_target ch, ch_total ch))
       (children_targets (fst all_children)))
  = (2%nat, [(VStr "lib", 7000000%Z)]).
Proof. vm_compute. reflexivity. Qed.

(** ** The Path report *)

(** The same, for a loop whose state keeps an invariant. *)
Lemma foldM_collect_inv :
  forall {X Y S} (Inv : S -> Prop) (step : S -> X -> result (Y * S))
         (body : list Y * S -> X -> result (list Y * S)),
    (forall acc s x,
       body (acc, s) x = ('(y, s') <- step s x ;; Ok (acc ++ [y], s'))) ->
    (forall s x y s', Inv s -> step s x = Ok (y, s') -> Inv s') ->
    forall xs acc s r s',
      Inv s ->
      foldM body xs (acc, s) = Ok (r, s') ->
      Inv s' /\
      exists ys,
        r = acc ++ ys /\
        Forall2 (fun x y => exists s1 s2, Inv s1 /\ step s1 x = Ok (y, s2))
                xs ys.
Proof.
  intros X Y S Inv step body Hbody Hinv xs.
  induction xs as [|x xs IH]; intros acc s r s' Hs; cbn [foldM].
  - intros H. inversion H; subst. split; [exact Hs|].
    exists []. rewrite app_nil_r. auto.
  - rewrite Hbody.
    destruct (step s x) as [[y s1]|e|] eqn:E; cbn [bind]; try discriminate.
    intros H.
    destruct (IH _ _ _ _ (Hinv _ _ _ _ Hs E) H) as (Hs' & ys & -> & Hall).
    split; [exact Hs'|].
    exists (y :: ys). rewrite <- app_assoc. split; [reflexivity|].
    constructor; [eauto | exact Hall].
Qed.

Lemma BuildDiGraph_elapsed_targets :
  forall P G d G',
    BuildDiGraph_elapsed P G = Ok (d, G') -> targets G' = targets G.
Proof.
  intros P G d G' H.
  destruct (BuildDiGraph_elapsed_first P G d G' H) as (e & _ & Ht & _).
  exact Ht.
Qed.

Lemma target_report_of_targets :
  forall P G node total percent r G',
    target_report_of P G node total percent = Ok (r, G') ->
    targets G' = targets G.
Proof.
  intros P G node total percent r G'. unfold target_report_of.
  assert (H0 : forall t G0,
            match total with
            | Some t => Ok (t, G)
            | None => BuildDiGraph_elapsed P G
            end = Ok (t, G0) -> targets G0 = targets G).
  { intros t G0. destruct total.
    - intros H. now inversion H.
    - apply BuildDiGraph_elapsed_targets. }
  destruct (match total with
            | Some t => Ok (t, G)
            | None => BuildDiGraph_elapsed P G
            end) as [[t G0]|e|] eqn:E0; cbn [bind]; try discriminate.
  specialize (H0 t G0 eq_refl).
  destruct (resolve_node G0 node) as [n|e|]; cbn [bind]; try discriminate.
  destruct (TargetNodeInfo_target n) as [tg|e|]; cbn [bind];
    try discriminate.
  destruct (elapsed_of P n) as [el|e|]; cbn [bind]; try discriminate.
  destruct (info_elapsed_recipe_of P n) as [rc|e|]; cbn [bind];
    try discriminate.
  destruct (percent n) as [num|e|]; cbn [bind]; try discriminate.
  destruct (Node_getattr n "directory") as [d|e|]; cbn [bind];
    try discriminate.
  destruct (relpath P G0 d) as [[dir G1]|e|] eqn:E1; cbn [bind];
    try discriminate.
  destruct (Node_getattr n "pid") as [pid|e|]; cbn [bind];
    try discriminate.
  destruct (TargetNode_path P n) as [path|e|]; cbn [bind];
    try discriminate.
  destruct (relpath P G1 path) as [[file G2]|e|] eqn:E2; cbn [bind];
    try discriminate.
  destruct (Node_getattr n "line") as [line|e|]; cbn [bind];
    try discriminate.
  intros H. inversion H; subst.
  apply relpath_targets in E1. apply relpath_targets in E2. congruence.
Qed.

Lemma children_report_targets :
  forall P G node max_children c G',
    children_report P G node max_children = Ok (c, G') ->
    targets G' = targets G.
Proof.
  intros P G node max_children c G'. unfold children_report.
  destruct (resolve_node G node) as [n|e|]; cbn [bind]; try discriminate.
  destruct (elapsed_of P n) as [total|e|]; cbn [bind]; try discriminate.
  destruct (TargetNodeInfo_successors P (targets G) n) as [succs|e|];
    cbn [bind]; try discriminate.
  destruct (info_values (targets G) succs) as [infos|e|]; cbn [bind];
    try discriminate.
  destruct (sorted_with _ false infos) as [children|e|]; cbn [bind];
    try discriminate.
  generalize (slice_to_opt max_children children). intros l.
  match goal with
  | |- context [foldM ?b l ?s] =>
      destruct (foldM b l s) as [[reports G1]|e|] eqn:Ef
  end; cbn [bind]; try discriminate.
  intros H. inversion H; subst. clear H.
  set (step := fun (G : BuildDiGraph) (child : Node) =>
                 '(r, G) <- target_report_of P G (inr child) (Some total)
                              (percent_elapsed P) ;;
                 Ok ({| ch_target := tr_target r; ch_total := tr_total r;
                        ch_percent := tr_percent r |}, G)).
  match type of Ef with
  | foldM ?b _ _ = _ =>
      assert (Hbody : forall acc s x,
                b (acc, s) x = ('(y, s') <- step s x ;; Ok (acc ++ [y], s')))
  end.
  { intros acc s x. unfold step. cbn beta iota.
    destruct (target_report_of P s (inr x) (Some total) (percent_elapsed P))
      as [[t g]|err|]; reflexivity. }
  destruct (foldM_collect_inv (fun s => targets s = targets G) step _ Hbody)
    with (xs := l) (acc := @nil ChildReport) (s := G) (r := reports) (s' := G')
    as (Ht & _); auto.
  intros s x y s' Hs. unfold step.
  destruct (target_report_of P s (inr x) (Some total) (percent_elapsed P))
    as [[t g]|err|] eqn:Er; cbn [bind]; try discriminate.
  intros H. inversion H; subst.
  apply target_report_of_targets in Er. congruence.
Qed.

(** The fields of a target's report that do not depend on the state of
    the graph. *)
Lemma target_report_fields :
  forall P G key total percent r G',
    target_report_of P G (inl key) (Some total) percent = Ok (r, G') ->
    exists n,
      get_node (nx (targets G)) key = Ok n /\
      TargetNodeInfo_target n = Ok (tr_target r) /\
      elapsed_of P n = Ok (tr_total r) /\
      snd (tr_percent r) = total.
Proof.
  intros P G key total percent r G'. unfold target_report_of.
  cbn [bind resolve_node].
  destruct (get_node (nx (targets G)) key) as [n|e|] eqn:En; cbn [bind];
    try discriminate.
  destruct (TargetNodeInfo_target n) as [t|e|] eqn:Etg; cbn [bind];
    try discriminate.
  destruct (elapsed_of P n) as [el|e|] eqn:Eel; cbn [bind]; try discriminate.
  destruct (info_elapsed_recipe_of P n) as [rc|e|]; cbn [bind];
    try discriminate.
  destruct (percent n) as [num|e|]; cbn [bind]; try discriminate.
  destruct (Node_getattr n "directory") as [d|e|]; cbn [bind];
    try discriminate.
  destruct (relpath P G d) as [[dir G1]|e|]; cbn [bind]; try discriminate.
  destruct (Node_getattr n "pid") as [pid|e|]; cbn [bind];
    try discriminate.
  destruct (TargetNode_path P n) as [path|e|]; cbn [bind];
    try discriminate.
  destruct (relpath P G1 path) as [[file G2]|e|]; cbn [bind];
    try discriminate.
  destruct (Node_getattr n "line") as [line|e|]; cbn [bind];
    try discriminate.
  intros H. inversion H; subst. exists n. cbn. auto.
Qed.

(** X10.  When the Path report is produced, it has one entry for each
    node of the path, in the order of the path, with that target's name
    and elapsed time; every percentage is taken of the elapsed time of
    the first node, which is the report's total; and an entry has a
    [children] part exactly when the target has successors. *)
Theorem PathReport_follows_path :
  forall P G path max_children r G',
    PathReport_generate P G path max_children = Ok (r, G') ->
    path_length r = List.length path /\
    (exists first n0,
       hd_error path = Some first /\
       get_node (nx (targets G)) first = Ok n0 /\
       elapsed_of P n0 = Ok (path_total r)) /\
    Forall2
      (fun key entry =>
         exists n succs,
           get_node (nx (targets G)) key = Ok n /\
           TargetNodeInfo_target n = Ok (tr_target (fst entry)) /\
           elapsed_of P n = Ok (tr_total (fst entry)) /\
           snd (tr_percent (fst entry)) = path_total r /\
           TargetNodeInfo_successors P (targets G) n = Ok succs /\
           (snd entry = None <-> succs = []))
      path (path_targets r).
Proof.
  intros P G path max_children r G'. unfold PathReport_generate.
  destruct path as [|first rest] eqn:Epath; cbn [bind]; try discriminate.
  rewrite <- Epath.
  destruct (get_node (nx (targets G)) first) as [n0|e|] eqn:En0; cbn [bind];
    try discriminate.
  destruct (elapsed_of P n0) as [total|e|] eqn:Et; cbn [bind];
    try discriminate.
  match goal with
  | |- context [foldM ?b ?l ?s] =>
      destruct (foldM b l s) as [[reports G1]|e|] eqn:Ef
  end; cbn [bind]; try discriminate.
  intros H. inversion H; subst r G1. clear H.
  cbn [path_length path_total path_targets].
  split; [reflexivity|]. split.
  { exists first, n0. rewrite Epath. auto. }
  set (step := fun (G : BuildDiGraph) (node : string) =>
                 '(target, G) <-
                   target_report_of P G (inl node) (Some total)
                     (info_elapsed_recipe_of P) ;;
                 '(child, G) <- children_report P G (inl node) max_children ;;
                 Ok ((target, if Nat.eqb (children_count child) 0 then None
                              else Some child), G)).
  match type of Ef with
  | foldM ?b _ _ = _ =>
      assert (Hbody : forall acc s x,
                b (acc, s) x = ('(y, s') <- step s x ;; Ok (acc ++ [y], s')))
  end.
  { intros acc s x. unfold step. cbn beta iota.
    destruct (target_report_of P s (inl x) (Some total)
                (info_elapsed_recipe_of P)) as [[t g]|err|]; cbn [bind];
      try reflexivity.
    destruct (children_report P g (inl x) max_children) as [[c g']|err|];
      reflexivity. }
  destruct (foldM_collect_inv (fun s => targets s = targets G) step _ Hbody)
    with (xs := path) (acc := @nil (TargetReport * option Children))
         (s := G) (r := reports) (s' := G')
    as (_ & ys & -> & Hall); auto.
  { intros s x y s' Hs. unfold step.
    destruct (target_report_of P s (inl x) (Some total)
                (info_elapsed_recipe_of P)) as [[t g]|err|] eqn:Er;
      cbn [bind]; try discriminate.
    destruct (children_report P g (inl x) max_children) as [[c g']|err|] eqn:Ec;
      cbn [bind]; try discriminate.
    intros H. inversion H; subst.
    apply target_report_of_targets in Er.
    apply children_report_targets in Ec. congruence. }
  cbn [app]. eapply Forall2_impl; [|exact Hall]. cbn beta.
  intros key entry (s1 & s2 & Hs1 & Hstep). unfold step in Hstep.
  destruct (target_report_of P s1 (inl key) (Some total)
              (info_elapsed_recipe_of P)) as [[t g]|err|] eqn:Er;
    cbn [bind] in Hstep; try discriminate.
  destruct (children_report P g (inl key) max_children) as [[c g']|err|] eqn:Ec;
    cbn [bind] in Hstep; try discriminate.
  inversion Hstep; subst entry s2. clear Hstep. cbn [fst snd].
  destruct (target_report_fields _ _ _ _ _ _ _ Er) as (n & Hn & Htg & Hel & Hp).
  rewrite Hs1 in Hn.
  pose proof (target_report_of_targets _ _ _ _ _ _ _ Er) as Hg.
  destruct (children_report_spec _ _ _ _ _ _ Ec)
    as (n' & succs & tot' & Hn' & Hsu & _ & Hcount & _).
  cbn [resolve_node] in Hn'. rewrite Hg, Hs1 in Hn', Hsu.
  rewrite Hn in Hn'. inversion Hn'; subst n'.
  exists n, succs. repeat split; auto.
  - rewrite Hcount. destruct succs; [reflexivity|]. cbn. discriminate.
  - intros ->. rewrite Hcount. reflexivity.
Qed.

Definition sample_path_report : PathReport * BuildDiGraph :=
  returned ({| path_length := 0; path_total := 0%Z; path_targets := [] |},
            two_processes)
    (PathReport_generate posix two_processes ["1:all"; "1:lib"] None).

Lemma PathReport_follows_path_witness :
  PathReport_generate posix two_processes ["1:all"; "1:lib"] None
  = Ok (fst sample_path_report, snd sample_path_report) /\
  path_length (fst sample_path_report) = List.length ["1:all"; "1:lib"] /\
  (exists first n0,
     hd_error ["1:all"; "1:lib"] = Some first /\
     get_node (nx (targets two_processes)) first = Ok n0 /\
     elapsed_of posix n0 = Ok (path_total (fst sample_path_report))) /\
  Forall2
    (fun key entry =>
       exists n succs,
         get_node (nx (targets two_processes)) key = Ok n /\
         TargetNodeInfo_target n = Ok (tr_target (fst entry)) /\
         elapsed_of posix n = Ok (tr_total (fst entry)) /\
         snd (tr_percent (fst entry)) = path_total (fst sample_path_report) /\
         TargetNodeInfo_successors posix (targets two_processes) n
         = Ok succs /\
         (snd entry = None <-> succs = []))
    ["1:all"; "1:lib"] (path_targets (fst sample_path_report)).
Proof.
  assert (H : PathReport_generate posix two_processes ["1:all"; "1:lib"] None
              = Ok (fst sample_path_report, snd sample_path_report))
    by (vm_compute; reflexivity).
  split; [exact H|].
  exact (PathReport_follows_path posix two_processes ["1:all"; "1:lib"] None
           _ _ H).
Defined.

Example sample_path_report_entries :
  map (fun entry => (tr_target (fst entry), tr_total (fst entry),
                     option_map children_count (snd entry)))
      (path_targets (fst sample_path_report))
  = [(VStr "all", 10000000%Z, Some 2%nat); (VStr "lib", 7000000%Z, None)].
Proof. vm_compute. reflexivity. Qed.

(** ** The recipe time of a graph *)

(** Through the Info view, a target that is not flagged reads its own
    recipe time. *)
Lemma info_elapsed_recipe_unflagged :
  forall P d,
    node_cls d = TargetNodeC -> not_recursive d = true ->
    (a <- info_elapsed_recipe_of P d ;; as_timedelta a)
    = elapsed_recipe_of P d.
Proof.
  intros P d Hc Hn.
  assert (Hinfo : NodeInfo_elapsed_recipe P d = getattr_elapsed_recipe P d).
  { unfold NodeInfo_elapsed_recipe, Node_getattr.
    change ("recursive" =? "__getstate__") with false.
    change ("recursive" =? "__setstate__") with false. cbn [orb].
    unfold not_recursive, Node_get in Hn.
    destruct (dict_get "recursive" (attrib d)) as [v|]; cbn [bind].
    - assert (Hv : is_True v = false).
      { destruct v as [|[|]| | | |]; cbn in *; congruence. }
      rewrite Hv.
      destruct (getattr_elapsed_recipe P d) as [x|[]|]; reflexivity.
    - reflexivity. }
  unfold info_elapsed_recipe_of, elapsed_recipe_of. rewrite Hinfo.
  unfold getattr_elapsed_recipe. rewrite Hc.
  destruct (TargetNode_elapsed_recipe P d) as [[x n']|e|]; reflexivity.
Qed.

Lemma sum_timedelta_ext :
  forall {X} (f g : X -> result timedelta) xs,
    (forall x, In x xs -> f x = g x) ->
    sum_timedelta f xs = sum_timedelta g xs.
Proof.
  intros X f g xs H. unfold sum_timedelta. generalize 0%Z.
  induction xs as [|x xs IH]; intros acc; cbn [foldM]; [reflexivity|].
  rewrite (H x (or_introl eq_refl)).
  destruct (g x) as [d|e|]; cbn [bind]; try reflexivity.
  apply IH. intros y Hy. apply H. now right.
Qed.

(** X11.  The recipe time of a target graph is the sum of the recipe
    times of the targets whose [recursive] attribute is absent or false,
    each as the target itself gives it. *)
Theorem graph_recipe_time_is_sum_of_unflagged :
  forall P T,
    (forall k n, In (k, n) (dg_nodes (nx T)) -> node_cls n = TargetNodeC) ->
    TargetDiGraph_elapsed_recipe P T
    = sum_timedelta (elapsed_recipe_of P)
        (filter not_recursive (map snd (dg_nodes (nx T)))).
Proof.
  intros P T Hcls. unfold TargetDiGraph_elapsed_recipe.
  apply sum_timedelta_ext. intros d Hd. apply filter_In in Hd.
  destruct Hd as [Hin Hn]. apply in_map_iff in Hin.
  destruct Hin as ([k n] & <- & Hin). cbn [snd] in *.
  apply info_elapsed_recipe_unflagged; [eapply Hcls; eauto | exact Hn].
Qed.

Lemma graph_recipe_time_is_sum_of_unflagged_witness :
  (forall k n, In (k, n) (dg_nodes (nx (targets two_processes))) ->
               node_cls n = TargetNodeC) /\
  TargetDiGraph_elapsed_recipe posix (targets two_processes)
  = sum_timedelta (elapsed_recipe_of posix)
      (filter not_recursive
              (map snd (dg_nodes (nx (targets two_processes))))).
Proof.
  assert (H : forall k n,
            In (k, n) (dg_nodes (nx (targets two_processes))) ->
            node_cls n = TargetNodeC).
  { intros k n Hin. vm_compute in Hin.
    repeat (destruct Hin as [Hin|Hin]; [inversion Hin; reflexivity|]).
    contradiction. }
  split; [exact H|].
  exact (graph_recipe_time_is_sum_of_unflagged posix (targets two_processes) H).
Defined.

Example two_processes_recipe_time :
  TargetDiGraph_elapsed_recipe posix (targets two_processes) = Ok 7000000%Z.
Proof. vm_compute. reflexivity. Qed.

(** ** The Summary report *)

Lemma BuildDiGraph_jobs_first :
  forall G j G1,
    BuildDiGraph_jobs G = Ok (j, G1) ->
    exists e, entry_read e G1 /\ targets G1 = targets G /\
              nx (base G1) = nx (base G) /\ BuildNode_jobs e = Ok j.
Proof.
  intros G j G1. unfold BuildDiGraph_jobs.
  destruct (entry (base G)) as [[e B]|err|] eqn:E; cbn [bind];
    try discriminate.
  destruct (BuildNode_jobs e) as [x|err|] eqn:Ex; cbn [bind];
    try discriminate.
  intros H. inversion H; subst. exists e. unfold entry_read. cbn.
  split; [eapply entry_again; eauto|]. split; [reflexivity|].
  split; [eapply entry_nx; eauto | assumption].
Qed.

Lemma entry_read_unique :
  forall e e' G, entry_read e G -> entry_read e' G -> e' = e.
Proof. unfold entry_read. intros e e' G H H'. congruence. Qed.


Definition two_processes_summary : Summary * BuildDiGraph :=
  returned ({| sum_pid := VNone; sum_total := 0%Z; sum_recipe := 0%Z;
               sum_parallel := None; sum_directory := VNone;
               sum_submake := 0; sum_targets := 0; sum_dependencies := 0;
               sum_entry := [] |}, two_processes)
    (SummaryReport_generate posix two_processes).


Example two_processes_summary_figures :
  let r := fst two_processes_summary in
  (sum_pid r, sum_total r, sum_recipe r, sum_parallel r, sum_directory r,
   sum_submake r, sum_targets r, sum_dependencies r, sum_entry r)
  = (VInt 1, 10000000%Z, 7000000%Z,
     Some (VInt 4, (7000000%Z, 10000000%Z)), VStr "/r",
     2%nat, 4%nat, 3%nat, [VStr "all"]).
Proof. vm_compute. reflexivity. Qed.

(** ** The targets the TopRecipes report lists *)

(** What [sorted(xs, key=key, reverse=True)] returns holds the items of
    [xs], each before the items whose key is not greater. *)
Lemma sorted_with_descending :
  forall {X} (key : X -> result Z) l l',
    sorted_with key true l = Ok l' ->
    StronglySorted
      (fun a b => exists ka kb, key a = Ok ka /\ key b = Ok kb /\ (kb <= ka)%Z)
      l' /\
    Permutation l' l.
Proof.
  intros X key l l'. unfold sorted_with.
  destruct (mapM _ l) as [keyed|e|] eqn:E; cbn [bind]; try discriminate.
  intros H. inversion H; subst l'. clear H.
  destruct (mapM_keyed key l keyed E) as [Hk Hm].
  unfold sorted_by_reverse.
  destruct (sorted_by_spec (fun x : Z * X => (- fst x)%Z) keyed) as [Hs Hp].
  split.
  - pose proof (Permutation_Forall (Permutation_sym Hp) Hk) as Hk'.
    clear - Hs Hk'. induction Hs as [|p s Hs IH Hall]; cbn; [constructor|].
    inversion Hk' as [|? ? Hp0 Hk0]; subst.
    constructor; [now apply IH|].
    clear IH Hs Hk'. induction Hall as [|q s Hq Hall IH2]; cbn; [constructor|].
    inversion Hk0; subst. constructor; [|now apply IH2].
    exists (fst p), (fst q). unfold key_le in Hq. repeat split; auto. lia.
  - rewrite <- Hm. now apply Permutation_map.
Qed.

Lemma target_report_recipe :
  forall P G node r G',
    target_report P G node = Ok (r, G') ->
    info_elapsed_recipe_of P node = Ok (tr_recipe r) /\
    tr_recursive r = NodeInfo_recursive node.
Proof.
  intros P G node r G'. unfold target_report.
  destruct (BuildDiGraph_elapsed P G) as [[total G0]|e|]; cbn [bind];
    try discriminate.
  destruct (TargetNodeInfo_target node) as [t|e|]; cbn [bind];
    try discriminate.
  destruct (elapsed_of P node) as [el|e|]; cbn [bind]; try discriminate.
  destruct (info_elapsed_recipe_of P node) as [rc|e|]; cbn [bind];
    try discriminate.
  destruct (Node_getattr node "directory") as [d|e|]; cbn [bind];
    try discriminate.
  destruct (relpath P G0 d) as [[dir G1]|e|]; cbn [bind]; try discriminate.
  destruct (Node_getattr node "pid") as [pid|e|]; cbn [bind];
    try discriminate.
  destruct (TargetNode_path P node) as [path|e|]; cbn [bind];
    try discriminate.
  destruct (relpath P G1 path) as [[file G2]|e|]; cbn [bind];
    try discriminate.
  destruct (Node_getattr node "line") as [line|e|]; cbn [bind];
    try discriminate.
  intros H. inversion H; subst. cbn. auto.
Qed.

(** X13.  When the TopRecipes report is produced, it lists
    [max_entries] targets, or all that are not recursive when they are
    fewer; none of the listed targets has a true [recursive] attribute;
    and they come by falling recipe time. *)
Theorem TopRecipesReport_lists_heaviest_recipes :
  forall P max_entries G r G',
    TopRecipesReport_generate P max_entries G = Ok (r, G') ->
    List.length (top_targets r)
    = Nat.min max_entries
        (List.length
           (filter not_recursive (map snd (dg_nodes (nx (targets G)))))) /\
    Forall (fun t => truthy (tr_recursive t) = false) (top_targets r) /\
    StronglySorted
      (fun a b => exists ra rb,
           tr_recipe a = PDelta ra /\ tr_recipe b = PDelta rb /\
           (rb <= ra)%Z)
      (top_targets r).
Proof.
  intros P max_entries G r G'. unfold TopRecipesReport_generate.
  destruct (BuildDiGraph_elapsed P G) as [[total G0]|e|] eqn:E0; cbn [bind];
    try discriminate.
  rewrite (BuildDiGraph_elapsed_targets _ _ _ _ E0).
  fold not_recursive.
  change (fun d : Node => negb (truthy (Node_get d "recursive" (VBool false))))
    with not_recursive.
  set (infos := filter not_recursive (map snd (dg_nodes (nx (targets G))))).
  destruct (sorted_with _ true infos) as [ordered|e|] eqn:Es; cbn [bind];
    try discriminate.
  destruct (sum_timedelta (elapsed_of P) ordered) as [total_recipe|e|];
    cbn [bind]; try discriminate.
  destruct (BuildDiGraph_jobs G0) as [[jobs G1]|e|]; cbn [bind];
    try discriminate.
  match goal with
  | |- context [bind ?c _] => destruct c as [[parallel G2]|e|]
  end; cbn [bind]; try discriminate.
  match goal with
  | |- context [foldM ?b ?l ?s] =>
      destruct (foldM b l s) as [[nodes G3]|e|] eqn:Ef
  end; cbn [bind]; try discriminate.
  intros H. inversion H; subst. clear H. cbn [top_targets].
  destruct (sorted_with_descending _ _ _ Es) as [Hsorted Hperm].
  match type of Ef with
  | foldM ?b _ _ = _ =>
      assert (Hbody : forall acc s x,
                b (acc, s) x
                = ('(y, s') <- target_report P s x ;; Ok (acc ++ [y], s')))
  end.
  { intros acc s x. cbn beta iota.
    destruct (target_report P s x) as [[t g]|err|]; reflexivity. }
  destruct (foldM_collect (target_report P) _ Hbody _ _ _ _ _ Ef)
    as (ys & -> & Hall).
  cbn [app].
  assert (Hshape : Forall2 (fun node t =>
                              info_elapsed_recipe_of P node
                              = Ok (tr_recipe t) /\
                              tr_recursive t = NodeInfo_recursive node)
                           (firstn max_entries ordered) ys).
  { eapply Forall2_impl; [|exact Hall]. cbn beta.
    intros x y (s1 & s2 & Hs). eapply target_report_recipe; eauto. }
  split; [|split].
  - rewrite <- (Forall2_length Hshape), length_firstn.
    now rewrite (Permutation_length Hperm).
  - assert (Hnr : Forall (fun node => not_recursive node = true)
                         (firstn max_entries ordered)).
    { apply Forall_forall. intros x Hx. apply In_firstn in Hx.
      apply (Permutation_in _ Hperm) in Hx. unfold infos in Hx.
      apply filter_In in Hx. apply Hx. }
    clear - Hshape Hnr. induction Hshape; constructor.
    + inversion Hnr; subst. destruct H as [_ ->].
      unfold not_recursive, NodeInfo_recursive in *.
      now apply negb_true_iff.
    + inversion Hnr; subst. auto.
  - apply (StronglySorted_Forall2 _ _ _ _ _ Hshape
             (StronglySorted_firstn _ max_entries _ Hsorted)).
    intros x1 x2 y1 y2 (k1 & k2 & H1 & H2 & Hle) [E1 _] [E2 _].
    rewrite E1 in H1. rewrite E2 in H2. cbn [bind] in H1, H2.
    destruct (tr_recipe y1) as [|d1]; cbn in H1; try discriminate.
    destruct (tr_recipe y2) as [|d2]; cbn in H2; try discriminate.
    inversion H1; inversion H2; subst. exists k1, k2. auto.
Qed.

Definition two_processes_top : TopRecipes * BuildDiGraph :=
  returned ({| top_total := 0%Z; top_recipe := 0%Z; top_parallel := None;
               top_targets := [] |}, two_processes)
    (TopRecipesReport_generate posix 2 two_processes).

Lemma TopRecipesReport_lists_heaviest_recipes_witness :
  TopRecipesReport_generate posix 2 two_processes
  = Ok (fst two_processes_top, snd two_processes_top) /\
  List.length (top_targets (fst two_processes_top))
  = Nat.min 2
      (List.length
         (filter not_recursive
                 (map snd (dg_nodes (nx (targets two_processes)))))) /\
  Forall (fun t => truthy (tr_recursive t) = false)
         (top_targets (fst two_processes_top)) /\
  StronglySorted
    (fun a b => exists ra rb,
         tr_recipe a = PDelta ra /\ tr_recipe b = PDelta rb /\ (rb <= ra)%Z)
    (top_targets (fst two_processes_top)).
Proof.
  assert (H : TopRecipesReport_generate posix 2 two_processes
              = Ok (fst two_processes_top, snd two_processes_top))
    by (vm_compute; reflexivity).
  split; [exact H|].
  exact (TopRecipesReport_lists_heaviest_recipes posix 2 two_processes _ _ H).
Defined.

Example two_processes_top_listed :
  map (fun t => (tr_target t, tr_pid t, tr_recipe t))
      (top_targets (fst two_processes_top))
  = [(VStr "lib", VInt 1, PDelta 3000000%Z);
     (VStr "all", VInt 2, PDelta 3000000%Z)].
Proof. vm_compute. reflexivity. Qed.

(** ** What [find_target] returns *)






Definition all_found : list string * BuildDiGraph :=
  returned ([], two_processes)
    (find_target posix two_processes (VStr "all") VNone VNone).


Example targets_named_all : fst all_found = ["2:all"; "1:all"].
Proof. vm_compute. reflexivity. Qed.

(** ** The parent target of a sub-make *)

Lemma has_edge_modify_node :
  forall {A} (G : DiGraph A) k f u v,
    has_edge (modify_node k f G) u v = has_edge G u v.
Proof. reflexivity. Qed.

(** The loop of [add_parent_edges] over the entry targets of the child:
    it returns, and then the parent target is flagged and has an edge to
    each of them. *)
Lemma parent_edges_loop :
  forall pkey entries G,
    exists G',
      foldM (fun G entry =>
               MG_node_setitem pkey "recursive" (VBool true)
                 (MG_add_edge pkey entry G))
            entries G = Ok G' /\
      (forall u v, has_edge (nx G) u v = true -> has_edge (nx G') u v = true) /\
      (forall x, In x entries -> has_edge (nx G') pkey x = true) /\
      (entries <> [] ->
       exists n, get_node (nx G') pkey = Ok n /\
                 dict_get "recursive" (attrib n) = Some (VBool true)).
Proof.
  intros pkey entries. induction entries as [|en entries IH]; intros G.
  - exists G. cbn. split; [reflexivity|]. split; [auto|].
    split; [intros x []|congruence].
  - cbn [foldM]. unfold MG_node_setitem at 1.
    assert (Hnode : has_node (nx (MG_add_edge pkey en G)) pkey = true).
    { cbn. rewrite has_node_add_edge, String.eqb_refl.
      now rewrite orb_true_r. }
    apply has_node_assoc in Hnode. destruct Hnode as [n0 Hn0].
    unfold get_node at 1. rewrite Hn0. cbn [bind].
    set (G1 := set_nx (modify_node pkey
                         (fun n => Node_setitem n "recursive" (VBool true))
                         (nx (MG_add_edge pkey en G)))
                      (MG_add_edge pkey en G)).
    destruct (IH G1) as (G' & Hf & Hedges & Hent & Hflag).
    exists G'. split; [exact Hf|].
    assert (Hstep : forall u v, has_edge (nx G) u v = true ->
                                has_edge (nx G1) u v = true).
    { intros u v Huv. unfold G1. cbn [nx set_nx MG_add_edge].
      rewrite has_edge_modify_node, has_edge_add_edge. now rewrite Huv. }
    split; [intros u v Huv; apply Hedges; now apply Hstep|].
    split.
    + intros x [<-|Hx]; [|now apply Hent].
      apply Hedges. unfold G1. cbn [nx set_nx MG_add_edge].
      rewrite has_edge_modify_node, has_edge_add_edge.
      unfold edge_eqb. cbn. rewrite !String.eqb_refl. apply orb_true_r.
    + intros _. destruct entries as [|en2 entries].
      * cbn in Hf. inversion Hf; subst G'.
        eexists. unfold get_node, G1. cbn [nx set_nx].
        unfold modify_node. cbn [dg_nodes]. rewrite assoc_modify_same.
        rewrite Hn0. cbn [option_map].
        split; [reflexivity|].
        rewrite Node_setitem_attrib. apply dict_get_set_same.
      * apply Hflag. discriminate.
Qed.

(** X15.  [add_parent_edges] always returns when the parent reference
    has a [pid] and a [target] and the entry targets of the child can be
    read.  The parent target then has an edge to every entry target of
    the child; and, when there is at least one, its [recursive]
    attribute is [True], so that its recipe time reads zero through the
    Info view. *)
Theorem add_parent_edges_flags_parent :
  forall P G build parent pid name entries,
    node_attr_dict_factory G = TargetNodeC ->
    py_getitem parent "pid" = Ok pid ->
    py_getitem parent "target" = Ok name ->
    BuildNode_entry P build = Ok entries ->
    let pkey := (format P pid ++ ":" ++ format P name)%string in
    exists G',
      add_parent_edges P G build parent = Ok G' /\
      (forall x, In x entries -> has_edge (nx G') pkey x = true) /\
      (entries <> [] ->
       exists n, get_node (nx G') pkey = Ok n /\
                 dict_get "recursive" (attrib n) = Some (VBool true) /\
                 info_elapsed_recipe_of P n = Ok (PDelta 0%Z)).
Proof.
  intros P G build parent pid name entries Hfac Hpid Hname Hent pkey.
  unfold add_parent_edges. rewrite Hpid, Hname. cbn [bind].
  unfold MG_nodekey. rewrite Hfac. cbn [class_nodekey].
  unfold TargetNode_nodekey. cbn [dict_getitem dict_get String.eqb bind].
  change (dict_getitem "pid" [("pid", pid); ("name", name)]) with (Ok pid).
  cbn [bind].
  change (dict_getitem "name" [("pid", pid); ("name", name)]) with (Ok name).
  cbn [bind]. fold pkey. rewrite Hent. cbn [bind].
  destruct (parent_edges_loop pkey entries G) as (G' & Hf & _ & Hedges & Hflag).
  exists G'. split; [exact Hf|]. split; [exact Hedges|].
  intros Hne. destruct (Hflag Hne) as (n & Hn & Hrec).
  exists n. split; [exact Hn|]. split; [exact Hrec|].
  unfold info_elapsed_recipe_of, NodeInfo_elapsed_recipe, Node_getattr.
  change ("recursive" =? "__getstate__") with false.
  change ("recursive" =? "__setstate__") with false. cbn [orb].
  rewrite Hrec. reflexivity.
Qed.

Definition sub_process : Node :=
  Node_update (Node_init BuildNodeC)
    [("pid", VInt 2); ("directory", VStr "/r/sub");
     ("entry", VList [VStr "all"; VStr "install"])].

Lemma add_parent_edges_flags_parent_witness :
  node_attr_dict_factory lib_added = TargetNodeC /\
  py_getitem (VDict [("pid", VInt 1); ("target", VStr "lib")]) "pid"
  = Ok (VInt 1) /\
  py_getitem (VDict [("pid", VInt 1); ("target", VStr "lib")]) "target"
  = Ok (VStr "lib") /\
  BuildNode_entry posix sub_process = Ok ["2:all"; "2:install"] /\
  exists G',
    add_parent_edges posix lib_added sub_process
      (VDict [("pid", VInt 1); ("target", VStr "lib")]) = Ok G' /\
    (forall x, In x ["2:all"; "2:install"] ->
               has_edge (nx G') "1:lib" x = true) /\
    (["2:all"; "2:install"] <> [] ->
     exists n, get_node (nx G') "1:lib" = Ok n /\
               dict_get "recursive" (attrib n) = Some (VBool true) /\
               info_elapsed_recipe_of posix n = Ok (PDelta 0%Z)).
Proof.
  split; [reflexivity|]. split; [reflexivity|]. split; [reflexivity|].
  split; [reflexivity|].
  exact (add_parent_edges_flags_parent posix lib_added sub_process
           (VDict [("pid", VInt 1); ("target", VStr "lib")])
           (VInt 1) (VStr "lib") ["2:all"; "2:install"]
           eq_refl eq_refl eq_refl eq_refl).
Defined.

(** ** Paths that do not exist *)

(** The search yields nothing when no node that can be reached from the
    heads it starts with is a target. *)
Lemma explore_paths_nothing :
  forall {A} (G : DiGraph A) targets room path nexts,
    (forall x v, In x nexts ->
       clos_refl_trans string (edge G) x v -> mem v targets = false) ->
    explore_paths room G targets path nexts = [].
Proof.
  intros A G targets. induction room as [|room IH]; intros path nexts H.
  - cbn [explore_paths]. induction nexts as [|x nexts IHn]; [reflexivity|].
    cbn [flat_map]. rewrite IHn by (intros; eapply H; eauto; now right).
    destruct (mem x path); [reflexivity|].
    rewrite (H x x (or_introl eq_refl) (rt_refl _ _ x)). reflexivity.
  - cbn [explore_paths]. induction nexts as [|x nexts IHn]; [reflexivity|].
    cbn [flat_map]. rewrite IHn by (intros; eapply H; eauto; now right).
    destruct (mem x path); [reflexivity|].
    rewrite (H x x (or_introl eq_refl) (rt_refl _ _ x)). cbn [app].
    destruct (set_minus targets (path ++ [x])); [reflexivity|].
    rewrite IH; [reflexivity|].
    intros y v Hy Hyv. apply (H x v (or_introl eq_refl)).
    eapply rt_trans; [|exact Hyv]. apply rt_step. now apply succ_list_In.
Qed.

(** The nodes a waypoint stands for in [all_simple_paths]: itself, or,
    when it is no node of the graph, its characters. *)
Definition waypoint_targets {A} (G : DiGraph A) (waypoint : string)
  : list string :=
  if has_node G waypoint then [waypoint]
  else map (fun c => String c EmptyString) (list_ascii_of_string waypoint).

Lemma all_simple_paths_nothing :
  forall {A} (G : DiGraph A) source waypoint,
    has_node G source = true ->
    (forall t, In t (waypoint_targets G waypoint) ->
               ~ clos_refl_trans string (edge G) source t) ->
    all_simple_paths G source waypoint = ([], Ok tt).
Proof.
  intros A G source waypoint Hs Hno. unfold all_simple_paths.
  rewrite Hs. cbn [negb]. fold (waypoint_targets G waypoint).
  destruct (waypoint_targets G waypoint) as [|t ts] eqn:E; [reflexivity|].
  rewrite explore_paths_nothing; [reflexivity|].
  intros x v [<-|[]] Hxv. apply mem_false_not_In. intros Hin.
  now apply (Hno v Hin).
Qed.

(** X16.  When no entry target leads to the first waypoint (or to what
    stands for it when it is no node), [find_path] raises
    [DepChainNotFoundError] with the arguments "Unable to find path to
    %s" and the waypoint. *)
Theorem find_path_to_unreachable_waypoint :
  forall P fuel G first others entries G1,
    entry_targets P G = Ok (entries, G1) ->
    (forall e, In e entries -> has_node (nx (targets G)) e = true) ->
    (forall e t, In e entries ->
       In t (waypoint_targets (nx (targets G)) first) ->
       ~ clos_refl_trans string (edge (nx (targets G))) e t) ->
    find_path P fuel G (first :: others)
    = Raise (DepChainNotFoundError ["Unable to find path to %s"; first]).
Proof.
  intros P fuel G first others entries G1 He Hnodes Hno.
  unfold find_path. rewrite He. cbn [bind].
  assert (HT : targets G1 = targets G).
  { unfold entry_targets in He.
    destruct (entry (base G)) as [[e B]|err|]; cbn [bind] in He;
      try discriminate.
    destruct (BuildNode_entry P e); cbn [bind] in He; try discriminate.
    inversion He; reflexivity. }
  rewrite HT.
  assert (Hloop :
    foldM (fun path e =>
             for_generated (pick_first_hop P G1)
               (all_simple_paths (nx (targets G)) e first) path)
          entries None = Ok None).
  { clear He. induction entries as [|e entries IH]; [reflexivity|].
    cbn [foldM].
    rewrite all_simple_paths_nothing.
    - unfold for_generated. cbn [fst snd foldM bind].
      apply IH; intros; [apply Hnodes | eapply Hno]; eauto; now right.
    - apply Hnodes. now left.
    - intros t Ht. apply Hno; [now left | exact Ht]. }
  rewrite Hloop. reflexivity.
Qed.

(** From a node without successors only the node itself is reached. *)
Lemma reach_from_leaf :
  forall {A} (G : DiGraph A) u v,
    succ_list G u = [] -> clos_refl_trans string (edge G) u v -> v = u.
Proof.
  intros A G u v Hleaf H. apply clos_rt_rt1n in H.
  destruct H as [|y z Huy _]; [reflexivity|].
  apply succ_list_In in Huy. rewrite Hleaf in Huy. contradiction.
Qed.

Definition child_entries : list string * BuildDiGraph :=
  returned ([], child_graph) (entry_targets posix child_graph).

Lemma find_path_to_unreachable_waypoint_witness :
  entry_targets posix child_graph
  = Ok (fst child_entries, snd child_entries) /\
  (forall e, In e (fst child_entries) ->
             has_node (nx (targets child_graph)) e = true) /\
  (forall e t, In e (fst child_entries) ->
     In t (waypoint_targets (nx (targets child_graph)) "1:sub") ->
     ~ clos_refl_trans string (edge (nx (targets child_graph))) e t) /\
  find_path posix 5 child_graph ["1:sub"]
  = Raise (DepChainNotFoundError ["Unable to find path to %s"; "1:sub"]).
Proof.
  assert (H : entry_targets posix child_graph
              = Ok (fst child_entries, snd child_entries))
    by (vm_compute; reflexivity).
  assert (Hnodes : forall e, In e (fst child_entries) ->
                             has_node (nx (targets child_graph)) e = true).
  { intros e He. vm_compute in He. destruct He as [<-|[]].
    vm_compute. reflexivity. }
  assert (Hno : forall e t, In e (fst child_entries) ->
            In t (waypoint_targets (nx (targets child_graph)) "1:sub") ->
            ~ clos_refl_trans string (edge (nx (targets child_graph))) e t).
  { intros e t He Ht. vm_compute in He. destruct He as [<-|[]].
    vm_compute in Ht. destruct Ht as [<-|[]].
    intros Hr. apply reach_from_leaf in Hr; [discriminate|].
    vm_compute. reflexivity. }
  split; [exact H|]. split; [exact Hnodes|]. split; [exact Hno|].
  exact (find_path_to_unreachable_waypoint posix 5 child_graph "1:sub" []
           _ _ H Hnodes Hno).
Defined.

(** ** The path without waypoints *)

(** From a node of an acyclic target graph the walk along heaviest
    children returns, with the reduction memoised. *)
Lemma heaviest_walk_from_node :
  forall P G s,
    target_graph_ok P G -> acyclic (nx G) -> elapsed_readable P G ->
    In s (node_keys (nx G)) ->
    exists path,
      (forall fuel, (number_of_nodes (nx G) <= fuel)%nat ->
         heaviest_path_loop P fuel G (Some s)
         = Ok (s :: path, set__reduced (Some (reduction P (nx G))) G)) /\
      heaviest_chain P G (reduction P (nx G)) (s :: path).
Proof.
  intros P G s (Hwf & Htruthy & Hkeyed & Hrco & Heco) Hac Hread Hs.
  set (r := reduction P (nx G)).
  assert (Htr : transitive_reduction P (nx G) = Ok r)
    by now apply transitive_reduction_of_acyclic.
  assert (Hred0 : reduced P G = Ok (r, set__reduced (Some r) G))
    by now apply reduced_of_coherent.
  destruct (heaviest_path_loop_ok P G Hwf Hac Htruthy Hread
              (set__reduced (Some r) G)
              (reduced_memoised P (set__reduced (Some r) G) r eq_refl) eq_refl
              (number_of_nodes (nx G)) G [] s Hred0 Hs)
    as (path & Hp & Hchain).
  { constructor. }
  { intros x []. }
  { intros x []. }
  { unfold number_of_nodes, node_keys. rewrite length_map. cbn. lia. }
  exists path. split; [|exact Hchain].
  intros fuel Hfuel.
  now apply (heaviest_path_loop_fuel P (number_of_nodes (nx G)) fuel).
Qed.

(** X17.  With no waypoints, on a build whose target graph is acyclic
    and whose entry targets are nodes of it, [find_path] returns the
    walk along heaviest children that starts at the entry target of
    greatest elapsed time.  The walk is in the transitive reduction,
    which has an edge from [u] to [v] exactly when the target graph has
    one and no successor of [u] reaches [v]. *)
Theorem find_path_without_waypoints :
  forall P G entries G1,
    target_graph_ok P (targets G) -> acyclic (nx (targets G)) ->
    elapsed_readable P (targets G) ->
    entry_targets P G = Ok (entries, G1) ->
    entries <> [] ->
    (forall x, In x entries -> In x (node_keys (nx (targets G)))) ->
    exists start elapsed path G',
      (forall fuel, (number_of_nodes (nx (targets G)) <= fuel)%nat ->
         find_path P fuel G [] = Ok (start :: path, G')) /\
      In start entries /\
      info_elapsed P G start = Ok elapsed /\
      (forall w ew, In w entries -> info_elapsed P G w = Ok ew ->
                    (ew <= elapsed)%Z) /\
      heaviest_chain P (targets G) (reduction P (nx (targets G)))
                     (start :: path) /\
      (forall u v,
         In v (succ_list (reduction P (nx (targets G))) u)
         <-> reduced_edge (nx (targets G)) u v).
Proof.
  intros P G entries G1 Hok Hac Hread He Hne Hin.
  assert (HT : targets G1 = targets G).
  { unfold entry_targets in He.
    destruct (entry (base G)) as [[e B]|err|]; cbn [bind] in He;
      try discriminate.
    destruct (BuildNode_entry P e); cbn [bind] in He; try discriminate.
    inversion He; reflexivity. }
  assert (Hkey : forall x, info_elapsed P G1 x = info_elapsed P G x).
  { intros x. unfold info_elapsed. now rewrite HT. }
  pose proof (max_by_key_spec (info_elapsed P G1) entries) as Hmax.
  destruct entries as [|e0 entries]; [congruence|].
  destruct Hmax as (y & ky & Hm & Hy & Hky & Hle).
  { intros x Hx. rewrite Hkey. apply Hread. now apply Hin. }
  destruct (heaviest_walk_from_node P (targets G) y Hok Hac Hread (Hin y Hy))
    as (path & Hp & Hchain).
  exists y, ky, path.
  eexists.
  split; [|split; [exact Hy|split; [now rewrite <- Hkey|split; [|split]]]].
  - intros fuel Hfuel. unfold find_path. rewrite He. cbn [bind].
    rewrite Hm. cbn [bind]. unfold heaviest_path. rewrite HT.
    rewrite (Hp fuel Hfuel). cbn [bind]. reflexivity.
  - intros w ew Hw Hew. apply (Hle w ew Hw). now rewrite Hkey.
  - exact Hchain.
  - intros u v. apply reduction_succ_spec; [apply Hok | exact Hac].
Qed.

Definition shortcut_entries : list string * BuildDiGraph :=
  match entry_targets posix shortcut_graph with
  | Ok x => x
  | _ => ([], shortcut_graph)
  end.

Lemma find_path_without_waypoints_witness :
  target_graph_ok posix (targets shortcut_graph) /\
  acyclic (nx (targets shortcut_graph)) /\
  elapsed_readable posix (targets shortcut_graph) /\
  entry_targets posix shortcut_graph
  = Ok (fst shortcut_entries, snd shortcut_entries) /\
  fst shortcut_entries <> [] /\
  (forall x, In x (fst shortcut_entries) ->
             In x (node_keys (nx (targets shortcut_graph)))) /\
  exists start elapsed path G',
    (forall fuel,
       (number_of_nodes (nx (targets shortcut_graph)) <= fuel)%nat ->
       find_path posix fuel shortcut_graph [] = Ok (start :: path, G')) /\
    In start (fst shortcut_entries) /\
    info_elapsed posix shortcut_graph start = Ok elapsed /\
    (forall w ew, In w (fst shortcut_entries) ->
       info_elapsed posix shortcut_graph w = Ok ew -> (ew <= elapsed)%Z) /\
    heaviest_chain posix (targets shortcut_graph)
      (reduction posix (nx (targets shortcut_graph))) (start :: path) /\
    (forall u v,
       In v (succ_list (reduction posix (nx (targets shortcut_graph))) u)
       <-> reduced_edge (nx (targets shortcut_graph)) u v).
Proof.
  assert (He : entry_targets posix shortcut_graph
               = Ok (fst shortcut_entries, snd shortcut_entries))
    by (vm_compute; reflexivity).
  assert (Hne : fst shortcut_entries <> []) by (vm_compute; discriminate).
  assert (Hin : forall x, In x (fst shortcut_entries) ->
                          In x (node_keys (nx (targets shortcut_graph)))).
  { intros x Hx. vm_compute in Hx. destruct Hx as [<-|[]].
    vm_compute. auto. }
  split; [exact shortcut_targets_ok|].
  split; [exact shortcut_targets_acyclic|].
  split; [exact shortcut_targets_readable|].
  split; [exact He|]. split; [exact Hne|]. split; [exact Hin|].
  exact (find_path_without_waypoints posix shortcut_graph _ _
           shortcut_targets_ok shortcut_targets_acyclic
           shortcut_targets_readable He Hne Hin).
Defined.

Example shortcut_heaviest_path :
  (x <- find_path posix 3 shortcut_graph [] ;; Ok (fst x))
  = Ok ["1:a"; "1:b"; "1:c"].
Proof. vm_compute. reflexivity. Qed.

Example two_processes_heaviest_path :
  (x <- find_path posix 4 two_processes [] ;; Ok (fst x))
  = Ok ["1:all"; "1:lib"].
Proof. vm_compute. reflexivity. Qed.

(** ** The entry process of an ingested record *)

Lemma first_valid_only :
  forall G order k n,
    In k order ->
    get_node (nx G) k = Ok n -> Node_valid n = true ->
    (forall x, In x order -> x <> k ->
       exists m, get_node (nx G) x = Ok m /\ Node_valid m = false) ->
    first_valid G order = Ok (Some k).
Proof.
  intros G order k n. induction order as [|x order IH]; intros Hin Hn Hv Hothers;
    [contradiction|].
  cbn [first_valid]. destruct (String.eqb x k) eqn:E.
  - apply String.eqb_eq in E. subst x. rewrite Hn. cbn [bind].
    now rewrite Hv.
  - apply String.eqb_neq in E.
    destruct (Hothers x (or_introl eq_refl) E) as (m & Hm & Hmv).
    rewrite Hm. cbn [bind]. rewrite Hmv. apply IH; auto.
    + destruct Hin as [->|Hin]; [congruence | exact Hin].
    + intros y Hy. apply Hothers. now right.
Qed.

(** On an acyclic graph whose only valid node is [k], [entry] returns
    that node. *)
Lemma entry_of_only_valid_node :
  forall G k n,
    wf_graph (nx G) -> acyclic (nx G) -> _entry G = None ->
    get_node (nx G) k = Ok n -> Node_valid n = true ->
    (forall x m, x <> k -> get_node (nx G) x = Ok m -> Node_valid m = false) ->
    entry G = Ok (n, set__entry (Some k) G).
Proof.
  intros G k n Hwf Hac Hnone Hn Hv Hothers.
  apply entry_first_valid; [exact Hnone| |exact Hn].
  pose proof (topological_sort_of_acyclic (nx G) Hwf Hac) as Hfin.
  destruct (topological_sort (nx G)) as [order fin] eqn:E. cbn in Hfin.
  subst fin. cbn [fst].
  destruct (topological_sort_sound (nx G) Hwf order E) as (_ & Hcov & _).
  apply (first_valid_only G order k n); auto.
  - apply Hcov. unfold node_keys. apply assoc_In. exists n.
    now apply get_node_assoc.
  - intros x Hx Hne. apply Hcov in Hx. unfold node_keys in Hx.
    apply assoc_In in Hx. destruct Hx as [m Hm].
    exists m. apply get_node_assoc in Hm. split; [exact Hm|].
    eapply Hothers; eauto.
Qed.

(** The process graph [from_build] makes of one record: the node of the
    record, and the placeholder of its parent if it names one. *)
Lemma from_build_base :
  forall P build G,
    from_build P build = Ok G ->
    let build' := snd (dict_pop "targets" (VList []) build) in
    exists key n,
      BuildNode_nodekey P build' = Ok key /\
      n = Node_update (Node_init BuildNodeC) build' /\
      _entry (base G) = None /\ _reduced (base G) = None /\
      ((dict_contains "parent" build' = false /\
        nx (base G) = {| dg_nodes := [(key, n)]; dg_edges := [] |}) \/
       (exists parent pd pkey,
          dict_get "parent" build' = Some parent /\ as_dict parent = Ok pd /\
          BuildNode_nodekey P pd = Ok pkey /\
          nx (base G)
          = add_edge (Node_init BuildNodeC) pkey key
              {| dg_nodes := [(key, n)]; dg_edges := [] |})).
Proof.
  intros P build G. unfold from_build, add_nodes_from_build.
  destruct (dict_pop "targets" (VList []) build) as [tv b]. cbn [snd fst].
  unfold MG_nodekey. cbn [base BuildDiGraph_init node_attr_dict_factory
    set__entry MakeGrindDiGraph_init MakeGrindDiGraph_clear set__reduced
    class_nodekey].
  destruct (BuildNode_nodekey P b) as [key|e|] eqn:Ek; cbn [bind];
    try discriminate.
  destruct (clashes_with_add_node b); [discriminate|].
  set (n := Node_update (Node_init BuildNodeC) b).
  assert (Hnx : nx (MG_add_node key b
                      (set__entry None (MakeGrindDiGraph_init BuildNodeC)))
                = {| dg_nodes := [(key, n)]; dg_edges := [] |}).
  { cbn. unfold add_node, modify_node, ensure_node. cbn.
    rewrite String.eqb_refl. reflexivity. }
  set (B := MG_add_node key b
              (set__entry None (MakeGrindDiGraph_init BuildNodeC))) in *.
  destruct (get_node (nx B) key) as [n1|e|]; cbn [bind]; try discriminate.
  destruct (py_iter tv) as [ts|e|]; cbn [bind]; try discriminate.
  destruct (TargetDiGraph_add_nodes_from_build P _ n1 ts) as [T|e|];
    cbn [bind]; try discriminate.
  destruct (dict_contains "parent" b) eqn:Ep.
  - destruct (dict_getitem "parent" b) as [parent|e|] eqn:Eg; cbn [bind];
      try discriminate.
    destruct (as_dict parent) as [pd|e|] eqn:Ed; cbn [bind]; try discriminate.
    change (class_nodekey P _ pd) with (BuildNode_nodekey P pd).
    destruct (BuildNode_nodekey P pd) as [pkey|e|] eqn:Epk; cbn [bind];
      try discriminate.
    match goal with
    | |- context [get_node ?g key] =>
        destruct (get_node g key) as [n2|e|]
    end; cbn [bind]; try discriminate.
    destruct (add_parent_edges P T n2 parent) as [T2|e|]; cbn [bind];
      try discriminate.
    intros H. inversion H; subst. clear H. cbn [base].
    exists key, n. split; [reflexivity|]. split; [reflexivity|].
    split; [reflexivity|]. split; [reflexivity|]. right.
    exists parent, pd, pkey.
    unfold dict_getitem in Eg. destruct (dict_get "parent" b); [|discriminate].
    inversion Eg; subst. repeat split; auto.
    cbn [nx MG_add_edge set_nx]. now rewrite Hnx.
  - intros H. inversion H; subst. clear H. cbn [base].
    exists key, n. repeat split; auto.
Qed.

Lemma add_edge_to_single :
  forall {A} (fresh n : A) pkey key,
    pkey <> key ->
    add_edge fresh pkey key {| dg_nodes := [(key, n)]; dg_edges := [] |}
    = {| dg_nodes := [(key, n); (pkey, fresh)]; dg_edges := [(pkey, key)] |}.
Proof.
  intros A fresh n pkey key Hne. apply String.eqb_neq in Hne.
  unfold add_edge, ensure_node, has_node, has_edge, node_keys, mem.
  cbn [map fst existsb dg_nodes dg_edges app]. rewrite Hne. cbn [orb].
  cbn [map fst existsb dg_nodes dg_edges app]. rewrite String.eqb_refl.
  cbn [orb]. reflexivity.
Qed.

Lemma Node_getattr_In :
  forall n name v,
    dict_get name (attrib n) = Some v ->
    name <> "__getstate__" -> name <> "__setstate__" ->
    Node_getattr n name = Ok v.
Proof.
  intros n name v H H1 H2. unfold Node_getattr.
  apply String.eqb_neq in H1. apply String.eqb_neq in H2.
  rewrite H1, H2, H. reflexivity.
Qed.

(** X18.  The graph [from_build] makes of a record that has a
    [directory], and whose parent, if it names one, is another process,
    has the process of the record as its entry: [entry] returns a node
    whose attributes are those of the record, [targets] left out. *)
Theorem from_build_entry_is_the_record :
  forall P build G,
    from_build P build = Ok G ->
    NoDup (map fst build) ->
    (exists dir, dict_get "directory" build = Some dir) ->
    (forall pd ppid pid,
       dict_get "parent" build = Some (VDict pd) ->
       dict_get "pid" pd = Some ppid -> dict_get "pid" build = Some pid ->
       format P ppid <> format P pid) ->
    exists e B,
      entry (base G) = Ok (e, B) /\
      forall name, name <> "targets" ->
        dict_get name (attrib e) = dict_get name build.
Proof.
  intros P build G HG Hnd [dir Hdir] Hparent.
  destruct (from_build_base P build G HG)
    as (key & n & Hkey & Hn & Hentry & _ & Hshape).
  set (build' := snd (dict_pop "targets" (VList []) build)) in *.
  assert (Hnd' : NoDup (map fst build')) by now apply dict_pop_NoDup.
  assert (Hattr : forall name, name <> "targets" ->
                    dict_get name (attrib n) = dict_get name build).
  { intros name Hname. subst n. rewrite Node_update_attrib.
    unfold build'. rewrite <- (dict_get_pop_other build name "targets"
                                 (VList [])) by exact Hname.
    fold build'. destruct (dict_get name build') as [v|] eqn:E.
    - now apply set_all_get.
    - rewrite set_all_other; [reflexivity|].
      intros Hin. apply in_map_iff in Hin. destruct Hin as ([k v] & Hk & Hin).
      cbn in Hk. subst k. rewrite (dict_get_In _ _ _ Hnd' Hin) in E.
      discriminate. }
  assert (Hpid : exists pid, dict_get "pid" build = Some pid /\
                             key = format P pid).
  { unfold BuildNode_nodekey, dict_getitem in Hkey.
    unfold build' in Hkey. rewrite dict_get_pop_other in Hkey by discriminate.
    destruct (dict_get "pid" build) as [pid|]; cbn [bind] in Hkey;
      try discriminate.
    inversion Hkey. eauto. }
  destruct Hpid as (pid & Hpid & Hkeyeq).
  assert (Hvalid : Node_valid n = true).
  { unfold Node_valid. assert (Hc : node_cls n = BuildNodeC).
    { subst n. rewrite Node_update_cls. reflexivity. }
    rewrite Hc. cbn [required forallb]. unfold Node_hasattr.
    rewrite (Node_getattr_In n "pid" pid), (Node_getattr_In n "directory" dir);
      try discriminate; try reflexivity.
    - rewrite Hattr by discriminate. exact Hdir.
    - rewrite Hattr by discriminate. exact Hpid. }
  destruct Hshape as [[_ Hnx]|(parent & pd & pkey & Hp & Hpd & Hpk & Hnx)].
  - exists n, (set__entry (Some key) (base G)). split; [|exact Hattr].
    apply entry_of_only_valid_node; auto.
    + rewrite Hnx. unfold wf_graph. cbn. split; [|split].
      * repeat constructor. intros [].
      * constructor.
      * intros u v [].
    + rewrite Hnx. intros u Hc. apply clos_trans_tn1 in Hc.
      destruct Hc as [y H|y z H _]; destruct H.
    + rewrite Hnx. unfold get_node. cbn. now rewrite String.eqb_refl.
    + intros x m Hx. rewrite Hnx. unfold get_node. cbn.
      apply String.eqb_neq in Hx. rewrite Hx. discriminate.
  - assert (Hne : pkey <> key).
    { destruct parent as [| | | | |pd0]; cbn in Hpd; try discriminate.
      inversion Hpd; subst pd0.
      unfold BuildNode_nodekey, dict_getitem in Hpk.
      destruct (dict_get "pid" pd) as [ppid|] eqn:Epp; cbn [bind] in Hpk;
        try discriminate.
      inversion Hpk; subst pkey. rewrite Hkeyeq.
      apply (Hparent pd ppid pid); auto.
      unfold build' in Hp. rewrite dict_get_pop_other in Hp by discriminate.
      exact Hp. }
    assert (Hnx' : nx (base G)
                   = {| dg_nodes := [(key, n); (pkey, Node_init BuildNodeC)];
                        dg_edges := [(pkey, key)] |}).
    { rewrite Hnx. now apply add_edge_to_single. }
    exists n, (set__entry (Some key) (base G)). split; [|exact Hattr].
    apply entry_of_only_valid_node; auto.
    + rewrite Hnx'. unfold wf_graph. cbn. split; [|split].
      * repeat constructor; cbn; intuition congruence.
      * repeat constructor. intros [].
      * intros u v [H|[]]. injection H as <- <-. auto.
    + rewrite Hnx'.
      apply (acyclic_by_rank _ (fun x => if String.eqb x pkey then 1 else 0)).
      intros u v [H|[]]. injection H as <- <-.
      rewrite String.eqb_refl.
      assert (E : String.eqb key pkey = false)
        by (apply String.eqb_neq; congruence).
      rewrite E. lia.
    + rewrite Hnx'. unfold get_node. cbn. now rewrite String.eqb_refl.
    + intros x m Hx. rewrite Hnx'. unfold get_node. cbn.
      apply String.eqb_neq in Hx. rewrite Hx.
      destruct (String.eqb x pkey); [|discriminate].
      intros H. inversion H. reflexivity.
Qed.

Lemma from_build_entry_is_the_record_witness :
  from_build posix child_build = Ok child_graph /\
  NoDup (map fst child_build) /\
  (exists dir, dict_get "directory" child_build = Some dir) /\
  (forall pd ppid pid,
     dict_get "parent" child_build = Some (VDict pd) ->
     dict_get "pid" pd = Some ppid -> dict_get "pid" child_build = Some pid ->
     format posix ppid <> format posix pid) /\
  exists e B,
    entry (base child_graph) = Ok (e, B) /\
    forall name, name <> "targets" ->
      dict_get name (attrib e) = dict_get name child_build.
Proof.
  assert (H : from_build posix child_build = Ok child_graph)
    by (vm_compute; reflexivity).
  assert (Hnd : NoDup (map fst child_build))
    by (repeat constructor; cbn; intuition discriminate).
  assert (Hdir : exists dir, dict_get "directory" child_build = Some dir)
    by (eexists; reflexivity).
  assert (Hp : forall pd ppid pid,
            dict_get "parent" child_build = Some (VDict pd) ->
            dict_get "pid" pd = Some ppid ->
            dict_get "pid" child_build = Some pid ->
            format posix ppid <> format posix pid).
  { intros pd ppid pid H1 H2 H3. cbn in H1, H3.
    inversion H1; subst pd. cbn in H2. inversion H2; inversion H3; subst.
    discriminate. }
  split; [exact H|]. split; [exact Hnd|]. split; [exact Hdir|].
  split; [exact Hp|].
  exact (from_build_entry_is_the_record posix child_build child_graph
           H Hnd Hdir Hp).
Defined.

(** ** The target graph of an ingested record *)

(** X19.  The target graph [from_build] makes of a record, each of whose
    target records binds a key once, is well formed: a key names one
    node, an edge is stored once and joins two nodes, no key is the
    empty string, every valid node is stored under the key its own [pid]
    and [name] give, every node is a [TargetNode], and nothing is
    memoised. *)
Theorem from_build_target_graph_invariant :
  forall P build G,
    (forall ts, py_iter (fst (dict_pop "targets" (VList []) build)) = Ok ts ->
                Forall record_ok ts) ->
    from_build P build = Ok G ->
    wf_graph (nx (targets G)) /\ keys_truthy (targets G) /\
    keyed P (targets G) /\
    (forall k n, assoc k (dg_nodes (nx (targets G))) = Some n ->
                 node_cls n = TargetNodeC) /\
    _reduced (targets G) = None /\ _entry (targets G) = None.
Proof.
  intros P build G Hrec H.
  destruct (add_nodes_from_build_targets_ingesting P BuildDiGraph_init build G
              (ingesting_init P) Hrec H)
    as (Hf & Hr & He & Hwf & Ht & Hk & Hc).
  auto 10.
Qed.

Lemma from_build_target_graph_invariant_witness :
  (forall ts,
     py_iter (fst (dict_pop "targets" (VList []) gap_build)) = Ok ts ->
     Forall record_ok ts) /\
  from_build posix gap_build = Ok gap_graph /\
  wf_graph (nx (targets gap_graph)) /\ keys_truthy (targets gap_graph) /\
  keyed posix (targets gap_graph) /\
  (forall k n, assoc k (dg_nodes (nx (targets gap_graph))) = Some n ->
               node_cls n = TargetNodeC) /\
  _reduced (targets gap_graph) = None /\ _entry (targets gap_graph) = None.
Proof.
  assert (Hrec : forall ts,
            py_iter (fst (dict_pop "targets" (VList []) gap_build)) = Ok ts ->
            Forall record_ok ts).
  { intros ts Hts. cbn in Hts. inversion Hts; subst ts.
    repeat constructor; cbn; intuition discriminate. }
  assert (H : from_build posix gap_build = Ok gap_graph)
    by (vm_compute; reflexivity).
  split; [exact Hrec|]. split; [exact H|].
  exact (from_build_target_graph_invariant posix gap_build gap_graph Hrec H).
Defined.

(** ** The times of a node *)

(** X20.  After [node[k] = v], [elapsed] (and, for a target, the recipe
    time) is computed anew from the attributes as written, whatever had
    been memoised before the write. *)
Theorem Node_times_after_write :
  forall P n k v,
    elapsed_of P (Node_setitem n k v)
    = elapsed_from P (dict_set k v (attrib n)) /\
    (node_cls n = TargetNodeC ->
     elapsed_recipe_of P (Node_setitem n k v)
     = elapsed_recipe_from P (dict_set k v (attrib n))).
Proof.
  intros P n k v. split.
  - apply Node_elapsed_after_setitem.
  - apply TargetNode_elapsed_recipe_after_setitem.
Qed.

Lemma Node_times_after_write_witness :
  elapsed_of posix (Node_setitem stored_target "end" (VInt 12))
  = elapsed_from posix (dict_set "end" (VInt 12) (attrib stored_target)) /\
  elapsed_recipe_of posix (Node_setitem stored_target "end" (VInt 12))
  = elapsed_recipe_from posix
      (dict_set "end" (VInt 12) (attrib stored_target)).
Proof.
  split.
  - exact (proj1 (Node_times_after_write posix stored_target "end" (VInt 12))).
  - exact (proj2 (Node_times_after_write posix stored_target "end" (VInt 12))
             eq_refl).
Defined.

(** X21.  A node with nothing memoised whose [end] is missing or [None]
    has an elapsed time and a recipe time of zero, whatever its other
    attributes hold; and so has one whose [end] can be read but whose
    [start] (for the recipe time: whose [recipe]) is missing or
    [None]. *)
Theorem times_are_zero_without_timestamps :
  forall P n,
    _elapsed n = None -> _elapsed_recipe n = None ->
    _start n = None -> _end n = None -> _recipe n = None ->
    (dict_get_or "end" VNone (attrib n) = VNone ->
     elapsed_of P n = Ok 0%Z /\ elapsed_recipe_of P n = Ok 0%Z) /\
    (forall te, read_time P "end" (attrib n) = Ok (Some te) ->
       (dict_get_or "start" VNone (attrib n) = VNone ->
        elapsed_of P n = Ok 0%Z) /\
       (dict_get_or "recipe" VNone (attrib n) = VNone ->
        elapsed_recipe_of P n = Ok 0%Z)).
Proof.
  intros P n He Her Hs Hn Hr.
  rewrite (elapsed_of_uncached P n He Hs Hn).
  rewrite (elapsed_recipe_of_uncached P n Her Hr Hn).
  split.
  - intros H. unfold elapsed_from, elapsed_recipe_from, read_time.
    rewrite H. cbn. auto.
  - intros te Hte. unfold elapsed_from, elapsed_recipe_from. rewrite Hte.
    cbn [bind]. split; intros H; unfold read_time; rewrite H; reflexivity.
Qed.

(** A target that has only a start, and that no number. *)
Definition started_target : Node :=
  Node_setitem (Node_init TargetNodeC) "start" (VStr "soon").

Lemma times_are_zero_without_timestamps_witness :
  _elapsed started_target = None /\ _elapsed_recipe started_target = None /\
  _start started_target = None /\ _end started_target = None /\
  _recipe started_target = None /\
  dict_get_or "end" VNone (attrib started_target) = VNone /\
  elapsed_of posix started_target = Ok 0%Z /\
  elapsed_recipe_of posix started_target = Ok 0%Z.
Proof.
  do 6 (split; [reflexivity|]).
  exact (proj1 (times_are_zero_without_timestamps posix started_target
                  eq_refl eq_refl eq_refl eq_refl eq_refl) eq_refl).
Defined.

Lemma Node_elapsed_memo_stable_witness :
  Node_elapsed posix stored_target
  = Ok (9000000%Z,
        returned stored_target
          ('(_, n) <- Node_elapsed posix stored_target ;; Ok n)) /\
  Node_elapsed posix
    (returned stored_target
       ('(_, n) <- Node_elapsed posix stored_target ;; Ok n))
  = Ok (9000000%Z,
        returned stored_target
          ('(_, n) <- Node_elapsed posix stored_target ;; Ok n)) /\
  attrib (returned stored_target
            ('(_, n) <- Node_elapsed posix stored_target ;; Ok n))
  = attrib stored_target.
Proof.
  assert (H : Node_elapsed posix stored_target
              = Ok (9000000%Z,
                    returned stored_target
                      ('(_, n) <- Node_elapsed posix stored_target ;; Ok n)))
    by (vm_compute; reflexivity).
  split; [exact H|].
  exact (Node_elapsed_memo_stable posix stored_target _ _ H).
Defined.

(** ** The entry of the sample trace *)

Lemma two_processes_base_wf : wf_graph (nx (base two_processes)).
Proof.
  unfold wf_graph. vm_compute. split; [|split].
  - repeat constructor; cbn; intuition discriminate.
  - repeat constructor; cbn; intuition discriminate.
  - intros u v [H|[]]. injection H as <- <-. auto.
Qed.

Lemma two_processes_base_acyclic : acyclic (nx (base two_processes)).
Proof.
  apply (acyclic_by_rank (nx (base two_processes))
           (fun k => if String.eqb k "1" then 1 else 0)).
  intros u v H. vm_compute in H. destruct H as [H|[]].
  injection H as <- <-. vm_compute. lia.
Qed.

Definition two_processes_entry : Node * MakeGrindDiGraph :=
  returned (Node_init BuildNodeC, base two_processes)
    (entry (base two_processes)).

Lemma entry_is_first_valid_in_topological_order_witness :
  wf_graph (nx (base two_processes)) /\
  acyclic (nx (base two_processes)) /\
  _entry (base two_processes) = None /\
  entry (base two_processes)
  = Ok (fst two_processes_entry, snd two_processes_entry) /\
  exists before k after,
    fst (topological_sort (nx (base two_processes))) = before ++ k :: after /\
    (forall u v, edge (nx (base two_processes)) u v ->
       exists l1 l2, before ++ k :: after = l1 ++ v :: l2 /\ In u l1) /\
    get_node (nx (base two_processes)) k = Ok (fst two_processes_entry) /\
    Node_valid (fst two_processes_entry) = true /\
    (forall x, In x before ->
       exists m, get_node (nx (base two_processes)) x = Ok m /\
                 Node_valid m = false) /\
    snd two_processes_entry = set__entry (Some k) (base two_processes).
Proof.
  assert (H : entry (base two_processes)
              = Ok (fst two_processes_entry, snd two_processes_entry))
    by (vm_compute; reflexivity).
  split; [exact two_processes_base_wf|].
  split; [exact two_processes_base_acyclic|].
  split; [reflexivity|]. split; [exact H|].
  exact (entry_is_first_valid_in_topological_order (base two_processes) _ _
           two_processes_base_wf two_processes_base_acyclic eq_refl H).
Defined.

Lemma top_recipes_total_is_elapsed_witness :
  TopRecipesReport_generate posix 2 two_processes
  = Ok (fst two_processes_top, snd two_processes_top) /\
  exists ordered,
    Permutation ordered
      (filter (fun d => negb (truthy (Node_get d "recursive" (VBool false))))
              (map snd (dg_nodes (nx (targets two_processes))))) /\
    sum_timedelta (elapsed_of posix) ordered
    = Ok (top_recipe (fst two_processes_top)).
Proof.
  assert (H : TopRecipesReport_generate posix 2 two_processes
              = Ok (fst two_processes_top, snd two_processes_top))
    by (vm_compute; reflexivity).
  split; [exact H|].
  exact (top_recipes_total_is_elapsed posix 2 two_processes _ _ H).
Defined.

(** ** The callgrind dump *)

(** A failing step ends the writing. *)
Lemma then_write_stuck :
  forall {A B} (w : writing A) (k : A -> writing B),
    (forall a, snd w = Ok a -> returns (snd (k a)) = false) ->
    returns (snd (then_write w k)) = false.
Proof.
  intros A B [out [a|e|]] k H; unfold then_write; cbn [fst snd] in *;
    try reflexivity.
  apply H. reflexivity.
Qed.

(** A loop that writes stops at the first item on which its body raises. *)
Lemma write_each_stuck :
  forall {A} (body : A -> writing unit) xs x,
    In x xs -> returns (snd (body x)) = false ->
    returns (snd (write_each body xs)) = false.
Proof.
  intros A body xs x. induction xs as [|y xs IH]; intros Hin Hx.
  - destruct Hin.
  - cbn [write_each]. apply then_write_stuck. intros a Ha.
    destruct Hin as [->|Hin]; [|exact (IH Hin Hx)].
    rewrite Ha in Hx. discriminate Hx.
Qed.

Lemma TargetNodeInfo_file_missing :
  forall n, dict_get "file" (attrib n) = None ->
            TargetNodeInfo_file n = Raise AttributeError.
Proof.
  intros n H. unfold TargetNodeInfo_file.
  rewrite (Node_getattr_missing n "file" H). reflexivity.
Qed.

Lemma entry_attr_targets :
  forall G name v G', entry_attr G name = Ok (v, G') -> targets G' = targets G.
Proof.
  intros G name v G' H. unfold entry_attr in H.
  destruct (entry (base G)) as [[e B]| |]; cbn [bind] in H; try discriminate.
  destruct (Node_getattr e name); cbn [bind] in H; try discriminate.
  injection H as _ <-. reflexivity.
Qed.

(** X25.  [dump_callgrind] does not complete on a graph one of whose
    targets has no [file] attribute, as a dependency that no record
    describes: reading [data.file] raises [AttributeError], after the
    header and the targets before it have been written. *)
Theorem dump_callgrind_fails_on_target_without_file :
  forall P G k n,
    In (k, n) (dg_nodes (nx (targets G))) ->
    dict_get "file" (attrib n) = None ->
    returns (snd (dump_callgrind P G)) = false.
Proof.
  intros P G k n Hin Hfile. unfold dump_callgrind.
  do 2 (apply then_write_stuck; intros _ _).
  apply then_write_stuck. intros [creator G1] H1. cbn [reading snd] in H1.
  apply entry_attr_targets in H1.
  apply then_write_stuck; intros _ _.
  apply then_write_stuck. intros [argv G2] H2. cbn [reading snd] in H2.
  apply entry_attr_targets in H2.
  apply then_write_stuck; intros cmd _.
  do 6 (apply then_write_stuck; intros _ _).
  rewrite H2, H1.
  apply write_each_stuck with (x := n).
  - change n with (snd (k, n)). apply in_map. exact Hin.
  - unfold callgrind_target. apply then_write_stuck. intros a Ha.
    cbn [reading snd] in Ha.
    rewrite (TargetNodeInfo_file_missing n Hfile) in Ha. discriminate Ha.
Qed.

(** The process of [gap_build], with the two attributes the header of the
    dump shows. *)
Definition traced_build : dict :=
  ("creator", VStr "remake") :: ("argv", VList [VStr "make"; VStr "all"])
  :: gap_build.

Definition traced_graph : BuildDiGraph :=
  match from_build posix traced_build with
  | Ok G => G
  | _ => BuildDiGraph_init
  end.

Lemma dump_callgrind_fails_on_target_without_file_witness :
  In ("1:gone", Node_init TargetNodeC) (dg_nodes (nx (targets traced_graph))) /\
  dict_get "file" (attrib (Node_init TargetNodeC)) = None /\
  returns (snd (dump_callgrind posix traced_graph)) = false.
Proof.
  assert (Hin : In ("1:gone", Node_init TargetNodeC)
                   (dg_nodes (nx (targets traced_graph))))
    by (vm_compute; tauto).
  split; [exact Hin|]. split; [reflexivity|].
  exact (dump_callgrind_fails_on_target_without_file posix traced_graph
           "1:gone" (Node_init TargetNodeC) Hin eq_refl).
Defined.

(** What had been written by then: the header, the two targets that have
    a record, and the call from [all] to [lib]. *)
Example traced_graph_dump :
  String.concat "" (fst (dump_callgrind posix traced_graph)) =
  String.concat nl
    ["# callgrind format"; "version: 1"; "creator: remake"; "cmd: make all";
     "desc: Node: Targets"; "positions: line"; "event: Wt : Wall Time";
     "event: Rt : Recipe Time"; "events: Wt Rt"; "";
     "";
     "ob=/r"; "fl=Makefile"; "fn=all"; "3 10000000 1000000";
     "cob=/r"; "cfi=Makefile"; "cfn=lib"; "calls=1 3"; "3 7000000";
     ""]
  /\ snd (dump_callgrind posix traced_graph) = Raise AttributeError.
Proof. vm_compute. split; reflexivity. Qed.
